(* ===== verification/_CoqProject ===== *)
-Q . S2P
Prelude.v
Header.v
CString.v
Types.v
Scanner.v
VaList.v
Native.v
Driver.v
FDriver.v
StreamView.v
Heap.v
Alloc.v
Template.v
Render.v
ScannerRefine.v
Parse.v
Reading.v
DriverRefine.v
Desync.v
AllocFail.v
Api.v
Interleave.v
Sink.v
Contract.v
Conform.v
Printf.v
Scenarios.v
Objects.v
