(* ===== verification/Prelude.v ===== *)
(** * display.h: a verification development

    ** The program

    [src/display.h] is a single-header C library.  It prints a [printf]-like
    template in which the two-character token [{}] stands for a caller-defined
    "displayable" object.  It has three parts.

    - The _specifier scanner_, [find_format_specifiers] (display.h 176-348),
      walks the template once and returns, for every [%]-marker it accepts,
      the marker's text and the C type of the argument the marker consumes
      (the enumeration [var_type], display.h 115-155).
    - The _render drivers_, [display_vprint] (350-493) and [display_vfprint]
      (521-669), call the scanner, then walk the template a second time.  At a
      [%] that is not followed by [%] they take the next entry of the scanner's
      list, fetch one argument of the entry's type with [va_arg], and hand
      the entry's text and the argument to [printf]/[fprintf]; at [%%] they
      print one [%]; at [{}] they fetch a [display_t*] and call its
      [display_fn]/[fdisplay_fn]; everything else is copied.
    - The _wrappers_ ([display_vprintln], [display_print], [display_println]
      and their [f] variants, 495-519 and 671-695) add a newline and build the
      [va_list]; [DISPLAY_STRIP_PREFIX] (697-706) gives the eight functions
      their unprefixed names.
    - The _displayable objects_ are the caller's: a struct whose first
      member is a [display_t] (60-66) with the rendering functions and a
      pointer [self] to the struct.  The comment at the top of the header
      (5-41) has the usage example: [point_t], [display_point] and [main].

    ** The files

    - [Prelude] (this file): the result type [outcome] of every modelled C
      operation (a value, an undefined behaviour of C, or lack of fuel), its
      monad, the generic fuelled [loop] with its termination, invariant,
      reachability and fuel-monotonicity lemmas, the tactics and the hint
      database [disp].
    - [Header]: the header as the preprocessor sees it: the declarations
      under the include guard (display.h 44-111), the implementation under
      [DISPLAY_IMPLEMENTATION] (113-708), the unprefixed names under
      [DISPLAY_STRIP_PREFIX] (697-706), the draft [src/unnamed/part_000],
      and translation units and programs built from them.
    - [CString]: characters and NUL-terminated buffers as [list ascii] read by
      index, and the libc functions the scanner calls ([strchr], [isdigit],
      [strcmp], [strncpy], [strlen]), modelled from the C standard.
    - [Types]: [var_type], [format_spec_t], [format_specs_array_t] and
      [display_t] with their decidable equalities.
    - [Scanner]: [find_format_specifiers], one definition per phase of the
      marker grammar (flags, width, precision, length, conversion, type
      resolution, append), composed as the C function composes them.
    - [VaList]: the argument cursor: C argument values with their types,
      [va_arg] against the class [ArgModel] of compatible types, and the
      store the [%n] markers write to.
    - [Native]: what the drivers need of [printf] as the class [NativeFormat],
      with an executable instance for the integer, character and string
      conversions without flags.  [Printf]: the instance [c_printf], which
      has the flags, the width, the precision and the length modifier of the
      conversions [d i o u x X c s] as C11 7.21.6.1 gives them, and is
      undefined where the standard is.
    - [Driver]: [display_vprint] as a step function on the record [vstate]
      iterated by [loop], and [display_vprintln].
    - [FDriver]: [display_vfprint], [display_vfprintln], the four variadic
      entry points and the unprefixed names, and the equivalence of the
      stream driver with the stdout driver for objects that render alike on
      both.  [StreamView]: for all objects, the stream driver is the stdout
      driver on the arguments seen through their stream functions.
    - [Heap]: allocated storage: blocks at addresses, [malloc], [realloc]
      and [free] with an allocator that can fail, the cells of the array.
      [Alloc]: the scanner, the release of the array
      ([format_specs_array_t_free]) and the two drivers on that heap, with
      the failure branches of the scanner, and the [ledger] of the
      allocations of a scan, which the scanner on the heap is proved to
      follow for every outcome of the allocations.
    - [Template]: the grammar of templates as a list of items, the text of a
      template, the type-resolution policy [tag_of], and the cells a scan has
      to return.  [Render]: the meaning of a template, item by item, on a
      [world] of arguments, sink text, slots and counters.  Both are the
      specification; neither is a translation of code.
    - [ScannerRefine]: the scanner returns the cells of the grammar.
      [Parse]: a reader of every C string built from the scanner's phases,
      and the round trip from a template to its text and back.
      [Reading]: what the scanner keeps of the reading of any C string.
      [DriverRefine]: what one iteration of the driver tests before it
      treats the text under the offset as an item ([item_at]); the drivers
      are the renderer wherever the scanner dropped nothing, and reach every
      field.
      [Desync]: the driver's own reading of any C string ([lex_item],
      [relex]: the dispatch of display.h 359-488 without its effects), which
      every call renders, and where it parts from the reader's.
      [AllocFail]: what a call does when allocations fail, on every C
      string that has a reading.
      [Api]: the interface of the header, display.h 68-110, as the class
      [DisplayApi]: the eight operations and the laws their declarations
      promise; the functions of the header as an instance, and the same
      functions on a heap whose allocator does not fail as another.
      [Interleave]: [display_vprint] on the heap one iteration at a time,
      and two calls that take their iterations in any order on one heap.
      [Sink]: the two calls when they print to one stdout.
      [Contract]: the documented behaviours, derived from the refinement.
      [Conform]: the type the switch fetches for each conversion and length
      modifier against the type [printf] expects (C11 7.21.6.1).
      [Scenarios]: the model evaluated on concrete templates, inside and
      outside the grammar.
    - [Objects]: the usage example.  Objects live in a store by address;
      [display_point] reads the point its argument addresses; [main] builds
      its object by the five assignments of the source and calls [println].
      It is a caller of the interface: what it prints is proved from the
      laws of [DisplayApi].

    ** Modelling choices

    - The grammar of the documentation is [Template.wf_template].  The code
      accepts more: the length modifiers [hl] and [lh] ([Template.length_mod]
      has them, the grammar excludes them) and the conversion [%] after
      flags or a width.  The reader [Parse.parse] reads every C string with
      the scanner's phases; a marker of its reading is _kept_ when its
      conversion passes the test of display.h 233 and _dropped_ otherwise,
      and a reading is [Reading.clean] when nothing is dropped.
    - A pointer into the template is a [nat] offset into the buffer the
      template points to.  Reading outside the buffer is [Undef OobRead]; the
      model never invents a value for such a read.  A well-formed C string is
      [cstr s = s ++ [NUL]] with no NUL in [s].
    - [strchr set c] is non-null for [c = NUL] too, as in C.  The scanner calls
      it on the character under [p] without testing for the terminator, and
      the model keeps that.
    - In [Scanner], [Driver] and [FDriver], [malloc] and [realloc] succeed
      and the cells are values.  [Alloc] has the same code on the heap of
      [Heap]: blocks at fresh addresses, an oracle that lists which of the
      next allocations fail (every allocation after its end succeeds),
      [realloc] that moves the block, and undefined behaviour for a free of
      what is not a live block, a read through null and a read of a cell
      that was never written.  What the allocations of a scan leave is a
      [Alloc.ledger]: the cells that were stored and the [Alloc.shape] of
      the array, [Sound] while no [realloc] failed, and then [Bare] (null,
      count 0), [Null] (null, count not 0) or [Holed] (first cell never
      written), as the local [count] and [specs.count] of display.h 329-338
      make it.  The two levels are related for every oracle, and agree when
      no allocation fails.
    - [int] counters are [nat]/[Z] in the model; [Driver.display_vprint_bound]
      shows that they stay below the length of the template, so an [int]
      holds them whenever [strlen] fits an [int].  The slots of [%hhn] and
      [%hn] are narrower than [int]: the store converts with
      [VaList.convert_to], which wraps round at 8 and 16 bits.  C leaves
      the result of that conversion to the implementation (C11 6.3.1.3p3);
      the wrap is the one of the two's-complement platforms, and
      [Contract.display_vprint_count_wraps] is a theorem about those.
    - A displayable object's callback is a function from its [self] pointer
      (and the stream) to a [call]: the text it writes and the [int] it
      returns, or an undefined behaviour of its own.  Callbacks write only to
      the sink they are called for, and they return: a callback has no fuel.
    - In [Objects] a function pointer stored in an object is the name of a
      function of the program ([cfun]), and the [display_t] the driver sees
      for an object pointer is the first member of the object stored there
      with the function resolved to what it does on the store.  A pointer
      passed for [{}] is null or addresses a stored object.
    - Calls that run at the same time ([Interleave]) are atomic in the
      iterations of their loops and in the release of the array: a step of
      [Interleave.call_step] is one iteration of display.h 181-345, one of
      359-488, or the call of line 490.  The calls share the heap and
      nothing else: each has its template, its cursor, its sink and its
      slots.  The allocator does not fail there (the empty oracle).  In
      [Sink] the calls share stdout too: a step runs on the text that
      stands there ([Sink.shared_step]), which is what a C library whose
      streams are locked call by call gives; an object's function is one
      step with the iteration that calls it.
    - The state of a driver, [Driver.vstate], holds what the C function
      changes: its locals [p], [spec_idx], [spec_count], [struct_count], the
      cursor [args], the text on the sink of the call, and the slots written
      through [%n] pointers (a [gmap]).
    - [printf] is a parameter: [Native.NativeFormat] gives the text written
      for a directive and one argument, and makes a directive with [*]
      undefined, because the driver passes one argument only.  The theorems
      on the drivers hold for every instance; [Printf.c_printf] reads the
      directive back from the text it is given with the reader of [Parse]
      and formats it by its parts, numerals being lists of digits produced
      with fuel (one more than the binary logarithm of the number, which
      [Printf.digits_in_ind] shows to be enough).  Which argument
      types [va_arg] may read at which type is the parameter
      [VaList.ArgModel]; [strict] and [lp64] are instances.

    ** Where the model differs from C

    - A character is a byte, 0 to 255 ([ascii]): [CString.isdigit] is total.
      On a platform whose [char] is signed, [isdigit( *p)] of display.h 202
      and 213 is undefined for a character above 127; the model has the
      platforms whose [char] is unsigned, or the call [isdigit((unsigned
      char) *p)].
    - The buffer a template points to is the string and its terminator and
      nothing more, so every read past the terminator is undefined.  In C
      the string may lie in a larger array, where such a read finds a
      character; the theorems that end in [OobRead] say that the code reads
      past the terminator, which no caller can rely on.
    - [printf], [fprintf], [putchar] and [putc] do not fail, and the text
      of a call is the text written to the sink of the call, whichever
      stream that is; the code discards their results too (display.h 365,
      464).
    - [va_start] and [va_end] are the identity on the list of arguments
      (display.h 503-519, 679-695): the variadic functions are the [v]
      functions on the arguments they were called with.
    - [realloc] always moves the block; growth in place, which C allows,
      would change the addresses and nothing the theorems say.
    - [Render.conv_action] and [Desync.lex_item] are written from the
      [switch] and from the dispatch of the driver's loop a second time, as
      what the driver is compared with.  [DriverRefine.vprint_switch_render]
      and [Desync.lex_item_at] prove that the code does the same; a mistake
      made in both transcriptions alike would pass them, and
      [Conform.fetch_conforms] checks the first against the C standard.
    - The C code has no threads.  [Interleave] and [Sink] take from the
      design notes that calls may run at the same time, and add that an
      iteration of a loop is atomic and that the heap is the same for both
      calls at every step.

    ** Fuel

    The inner loops of the scanner are structural recursions on the rest of
    the buffer and need no fuel.  The outer loop of the scanner runs under
    [loop] with fuel [length buf + 1], the loops of the drivers with
    [length buf + 2]: every iteration moves the offset forward by at least
    one and an offset past the buffer is undefined behaviour, so the fuel is
    never exhausted ([Scanner.find_format_specifiers_terminates],
    [Driver.display_vprint_terminates], [FDriver.display_vfprint_terminates]),
    and more fuel changes nothing ([Scanner.find_format_specifiers_fuel]).
    The same fuel is enough on the heap, whatever allocations fail: no cell
    a scan stores is empty, and a driver that finds an array it cannot read
    stops at its first cell ([Alloc.display_vprint_a_terminates],
    [Alloc.display_vfprint_a_terminates]).
    [Render.render] is structural on the template and total.  The reader
    [Parse.parse] runs with fuel [length buf + 1] and every item it reads
    moves its offset forward ([Parse.parse_terminates]).  [Desync.relex]
    runs with fuel [length buf + 1]: every item moves the offset forward, a
    result with the flag [false] is a reading that left the buffer, never a
    lack of fuel ([Desync.relex_fuel]).  A step of [Interleave.call_step]
    has no fuel of its own; a call takes at most [Interleave.remaining]
    steps, twice the length of its template and four at its start, so two
    calls stop under every schedule ([Interleave.interleaved_bound]).

    ** The theorems

    - The header in a project.  [Header.declarations_idempotent]: the
      guard makes a second inclusion declare nothing.
      [Header.implementation_unguarded]: it does not cover the
      implementation, so an implementing unit that gets the header twice
      does not compile.  [Header.strip_prefix_needs_implementation]: the
      unprefixed names are defined in the implementing unit only.
      [Header.one_implementation_links]: a project links exactly when one
      file defines [DISPLAY_IMPLEMENTATION].
      [Header.draft_shadows_header]: the draft declares the [display_t] of
      the header and hides the header when it comes first.
    - Every C string.  [Reading.find_format_specifiers_reads]: the scanner
      returns the cells of the kept markers of the string's reading, and is
      undefined exactly when the reader is.
      [Desync.display_vprint_own_reading]: a call renders the driver's own
      reading of the string, item by item, and ends with a read outside the
      string when that reading leaves it; the stream driver does the same
      on the stream's view of the arguments
      ([Desync.display_vfprint_own_reading]).
      [DriverRefine.display_vprint_reads]: where the scanner dropped nothing
      the call is [Render.render] on the reader's reading, undefined
      behaviours included.  [Desync.display_vprint_verbatim]: markers dropped
      after the last kept one are written as they stand.
      [Desync.display_vprint_desync]: at a marker dropped before a kept one
      the driver renders the kept one, and its reading is no longer the
      reader's.
    - Refinement.  [ScannerRefine.find_format_specifiers_refines]: on the
      text of a template of the grammar the scanner returns the cells of its
      markers.  [DriverRefine.display_vprint_refines]: on such a text
      [display_vprint] equals [Render.render], undefined behaviours included.
      [FDriver.display_vfprint_vprint]: the stream driver equals the stdout
      driver for objects that render alike on both sinks.
      [StreamView.display_vfprint_on_stream]: for all objects it equals the
      stdout driver on the stream's view of the arguments, and so
      ([DriverRefine.display_vfprint_refines]) implements the renderer.
    - Round trips.  [Parse.parse_template_text]: the text of a well-formed
      template is read back, with the scanner's phases, as that template, so
      a text has one reading ([Parse.template_text_inj]);
      [Parse.parse_text]: whatever the reader returns for a C string spells
      that string.  So [Parse.in_grammar] decides the language of the grammar
      ([Parse.in_grammar_spec]), and the refinement theorems hold of every
      string it accepts, for the template the reader computes
      ([DriverRefine.display_vprint_in_grammar]).
      [Alloc.find_format_specifiers_a_read_back]: the cells the scanner
      stores on the heap are the cells the driver reads.
    - Progress.  [DriverRefine.display_vprint_reaches]: the loop arrives at
      every item whose predecessors render, and renders it.
      [Driver.display_vprint_reaches_end]: a call that returns walked the
      template to its terminator.
    - Argument types.  [Conform.fetch_conforms]: wherever [printf] expects
      an argument of a type that is not wide, the switch fetches that type or
      the one of the other signedness; the latter exactly for the unsigned
      conversions with [hh], [h], [t] ([Conform.fetch_counterpart]); a
      different type exactly for [%ls] and [%lc] ([Conform.fetch_mismatch]);
      [Printf.display_vprint_meaningless_length]: a marker whose length
      modifier [printf] gives no meaning to is typed by the tables all the
      same, and reaches [printf] as it stands with an argument of that
      type.  [Conform.display_vprint_expected]: an
      argument of the expected type reaches [printf] under the marker's text
      on every platform.  [Conform.display_vprint_indirect]: a marker with
      an indirect width or precision reaches [printf] without the argument
      of the [*], and the call is undefined.
    - What is printed.  [Printf.display_vprint_formats]: a call on a marker
      writes what [printf] writes for the marker's flags, width, precision,
      length modifier and conversion, the directive being the marker read
      back from the text the scanner copied ([Printf.c_printf_marker]);
      [Printf.display_vprint_fills_field]: it writes at least the width;
      [Printf.display_vprint_undefined_directive]: a marker whose flags or
      precision [printf] gives no meaning to is accepted and the call is
      undefined.  [Printf.c_format_plain]: on the unadorned directives
      [Native.plain_format], the formatter the concrete calls of the other
      files are run with, writes what [Printf.c_format] writes.  Of the
      numerals: [Printf.digits_in_sound], [Printf.numeral_pretty] (the
      decimal numeral is stdpp's) and [Printf.number_numeral] (a width that
      is read is the number that was written).
    - Objects.  [Objects.display_point_prints_self]: the driver hands the
      function [self], so an object prints what its [self] addresses;
      [Objects.display_point_dangling_self]: when that is nothing, the call
      is undefined; [Objects.display_point_null_self]: a null [self] is
      skipped by the driver's own check; [Objects.main_output]: the example
      writes [Point = (2,3)] and a newline; printed with [fprintln] the same
      object is skipped, for it has no stream function
      ([Objects.main_stream_skips]).
    - Scanner, on any buffer: termination; [count] is the length of [data];
      no cell is an empty string.  On any C string: every cell is a substring
      of the template that starts with [%] and has at least two characters,
      in order and without overlap ([find_format_specifiers_laid_out]); the
      number of cells is at most half the length of the template; a template
      that ends inside a marker is read past its terminator
      ([dangling_marker_undefined]); every accepted conversion letter gets a
      type.
    - Drivers, on any buffer: termination; the value returned is the sum of
      the two counters and is below the size of the template; stdout only
      grows and the cursor only advances; the line variant adds one newline
      exactly when the call did not fail; null stream or template gives -1.
    - Interface.  [Api.display_h]: the functions of the header satisfy the
      laws of [DisplayApi]; [Api.display_h_heap]: so do the functions on a
      heap whose allocator does not fail; with an allocator that fails
      they do not, and no -1 reports it
      ([AllocFail.display_vprint_a_survivors]).
      [Api.println_renders], [Api.fprintln_renders]: what a caller has of
      every implementation.  [Objects.main_on_output]: the usage example,
      from the laws.
    - Heap.  [Alloc.find_format_specifiers_a_accounts]: for every buffer
      and every outcome of the allocations the scanner on the heap ends as
      the scanner on values does, with the heap and the array its ledger
      describes.  [Alloc.find_format_specifiers_a_refines] and
      [Alloc.display_vprint_a_refines]: when no allocation fails the
      functions on the heap end as the functions on values do, and after the
      call the heap has the blocks it had before: nothing leaks.
      [AllocFail.display_vprint_a_survivors]: a failed [malloc] is a
      dropped marker: while the array can be read, the call renders the
      driver's reading with the markers whose cells were stored, and
      releases what it allocated; the stream driver does the same
      ([AllocFail.display_vfprint_a_survivors], through
      [Alloc.display_vfprint_a_view]).
      [AllocFail.display_vprint_a_crashes]: after a failed [realloc] that
      leaves a null array with a count, or cells never written, the call
      renders the text before the first marker and reads the first cell,
      which is undefined.  [Alloc.realloc_failure_leaks]: the failed
      [realloc] leaves the old array and its strings allocated with no
      pointer to them.  [Alloc.stale_count_free]: the release reads through
      the null array too.  Concrete calls: [Alloc.realloc_failure_null_deref],
      [Alloc.realloc_failure_uninit], [Alloc.malloc_failure_desync].
    - Calls that run at the same time.  [Interleave.call_alone_run]: what
      [Alloc.display_vprint_a] returns is a run of the machine with one
      call.  [Interleave.interleaved_bound]: two calls take no more steps
      together than twice the characters of their templates and eight.
      [Interleave.call_step_ok]: a step of a call
      keeps the blocks that are not the call's, and keeps the call in step
      with the call on values.  [Interleave.interleaved_results]: in every
      state two calls reach, a call that has returned has the value and the
      state it has alone, and when both have returned the heap has the
      blocks it had.  [Interleave.interleaved_faults]: a step is undefined
      only where the call alone is.  [Interleave.fair_schedule_returns]:
      calls that are defined alone both return under every schedule that
      gives each its turns.  [Interleave.schedule_addresses],
      [Interleave.schedule_texts]: the schedule decides the addresses and
      not the texts.
    - Calls that print to one stdout.  [Sink.vprint_iter_a_rebase]: an
      iteration of the driver appends to the sink and does not read it.
      [Sink.schedule_shared_tracks]: under every schedule the calls on one
      stdout do what the calls with a sink each do, step for step, with the
      same undefined behaviours ([Sink.shared_stdout_faults]).
      [Sink.shared_stdout_merges]: calls that are defined alone return what
      they return alone, and stdout has their two texts merged, each in its
      order ([Sink.merges]); [Sink.shared_stdout_length]: no character is
      lost or added.  [Sink.stdout_torn]: the text of a call is not kept
      together.
    - [Contract]: plain text is copied and counts 0; [%%] prints one [%]; one
      marker prints what [printf] prints for it and counts 1; [{}] with an
      object that renders, that is missing, that fails, or whose function
      has undefined behaviour.  [Contract.display_vprint_count_stored]: a
      [%n] anywhere stores the number of fields rendered before it,
      converted to its slot; [Contract.display_vprint_count_wraps]: from
      the 128th field on a [signed char] slot holds that number less 256
      ([VaList.convert_to_fits] says when the conversion changes nothing).
      [Contract.display_vprint_fields]: the value returned lies between the
      number of markers and that number plus the number of [{}] fields.
    - [Scenarios]: the two documented scenarios, and what the code does
      outside the grammar: a malformed marker before a valid one shifts the
      two passes, and the shifted driver can leave the string; an indirect
      width reaches [printf] without its argument; [hl] is a length modifier;
      [%5%] is a field.

    ** Not modelled

    - The [sn] (bounded buffer) family: the header declares the callback
      field [sndisplay_fn] (display.h 63) and no function that uses it; the
      documentation describes entry points that do not exist.
    - The internals of [FILE]: a stream is an address and the text written
      to it.
    - The text [printf] writes for the floating-point conversions, for [p]
      and for the wide [lc] and [ls]: it depends on the platform and on
      floating-point arithmetic, and is a parameter of [Printf.c_printf].
    - Objects whose [display_t] is not their first member, and pointers
      passed for [{}] that address no object: both are outside what the
      cast of display.h 471 is defined for.
    - Callbacks that do not return, or that write to a sink other than the
      one of the call.
    - Calls that run at the same time while allocations fail, or that
      store counts through the same [%n] pointer, and interleavings finer
      than an iteration of a loop.  [Interleave] and [Sink] take the
      iterations as atomic; between the allocator calls of one iteration
      the blocks of a call are its own as they are between iterations, but
      the machine is not cut there.
    - Of the preprocessor [Header] has conditional inclusion and
      object-like macros, which is all the two files use. *)

From Stdlib Require Import Ascii ZArith Lia.
From stdpp Require Import base tactics option list numbers relations.

(** ** Outcomes of a modelled C operation *)

(** The undefined behaviours the modelled code can run into. *)
Inductive ub : Set :=
| OobRead      (* a read through a pointer outside the object it points into *)
| NullDeref    (* a read or write through a null pointer *)
| VaArgEnd     (* [va_arg] when no argument is left *)
| VaArgType    (* [va_arg] at a type the next argument is not compatible with *)
| BadFormat    (* [printf] with a directive and arguments that do not agree *)
| InvalidFree  (* [free] or [realloc] of a pointer that is not a live block *)
| Uninit.      (* use of an object whose value is indeterminate *)

Inductive outcome (A : Type) : Type :=
| Done (a : A)
| Undef (u : ub)
| OutOfFuel.
Arguments Done {A} a.
Arguments Undef {A} u.
Arguments OutOfFuel {A}.

#[export] Instance ub_eq_dec : EqDecision ub.
Proof. solve_decision. Defined.

#[export] Instance outcome_eq_dec `{EqDecision A} : EqDecision (outcome A).
Proof. solve_decision. Defined.

#[export] Instance outcome_ret : MRet outcome := @Done.

#[export] Instance outcome_bind : MBind outcome := λ A B f m,
  match m with
  | Done a => f a
  | Undef u => Undef u
  | OutOfFuel => OutOfFuel
  end.

#[export] Instance outcome_fmap : FMap outcome := λ A B f m,
  match m with
  | Done a => Done (f a)
  | Undef u => Undef u
  | OutOfFuel => OutOfFuel
  end.

(** [terminates m]: the fuel was enough.  [safe m]: moreover no undefined
    behaviour occurred. *)
Definition terminates {A} (m : outcome A) : Prop := m ≠ OutOfFuel.
Definition safe {A} (m : outcome A) : Prop := ∃ a, m = Done a.
Definition undefined {A} (m : outcome A) : Prop := ∃ u, m = Undef u.

(** The result of calling a function the caller supplies (an object's
    rendering function): it returns a value, or the call has an undefined
    behaviour.  Such a function is taken to return. *)
Inductive call (A : Type) : Type :=
| Returns (a : A)
| Faults (u : ub).
Arguments Returns {A} a.
Arguments Faults {A} u.

Definition of_call {A} (c : call A) : outcome A :=
  match c with
  | Returns a => Done a
  | Faults u => Undef u
  end.

Definition of_option {A} (u : ub) (o : option A) : outcome A :=
  match o with
  | Some a => Done a
  | None => Undef u
  end.

(** Two runs that end alike: with related values, with the same undefined
    behaviour, or both for lack of fuel. *)
Definition outcome_rel {A B} (Q : A → B → Prop) (m1 : outcome A) (m2 : outcome B) : Prop :=
  match m1 with
  | Done a => ∃ b, m2 = Done b ∧ Q a b
  | Undef u => m2 = Undef u
  | OutOfFuel => m2 = OutOfFuel
  end.

(** States related by [R], results by [Q]. *)
Definition sum_rel {A A' B B'} (R : A → A' → Prop) (Q : B → B' → Prop)
    (x : A + B) (y : A' + B') : Prop :=
  match x, y with
  | inl a, inl a' => R a a'
  | inr b, inr b' => Q b b'
  | _, _ => False
  end.

Declare Scope disp_scope.
Delimit Scope disp_scope with disp.
Notation "m ⇓ a" := (m = Done a) (at level 70, no associativity) : disp_scope.
Notation "m ↯ u" := (m = Undef u) (at level 70, no associativity) : disp_scope.
Open Scope disp_scope.

(** ** A fuelled loop

    [body s] runs one iteration of a C loop from state [s]: [inl s'] to go
    round again, [inr r] to leave the loop with [r].  [loop] iterates it. *)
Section Loop.
Context {St R : Type} (body : St → outcome (St + R)).

Fixpoint loop (fuel : nat) (s : St) : outcome R :=
  match fuel with
  | 0 => OutOfFuel
  | S k =>
      r ← body s;
      match r with
      | inl s' => loop k s'
      | inr r => Done r
      end
  end.

End Loop.

Create HintDb disp discriminated.
Create Rewrite HintDb disp.

(** ** Lemmas on outcomes *)

(** Closes the first-order goals about constructors of [outcome] that the
    inversion lemmas below reduce to. *)
Ltac solve_outcome :=
  intros; repeat (destruct_or? || destruct_and? ||
    match goal with H : ∃ _, _ |- _ => destruct H end);
  simplify_eq; eauto 6.

Lemma bind_Done {A B} (f : A → outcome B) (m : outcome A) (b : B) :
  m ≫= f ⇓ b ↔ ∃ a, m ⇓ a ∧ f a ⇓ b.
Proof. destruct m; simpl; split; solve_outcome. Qed.

Lemma bind_Undef {A B} (f : A → outcome B) (m : outcome A) (u : ub) :
  m ≫= f ↯ u ↔ m ↯ u ∨ ∃ a, m ⇓ a ∧ f a ↯ u.
Proof. destruct m; simpl; split; solve_outcome. Qed.

Lemma bind_OutOfFuel {A B} (f : A → outcome B) (m : outcome A) :
  m ≫= f = OutOfFuel ↔ m = OutOfFuel ∨ ∃ a, m ⇓ a ∧ f a = OutOfFuel.
Proof. destruct m; simpl; split; solve_outcome. Qed.

Lemma Done_inj {A} (a b : A) : Done a = Done b → a = b.
Proof. by intros [= ->]. Qed.

Lemma bind_Done_l {A B} (f : A → outcome B) (a : A) : Done a ≫= f = f a.
Proof. done. Qed.

Lemma fmap_Done {A B} (f : A → B) (m : outcome A) (b : B) :
  f <$> m ⇓ b ↔ ∃ a, m ⇓ a ∧ b = f a.
Proof. destruct m; simpl; split; solve_outcome. Qed.

Lemma safe_terminates {A} (m : outcome A) : safe m → terminates m.
Proof. intros [a ->]. done. Qed.

Lemma safe_not_undefined {A} (m : outcome A) : safe m → ¬ undefined m.
Proof. intros [a ->] [u ?]. done. Qed.

Lemma bind_terminates {A B} (f : A → outcome B) (m : outcome A) :
  terminates m → (∀ a, m ⇓ a → terminates (f a)) → terminates (m ≫= f).
Proof. unfold terminates. destruct m; simpl; auto. Qed.

Lemma fmap_terminates {A B} (f : A → B) (m : outcome A) :
  terminates m → terminates (f <$> m).
Proof. unfold terminates. by destruct m. Qed.

Lemma Done_terminates {A} (a : A) : terminates (Done a).
Proof. done. Qed.

Lemma Undef_terminates {A} (u : ub) : terminates (@Undef A u).
Proof. done. Qed.

Lemma of_call_terminates {A} (c : call A) : terminates (of_call c).
Proof. by destruct c. Qed.

Lemma of_call_Done {A} (c : call A) (a : A) : of_call c ⇓ a ↔ c = Returns a.
Proof. destruct c; simpl; split; congruence. Qed.

Lemma of_option_terminates {A} (u : ub) (o : option A) : terminates (of_option u o).
Proof. by destruct o. Qed.

Lemma of_option_Done {A} (u : ub) (o : option A) (a : A) :
  of_option u o ⇓ a ↔ o = Some a.
Proof. destruct o; simpl; split; solve_outcome. Qed.

#[export] Hint Rewrite @bind_Done_l : disp.
#[export] Hint Resolve safe_terminates Done_terminates Undef_terminates
  of_option_terminates of_call_terminates fmap_terminates : disp.

(** Termination of a monadic definition, bind by bind and branch by branch,
    from the hints of [disp]. *)
Ltac solve_terminates :=
  repeat first
    [ progress auto with disp
    | apply bind_terminates; [|intros ? ?]
    | match goal with
      | |- terminates (if ?b then _ else _) => destruct b
      | |- terminates (match ?x with _ => _ end) => destruct x
      | |- terminates (let '(_, _) := ?x in _) => destruct x
      end
    | progress simpl ].

(** Inversion of the equations a run of a monadic definition leaves in the
    context, and case analysis on the next bind or test of the goal. *)
Ltac outcome_inv :=
  repeat match goal with
  | H : Done _ = Done _ |- _ => injection H as H
  | H : Done _ = Undef _ |- _ => discriminate H
  | H : Done _ = OutOfFuel |- _ => discriminate H
  | H : Undef _ = Done _ |- _ => discriminate H
  | H : OutOfFuel = Done _ |- _ => discriminate H
  | H : mret _ = Done _ |- _ => injection H as H
  | H : mbind _ _ = Done _ |- _ => apply bind_Done in H as (? & ? & H)
  | H : of_option _ _ = Done _ |- _ => apply of_option_Done in H
  end; simplify_eq.

Ltac case_bind :=
  match goal with
  | |- context [mbind _ ?m] => destruct m eqn:?; simpl
  end.

Ltac case_if :=
  match goal with
  | |- context [if ?b then _ else _] => destruct b eqn:?
  | H : context [if ?b then _ else _] |- _ => destruct b eqn:?
  end.

(** ** Lemmas on [loop] *)
Section LoopFacts.
Context {St R : Type} (body : St → outcome (St + R)).
Implicit Types (s : St) (r : R) (fuel : nat).

Lemma loop_S fuel s :
  loop body (S fuel) s =
  body s ≫= λ x, match x with inl s' => loop body fuel s' | inr r => Done r end.
Proof. done. Qed.

(** More fuel does not change a result that was reached. *)
Lemma loop_fuel_mono fuel fuel' s (o : outcome R) :
  fuel ≤ fuel' → loop body fuel s = o → o ≠ OutOfFuel → loop body fuel' s = o.
Proof.
  revert fuel' s. induction fuel as [|k IH]; intros fuel' s Hle Hrun Hne.
  - simpl in Hrun. congruence.
  - destruct fuel' as [|k']; [lia|]. rewrite loop_S in *.
    destruct (body s) as [[s'|r]| |]; simpl in *; try done.
    apply IH; [lia|done..].
Qed.

(** Two runs that both have enough fuel agree. *)
Lemma loop_agree fuel fuel' s :
  terminates (loop body fuel s) → terminates (loop body fuel' s) →
  loop body fuel s = loop body fuel' s.
Proof.
  intros H H'. destruct (Nat.le_ge_cases fuel fuel').
  - symmetry. by eapply loop_fuel_mono.
  - by eapply loop_fuel_mono.
Qed.

(** The iterations as a transition relation: [loop_step s s'] when one
    iteration takes [s] to [s']. *)
Definition loop_step (s s' : St) : Prop := body s ⇓ inl s'.

Lemma loop_step_det s s1 s2 : loop_step s s1 → loop_step s s2 → s1 = s2.
Proof. unfold loop_step. congruence. Qed.

(** A run that has enough fuel can be started from any state it passes
    through. *)
Lemma loop_rtc fuel s s' :
  rtc loop_step s s' → terminates (loop body fuel s) →
  ∃ fuel', fuel' ≤ fuel ∧ loop body fuel s = loop body fuel' s'.
Proof.
  intros Hrtc. revert fuel. induction Hrtc as [s|s s1 s2 Hstep _ IH]; intros fuel Hterm.
  - by exists fuel.
  - destruct fuel as [|k]; [done|]. rewrite loop_S in *. unfold loop_step in Hstep.
    rewrite Hstep in *. simpl in *. destruct (IH k Hterm) as (fuel' & ? & ->).
    exists fuel'. split; [lia|done].
Qed.

Lemma loop_rtc_agree fuel s s' :
  rtc loop_step s s' → terminates (loop body fuel s) → terminates (loop body fuel s') →
  loop body fuel s = loop body fuel s'.
Proof.
  intros Hrtc Hs Hs'. destruct (loop_rtc fuel s s' Hrtc Hs) as (fuel' & _ & E).
  rewrite E. apply loop_agree; [|done]. by rewrite <- E.
Qed.

Lemma loop_rtc_exit fuel s s' r :
  rtc loop_step s s' → body s' ⇓ inr r → terminates (loop body fuel s) →
  loop body fuel s ⇓ r.
Proof.
  intros Hrtc Hb Hterm. destruct (loop_rtc fuel s s' Hrtc Hterm) as ([|k] & _ & E).
  - by rewrite E in Hterm.
  - by rewrite E, loop_S, Hb.
Qed.

Lemma loop_rtc_undef fuel s s' u :
  rtc loop_step s s' → body s' ↯ u → terminates (loop body fuel s) →
  loop body fuel s ↯ u.
Proof.
  intros Hrtc Hb Hterm. destruct (loop_rtc fuel s s' Hrtc Hterm) as ([|k] & _ & E).
  - by rewrite E in Hterm.
  - by rewrite E, loop_S, Hb.
Qed.

(** A finished run passed through a last state, whose iteration left the
    loop. *)
Lemma loop_Done_rtc fuel s r :
  loop body fuel s ⇓ r → ∃ s', rtc loop_step s s' ∧ body s' ⇓ inr r.
Proof.
  revert s. induction fuel as [|k IH]; intros s Hrun; [done|].
  rewrite loop_S in Hrun. apply bind_Done in Hrun as ([s1|r'] & Hb & Hk).
  - destruct (IH _ Hk) as (s' & ? & ?). exists s'. split; [by eapply rtc_l|done].
  - simplify_eq. by exists s.
Qed.

(** Termination from an invariant [I] and a measure [μ] that every
    iteration decreases. *)
Section Termination.
Context (I : St → Prop) (μ : St → nat).
Context (Hbody : ∀ s, I s → body s ≠ OutOfFuel).
Context (Hstep : ∀ s s', I s → body s ⇓ inl s' → I s' ∧ μ s' < μ s).

Lemma loop_terminates fuel s : I s → μ s < fuel → terminates (loop body fuel s).
Proof.
  unfold terminates. revert s. induction fuel as [|k IH]; intros s HI Hμ; [lia|].
  rewrite loop_S. destruct (body s) as [[s'|r]| |] eqn:Hb; simpl; try done.
  - destruct (Hstep s s' HI Hb). apply IH; [done|lia].
  - by apply Hbody in Hb.
Qed.

End Termination.

(** Partial correctness from an invariant. *)
Lemma loop_invariant (I : St → Prop) (Q : R → Prop) fuel s r :
  (∀ s s', I s → body s ⇓ inl s' → I s') →
  (∀ s r, I s → body s ⇓ inr r → Q r) →
  I s → loop body fuel s ⇓ r → Q r.
Proof.
  intros Hpres Hexit. revert s. induction fuel as [|k IH]; intros s HI Hrun; [done|].
  rewrite loop_S in Hrun. apply bind_Done in Hrun as ([s'|r'] & Hb & Hk).
  - eapply IH; [|done]. eauto.
  - simplify_eq. eauto.
Qed.

End LoopFacts.

(** ** Runs that end alike *)

Lemma outcome_rel_refl {A} (m : outcome A) : outcome_rel eq m m.
Proof. destruct m; simpl; eauto. Qed.

Lemma outcome_rel_Done {A B} (Q : A → B → Prop) a b : Q a b → outcome_rel Q (Done a) (Done b).
Proof. simpl. eauto. Qed.

Lemma outcome_rel_bind {A A' B B'} (P : A → A' → Prop) (Q : B → B' → Prop)
    (m1 : outcome A) (m2 : outcome A') (f : A → outcome B) (g : A' → outcome B') :
  outcome_rel P m1 m2 → (∀ a a', P a a' → outcome_rel Q (f a) (g a')) →
  outcome_rel Q (m1 ≫= f) (m2 ≫= g).
Proof. destruct m1; simpl; [intros (a' & -> & ?); simpl; auto|by intros ->..]. Qed.

(** The same computation first, related continuations. *)
Lemma outcome_rel_bind_eq {A B B'} (Q : B → B' → Prop)
    (m : outcome A) (f : A → outcome B) (g : A → outcome B') :
  (∀ a, m ⇓ a → outcome_rel Q (f a) (g a)) → outcome_rel Q (m ≫= f) (m ≫= g).
Proof. destruct m; simpl; auto. Qed.

Lemma outcome_rel_fmap {A A' B B'} (P : A → A' → Prop) (Q : B → B' → Prop)
    (m1 : outcome A) (m2 : outcome A') (f : A → B) (g : A' → B') :
  outcome_rel P m1 m2 → (∀ a a', P a a' → Q (f a) (g a')) →
  outcome_rel Q (f <$> m1) (g <$> m2).
Proof. destruct m1; simpl; [intros (a' & -> & ?); simpl; eauto|by intros ->..]. Qed.

Lemma outcome_rel_impl {A B} (P Q : A → B → Prop) m1 m2 :
  outcome_rel P m1 m2 → (∀ a b, P a b → Q a b) → outcome_rel Q m1 m2.
Proof. destruct m1; simpl; [intros (b & -> & ?); eauto|done..]. Qed.

(** A run seen through a map of its result. *)
Lemma outcome_rel_fmap_r {A B C} (Q : A → C → Prop) (f : B → C)
    (m1 : outcome A) (m2 : outcome B) :
  outcome_rel Q m1 (f <$> m2) → outcome_rel (λ a b, Q a (f b)) m1 m2.
Proof. destruct m1, m2; simpl; naive_solver. Qed.

(** A run that ends as another does, up to a map of its result, is that
    run under the map. *)
Lemma outcome_rel_eq {A C} (f : C → A) (Q : C → Prop) (m1 : outcome A) (m2 : outcome C) :
  outcome_rel (λ a c, f c = a ∧ Q c) m1 m2 → f <$> m2 = m1.
Proof. destruct m1; simpl; [by intros (c & -> & <- & _)|by intros ->..]. Qed.

(** A simulation of one loop by another. *)
Lemma loop_sim {S1 S2 R1 R2} (b1 : S1 → outcome (S1 + R1)) (b2 : S2 → outcome (S2 + R2))
    (R : S1 → S2 → Prop) (Q : R1 → R2 → Prop) :
  (∀ s1 s2, R s1 s2 → outcome_rel (sum_rel R Q) (b1 s1) (b2 s2)) →
  ∀ fuel s1 s2, R s1 s2 → outcome_rel Q (loop b1 fuel s1) (loop b2 fuel s2).
Proof.
  intros Hb. induction fuel as [|k IH]; intros s1 s2 Hs; [done|].
  rewrite !loop_S. eapply outcome_rel_bind; [by apply Hb|].
  intros [s1'|r1] [s2'|r2]; simpl; try done; [by apply IH|eauto].
Qed.

(** Two loops whose bodies agree on the states of an invariant agree. *)
Lemma loop_ext_inv {St R} (b1 b2 : St → outcome (St + R)) (I : St → Prop) :
  (∀ s, I s → b1 s = b2 s) → (∀ s s', I s → b2 s ⇓ inl s' → I s') →
  ∀ fuel s, I s → loop b1 fuel s = loop b2 fuel s.
Proof.
  intros Hb HI. induction fuel as [|k IH]; intros s Hs; [done|].
  rewrite !loop_S, (Hb s Hs). destruct (b2 s) as [[s'|r]| |] eqn:E; simpl; eauto.
Qed.

(** A loop seen through a map of its states and results. *)
Lemma loop_fmap {S1 S2 R1 R2} (b1 : S1 → outcome (S1 + R1)) (b2 : S2 → outcome (S2 + R2))
    (f : S1 → S2) (g : R1 → R2) :
  (∀ s, b2 (f s) = sum_map f g <$> b1 s) →
  ∀ fuel s, loop b2 fuel (f s) = g <$> loop b1 fuel s.
Proof.
  intros Hb. induction fuel as [|k IH]; intros s; [done|].
  rewrite !loop_S, Hb. destruct (b1 s) as [[s'|r]| |]; simpl; auto.
Qed.

(** ** Lists read by index *)

Section ListFacts.
Context {A : Type}.
Implicit Types (l k : list A) (i n : nat).

Lemma lookup_app_nul l (x : A) i :
  (l ++ [x]) !! i = if decide (i < length l) then l !! i
                    else if decide (i = length l) then Some x else None.
Proof.
  repeat case_decide; subst.
  - by rewrite lookup_app_l.
  - by rewrite list_lookup_middle.
  - apply lookup_ge_None. rewrite length_app. simpl. lia.
Qed.

Lemma take_drop_lookup l i n (x : A) :
  take n (drop i l) !! 0 = Some x → l !! i = Some x.
Proof.
  intros [H _]%lookup_take_Some. by rewrite lookup_drop, Nat.add_0_r in H.
Qed.

Lemma length_take_drop_le l i n : i + n ≤ length l → length (take n (drop i l)) = n.
Proof. intros. rewrite length_take, length_drop. lia. Qed.

End ListFacts.

#[export] Hint Rewrite @length_app @length_take @length_drop : disp.
