(* ===== verification/Header.v ===== *)
(** * The header as the preprocessor sees it

    [src/display.h] is three nested conditional sections: the declarations
    under the include guard [DISPLAY_H] (44-111), the implementation under
    [DISPLAY_IMPLEMENTATION] (113-708), which is outside the guard, and in
    it the unprefixed names under [DISPLAY_STRIP_PREFIX] (697-706).
    [src/unnamed/part_000] is an earlier draft with the same guard: it
    declares [display_t] and has nothing else yet.

    This file has the two files as trees of conditional sections with the
    declarations and definitions in them, each with its C type, and the
    preprocessor on a translation unit: which macros are defined, what is
    declared, what is defined, which names the code of the unit uses.
    A program is the list of its units.

    The theorems say what a project gets from the header: the guard makes
    the declarations idempotent and does not protect the implementation;
    the unprefixed names exist only in a unit that defines
    [DISPLAY_IMPLEMENTATION]; a program links when exactly one unit does;
    the draft declares the [display_t] of the header, and shadows the
    header when it is included first. *)

From stdpp Require Import base tactics option list strings gmap.
From S2P Require Import Prelude.

(** ** Definitions *)

(** The C types of the declarations. *)
#[warnings="-register-all"]
Inductive ctype : Type :=
| C_void | C_int | C_char | C_size_t | C_FILE | C_va_list
| C_named (n : string)
| C_const (t : ctype)
| C_ptr (t : ctype)
| C_restrict (t : ctype)
| C_fun (ret : ctype) (args : list ctype) (variadic : bool).

(** What a header holds.  A conditional section is closed by its
    [#endif]. *)
#[warnings="-register-all"]
Inductive entity : Type :=
| D_include (h : string)                                   (* #include <h> *)
| D_define (m body : string)                               (* #define m body *)
| D_struct (n : string) (members : list (string * ctype))  (* typedef struct n {...} n; *)
| D_enum (n : string) (enumerators : nat)                  (* typedef enum n {...} n; *)
| D_proto (n : string) (t : ctype)                         (* a declaration *)
| D_func (static : bool) (n : string) (t : ctype)          (* a definition *)
| D_use (n : string)                                       (* the unit's code names n *)
| D_ifdef (m : string) (body : list entity)
| D_ifndef (m : string) (body : list entity).

(** A translation unit, as far as the preprocessor and the declarations go:
    the macros, the headers included, the types defined (a struct with its
    members), the functions declared, the functions defined with their
    linkage, and the names the code uses, after macro replacement. *)
Record tunit : Type := TUnit {
  u_macros : gmap string string;
  u_includes : list string;
  u_types : list (string * list (string * ctype));
  u_protos : list (string * ctype);
  u_funcs : list (bool * string);
  u_uses : list string;
}.

Definition empty_unit : tunit := TUnit ∅ [] [] [] [] [].

Definition defined (u : tunit) (m : string) : bool := bool_decide (is_Some (u_macros u !! m)).

(** Macro replacement of an identifier. *)
Definition resolve (u : tunit) (n : string) : string := default n (u_macros u !! n).

Fixpoint exec (e : entity) (u : tunit) : tunit :=
  let run := fix run (es : list entity) (u : tunit) : tunit :=
    match es with
    | [] => u
    | e :: es => run es (exec e u)
    end in
  match e with
  | D_include h =>
      TUnit (u_macros u) (u_includes u ++ [h]) (u_types u) (u_protos u) (u_funcs u) (u_uses u)
  | D_define m body =>
      TUnit (<[m := body]> (u_macros u)) (u_includes u) (u_types u) (u_protos u) (u_funcs u)
        (u_uses u)
  | D_struct n ms =>
      TUnit (u_macros u) (u_includes u) (u_types u ++ [(n, ms)]) (u_protos u) (u_funcs u)
        (u_uses u)
  | D_enum n _ =>
      TUnit (u_macros u) (u_includes u) (u_types u ++ [(n, [])]) (u_protos u) (u_funcs u)
        (u_uses u)
  | D_proto n t =>
      TUnit (u_macros u) (u_includes u) (u_types u) (u_protos u ++ [(n, t)]) (u_funcs u)
        (u_uses u)
  | D_func s n t =>
      TUnit (u_macros u) (u_includes u) (u_types u) (u_protos u) (u_funcs u ++ [(s, n)])
        (u_uses u)
  | D_use n =>
      TUnit (u_macros u) (u_includes u) (u_types u) (u_protos u) (u_funcs u)
        (u_uses u ++ [resolve u n])
  | D_ifdef m body => if defined u m then run body u else u
  | D_ifndef m body => if defined u m then u else run body u
  end.

(** The text of a file, or of a unit, from top to bottom. *)
Definition include (es : list entity) (u : tunit) : tunit := foldl (λ u e, exec e u) u es.

(** A unit compiles when no type and no function is defined twice in it and
    every name its code uses is a function it declares or defines (C11
    6.7p3, 6.9p3, 6.5.1p2). *)
Definition compiles (u : tunit) : Prop :=
  NoDup (u_types u).*1 ∧ NoDup (u_funcs u).*2
  ∧ Forall (λ n, n ∈ (u_protos u).*1 ∨ n ∈ (u_funcs u).*2) (u_uses u).

#[export] Instance compiles_dec u : Decision (compiles u).
Proof. unfold compiles. apply _. Defined.

(** The functions with external linkage a unit defines. *)
Definition externals (u : tunit) : list string := (filter (λ f, f.1 = false) (u_funcs u)).*2.

(** A program links when no function is defined by two of its units and
    every name a unit uses is defined, by the unit or with external linkage
    (C11 6.9p5). *)
Definition links (p : list tunit) : Prop :=
  NoDup (p ≫= externals)
  ∧ Forall (λ u, Forall (λ n, n ∈ (u_funcs u).*2 ∨ n ∈ p ≫= externals) (u_uses u)) p.

#[export] Instance links_dec p : Decision (links p).
Proof. unfold links. apply _. Defined.

(** *** display.h *)

Definition C_format : ctype := C_restrict (C_ptr (C_const C_char)).
Definition C_self : ctype := C_ptr (C_const C_void).

(** [display_t] (60-66). *)
Definition display_t_members : list (string * ctype) :=
  [("display_fn", C_ptr (C_fun C_int [C_self] false));
   ("fdisplay_fn", C_ptr (C_fun C_int [C_self; C_ptr C_FILE] false));
   ("sndisplay_fn", C_ptr (C_fun C_int [C_self; C_ptr C_char; C_size_t] false));
   ("self", C_ptr C_void)].

(** The types of the eight functions. *)
Definition C_vprint : ctype := C_fun C_int [C_format; C_va_list] false.
Definition C_print : ctype := C_fun C_int [C_format] true.
Definition C_vfprint : ctype := C_fun C_int [C_ptr C_FILE; C_format; C_va_list] false.
Definition C_fprint : ctype := C_fun C_int [C_ptr C_FILE; C_format] true.

(** The declarations (68-110). *)
Definition prototypes : list (string * ctype) :=
  [("display_vprint", C_vprint); ("display_vprintln", C_vprint);
   ("display_print", C_print); ("display_println", C_print);
   ("display_vfprint", C_vfprint); ("display_vfprintln", C_vfprint);
   ("display_fprint", C_fprint); ("display_fprintln", C_fprint)].

(** The section under the include guard (44-111). *)
Definition declarations : entity :=
  D_ifndef "DISPLAY_H"
    ([D_define "DISPLAY_H" ""]
     ++ (D_include <$> ["ctype.h"; "stdarg.h"; "stddef.h"; "stdint.h"; "stdio.h"; "stdlib.h";
                        "string.h"])
     ++ [D_struct "display_t" display_t_members]
     ++ (uncurry D_proto <$> prototypes)).

(** The types and the two static functions of the implementation
    (115-176). *)
Definition internals : list entity :=
  [D_enum "var_type" 29;
   D_struct "format_spec_t" [("substr", C_ptr C_char); ("type", C_named "var_type")];
   D_struct "format_specs_array_t"
     [("data", C_ptr (C_named "format_spec_t")); ("count", C_size_t)];
   D_func true "format_specs_array_t_free"
     (C_fun C_void [C_ptr (C_named "format_specs_array_t")] false);
   D_func true "find_format_specifiers"
     (C_fun (C_named "format_specs_array_t") [C_ptr (C_const C_char)] false)].

(** The definitions of the eight functions (350-695). *)
Definition definitions : list (string * ctype) :=
  [("display_vprint", C_vprint); ("display_vprintln", C_vprint);
   ("display_print", C_print); ("display_println", C_print);
   ("display_vfprint", C_vfprint); ("display_vfprintln", C_vfprint);
   ("display_fprint", C_fprint); ("display_fprintln", C_fprint)].

(** The unprefixed names (697-706). *)
Definition aliases : list (string * string) :=
  [("print", "display_print"); ("println", "display_println");
   ("vprint", "display_vprint"); ("vprintln", "display_vprintln");
   ("fprint", "display_fprint"); ("fprintln", "display_fprintln");
   ("vfprint", "display_vfprint"); ("vfprintln", "display_vfprintln")].

Definition strip_prefix : entity := D_ifdef "DISPLAY_STRIP_PREFIX" (uncurry D_define <$> aliases).

(** The section under [DISPLAY_IMPLEMENTATION] (113-708). *)
Definition implementation : entity :=
  D_ifdef "DISPLAY_IMPLEMENTATION"
    (internals ++ (uncurry (D_func false) <$> definitions) ++ [strip_prefix]).

Definition display_header : list entity := [declarations; implementation].

(** *** The draft *)

(** [src/unnamed/part_000]: the guard, two includes and [display_t] (4-25),
    and an empty implementation section (27-31). *)
Definition part_000 : list entity :=
  [D_ifndef "DISPLAY_H"
     [D_define "DISPLAY_H" ""; D_include "stddef.h"; D_include "stdio.h";
      D_struct "display_t"
        [("display_fn", C_ptr (C_fun C_int [C_ptr (C_const C_void)] false));
         ("fdisplay_fn", C_ptr (C_fun C_int [C_ptr (C_const C_void); C_ptr C_FILE] false));
         ("sndisplay_fn",
          C_ptr (C_fun C_int [C_ptr (C_const C_void); C_ptr C_char; C_size_t] false));
         ("self", C_ptr C_void)]];
   D_ifdef "DISPLAY_IMPLEMENTATION" []].

(** *** Units *)

(** The unit of the usage example (display.h 7-9, 36): both macros, the
    header, and a call of [println]. *)
Definition example_unit : list entity :=
  [D_define "DISPLAY_IMPLEMENTATION" ""; D_define "DISPLAY_STRIP_PREFIX" ""]
  ++ display_header ++ [D_use "println"].

(** Another file of the same project: it asks for the unprefixed names and
    leaves the implementation to the first. *)
Definition client_unit : list entity :=
  [D_define "DISPLAY_STRIP_PREFIX" ""] ++ display_header ++ [D_use "println"].

(** A file that uses the prefixed names. *)
Definition plain_unit : list entity := display_header ++ [D_use "display_println"].

(** The unit of a file. *)
Definition unit_of (es : list entity) : tunit := include es empty_unit.

(** A file of a project that uses the header with its prefixed names, and
    implements it or not. *)
Definition project_file (impl : bool) : tunit :=
  unit_of ((if impl then [D_define "DISPLAY_IMPLEMENTATION" ""] else []) ++ plain_unit).

(** What the two sections of the header add to a unit. *)
Definition declared (u : tunit) : tunit :=
  TUnit (<["DISPLAY_H" := ""]> (u_macros u))
    (u_includes u
     ++ ["ctype.h"; "stdarg.h"; "stddef.h"; "stdint.h"; "stdio.h"; "stdlib.h"; "string.h"])
    (u_types u ++ [("display_t", display_t_members)])
    (u_protos u ++ prototypes) (u_funcs u) (u_uses u).

Definition with_aliases (ms : gmap string string) : gmap string string :=
  foldl (λ ms a, <[a.1 := a.2]> ms) ms aliases.

Definition impl_types : list (string * list (string * ctype)) :=
  [("var_type", []);
   ("format_spec_t", [("substr", C_ptr C_char); ("type", C_named "var_type")]);
   ("format_specs_array_t", [("data", C_ptr (C_named "format_spec_t")); ("count", C_size_t)])].

Definition impl_funcs : list (bool * string) :=
  [(true, "format_specs_array_t_free"); (true, "find_format_specifiers")]
  ++ ((λ d, (false, d.1)) <$> definitions).

Definition implemented (u : tunit) : tunit :=
  TUnit (if defined u "DISPLAY_STRIP_PREFIX" then with_aliases (u_macros u) else u_macros u)
    (u_includes u) (u_types u ++ impl_types) (u_protos u) (u_funcs u ++ impl_funcs) (u_uses u).

Arguments defined : simpl never.
Arguments resolve : simpl never.
Arguments unit_of : simpl never.
Arguments project_file : simpl never.

(** ** The preprocessor on the two sections *)

Lemma defined_insert u u' k b m :
  u_macros u' = <[k := b]> (u_macros u) → defined u' m = bool_decide (k = m) || defined u m.
Proof.
  unfold defined. intros ->. destruct (decide (k = m)) as [->|Hne].
  - rewrite lookup_insert_eq. by rewrite !bool_decide_eq_true_2 by eauto.
  - rewrite lookup_insert_ne by done. by rewrite (bool_decide_eq_false_2 (k = m)).
Qed.

(** Under the guard: nothing the second time. *)
Lemma exec_declarations u :
  exec declarations u = if defined u "DISPLAY_H" then u else declared u.
Proof.
  unfold declarations. cbn -[insert defined]. destruct (defined u "DISPLAY_H"); [done|].
  unfold declared. by rewrite <- !(assoc_L (++)).
Qed.

(** Under [DISPLAY_IMPLEMENTATION]: the types, the ten functions and,
    when asked for, the unprefixed names. *)
Lemma exec_implementation u :
  exec implementation u = if defined u "DISPLAY_IMPLEMENTATION" then implemented u else u.
Proof.
  unfold implementation. cbn -[insert defined].
  destruct (defined u "DISPLAY_IMPLEMENTATION"); [|done].
  unfold implemented, defined. cbn -[insert].
  destruct (bool_decide _); cbn -[insert]; by rewrite <- !(assoc_L (++)).
Qed.

Lemma include_display_header u :
  include display_header u = exec implementation (exec declarations u).
Proof. done. Qed.

Lemma defined_declared u m :
  defined (declared u) m = bool_decide ("DISPLAY_H" = m) || defined u m.
Proof. by apply (defined_insert u _ _ ""). Qed.

(** The unprefixed names are not macros of the header itself. *)
Lemma alias_name n t : (n, t) ∈ aliases → n ∈ aliases.*1 ∧ n ≠ "DISPLAY_H".
Proof.
  intros Hin. split; [by apply (list_elem_of_fmap_2 fst _ (n, t))|].
  intros ->. unfold aliases in Hin. set_unfold. naive_solver.
Qed.

Lemma with_aliases_alias ms n t : (n, t) ∈ aliases → with_aliases ms !! n = Some t.
Proof.
  unfold aliases, with_aliases. intros Hin. set_unfold. simpl.
  destruct_or!; simplify_eq;
    by repeat first [rewrite lookup_insert_eq|rewrite lookup_insert_ne by done].
Qed.

Lemma with_aliases_other ms n : n ∉ aliases.*1 → with_aliases ms !! n = ms !! n.
Proof.
  unfold aliases, with_aliases. intros Hin. simpl in *.
  by rewrite !lookup_insert_ne by (intros <-; apply Hin; set_solver).
Qed.

(** What the header leaves of the macros of a unit. *)
Lemma defined_implemented u m : defined u m = true → defined (implemented u) m = true.
Proof.
  unfold implemented. destruct (defined u "DISPLAY_STRIP_PREFIX"); [|done].
  unfold defined. simpl. intros Hm%bool_decide_eq_true. apply bool_decide_eq_true. destruct (decide (m ∈ aliases.*1)) as [Hin|Hin].
  - apply list_elem_of_fmap_1 in Hin as ([n t] & -> & Hin).
    by rewrite (with_aliases_alias _ n t).
  - by rewrite with_aliases_other.
Qed.

Lemma defined_exec_declarations u m :
  defined (exec declarations u) m = bool_decide ("DISPLAY_H" = m) || defined u m.
Proof.
  rewrite exec_declarations. destruct (defined u "DISPLAY_H") eqn:E; [|apply defined_declared].
  case_bool_decide as Hm; [by rewrite <- Hm|done].
Qed.

(** After the header [DISPLAY_H] is defined; an implementing unit stays
    one. *)
Lemma defined_include_header u m :
  m = "DISPLAY_H" ∨ defined u m = true → defined (include display_header u) m = true.
Proof.
  intros Hm. rewrite include_display_header, exec_implementation.
  assert (defined (exec declarations u) m = true) as Hd.
  { rewrite defined_exec_declarations. destruct Hm as [->| ->]; [done|apply orb_true_r]. }
  destruct (defined (exec declarations u) "DISPLAY_IMPLEMENTATION");
    [by apply defined_implemented|done].
Qed.

(** What an implementing unit has of functions after the header. *)
Lemma funcs_include_header u :
  defined u "DISPLAY_IMPLEMENTATION" = true →
  u_funcs (include display_header u) = u_funcs u ++ impl_funcs.
Proof.
  intros Hi. rewrite include_display_header, exec_implementation.
  rewrite defined_exec_declarations, Hi, orb_true_r. unfold implemented. cbn [u_funcs].
  rewrite exec_declarations. by destruct (defined u "DISPLAY_H").
Qed.

(** The macros of a unit that does not implement. *)
Lemma macros_include_header u n :
  defined u "DISPLAY_IMPLEMENTATION" = false → n ≠ "DISPLAY_H" →
  u_macros (include display_header u) !! n = u_macros u !! n.
Proof.
  intros Hi Hn. rewrite include_display_header, exec_implementation.
  rewrite defined_exec_declarations, Hi, (bool_decide_eq_false_2 _) by done.
  cbn [orb]. rewrite exec_declarations.
  destruct (defined u "DISPLAY_H"); [done|]. simpl. by rewrite lookup_insert_ne.
Qed.

(** A unit that has the guard and does not implement gets nothing from the
    header. *)
Lemma include_header_guarded u :
  defined u "DISPLAY_H" = true → defined u "DISPLAY_IMPLEMENTATION" = false →
  include display_header u = u.
Proof.
  intros Hg Hi. by rewrite include_display_header, exec_declarations, Hg, exec_implementation, Hi.
Qed.

(** The draft adds a [display_t], the guard and two includes, once. *)
Lemma include_part_000 u :
  include part_000 u
  = if defined u "DISPLAY_H" then u
    else TUnit (<["DISPLAY_H" := ""]> (u_macros u)) (u_includes u ++ ["stddef.h"; "stdio.h"])
           (u_types u ++ [("display_t", display_t_members)]) (u_protos u) (u_funcs u)
           (u_uses u).
Proof.
  unfold include, part_000. simpl. destruct (defined u "DISPLAY_H") eqn:E.
  - by case_match.
  - case_match; by rewrite <- !(assoc_L (++)).
Qed.

(** The unprefixed names after the header. *)
Lemma alias_include_header u n t :
  (n, t) ∈ aliases →
  u_macros (include display_header u) !! n
  = if defined u "DISPLAY_IMPLEMENTATION" && defined u "DISPLAY_STRIP_PREFIX" then Some t
    else u_macros u !! n.
Proof.
  intros Hin. destruct (alias_name n t Hin) as [_ Hn].
  destruct (defined u "DISPLAY_IMPLEMENTATION") eqn:Hi; [|by apply macros_include_header].
  rewrite include_display_header, exec_implementation.
  rewrite !defined_exec_declarations, Hi, orb_true_r. unfold implemented. cbn [u_macros andb].
  rewrite defined_exec_declarations. cbn [bool_decide decide_rel orb].
  destruct (defined u "DISPLAY_STRIP_PREFIX"); [by apply with_aliases_alias|].
  rewrite exec_declarations. destruct (defined u "DISPLAY_H"); [done|].
  simpl. by rewrite lookup_insert_ne.
Qed.

(** ** Projects *)

Lemma project_file_externals b :
  externals (project_file b) = (if b then definitions.*1 else [])
  ∧ (u_funcs (project_file b)).*2 = (if b then impl_funcs.*2 else [])
  ∧ u_uses (project_file b) = ["display_println"].
Proof. by destruct b; vm_compute. Qed.

Definition implementers (bs : list bool) : nat := length (filter (λ b, b = true) bs).

Lemma project_externals bs :
  (project_file <$> bs) ≫= externals = mjoin (replicate (implementers bs) definitions.*1).
Proof.
  induction bs as [|b bs IH]; [done|]. rewrite fmap_cons, bind_cons, IH.
  destruct (project_file_externals b) as [-> _]. unfold implementers.
  rewrite filter_cons. by destruct b.
Qed.

Lemma copies_S k (E : list string) : mjoin (replicate (S k) E) = E ++ mjoin (replicate k E).
Proof. done. Qed.

Lemma NoDup_copies k : NoDup (mjoin (replicate k definitions.*1)) ↔ k ≤ 1.
Proof.
  destruct k as [|[|k]]; rewrite ?copies_S.
  - split; [lia|constructor].
  - split; [lia|]. intros _. apply (bool_decide_unpack _). by vm_compute.
  - split; [|lia]. intros [_ [Hd _]]%NoDup_app.
    destruct (Hd "display_vprint"); [|apply elem_of_app; left]; set_solver.
Qed.

Lemma elem_of_copies k : "display_println" ∈ mjoin (replicate k definitions.*1) ↔ 1 ≤ k.
Proof.
  destruct k as [|k]; rewrite ?copies_S; [split; [by intros ?%elem_of_nil|lia]|].
  split; [lia|]. intros _. apply elem_of_app. left. set_solver.
Qed.

(** ** Theorems *)

(** The functions are defined with the types they are declared with (C11
    6.7p4), those of display.h 350-695 against those of 68-110. *)
Lemma definitions_as_declared : definitions = prototypes.
Proof. done. Qed.

(** The include guard: a second inclusion declares nothing, whatever the
    unit has defined. *)
Theorem declarations_idempotent u :
  exec declarations (exec declarations u) = exec declarations u.
Proof.
  rewrite (exec_declarations (exec declarations u)), defined_exec_declarations.
  by rewrite bool_decide_eq_true_2.
Qed.

(** C22. The implementation is outside the guard: a unit that defines
    [DISPLAY_IMPLEMENTATION] and gets the header twice, directly or through
    another header, defines every function twice and does not compile. *)
Theorem implementation_unguarded u :
  defined u "DISPLAY_IMPLEMENTATION" = true →
  ¬ compiles (include display_header (include display_header u)).
Proof.
  intros Hi (_ & Hnd & _). revert Hnd.
  rewrite funcs_include_header by (apply defined_include_header; by right).
  rewrite (funcs_include_header u Hi), !fmap_app. intros [_ [Hd _]]%NoDup_app.
  destruct (Hd "display_vprint"); [apply elem_of_app; right|]; set_solver.
Qed.

(** C21. The unprefixed names are defined inside the implementation section: a
    unit has them when it defines both macros, and a unit that defines
    [DISPLAY_STRIP_PREFIX] alone has none of them. *)
Theorem strip_prefix_needs_implementation u n t :
  (n, t) ∈ aliases →
  resolve (include display_header u) n
  = if defined u "DISPLAY_IMPLEMENTATION" && defined u "DISPLAY_STRIP_PREFIX" then t
    else resolve u n.
Proof.
  intros Hin. unfold resolve. rewrite (alias_include_header u n t Hin).
  by destruct (_ && _).
Qed.

(** C33. A project whose files include the header links exactly when one of
    them defines [DISPLAY_IMPLEMENTATION]. *)
Theorem one_implementation_links bs :
  links (project_file <$> bs) ↔ bs = [] ∨ implementers bs = 1.
Proof.
  unfold links. rewrite project_externals, NoDup_copies, Forall_fmap, Forall_forall.
  split.
  - intros [Hk Hu]. destruct bs as [|b bs]; [by left|right].
    destruct (project_file_externals b) as (_ & Hf & Hus).
    specialize (Hu b (list_elem_of_here _ _)). cbv beta delta [compose] in Hu. rewrite Hus, Hf in Hu.
    apply Forall_singleton in Hu as [Hb|Hb%elem_of_copies]; [|lia].
    destruct b; [|by apply elem_of_nil in Hb]. unfold implementers in *.
    rewrite filter_cons_True in * by done. cbn [length] in *. lia.
  - intros [->|Hk]; [split; [by cbv; lia|by intros ? ?%elem_of_nil]|]. split; [lia|].
    intros b _. cbv beta delta [compose]. destruct (project_file_externals b) as (_ & _ & ->).
    apply Forall_singleton. right. apply elem_of_copies. lia.
Qed.

(** The draft and the header: the draft declares the [display_t] of the
    header and no function; included first, its guard hides the
    declarations of the header, and included second it adds nothing. *)
Theorem draft_shadows_header u :
  defined u "DISPLAY_H" = false → defined u "DISPLAY_IMPLEMENTATION" = false →
  u_types (include part_000 u) = u_types (include display_header u)
  ∧ include display_header (include part_000 u) = include part_000 u
  ∧ include part_000 (include display_header u) = include display_header u.
Proof.
  intros Hg Hi. split_and!.
  - rewrite include_part_000, include_display_header, exec_implementation.
    rewrite defined_exec_declarations, exec_declarations, Hg, Hi. done.
  - apply include_header_guarded; rewrite include_part_000, Hg;
      by rewrite (defined_insert u _ "DISPLAY_H" "") by done.
  - rewrite (include_part_000 (include _ _)). by rewrite defined_include_header by by left.
Qed.

(** ** The units of the documentation *)

(** The example of the header compiles, and its [println] is
    [display_println]. *)
Example example_unit_compiles :
  compiles (unit_of example_unit) ∧ u_uses (unit_of example_unit) = ["display_println"].
Proof. split; [apply (bool_decide_unpack _); by vm_compute|by vm_compute]. Qed.

(** A second file of the project that asks for the unprefixed names has
    none: its [println] is no function. *)
Example client_unit_fails :
  ¬ compiles (unit_of client_unit) ∧ u_uses (unit_of client_unit) = ["println"].
Proof. split; [apply (bool_decide_unpack _); by vm_compute|by vm_compute]. Qed.

(** The two together link, with the prefixed names or without. *)
Example example_links :
  links [unit_of example_unit; unit_of plain_unit] ∧ ¬ links [unit_of example_unit; unit_of client_unit]
  ∧ ¬ links [unit_of example_unit; unit_of example_unit].
Proof. split_and!; apply (bool_decide_unpack _); by vm_compute. Qed.

Lemma implementation_unguarded_witness :
  ¬ compiles (include display_header (include display_header
                (unit_of [D_define "DISPLAY_IMPLEMENTATION" ""]))).
Proof. by apply implementation_unguarded. Defined.

Lemma strip_prefix_needs_implementation_witness :
  resolve (include display_header (unit_of [D_define "DISPLAY_STRIP_PREFIX" ""])) "println"
  = "println".
Proof.
  apply (strip_prefix_needs_implementation (unit_of [D_define "DISPLAY_STRIP_PREFIX" ""])
           "println" "display_println"). set_solver.
Defined.

Lemma draft_shadows_header_witness :
  u_types (include part_000 empty_unit) = u_types (include display_header empty_unit)
  ∧ include display_header (include part_000 empty_unit) = include part_000 empty_unit
  ∧ include part_000 (include display_header empty_unit) = include display_header empty_unit.
Proof. by apply draft_shadows_header. Defined.
