(* ===== verification/CString.v ===== *)
(** * C characters, NUL-terminated buffers and the libc functions on them

    A [char] is an [ascii].  The object a [char*] points into is a
    [list ascii]; the pointer itself is a [nat] offset, and [char_at] is the
    read [*p], undefined outside the object.  [cstr s] is the buffer of the
    C string with content [s].

    [strchr], [isdigit], [strcmp], [strncpy] and [strlen] are the functions of
    <string.h> and <ctype.h> that [find_format_specifiers] and [display_vprint]
    call; they are modelled from the C standard.  [skip_while] is the shape of
    the scanner's inner loops [while (f(p[0])) p++;] (display.h 194-196, 202-204,
    213-215). *)

From Stdlib Require Import Ascii ZArith Lia.
From stdpp Require Import base tactics option list numbers strings.
From S2P Require Import Prelude.

(** ** Definitions *)

Definition NUL : ascii := Ascii.zero.

Definition is_nul (c : ascii) : bool := Ascii.eqb c NUL.

(** The characters of a string literal, without its terminator. *)
Definition lit (s : string) : list ascii := String.list_ascii_of_string s.

(** The buffer of a C string with content [s]. *)
Definition cstr (s : list ascii) : list ascii := s ++ [NUL].

(** [s] can be the content of a C string. *)
Definition no_nul (s : list ascii) : Prop := NUL ∉ s.

(** [*p], for [p] at offset [p] of the object [buf]. *)
Definition char_at (buf : list ascii) (p : nat) : outcome ascii :=
  of_option OobRead (buf !! p).

(** The content of the C string that starts a buffer: the characters before
    the first NUL. *)
Fixpoint c_str (buf : list ascii) : list ascii :=
  match buf with
  | [] => []
  | c :: rest => if is_nul c then [] else c :: c_str rest
  end.

Definition strlen (buf : list ascii) : nat := length (c_str buf).

(** [strchr(s, c)] for a string with content [s]: the offset of the first
    [c], the terminator included when [c] is NUL; [None] is the null result. *)
Fixpoint strchr_from (s : list ascii) (c : ascii) (i : nat) : option nat :=
  match s with
  | [] => if is_nul c then Some i else None
  | x :: s' => if Ascii.eqb x c then Some i else strchr_from s' c (S i)
  end.

Definition strchr (s : list ascii) (c : ascii) : option nat := strchr_from s c 0.

Definition isdigit (c : ascii) : bool :=
  let n := N_of_ascii c in ((48 <=? n) && (n <=? 57))%N.

(** [strcmp] on contents: the difference of the first characters that differ,
    as unsigned chars. *)
Fixpoint strcmp_content (a b : list ascii) : Z :=
  match a, b with
  | [], [] => 0
  | [], y :: _ => - Z.of_N (N_of_ascii y)
  | x :: _, [] => Z.of_N (N_of_ascii x)
  | x :: a', y :: b' =>
      if Ascii.eqb x y then strcmp_content a' b'
      else (Z.of_N (N_of_ascii x) - Z.of_N (N_of_ascii y))%Z
  end.

Definition strcmp (a b : list ascii) : Z := strcmp_content (c_str a) (c_str b).

(** [strncpy(dst, src, n)]: the [n] bytes written to [dst].  It reads [src]
    up to its terminator or [n] characters, and pads with NUL. *)
Definition strncpy (src : list ascii) (n : nat) : outcome (list ascii) :=
  let s := c_str src in
  if decide (length s < n ∧ length s = length src) then Undef OobRead
  else Done (take n s ++ replicate (n - length s) NUL).

(** [while (f(p[0])) p++;] from offset [p]: the offset it stops at. *)
Fixpoint span_from (f : ascii → bool) (rest : list ascii) (p : nat) : outcome nat :=
  match rest with
  | [] => Undef OobRead
  | c :: rest' => if f c then span_from f rest' (S p) else Done p
  end.

Definition skip_while (f : ascii → bool) (buf : list ascii) (p : nat) : outcome nat :=
  span_from f (drop p buf) p.

(** [has_at buf p l]: the characters [l] stand in [buf] from offset [p]. *)
Definition has_at (buf : list ascii) (p : nat) (l : list ascii) : Prop :=
  ∀ i c, l !! i = Some c → buf !! (p + i) = Some c.

(** ** Reads *)

Lemma char_at_Done buf p c : char_at buf p ⇓ c ↔ buf !! p = Some c.
Proof. apply of_option_Done. Qed.

Lemma char_at_lt buf p c : char_at buf p ⇓ c → p < length buf.
Proof. rewrite char_at_Done. apply lookup_lt_Some. Qed.

Lemma char_at_Undef buf p u : char_at buf p ↯ u ↔ length buf ≤ p ∧ u = OobRead.
Proof.
  unfold char_at. destruct (buf !! p) eqn:E; simpl.
  - apply lookup_lt_Some in E. split; [done|lia].
  - apply lookup_ge_None in E. split; [by intros [= <-]|by intros [_ ->]].
Qed.

Lemma char_at_terminates buf p : terminates (char_at buf p).
Proof. unfold char_at. by destruct (buf !! p). Qed.

Lemma length_cstr s : length (cstr s) = S (length s).
Proof. unfold cstr. rewrite length_app. simpl. lia. Qed.

Lemma char_at_cstr_lt s p : p < length s → char_at (cstr s) p = char_at s p.
Proof. intros. unfold char_at, cstr. by rewrite lookup_app_l. Qed.

Lemma char_at_cstr_end s : char_at (cstr s) (length s) ⇓ NUL.
Proof. unfold char_at, cstr. by rewrite list_lookup_middle. Qed.

Lemma char_at_cstr_past s p : length s < p → char_at (cstr s) p ↯ OobRead.
Proof.
  intros. apply char_at_Undef. split; [|done].
  unfold cstr. rewrite length_app. simpl. lia.
Qed.

Lemma is_nul_true c : is_nul c = true ↔ c = NUL.
Proof. apply Ascii.eqb_eq. Qed.

Lemma is_nul_false c : is_nul c = false ↔ c ≠ NUL.
Proof. apply Ascii.eqb_neq. Qed.

(** ** Contents *)

Lemma c_str_no_nul buf : no_nul (c_str buf).
Proof.
  unfold no_nul. induction buf as [|c rest IH]; simpl; [apply not_elem_of_nil|].
  destruct (is_nul c) eqn:E; [apply not_elem_of_nil|].
  apply is_nul_false in E. rewrite elem_of_cons. by intros [?|?].
Qed.

Lemma c_str_app_nul s rest : no_nul s → c_str (s ++ NUL :: rest) = s.
Proof.
  unfold no_nul. induction s as [|c s IH]; simpl; [done|].
  rewrite not_elem_of_cons. intros [Hc Hs].
  destruct (is_nul c) eqn:E; [by apply is_nul_true in E|]. by rewrite IH.
Qed.

Lemma c_str_cstr s : no_nul s → c_str (cstr s) = s.
Proof. apply c_str_app_nul. Qed.

Lemma c_str_prefix buf : c_str buf `prefix_of` buf.
Proof.
  induction buf as [|c rest IH]; simpl; [done|].
  destruct (is_nul c); [apply prefix_nil|by apply prefix_cons].
Qed.

Lemma c_str_length buf : length (c_str buf) ≤ length buf.
Proof. apply prefix_length, c_str_prefix. Qed.

Lemma c_str_id s : no_nul s → c_str s = s.
Proof.
  unfold no_nul. induction s as [|c s IH]; simpl; [done|].
  rewrite not_elem_of_cons. intros [Hc Hs].
  destruct (is_nul c) eqn:E; [by apply is_nul_true in E|]. by rewrite IH.
Qed.

Lemma strlen_cstr s : no_nul s → strlen (cstr s) = length s.
Proof. intros. unfold strlen. by rewrite c_str_cstr. Qed.

Lemma no_nul_app s t : no_nul (s ++ t) ↔ no_nul s ∧ no_nul t.
Proof. unfold no_nul. rewrite elem_of_app. tauto. Qed.

Lemma no_nul_take s n : no_nul s → no_nul (take n s).
Proof. unfold no_nul. intros H [i [Hi _]]%elem_of_take. by apply list_elem_of_lookup_2, H in Hi. Qed.

Lemma no_nul_drop s n : no_nul s → no_nul (drop n s).
Proof.
  unfold no_nul. intros H [i Hi]%list_elem_of_lookup.
  rewrite lookup_drop in Hi. by apply list_elem_of_lookup_2, H in Hi.
Qed.

Lemma no_nul_lookup s i c : no_nul s → s !! i = Some c → c ≠ NUL.
Proof. intros H Hi ->. by apply list_elem_of_lookup_2, H in Hi. Qed.

(** ** [strchr] *)

Lemma strchr_from_Some s c i j :
  strchr_from s c i = Some j →
  i ≤ j ∧ ((s !! (j - i) = Some c ∧ c ∉ take (j - i) s)
           ∨ (j = i + length s ∧ c = NUL ∧ c ∉ s)).
Proof.
  revert i. induction s as [|x s IH]; intros i; simpl.
  - destruct (is_nul c) eqn:E; [|done]. intros [= <-]. apply is_nul_true in E.
    split; [done|right]. split_and!; [lia|done|apply not_elem_of_nil].
  - destruct (Ascii.eqb_spec x c) as [->|Hne].
    + intros [= <-]. rewrite Nat.sub_diag. split; [done|left].
      split; [done|apply not_elem_of_nil].
    + intros [Hle H]%IH. split; [lia|].
      replace (j - i) with (S (j - S i)) by lia. simpl.
      rewrite !not_elem_of_cons. destruct H as [[? ?]|(-> & -> & ?)]; [by left|].
      right. split_and!; [lia|done|done|done].
Qed.

Lemma strchr_from_is_Some s c i : is_Some (strchr_from s c i) ↔ c ∈ s ∨ c = NUL.
Proof.
  revert i. induction s as [|x s IH]; intros i; simpl.
  - rewrite elem_of_nil. destruct (is_nul c) eqn:E.
    + apply is_nul_true in E. split; [by right|by eexists].
    + apply is_nul_false in E. split; [by intros []|by intros [[]|?]].
  - rewrite elem_of_cons. destruct (Ascii.eqb_spec x c) as [->|Hne].
    + split; [by left; left|by eexists].
    + rewrite IH. split; [intros [?|?]; auto|intros [[?|?]|?]; auto; congruence].
Qed.

(** [strchr] is non-null exactly on the characters of the set and on NUL. *)
Lemma strchr_is_Some s c : is_Some (strchr s c) ↔ c ∈ s ∨ c = NUL.
Proof. apply strchr_from_is_Some. Qed.

Lemma strchr_NUL s : is_Some (strchr s NUL).
Proof. apply strchr_is_Some. by right. Qed.

Lemma strchr_None s c : strchr s c = None ↔ (c ∉ s) ∧ c ≠ NUL.
Proof. rewrite eq_None_not_Some, strchr_is_Some. tauto. Qed.

(** ** [isdigit] *)

Lemma isdigit_spec c : isdigit c = true ↔ c ∈ lit "0123456789".
Proof.
  split.
  - unfold isdigit. intros [H1 H2]%andb_prop.
    apply N.leb_le in H1, H2. rewrite <- (ascii_N_embedding c).
    remember (N_of_ascii c) as n eqn:E. clear E.
    assert (Hn : (n = 48 ∨ n = 49 ∨ n = 50 ∨ n = 51 ∨ n = 52 ∨ n = 53 ∨ n = 54
                  ∨ n = 55 ∨ n = 56 ∨ n = 57)%N) by lia.
    destruct_or!; subst; by apply (bool_decide_unpack _); vm_compute.
  - intros H. unfold lit in H. simpl in H.
    repeat (apply elem_of_cons in H as [->|H]; [done|]).
    by apply elem_of_nil in H.
Qed.

Lemma isdigit_NUL : isdigit NUL = false.
Proof. done. Qed.

(** ** [strcmp] *)

Lemma N_of_ascii_0 c : N_of_ascii c = 0%N → c = NUL.
Proof. intros H. by rewrite <- (ascii_N_embedding c), H. Qed.

Lemma strcmp_content_0 a b :
  no_nul a → no_nul b → strcmp_content a b = 0%Z ↔ a = b.
Proof.
  unfold no_nul. revert b. induction a as [|x a IH]; intros [|y b]; simpl;
    rewrite ?not_elem_of_cons; intros Ha Hb.
  - done.
  - split; [|done]. intros H. destruct Hb as [[] _]. symmetry. apply N_of_ascii_0. lia.
  - split; [|done]. intros H. destruct Ha as [[] _]. symmetry. apply N_of_ascii_0. lia.
  - destruct Ha as [_ Ha], Hb as [_ Hb]. destruct (Ascii.eqb_spec x y) as [->|Hne].
    + rewrite IH by done. split; [by intros ->|by intros [= ->]].
    + split; [|by intros [= ? ?]]. intros H. destruct Hne.
      rewrite <- (ascii_N_embedding x), <- (ascii_N_embedding y). f_equal. lia.
Qed.

(** [strcmp] returns 0 exactly when the two C strings have the same content. *)
Lemma strcmp_0 a b : strcmp a b = 0%Z ↔ c_str a = c_str b.
Proof. apply strcmp_content_0; apply c_str_no_nul. Qed.

(** ** [strncpy] *)

Lemma strncpy_no_nul src n :
  n ≤ length src → no_nul (take n src) →
  strncpy src n ⇓ take n src.
Proof.
  intros Hn Hnn. unfold strncpy.
  assert (Hpre : take n src `prefix_of` c_str src).
  { clear Hn. revert n Hnn. induction src as [|c src IH]; intros [|n]; simpl;
      try (intros; apply prefix_nil).
    unfold no_nul. rewrite not_elem_of_cons. intros [Hc Hs].
    destruct (is_nul c) eqn:E; [by apply is_nul_true in E|].
    by apply prefix_cons, IH. }
  assert (Hlen : n ≤ length (c_str src)).
  { apply prefix_length in Hpre. rewrite length_take in Hpre. lia. }
  rewrite decide_False by lia.
  replace (n - length (c_str src)) with 0 by lia. simpl. rewrite app_nil_r.
  f_equal. destruct Hpre as [k Hk]. rewrite Hk.
  rewrite take_app_length'; [done|]. rewrite length_take. lia.
Qed.

Lemma strncpy_length src n out : strncpy src n ⇓ out → length out = n.
Proof.
  unfold strncpy. case_decide; [done|]. intros [= <-].
  rewrite length_app, length_take, length_replicate. lia.
Qed.

Lemma strncpy_terminates src n : terminates (strncpy src n).
Proof. unfold strncpy. by case_decide. Qed.

(** ** [skip_while] *)

Lemma span_from_terminates f rest p : terminates (span_from f rest p).
Proof. revert p. induction rest as [|c rest IH]; intros p; simpl; [done|]. by destruct (f c). Qed.

Lemma span_from_Done f rest p q :
  span_from f rest p ⇓ q ↔
  p ≤ q ∧ Forall (λ c, f c = true) (take (q - p) rest)
  ∧ ∃ c, rest !! (q - p) = Some c ∧ f c = false.
Proof.
  revert p. induction rest as [|c rest IH]; intros p; simpl.
  - split; [done|]. by intros (_ & _ & c & ? & _).
  - destruct (f c) eqn:E.
    + rewrite IH. split.
      * intros (Hle & Hall & c' & Hc' & Hf).
        replace (q - p) with (S (q - S p)) by lia. simpl.
        split_and!; [lia|by constructor|by exists c'].
      * intros (Hle & Hall & c' & Hc' & Hf).
        destruct (q - p) as [|k] eqn:Ek; simpl in *; [congruence|].
        replace (q - S p) with k by lia.
        apply Forall_cons in Hall as [_ Hall]. split_and!; [lia|done|by exists c'].
    + split.
      * intros [= <-]. rewrite Nat.sub_diag. split_and!; [done|constructor|by exists c].
      * intros (Hle & Hall & c' & Hc' & Hf).
        destruct (q - p) as [|k] eqn:Ek; simpl in *; [f_equal; lia|].
        apply Forall_cons in Hall as [? _]. congruence.
Qed.

(** The loop stops at the first offset from [p] whose character fails [f];
    every character it read on the way satisfies [f]. *)
Lemma skip_while_Done f buf p q :
  skip_while f buf p ⇓ q ↔
  p ≤ q ∧ (∀ i c, p ≤ i < q → buf !! i = Some c → f c = true)
  ∧ ∃ c, buf !! q = Some c ∧ f c = false.
Proof.
  unfold skip_while. rewrite span_from_Done. rewrite Forall_lookup.
  setoid_rewrite lookup_take_Some. setoid_rewrite lookup_drop.
  split; intros (Hle & Hall & c & Hc & Hf).
  - split_and!; [done| |exists c; split; [|done]].
    + intros i c' Hi Hc'. apply (Hall (i - p)). split; [|lia].
      by replace (p + (i - p)) with i by lia.
    + by replace (p + (q - p)) with q in Hc by lia.
  - split_and!; [done| |exists c; split; [|done]].
    + intros i c' [Hc' Hi]. apply (Hall (p + i)); [lia|done].
    + by replace (p + (q - p)) with q by lia.
Qed.

Lemma skip_while_terminates f buf p : terminates (skip_while f buf p).
Proof. apply span_from_terminates. Qed.

Lemma skip_while_bounds f buf p q : skip_while f buf p ⇓ q → p ≤ q < length buf.
Proof.
  intros (Hle & _ & c & Hc & _)%skip_while_Done.
  apply lookup_lt_Some in Hc. lia.
Qed.

(** The loop walks exactly the characters [l] when they satisfy [f] and the
    character after them does not. *)
Lemma skip_while_exact f buf p l c rest :
  has_at buf p (l ++ c :: rest) → Forall (λ x, f x = true) l → f c = false →
  skip_while f buf p ⇓ p + length l.
Proof.
  intros Hat Hl Hc. apply skip_while_Done. split_and!; [lia| |].
  - intros i x Hi Hx. rewrite Forall_forall in Hl. apply Hl.
    apply (list_elem_of_lookup_2 _ (i - p)).
    assert (l !! (i - p) = Some x ∨ l !! (i - p) = None) as [?|Hn]; [|done|].
    { destruct (l !! (i - p)) as [y|] eqn:E; [left|by right].
      assert (buf !! (p + (i - p)) = Some y) as Hy.
      { apply Hat. by rewrite lookup_app_l by by eapply lookup_lt_Some. }
      replace (p + (i - p)) with i in Hy by lia. congruence. }
    apply lookup_ge_None in Hn. lia.
  - exists c. split; [|done]. apply Hat. by rewrite list_lookup_middle.
Qed.

(** A loop whose test accepts NUL runs off the end of every C string. *)
Lemma skip_while_nul_undefined f s p :
  f NUL = true → p ≤ length s → (∀ i c, p ≤ i → s !! i = Some c → f c = true) →
  skip_while f (cstr s) p ↯ OobRead.
Proof.
  intros Hnul Hp Hall. unfold skip_while.
  assert (Hf : Forall (λ c, f c = true) (drop p (cstr s))).
  { apply Forall_lookup. intros i c. rewrite lookup_drop. unfold cstr.
    rewrite lookup_app_nul. repeat case_decide; [|naive_solver..].
    apply Hall. lia. }
  revert Hf. generalize (drop p (cstr s)). clear. intros rest. revert p.
  induction rest as [|c rest IH]; intros p Hf; simpl; [done|].
  apply Forall_cons in Hf as [-> Hf]. by apply IH.
Qed.

(** ** Segments of a buffer *)

Lemma has_at_nil buf p : has_at buf p [].
Proof. by intros i c. Qed.

Lemma has_at_cons buf p c l : has_at buf p (c :: l) ↔ buf !! p = Some c ∧ has_at buf (S p) l.
Proof.
  split.
  - intros H. split; [by rewrite <- (H 0 c), Nat.add_0_r|].
    intros i c' Hi. rewrite <- (H (S i) c' Hi). f_equal. lia.
  - intros [Hc Hl] [|i] c'; simpl; [rewrite Nat.add_0_r; congruence|].
    intros Hi. rewrite <- (Hl i c' Hi). f_equal. lia.
Qed.

Lemma has_at_app buf p l1 l2 :
  has_at buf p (l1 ++ l2) ↔ has_at buf p l1 ∧ has_at buf (p + length l1) l2.
Proof.
  revert p. induction l1 as [|c l1 IH]; intros p; simpl.
  - rewrite Nat.add_0_r. split; [intros; split; [apply has_at_nil|done]|by intros [_ ?]].
  - rewrite !has_at_cons, IH. replace (S p + length l1) with (p + S (length l1)) by lia. tauto.
Qed.

Lemma has_at_whole buf : has_at buf 0 buf.
Proof. by intros i c. Qed.

Lemma has_at_middle pre l post : has_at (pre ++ l ++ post) (length pre) l.
Proof.
  pose proof (has_at_whole (pre ++ l ++ post)) as H.
  by apply has_at_app in H as [_ [H _]%has_at_app].
Qed.

Lemma has_at_suffix pre l : has_at (pre ++ l) (length pre) l.
Proof. pose proof (has_at_middle pre l []) as H. by rewrite app_nil_r in H. Qed.

Lemma has_at_lookup buf p l i c : has_at buf p l → l !! i = Some c → buf !! (p + i) = Some c.
Proof. intros H. apply H. Qed.

Lemma has_at_head buf p c l : has_at buf p (c :: l) → buf !! p = Some c.
Proof. by intros [? _]%has_at_cons. Qed.

Lemma has_at_length buf p l : has_at buf p l → l ≠ [] → p + length l ≤ length buf.
Proof.
  destruct l as [|c l _] using rev_ind; [done|].
  intros H _. specialize (H (length l) c). rewrite list_lookup_middle in H by done.
  specialize (H eq_refl). apply lookup_lt_Some in H. rewrite length_app. simpl. lia.
Qed.

Lemma has_at_take_drop buf p l : has_at buf p l → take (length l) (drop p buf) = l.
Proof.
  intros H. apply list_eq. intros i. destruct (l !! i) as [c|] eqn:E.
  - apply lookup_take_Some. rewrite lookup_drop. split; [by apply H|by apply lookup_lt_Some in E].
  - apply lookup_take_None. right. by apply lookup_ge_None in E.
Qed.

#[export] Hint Resolve char_at_terminates skip_while_terminates strncpy_terminates : disp.
#[export] Hint Resolve has_at_nil has_at_whole has_at_middle : disp.
#[export] Hint Resolve c_str_no_nul strchr_NUL : disp.
