(* ===== verification/Types.v ===== *)
(** * The data types of display.h

    [display_t] (display.h 60-66), the enumeration [var_type] (115-155) with
    the value C gives each enumerator, [format_spec_t] (157-161) and
    [format_specs_array_t] (163-167).

    A [char*] field is the buffer it points to.  A function pointer is an
    [option] of the function it points to, [None] being the null pointer; a
    callback returns the text it writes to its sink and its [int] result, or
    has an undefined behaviour of its own ([Prelude.call]). *)

From Stdlib Require Import Ascii ZArith Lia.
From stdpp Require Import base tactics option list numbers countable finite.
From S2P Require Import Prelude CString.

(** ** Definitions *)

(** Addresses of caller objects; a pointer is [None] when null. *)
Definition loc : Type := N.
Definition ptr : Type := option loc.

(** A [FILE*] names a stream. *)
Definition FILE : Type := N.

Record display_t : Type := {
  display_fn : option (loc → call (list ascii * Z));
  fdisplay_fn : option (loc → FILE → call (list ascii * Z));
  sndisplay_fn : option (loc → nat → call (list ascii * Z));
  self : ptr;
}.

Inductive var_type : Set :=
(* Floating point *)
| TYPE_FLOAT
| TYPE_DOUBLE
| TYPE_LONG_DOUBLE
(* Pointers *)
| TYPE_POINTER
| TYPE_STRING
(* Reference *)
| TYPE_POINTER_SIGNED_INT8
| TYPE_POINTER_SHORT
| TYPE_POINTER_INT
| TYPE_POINTER_LONG
| TYPE_POINTER_LONG_LONG
| TYPE_POINTER_INTMAX_T
| TYPE_POINTER_SSIZE_T
| TYPE_POINTER_PTRDIFF_T
(* Signed integers *)
| TYPE_SIGNED_INT8
| TYPE_SHORT
| TYPE_INT
| TYPE_LONG
| TYPE_LONG_LONG
| TYPE_INTMAX_T
| TYPE_SSIZE_T
| TYPE_PTRDIFF_T
(* Unsigned integers *)
| TYPE_UINT8
| TYPE_USHORT
| TYPE_UINT
| TYPE_ULONG
| TYPE_ULONG_LONG
| TYPE_UINTMAX_T
| TYPE_SIZE_T
| TYPE_NONE.

(** The enumerators in the order of their declaration; an enumerator's value
    is its position. *)
Definition var_type_enum : list var_type :=
  [TYPE_FLOAT; TYPE_DOUBLE; TYPE_LONG_DOUBLE; TYPE_POINTER; TYPE_STRING;
   TYPE_POINTER_SIGNED_INT8; TYPE_POINTER_SHORT; TYPE_POINTER_INT;
   TYPE_POINTER_LONG; TYPE_POINTER_LONG_LONG; TYPE_POINTER_INTMAX_T;
   TYPE_POINTER_SSIZE_T; TYPE_POINTER_PTRDIFF_T;
   TYPE_SIGNED_INT8; TYPE_SHORT; TYPE_INT; TYPE_LONG; TYPE_LONG_LONG;
   TYPE_INTMAX_T; TYPE_SSIZE_T; TYPE_PTRDIFF_T;
   TYPE_UINT8; TYPE_USHORT; TYPE_UINT; TYPE_ULONG; TYPE_ULONG_LONG;
   TYPE_UINTMAX_T; TYPE_SIZE_T; TYPE_NONE].

#[export] Instance var_type_eq_dec : EqDecision var_type.
Proof. solve_decision. Defined.

Definition var_type_value (t : var_type) : Z :=
  from_option Z.of_nat (-1)%Z (list_find (λ u, u = t) var_type_enum ≫= λ x, Some x.1).

Record format_spec_t : Type := {
  substr : list ascii;   (* the buffer of the marker's text, NUL-terminated *)
  type : var_type;
}.

#[export] Instance format_spec_t_eq_dec : EqDecision format_spec_t.
Proof. solve_decision. Defined.

Record format_specs_array_t : Type := {
  data : list format_spec_t;
  count : nat;
}.

#[export] Instance format_specs_array_t_eq_dec : EqDecision format_specs_array_t.
Proof. solve_decision. Defined.

(** [{NULL, 0}], the initialiser of display.h 178. *)
Definition specs_empty : format_specs_array_t := {| data := []; count := 0 |}.

(** The array is consistent when [count] is the number of cells of [data]. *)
Definition specs_wf (specs : format_specs_array_t) : Prop :=
  count specs = length (data specs).

(** [specs.data[i]], undefined outside the array. *)
Definition specs_at (specs : format_specs_array_t) (i : nat) : outcome format_spec_t :=
  of_option OobRead (data specs !! i).

(** ** Facts *)

Lemma var_type_enum_complete t : t ∈ var_type_enum.
Proof. destruct t; by apply (bool_decide_unpack _); vm_compute. Qed.

Lemma var_type_enum_NoDup : NoDup var_type_enum.
Proof. by apply (bool_decide_unpack _); vm_compute. Qed.

#[export] Instance var_type_finite : Finite var_type :=
  {| enum := var_type_enum;
     NoDup_enum := var_type_enum_NoDup;
     elem_of_enum := var_type_enum_complete |}.

(** The enumerators have the values 0 to 28, so none is the [-1] that
    [find_format_specifiers] uses for "no type". *)
Lemma var_type_value_range t : (0 ≤ var_type_value t ≤ 28)%Z.
Proof. destruct t; vm_compute; split; discriminate. Qed.

(** The enumerators have distinct values: the tag of a cell selects one case
    of the driver's [switch]. *)
Lemma var_type_value_inj t u : var_type_value t = var_type_value u → t = u.
Proof. destruct t, u; vm_compute; congruence. Qed.

Lemma specs_empty_wf : specs_wf specs_empty.
Proof. done. Qed.

Lemma specs_at_Done specs i e : specs_at specs i ⇓ e ↔ data specs !! i = Some e.
Proof. apply of_option_Done. Qed.

#[export] Hint Resolve specs_empty_wf : disp.

Lemma var_type_value_inj_witness : TYPE_NONE = TYPE_NONE.
Proof. apply var_type_value_inj. reflexivity. Defined.
