(* ===== verification/Scanner.v ===== *)
(** * The specifier scanner: [find_format_specifiers] (display.h 176-348)

    One definition per phase of the C function, in its order: the [%%] test,
    flags, width, precision, length modifier, conversion letter, the copy of
    the marker's text, the resolution of its type, and the append to the
    array.  [scan_iter] is one iteration of the [while ( *p)] loop and
    [find_format_specifiers] runs it under [loop].

    The variable [type], initialised to [-1], is an [option var_type] with
    [None] for [-1].  The local array [char length[3]] is a list of three
    characters. *)

From Stdlib Require Import Ascii ZArith Lia.
From stdpp Require Import base tactics option list numbers strings relations.
From S2P Require Import Prelude CString Types.

(** ** Definitions *)

(** A pointer result used as a condition. *)
Definition nonnull {A} (o : option A) : bool := if o is Some _ then true else false.

(** [strcmp(a, "s") == 0] *)
Notation "a =s= s" := (Z.eqb (strcmp a (cstr (lit s))) 0)
  (at level 70, no associativity) : disp_scope.

Definition FLAGS : list ascii := lit "-+ #0".
Definition LENGTHS : list ascii := lit "hljztL".
Definition SPECIFIERS : list ascii := lit "diouxXeEfFgGaAcspn%".

Definition is_flag (c : ascii) : bool := nonnull (strchr FLAGS c).
Definition is_length (c : ascii) : bool := nonnull (strchr LENGTHS c).
Definition is_specifier (c : ascii) : bool := nonnull (strchr SPECIFIERS c).

Record scan_state : Type := ScanState {
  scan_p : nat;                          (* [p - format] *)
  scan_specs : format_specs_array_t;     (* [specs]; [count] is [specs.count] *)
}.

(** Flags (194-196). *)
Definition skip_flags (buf : list ascii) (p : nat) : outcome nat :=
  skip_while is_flag buf p.

(** Width: numbers or [*] (199-205). *)
Definition skip_width (buf : list ascii) (p : nat) : outcome nat :=
  c ← char_at buf p;
  if (c =? "*")%char then Done (S p) else skip_while isdigit buf p.

(** Precision (208-217). *)
Definition skip_precision (buf : list ascii) (p : nat) : outcome nat :=
  c ← char_at buf p;
  if (c =? ".")%char then
    c' ← char_at buf (S p);
    if (c' =? "*")%char then Done (S (S p)) else skip_while isdigit buf (S p)
  else Done p.

(** Length (220-229): the array [length] and the new offset. *)
Definition scan_length (buf : list ascii) (p : nat) : outcome (list ascii * nat) :=
  let length := [NUL; NUL; NUL] in
  c ← char_at buf p;
  if is_length c then
    let length := <[0 := c]> length in
    c' ← char_at buf (S p);
    if ((c' =? "h")%char || (c' =? "l")%char) && ((c =? "h")%char || (c =? "l")%char)
    then Done (<[1 := c']> length, S (S p))
    else Done (length, S p)
  else Done (length, p).

(** The three integer tables and the floating-point test (262-325). *)
Definition resolve_reference (length : list ascii) : var_type :=
  if length =s= "hh" then TYPE_POINTER_SIGNED_INT8
  else if length =s= "h" then TYPE_POINTER_SHORT
  else if length =s= "" then TYPE_POINTER_INT
  else if length =s= "l" then TYPE_POINTER_LONG
  else if length =s= "ll" then TYPE_POINTER_LONG_LONG
  else if length =s= "j" then TYPE_POINTER_INTMAX_T
  else if length =s= "z" then TYPE_POINTER_SSIZE_T
  else if length =s= "t" then TYPE_POINTER_PTRDIFF_T
  else TYPE_POINTER_INT.

Definition resolve_signed (length : list ascii) : var_type :=
  if length =s= "hh" then TYPE_SIGNED_INT8
  else if length =s= "h" then TYPE_SHORT
  else if length =s= "" then TYPE_INT
  else if length =s= "l" then TYPE_LONG
  else if length =s= "ll" then TYPE_LONG_LONG
  else if length =s= "j" then TYPE_INTMAX_T
  else if length =s= "z" then TYPE_SSIZE_T
  else if length =s= "t" then TYPE_PTRDIFF_T
  else TYPE_INT.

Definition resolve_unsigned (length : list ascii) : var_type :=
  if length =s= "hh" then TYPE_UINT8
  else if length =s= "h" then TYPE_USHORT
  else if length =s= "" then TYPE_UINT
  else if length =s= "l" then TYPE_ULONG
  else if length =s= "ll" then TYPE_ULONG_LONG
  else if length =s= "j" then TYPE_UINTMAX_T
  else if length =s= "z" then TYPE_SIZE_T
  else if length =s= "t" then TYPE_PTRDIFF_T
  else TYPE_UINT.

Definition resolve_float (length : list ascii) : var_type :=
  if length =s= "L" then TYPE_LONG_DOUBLE else TYPE_DOUBLE.

(** Get type (251-326); [None] is the initial [-1]. *)
Definition resolve_type (specifier : ascii) (length : list ascii) : option var_type :=
  if (specifier =? "%")%char then Some TYPE_NONE
  else if (specifier =? "p")%char then Some TYPE_POINTER
  else if (specifier =? "c")%char then Some TYPE_INT
  else if (specifier =? "s")%char then Some TYPE_STRING
  else if (specifier =? "n")%char then Some (resolve_reference length)
  else if nonnull (strchr (lit "di") specifier) then Some (resolve_signed length)
  else if nonnull (strchr (lit "ouxX") specifier) then Some (resolve_unsigned length)
  else if nonnull (strchr (lit "eEfFgGaA") specifier) then Some (resolve_float length)
  else None.

(** The copy of the marker's text (240-248): [len] characters from [start]
    and the terminator. *)
Definition copy_substr (buf : list ascii) (start len : nat) : outcome (list ascii) :=
  sub ← strncpy (drop start buf) len;
  Done (sub ++ [NUL]).

(** The append of one cell (329-338). *)
Definition push_spec (specs : format_specs_array_t) (sub : list ascii) (ty : var_type) :
    format_specs_array_t :=
  {| data := data specs ++ [{| substr := sub; type := ty |}];
     count := S (count specs) |}.

(** The marker that starts at [start] (189-341): the offset after it and the
    array, extended when the marker is accepted. *)
Definition scan_marker (buf : list ascii) (specs : format_specs_array_t) (start : nat) :
    outcome scan_state :=
  p ← skip_flags buf (S start);
  p ← skip_width buf p;
  p ← skip_precision buf p;
  '(length, p) ← scan_length buf p;
  specifier ← char_at buf p;
  if is_specifier specifier then
    let p := S p in
    sub ← copy_substr buf start (p - start);
    match resolve_type specifier length with
    | Some ty => Done (ScanState p (push_spec specs sub ty))
    | None => Done (ScanState p specs)
    end
  else Done (ScanState p specs).

(** One iteration of [while ( *p)] (181-345). *)
Definition scan_iter (buf : list ascii) (st : scan_state) :
    outcome (scan_state + format_specs_array_t) :=
  let p := scan_p st in
  c ← char_at buf p;
  if is_nul c then Done (inr (scan_specs st))
  else if (c =? "%")%char then
    c' ← char_at buf (S p);
    if (c' =? "%")%char then Done (inl (ScanState (p + 2) (scan_specs st)))
    else inl <$> scan_marker buf (scan_specs st) p
  else Done (inl (ScanState (S p) (scan_specs st))).

Definition scan_fuel (buf : list ascii) : nat := S (length buf).

Definition find_format_specifiers (buf : list ascii) : outcome format_specs_array_t :=
  loop (scan_iter buf) (scan_fuel buf) (ScanState 0 specs_empty).

(** ** What the array holds

    [marker_at s e start len]: the cell [e] is the copy of the [len]
    characters of the template [s] from offset [start], which begin with [%].
    [laid_out s p es]: the cells [es] are such copies of markers that lie in
    [s] one after the other, from left to right, before offset [p]. *)
Definition marker_at (s : list ascii) (e : format_spec_t) (start len : nat) : Prop :=
  2 ≤ len ∧ start + len ≤ length s ∧ s !! start = Some "%"%char
  ∧ substr e = cstr (take len (drop start s)).

Inductive laid_out (s : list ascii) : nat → list format_spec_t → Prop :=
| laid_out_nil p : laid_out s p []
| laid_out_snoc p start len es e :
    laid_out s start es → marker_at s e start len → start + len ≤ p →
    laid_out s p (es ++ [e]).

(** ** The character classes *)

Lemma nonnull_true {A} (o : option A) : nonnull o = true ↔ is_Some o.
Proof. destruct o; simpl; split; intros H; first [done|by eexists|by destruct H]. Qed.

Lemma is_flag_true c : is_flag c = true ↔ c ∈ FLAGS ∨ c = NUL.
Proof. unfold is_flag. by rewrite nonnull_true, strchr_is_Some. Qed.

Lemma is_length_true c : is_length c = true ↔ c ∈ LENGTHS ∨ c = NUL.
Proof. unfold is_length. by rewrite nonnull_true, strchr_is_Some. Qed.

Lemma is_specifier_true c : is_specifier c = true ↔ c ∈ SPECIFIERS ∨ c = NUL.
Proof. unfold is_specifier. by rewrite nonnull_true, strchr_is_Some. Qed.

(** The three tests accept the terminator: [strchr] finds NUL in every
    string. *)
Lemma classes_accept_NUL : is_flag NUL = true ∧ is_length NUL = true ∧ is_specifier NUL = true.
Proof. done. Qed.

(** ** Every phase moves forward and stays inside the buffer *)

Lemma skip_flags_bounds buf p q : skip_flags buf p ⇓ q → p ≤ q < length buf.
Proof. apply skip_while_bounds. Qed.

Lemma skip_width_bounds buf p q : skip_width buf p ⇓ q → p ≤ q ≤ length buf.
Proof.
  unfold skip_width. intros (c & Hc%char_at_lt & H)%bind_Done.
  case_if; [outcome_inv; lia|]. apply skip_while_bounds in H. lia.
Qed.

Lemma skip_precision_bounds buf p q : skip_precision buf p ⇓ q → p ≤ q ≤ length buf.
Proof.
  unfold skip_precision. intros (c & Hc%char_at_lt & H)%bind_Done.
  case_if; [|outcome_inv; lia]. apply bind_Done in H as (c' & Hc'%char_at_lt & H).
  case_if; [outcome_inv; lia|]. apply skip_while_bounds in H. lia.
Qed.

Lemma scan_length_bounds buf p q len : scan_length buf p ⇓ (len, q) → p ≤ q ≤ length buf.
Proof.
  unfold scan_length. intros (c & Hc%char_at_lt & H)%bind_Done.
  case_if; [|outcome_inv; lia]. apply bind_Done in H as (c' & Hc'%char_at_lt & H).
  case_if; outcome_inv; lia.
Qed.

Lemma scan_length_length buf p q len : scan_length buf p ⇓ (len, q) → length len = 3.
Proof.
  unfold scan_length. intros (c & _ & H)%bind_Done.
  case_if; [|by outcome_inv]. apply bind_Done in H as (c' & _ & H).
  case_if; by outcome_inv.
Qed.

Lemma push_spec_wf specs sub ty : specs_wf specs → specs_wf (push_spec specs sub ty).
Proof. unfold specs_wf. simpl. rewrite length_app. simpl. lia. Qed.

(** What [scan_marker] returns: an offset at least one past [start] and,
    when the array grew, a marker of at least two characters whose text was
    copied from [start]. *)
Lemma scan_marker_Done buf specs start st :
  scan_marker buf specs start ⇓ st →
  start < scan_p st ≤ length buf
  ∧ (scan_specs st = specs
     ∨ ∃ sub ty, scan_specs st = push_spec specs sub ty
         ∧ copy_substr buf start (scan_p st - start) ⇓ sub
         ∧ 2 ≤ scan_p st - start).
Proof.
  unfold scan_marker.
  intros (p1 & H1%skip_flags_bounds & H)%bind_Done.
  apply bind_Done in H as (p2 & H2%skip_width_bounds & H).
  apply bind_Done in H as (p3 & H3%skip_precision_bounds & H).
  apply bind_Done in H as ([len p4] & H4%scan_length_bounds & H).
  apply bind_Done in H as (c & Hc%char_at_lt & H).
  case_if; [|outcome_inv; simpl; split; [lia|by left]].
  apply bind_Done in H as (sub & Hsub & H).
  destruct (resolve_type c len) as [ty|]; outcome_inv; simpl; (split; [lia|]); [|by left].
  right. exists sub, ty. split_and!; [done|done|lia].
Qed.

(** ** Termination *)

(** The copy of characters that lie in the buffer reads nothing else. *)
Lemma copy_substr_safe buf start len :
  start + len ≤ length buf → safe (copy_substr buf start len).
Proof.
  intros Hlen. unfold copy_substr, strncpy. cbv zeta.
  rewrite decide_False by (rewrite length_drop; lia). by eexists.
Qed.

Lemma copy_substr_terminates buf start len : terminates (copy_substr buf start len).
Proof. unfold copy_substr. solve_terminates. Qed.

Lemma scan_length_terminates buf p : terminates (scan_length buf p).
Proof. unfold scan_length. solve_terminates. Qed.

Lemma skip_width_terminates buf p : terminates (skip_width buf p).
Proof. unfold skip_width. solve_terminates. Qed.

Lemma skip_precision_terminates buf p : terminates (skip_precision buf p).
Proof. unfold skip_precision. solve_terminates. Qed.

#[export] Hint Resolve copy_substr_terminates scan_length_terminates
  skip_width_terminates skip_precision_terminates : disp.

Lemma scan_marker_terminates buf specs start : terminates (scan_marker buf specs start).
Proof. unfold scan_marker, skip_flags. solve_terminates. Qed.

#[export] Hint Resolve scan_marker_terminates : disp.

Lemma scan_iter_terminates buf st : terminates (scan_iter buf st).
Proof. unfold scan_iter. solve_terminates. Qed.

(** Every iteration that goes round again moves the offset forward, by at
    least one character, and leaves it inside the buffer or one past it. *)
Lemma scan_iter_advances buf st st' :
  scan_iter buf st ⇓ inl st' → scan_p st < scan_p st' ≤ length buf.
Proof.
  unfold scan_iter. intros (c & Hc%char_at_lt & H)%bind_Done.
  case_if; [done|]. case_if; [|outcome_inv; simpl; lia].
  apply bind_Done in H as (c' & Hc'%char_at_lt & H).
  case_if; [outcome_inv; simpl; lia|].
  apply fmap_Done in H as (st1 & H & [= ->]). by apply scan_marker_Done in H as [? _].
Qed.

Lemma scan_iter_specs buf st st' :
  scan_iter buf st ⇓ inl st' →
  scan_specs st' = scan_specs st
  ∨ ∃ sub ty, scan_specs st' = push_spec (scan_specs st) sub ty
      ∧ buf !! scan_p st = Some "%"%char
      ∧ copy_substr buf (scan_p st) (scan_p st' - scan_p st) ⇓ sub
      ∧ 2 ≤ scan_p st' - scan_p st.
Proof.
  unfold scan_iter. intros (c & Hc%char_at_Done & H)%bind_Done.
  case_if; [done|]. destruct (Ascii.eqb_spec c "%") as [->|_]; [|outcome_inv; by left].
  apply bind_Done in H as (c' & _ & H). case_if; [outcome_inv; by left|].
  apply fmap_Done in H as (st1 & H & [= ->]).
  apply scan_marker_Done in H as [_ [?|(sub & ty & ? & ? & ?)]]; [by left|right].
  by exists sub, ty.
Qed.

Lemma scan_iter_exit buf st specs :
  scan_iter buf st ⇓ inr specs → specs = scan_specs st ∧ buf !! scan_p st = Some NUL.
Proof.
  unfold scan_iter. intros (c & Hc%char_at_Done & H)%bind_Done.
  destruct (is_nul c) eqn:E; [apply is_nul_true in E as ->; by outcome_inv|].
  case_if; [|done]. apply bind_Done in H as (c' & _ & H).
  case_if; [done|]. by apply fmap_Done in H as (? & _ & ?).
Qed.

Section ScannerTheorems.
Context (buf : list ascii).
Implicit Types (st : scan_state) (specs : format_specs_array_t).

Lemma scan_loop_terminates fuel st :
  length buf - scan_p st < fuel → scan_p st ≤ length buf →
  terminates (loop (scan_iter buf) fuel st).
Proof.
  intros Hfuel Hp.
  apply (loop_terminates _ (λ st, scan_p st ≤ length buf) (λ st, length buf - scan_p st));
    [intros; apply scan_iter_terminates| |done|done].
  intros s s' _ ?%scan_iter_advances. lia.
Qed.

(** [scan_fuel] is enough for the loop from the start of the buffer. *)
Lemma scan_fuel_enough :
  terminates (loop (scan_iter buf) (scan_fuel buf) (ScanState 0 specs_empty)).
Proof. apply scan_loop_terminates; unfold scan_fuel; simpl; lia. Qed.

(** C26. The scan of any buffer, terminated or not, ends: with the array or
    with an undefined read, never for lack of fuel.  The position does not
    stall on a malformed marker. *)
Theorem find_format_specifiers_terminates : terminates (find_format_specifiers buf).
Proof. apply scan_fuel_enough. Qed.

(** The result does not depend on the fuel, once there is enough. *)
Theorem find_format_specifiers_fuel fuel :
  scan_fuel buf ≤ fuel →
  loop (scan_iter buf) fuel (ScanState 0 specs_empty) = find_format_specifiers buf.
Proof.
  intros. apply loop_agree; [|apply scan_fuel_enough].
  apply scan_loop_terminates; unfold scan_fuel in *; simpl; lia.
Qed.

(** The array the scan returns is consistent: [count] cells. *)
Lemma find_format_specifiers_wf specs :
  find_format_specifiers buf ⇓ specs → specs_wf specs.
Proof.
  apply (loop_invariant _ (λ st, specs_wf (scan_specs st))); [| |done].
  - intros s s' Hwf [->|(sub & ty & -> & _)]%scan_iter_specs; [done|].
    by apply push_spec_wf.
  - by intros s r Hwf [-> _]%scan_iter_exit.
Qed.

End ScannerTheorems.

(** ** The cells are the markers of the template, in order *)

Lemma laid_out_mono s p q es : laid_out s p es → p ≤ q → laid_out s q es.
Proof. destruct 1; intros; [constructor|econstructor; [done..|lia]]. Qed.

Lemma laid_out_length s p es : laid_out s p es → 2 * length es ≤ p.
Proof.
  induction 1 as [|p start len es e _ IH (? & _)]; simpl; [lia|].
  rewrite length_app. simpl. lia.
Qed.

Lemma laid_out_Forall s p es :
  laid_out s p es → Forall (λ e, ∃ start len, marker_at s e start len ∧ start + len ≤ p) es.
Proof.
  induction 1 as [|p start len es e _ IH]; [constructor|].
  apply Forall_app. split; [|repeat constructor; eauto].
  eapply Forall_impl; [done|]. intros e' (st' & len' & ? & ?). exists st', len'. split; [done|lia].
Qed.

Lemma marker_at_strlen s e start len :
  no_nul s → marker_at s e start len → strlen (substr e) = len.
Proof.
  intros Hs (_ & Hlen & _ & ->). rewrite strlen_cstr by by apply no_nul_take, no_nul_drop.
  apply length_take_drop_le. lia.
Qed.

Lemma copy_substr_cstr s start len :
  no_nul s → start + len ≤ length s →
  copy_substr (cstr s) start len ⇓ cstr (take len (drop start s)).
Proof.
  intros Hs Hlen. unfold copy_substr, cstr at 1.
  rewrite drop_app_le by lia.
  assert (take len (drop start s ++ [NUL]) = take len (drop start s)) as E.
  { apply take_app_le. rewrite length_drop. lia. }
  rewrite (strncpy_no_nul _ len); rewrite ?E; [done| |by apply no_nul_take, no_nul_drop].
  rewrite length_app, length_drop. simpl. lia.
Qed.

Lemma cstr_lookup_NUL s p : no_nul s → cstr s !! p = Some NUL → p = length s.
Proof.
  intros Hs. unfold cstr. rewrite lookup_app_nul.
  repeat case_decide; try done. intros Hl. by apply no_nul_lookup in Hl.
Qed.

Lemma cstr_lookup_lt s p c : cstr s !! p = Some c → c ≠ NUL → s !! p = Some c.
Proof. unfold cstr. rewrite lookup_app_nul. repeat case_decide; congruence. Qed.

Section ScannerOnStrings.
Context (s : list ascii) (Hs : no_nul s).
Implicit Types (st : scan_state) (specs : format_specs_array_t).

(** The invariant of the scan of a C string: as long as the offset is inside
    the string, the cells are the markers met so far. *)
Definition scan_inv st : Prop :=
  scan_p st ≤ length s → laid_out s (scan_p st) (data (scan_specs st)).

Lemma scan_inv_init : scan_inv (ScanState 0 specs_empty).
Proof. intros _. constructor. Qed.

Lemma scan_inv_step st st' : scan_inv st → scan_iter (cstr s) st ⇓ inl st' → scan_inv st'.
Proof using Hs.
  intros Hinv Hiter Hp'. pose proof (scan_iter_advances _ _ _ Hiter) as [Hlt _].
  specialize (Hinv ltac:(lia)).
  apply scan_iter_specs in Hiter as [->|(sub & ty & -> & Hpc & Hsub & Hlen)].
  - eapply laid_out_mono; [done|lia].
  - simpl. apply (laid_out_snoc _ _ (scan_p st) (scan_p st' - scan_p st)); [done| |lia].
    rewrite copy_substr_cstr in Hsub by (done || lia). injection Hsub as <-.
    split_and!; [done|lia| |done]. by apply cstr_lookup_lt in Hpc.
Qed.

Lemma scan_inv_exit st specs :
  scan_inv st → scan_iter (cstr s) st ⇓ inr specs → laid_out s (length s) (data specs).
Proof using Hs.
  intros Hinv [-> Hnul%cstr_lookup_NUL]%scan_iter_exit; [|done].
  rewrite <- Hnul. apply Hinv. lia.
Qed.

Lemma scan_laid_out specs :
  find_format_specifiers (cstr s) ⇓ specs → laid_out s (length s) (data specs).
Proof using Hs.
  apply (loop_invariant _ scan_inv (λ specs, laid_out s (length s) (data specs)));
    [apply scan_inv_step|apply scan_inv_exit|apply scan_inv_init].
Qed.

(** C28. On a C string, the cells the scan returns are NUL-terminated copies
    of substrings of the template, each beginning with [%] and at least two
    characters long, in the order and at the places they have in the
    template, without overlap. *)
Theorem find_format_specifiers_laid_out specs :
  find_format_specifiers (cstr s) ⇓ specs → laid_out s (length s) (data specs).
Proof using Hs. apply scan_laid_out. Qed.

(** The scan accepts at most one marker per two characters of the
    template, so [int count] cannot overflow on a template whose length fits
    an [int]. *)
Theorem find_format_specifiers_count specs :
  find_format_specifiers (cstr s) ⇓ specs → 2 * count specs ≤ length s.
Proof using Hs.
  intros H. rewrite (find_format_specifiers_wf _ _ H).
  by apply (laid_out_length s), scan_laid_out.
Qed.

(** Every cell is a C string of the length of its marker: what
    [strlen(specs.data[i].substr)] returns in the driver. *)
Theorem find_format_specifiers_strlen specs e :
  find_format_specifiers (cstr s) ⇓ specs → e ∈ data specs → 2 ≤ strlen (substr e) ≤ length s.
Proof using Hs.
  intros H%scan_laid_out%laid_out_Forall He.
  rewrite Forall_forall in H. destruct (H e He) as (start & len & Hm & _).
  rewrite (marker_at_strlen _ _ _ _ Hs Hm). destruct Hm as (? & ? & _). lia.
Qed.

End ScannerOnStrings.

(** ** Runs of the scanner, step by step *)

Abbreviation scan_step buf := (loop_step (scan_iter buf)).

Lemma scan_iter_literal buf p specs c :
  buf !! p = Some c → c ≠ NUL → c ≠ "%"%char →
  scan_iter buf (ScanState p specs) ⇓ inl (ScanState (S p) specs).
Proof.
  intros Hc Hnul Hpc. unfold scan_iter, char_at. simpl. rewrite Hc. simpl.
  apply is_nul_false in Hnul as ->. by apply Ascii.eqb_neq in Hpc as ->.
Qed.

Lemma scan_iter_percent buf p specs :
  buf !! p = Some "%"%char → buf !! S p = Some "%"%char →
  scan_iter buf (ScanState p specs) ⇓ inl (ScanState (p + 2) specs).
Proof. intros Hc Hc'. unfold scan_iter, char_at. simpl. by rewrite Hc, Hc'. Qed.

Lemma scan_iter_marker buf p specs c :
  buf !! p = Some "%"%char → buf !! S p = Some c → c ≠ "%"%char →
  scan_iter buf (ScanState p specs) = inl <$> scan_marker buf specs p.
Proof.
  intros Hc Hc' Hne. unfold scan_iter, char_at. simpl. rewrite Hc, Hc'. simpl.
  by apply Ascii.eqb_neq in Hne as ->.
Qed.

(** Plain text is walked one character at a time. *)
Lemma scan_run_literals buf p lits specs :
  has_at buf p lits → Forall (λ c, c ≠ NUL ∧ c ≠ "%"%char) lits →
  rtc (scan_step buf) (ScanState p specs) (ScanState (p + length lits) specs).
Proof.
  intros Hat Hl. revert p Hat. induction Hl as [|c lits [Hnul Hpc] _ IH]; intros p Hat.
  - simpl. by rewrite Nat.add_0_r.
  - apply has_at_cons in Hat as [Hc Hat]. eapply rtc_l.
    + by apply (scan_iter_literal _ _ _ c).
    + simpl. rewrite <- Nat.add_succ_comm. by apply IH.
Qed.

(** The result of a run that reaches [st], from what the iteration at [st]
    does. *)
Lemma find_format_specifiers_undef buf st u :
  rtc (scan_step buf) (ScanState 0 specs_empty) st → scan_iter buf st ↯ u →
  find_format_specifiers buf ↯ u.
Proof. intros. eapply loop_rtc_undef; [done..|apply scan_fuel_enough]. Qed.

Lemma find_format_specifiers_exit buf st specs :
  rtc (scan_step buf) (ScanState 0 specs_empty) st → scan_iter buf st ⇓ inr specs →
  find_format_specifiers buf ⇓ specs.
Proof. intros. eapply loop_rtc_exit; [done..|apply scan_fuel_enough]. Qed.

(** C34. A template that ends in [%], or in [%] and flags, makes the scanner
    read past the terminator: [strchr] accepts the NUL as a flag and the
    loop goes on. *)
Theorem dangling_marker_undefined s fl :
  Forall (λ c, c ≠ NUL ∧ c ≠ "%"%char) s → Forall (λ c, c ∈ FLAGS) fl →
  find_format_specifiers (cstr (s ++ "%"%char :: fl)) ↯ OobRead.
Proof.
  intros Hs Hfl. set (buf := cstr (s ++ "%"%char :: fl)).
  assert (has_at buf 0 s ∧ has_at buf (length s) ("%"%char :: fl ++ [NUL])) as [Hat0 Hat].
  { rewrite <- (has_at_app buf 0). unfold buf, cstr. rewrite <- app_assoc. apply has_at_whole. }
  apply has_at_cons in Hat as [Hpc Hat].
  apply (find_format_specifiers_undef _ (ScanState (length s) specs_empty)).
  { by apply (scan_run_literals _ 0). }
  assert (∃ c, buf !! S (length s) = Some c ∧ c ≠ "%"%char) as (c & Hc & Hne).
  { destruct Hfl as [|c fl Hc _]; apply has_at_head in Hat; [by eexists|].
    exists c. split; [done|]. intros ->. revert Hc. by apply (bool_decide_unpack _). }
  rewrite (scan_iter_marker _ _ _ c) by done.
  unfold scan_marker, skip_flags, buf.
  rewrite (skip_while_nul_undefined is_flag); [done|done|rewrite length_app; simpl; lia|].
  intros i c' Hi Hc'. apply is_flag_true. left.
  rewrite lookup_app_r in Hc' by lia. destruct (i - length s) as [|k] eqn:E; [lia|].
  simpl in Hc'. rewrite Forall_forall in Hfl. by apply list_elem_of_lookup_2, Hfl in Hc'.
Qed.

(** ** Type resolution *)

(** An accepted conversion letter always gets a type: after the test of
    display.h 233, [type] is never [-1] at line 328, and the branch that
    frees the copy is dead. *)
Theorem resolve_type_accepts c len : is_specifier c = true → is_Some (resolve_type c len).
Proof.
  intros [Hc| ->]%is_specifier_true; [|by eexists].
  unfold SPECIFIERS, lit in Hc. simpl in Hc.
  repeat (apply elem_of_cons in Hc as [->|Hc]; [by eexists|]).
  by apply elem_of_nil in Hc.
Qed.

(** The terminator is accepted as a conversion letter and resolved as a
    signed integer: [strchr("di", 0)] is not null. *)
Lemma resolve_type_NUL len : resolve_type NUL len = Some (resolve_signed len).
Proof. done. Qed.

(** ** On any buffer, every cell is a non-empty C string *)

Lemma copy_substr_head buf start len sub c :
  buf !! start = Some c → c ≠ NUL → 1 ≤ len →
  copy_substr buf start len ⇓ sub → 1 ≤ strlen sub.
Proof.
  intros Hc Hnul%is_nul_false Hlen (sub0 & Hcopy & [= <-])%bind_Done.
  unfold strncpy in Hcopy. rewrite (drop_S _ _ _ Hc) in Hcopy. simpl in Hcopy.
  rewrite Hnul in Hcopy. case_decide; [done|]. injection Hcopy as <-.
  destruct len as [|k]; [lia|]. unfold strlen. simpl. rewrite Hnul. simpl. lia.
Qed.

(** The driver adds [strlen(substr)] to its offset: it is never 0. *)
Lemma find_format_specifiers_nonempty buf specs :
  find_format_specifiers buf ⇓ specs → Forall (λ e, 1 ≤ strlen (substr e)) (data specs).
Proof.
  apply (loop_invariant _
    (λ st, Forall (λ e, 1 ≤ strlen (substr e)) (data (scan_specs st)))
    (λ specs, Forall (λ e, 1 ≤ strlen (substr e)) (data specs))); [| |constructor].
  - intros st st' Hinv [->|(sub & ty & -> & Hpc & Hsub & Hlen)]%scan_iter_specs; [done|].
    simpl. apply Forall_app. split; [done|]. repeat constructor. simpl.
    by apply (copy_substr_head buf (scan_p st) (scan_p st' - scan_p st) _ "%"%char); [| |lia|].
  - by intros st r Hinv [-> _]%scan_iter_exit.
Qed.

(** ** The theorems at concrete templates *)

Lemma sample_no_nul : no_nul (lit "a%d").
Proof. by apply (bool_decide_unpack _). Defined.

Lemma sample_scan :
  find_format_specifiers (cstr (lit "a%d"))
  ⇓ {| data := [{| substr := cstr (lit "%d"); type := TYPE_INT |}]; count := 1 |}.
Proof. by vm_compute. Defined.

Lemma find_format_specifiers_laid_out_witness :
  laid_out (lit "a%d") 3 [{| substr := cstr (lit "%d"); type := TYPE_INT |}].
Proof. exact (find_format_specifiers_laid_out _ sample_no_nul _ sample_scan). Defined.

Lemma find_format_specifiers_count_witness : 2 * 1 ≤ 3.
Proof. exact (find_format_specifiers_count _ sample_no_nul _ sample_scan). Defined.

Lemma find_format_specifiers_strlen_witness : 2 ≤ strlen (cstr (lit "%d")) ≤ 3.
Proof.
  apply (find_format_specifiers_strlen _ sample_no_nul _
           {| substr := cstr (lit "%d"); type := TYPE_INT |} sample_scan).
  apply list_elem_of_singleton. reflexivity.
Defined.

Lemma find_format_specifiers_fuel_witness :
  loop (scan_iter (cstr (lit "a%d"))) 9 (ScanState 0 specs_empty)
  = find_format_specifiers (cstr (lit "a%d")).
Proof. apply find_format_specifiers_fuel. vm_compute. lia. Defined.

Lemma dangling_marker_undefined_witness :
  find_format_specifiers (cstr (lit "100" ++ "%"%char :: lit "-")) ↯ OobRead.
Proof.
  apply dangling_marker_undefined.
  - repeat constructor; discriminate.
  - repeat constructor.
Defined.

Lemma resolve_type_accepts_witness : is_Some (resolve_type "d" (lit "ll")).
Proof. apply resolve_type_accepts. reflexivity. Defined.
