(* ===== verification/VaList.v ===== *)
(** * The argument cursor

    [va_list] is the list of the arguments that are left, each a value with
    the C type it was passed at (after the default argument promotions).
    [va_arg] takes the next one; C leaves it undefined when none is left or
    when the requested type is not compatible with the argument's (C11
    7.16.1.1).  Which types are compatible depends on the platform's
    typedefs, so [va_arg] is stated against the class [ArgModel]; [strict] is
    the model in which a type is compatible only with itself, and [lp64] the
    one of an LP64 platform with the standard's exception for a signed type
    and its unsigned counterpart.

    [store_count] is the assignment through the pointer a [%n] marker
    consumes: the slots live in a [gmap loc Z]. *)

From Stdlib Require Import Ascii ZArith Lia.
From stdpp Require Import base tactics option list numbers gmap.
From S2P Require Import Prelude CString Types.

(** ** Definitions *)

(** The types the drivers name in [va_arg], and the ones [%n] writes to. *)
Inductive c_type : Set :=
| T_signed_char | T_short | T_int | T_long | T_long_long
| T_intmax_t | T_ssize_t | T_ptrdiff_t
| T_unsigned_int | T_unsigned_long | T_unsigned_long_long
| T_uintmax_t | T_size_t
| T_double | T_long_double
| T_void_ptr | T_char_ptr | T_display_ptr
| T_ptr (pointee : c_type).

#[export] Instance c_type_eq_dec : EqDecision c_type.
Proof. solve_decision. Defined.

(** An argument: an integer or a floating-point number (as its bits) of a
    named type, an untyped address, a C string or null, a pointer to an
    integer object, a displayable object or null. *)
Inductive c_val : Type :=
| V_int (t : c_type) (z : Z)
| V_float (t : c_type) (bits : Z)
| V_ptr (p : ptr)
| V_str (s : option (list ascii))
| V_ref (t : c_type) (p : ptr)
| V_display (d : option display_t).

Definition type_of (v : c_val) : c_type :=
  match v with
  | V_int t _ => t
  | V_float t _ => t
  | V_ptr _ => T_void_ptr
  | V_str _ => T_char_ptr
  | V_ref t _ => T_ptr t
  | V_display _ => T_display_ptr
  end.

Definition va_list : Type := list c_val.

(** What the drivers rely on from the platform: when [va_arg(ap, T)] may
    read an argument [v]. *)
Class ArgModel : Type := {
  compatible : c_type → c_val → bool;
  compatible_same : ∀ v, compatible (type_of v) v = true;
}.

(** [va_arg(ap, T)]: the argument and the advanced cursor. *)
Definition va_arg `{ArgModel} (T : c_type) (ap : va_list) : outcome (c_val * va_list) :=
  match ap with
  | [] => Undef VaArgEnd
  | v :: ap' => if compatible T v then Done (v, ap') else Undef VaArgType
  end.

(** The model in which only the argument's own type reads it. *)
#[export] Program Instance strict : ArgModel | 10 :=
  {| compatible T v := bool_decide (type_of v = T) |}.
Next Obligation. intros v. by apply bool_decide_eq_true. Qed.

(** LP64: [long], [long long], [intmax_t], [ssize_t] and [ptrdiff_t] are 64
    bits wide, [intmax_t], [ssize_t] and [ptrdiff_t] are [long]; [size_t] and
    [uintmax_t] are [unsigned long]. *)
Definition lp64_underlying (t : c_type) : c_type :=
  match t with
  | T_intmax_t | T_ssize_t | T_ptrdiff_t => T_long
  | T_uintmax_t | T_size_t => T_unsigned_long
  | t => t
  end.

Definition lp64_bits (t : c_type) : Z :=
  match t with
  | T_signed_char => 8
  | T_short => 16
  | T_int | T_unsigned_int => 32
  | _ => 64
  end.

Definition unsigned_counterpart (t : c_type) : c_type :=
  match t with
  | T_int => T_unsigned_int
  | T_long => T_unsigned_long
  | T_long_long => T_unsigned_long_long
  | t => t
  end.

Definition lp64_compatible (T : c_type) (v : c_val) : bool :=
  let a := lp64_underlying T in
  let b := lp64_underlying (type_of v) in
  bool_decide (a = b)
  || match v with
     | V_int _ z =>
         bool_decide (unsigned_counterpart a = unsigned_counterpart b)
         && bool_decide (0 ≤ z < 2 ^ (lp64_bits a - 1))%Z
     | V_ptr _ => bool_decide (T = T_char_ptr)
     | V_str _ => bool_decide (T = T_void_ptr)
     | _ => false
     end.

Program Definition lp64 : ArgModel := {| compatible := lp64_compatible |}.
Next Obligation. intros v. unfold lp64_compatible. by rewrite bool_decide_eq_true_2. Qed.

(** Two's complement wrap of [z] to a signed integer of [bits] bits. *)
Definition swrap (bits : Z) (z : Z) : Z :=
  ((z + 2 ^ (bits - 1)) mod 2 ^ bits - 2 ^ (bits - 1))%Z.

(** The conversion of an [int] value to the type of a [%n] slot: only
    [signed char] and [short] are narrower than [int]. *)
Definition convert_to (t : c_type) (z : Z) : Z :=
  match t with
  | T_signed_char => swrap 8 z
  | T_short => swrap 16 z
  | _ => z
  end.

(** [*p = z] for a pointer argument [v] to an object of type [t]. *)
Definition store_count (t : c_type) (v : c_val) (z : Z) (mem : gmap loc Z) :
    outcome (gmap loc Z) :=
  match v with
  | V_ref _ (Some l) => Done (<[l := convert_to t z]> mem)
  | _ => Undef NullDeref
  end.

(** ** Facts *)

Section VaArg.
Context `{ArgModel}.

Lemma va_arg_same v ap : va_arg (type_of v) (v :: ap) ⇓ (v, ap).
Proof. simpl. by rewrite compatible_same. Qed.

Lemma va_arg_Done T ap v ap' :
  va_arg T ap ⇓ (v, ap') ↔ ap = v :: ap' ∧ compatible T v = true.
Proof.
  destruct ap as [|v0 ap0]; simpl; [by split; [|intros [? _]]|].
  destruct (compatible T v0) eqn:E; split; try done.
  - by intros [= -> ->].
  - by intros [[= -> ->] _].
  - intros [[= -> ->] ?]. congruence.
Qed.

Lemma va_arg_terminates T ap : terminates (va_arg T ap).
Proof. destruct ap as [|v ap]; simpl; [done|]. by destruct (compatible T v). Qed.

(** The cursor advances by exactly one argument. *)
Lemma va_arg_length T ap v ap' : va_arg T ap ⇓ (v, ap') → length ap = S (length ap').
Proof. by intros [-> _]%va_arg_Done. Qed.

End VaArg.

Lemma swrap_range bits z : (0 < bits)%Z → (- 2 ^ (bits - 1) ≤ swrap bits z < 2 ^ (bits - 1))%Z.
Proof.
  intros Hb. unfold swrap.
  assert (2 ^ bits = 2 * 2 ^ (bits - 1))%Z as E.
  { rewrite <- Z.pow_succ_r by lia. f_equal. lia. }
  pose proof (Z.mod_pos_bound (z + 2 ^ (bits - 1)) (2 ^ bits) ltac:(lia)). lia.
Qed.

Lemma swrap_small bits z :
  (0 < bits)%Z → (- 2 ^ (bits - 1) ≤ z < 2 ^ (bits - 1))%Z → swrap bits z = z.
Proof.
  intros Hb Hz. unfold swrap.
  assert (2 ^ bits = 2 * 2 ^ (bits - 1))%Z as E.
  { rewrite <- Z.pow_succ_r by lia. f_equal. lia. }
  rewrite Z.mod_small by lia. lia.
Qed.

(** A count below 128 is stored unchanged in every slot type. *)
Lemma convert_to_small t z : (0 ≤ z < 128)%Z → convert_to t z = z.
Proof. intros. destruct t; simpl; try done; apply swrap_small; lia. Qed.

(** A count is stored unchanged exactly when it fits the slot: from 128
    on a [signed char] slot, and from 32768 on a [short] one, holds another
    number. *)
Lemma convert_to_fits t z :
  (0 ≤ z)%Z →
  convert_to t z = z
  ↔ match t with
    | T_signed_char => (z < 128)%Z
    | T_short => (z < 32768)%Z
    | _ => True
    end.
Proof.
  intros Hz. destruct t; simpl; try done; split; intros Hfit;
    try (apply swrap_small; lia).
  - pose proof (swrap_range 8 z ltac:(lia)). simpl in *. lia.
  - pose proof (swrap_range 16 z ltac:(lia)). simpl in *. lia.
Qed.

(** Past the range the value wraps round to the negative numbers. *)
Lemma convert_to_wraps t z bits :
  (t = T_signed_char ∧ bits = 8 ∨ t = T_short ∧ bits = 16)%Z →
  (2 ^ (bits - 1) ≤ z < 2 ^ bits + 2 ^ (bits - 1))%Z →
  convert_to t z = (z - 2 ^ bits)%Z.
Proof.
  intros [[-> ->]|[-> ->]] Hz; simpl in *; unfold swrap; simpl;
    match goal with |- ((?a) mod ?m - _ = _)%Z =>
      replace a with ((a - m) + 1 * m)%Z by lia; rewrite Z.mod_add by lia;
      rewrite Z.mod_small by lia; lia end.
Qed.

Lemma store_count_Done t v z mem mem' :
  store_count t v z mem ⇓ mem' ↔
  ∃ t' l, v = V_ref t' (Some l) ∧ mem' = <[l := convert_to t z]> mem.
Proof.
  destruct v as [| | | |t' [l|]|]; simpl; split; try done;
    try (by intros (? & ? & ? & _)).
  - intros [= <-]. by eexists _, _.
  - by intros (? & ? & [= <- <-] & ->).
Qed.

Lemma store_count_terminates t v z mem : terminates (store_count t v z mem).
Proof. by destruct v as [| | | |? [?|]|]. Qed.

#[export] Hint Resolve va_arg_terminates store_count_terminates : disp.
