(* ===== verification/Native.v ===== *)
(** * Native formatting: what the drivers need of [printf]

    The drivers call [printf(substr, v)] (or [fprintf(file, substr, v)]) with
    the text of one marker and exactly one argument.  [NativeFormat] states
    what the development assumes of that call: the text it writes, as a
    function of the directive and of the argument, and that a directive with
    an indirect width or precision ([*]) has undefined behaviour there, since
    [printf] then fetches an [int] before the value and only one argument was
    passed (C11 7.21.6.1).

    [plain_format] is an executable instance: it formats the integer,
    character and string conversions that have no flags, width or precision,
    and takes the text of every other directive from a parameter. *)

From Stdlib Require Import Ascii ZArith Lia.
From stdpp Require Import base tactics option list numbers strings pretty.
From S2P Require Import Prelude CString Types VaList.

(** ** Definitions *)

Class NativeFormat : Type := {
  native_format : list ascii → c_val → outcome (list ascii);
  native_terminates : ∀ d v, terminates (native_format d v);
  native_star : ∀ d v, "*"%char ∈ d → native_format d v ↯ BadFormat;
}.

(** The class of a directive that has no flags, width or precision. *)
Inductive plain_kind : Set := PSigned | PUnsigned | PChar | PString | POther.

Definition int_lengths : list (list ascii) :=
  lit <$> [""; "hh"; "h"; "l"; "ll"; "j"; "z"; "t"]%string.

(** The length modifier and the class of a directive [% length conv]. *)
Definition plain_kind_of (d : list ascii) : plain_kind * list ascii :=
  match d with
  | "%"%char :: rest =>
      match reverse rest with
      | c :: rlen =>
          let len := reverse rlen in
          if bool_decide (len ∈ int_lengths) && bool_decide (c ∈ lit "di") then (PSigned, len)
          else if bool_decide (len ∈ int_lengths) && bool_decide (c = "u"%char) then (PUnsigned, len)
          else if bool_decide (len = []) && bool_decide (c = "c"%char) then (PChar, len)
          else if bool_decide (len = []) && bool_decide (c = "s"%char) then (PString, len)
          else (POther, len)
      | [] => (POther, [])
      end
  | _ => (POther, [])
  end.

(** The conversions [hh] and [h] apply to the promoted argument. *)
Definition narrow_signed (len : list ascii) (z : Z) : Z :=
  if bool_decide (len = lit "hh") then swrap 8 z
  else if bool_decide (len = lit "h") then swrap 16 z
  else z.

Definition narrow_unsigned (len : list ascii) (z : Z) : Z :=
  if bool_decide (len = lit "hh") then (z mod 2 ^ 8)%Z
  else if bool_decide (len = lit "h") then (z mod 2 ^ 16)%Z
  else z.

Definition plain_format (other : list ascii → c_val → list ascii)
    (d : list ascii) (v : c_val) : outcome (list ascii) :=
  if bool_decide ("*"%char ∈ d) then Undef BadFormat
  else
    let '(k, len) := plain_kind_of d in
    match k, v with
    | PSigned, V_int _ z => Done (lit (pretty (narrow_signed len z)))
    | PUnsigned, V_int _ z => Done (lit (pretty (narrow_unsigned len z)))
    | PChar, V_int _ z => Done [ascii_of_N (Z.to_N (z mod 2 ^ 8))]
    | PString, V_str (Some buf) => Done (c_str buf)
    | PString, V_str None => Undef NullDeref
    | POther, _ => Done (other d v)
    | _, _ => Undef BadFormat
    end.

#[export] Program Instance plain_printf (other : list ascii → c_val → list ascii) :
    NativeFormat | 10 :=
  {| native_format := plain_format other |}.
Next Obligation.
  intros other d v. unfold plain_format. case_bool_decide; [done|].
  destruct (plain_kind_of d) as [[] len], v as [| | |[?|]| |]; done.
Qed.
Next Obligation. intros other d v Hd. unfold plain_format. by rewrite bool_decide_eq_true_2. Qed.

(** The instance used to run the drivers on concrete templates: directives
    outside the plain fragment print nothing. *)
Definition demo_printf : NativeFormat := plain_printf (λ _ _, []).

(** ** Facts *)

Lemma plain_format_d other t z : plain_format other (lit "%d") (V_int t z) ⇓ lit (pretty z).
Proof. done. Qed.

Lemma plain_format_s other s :
  no_nul s → plain_format other (lit "%s") (V_str (Some (cstr s))) ⇓ s.
Proof. intros Hs. unfold plain_format. simpl. by rewrite c_str_cstr. Qed.

#[export] Hint Resolve native_terminates : disp.
