(* ===== verification/Driver.v ===== *)
(** * The render driver for stdout: [display_vprint] (display.h 350-493)

    The state of the C function is the record [vstate]: the offset [p], the
    index [spec_idx] into the scanner's array, the two counters, the
    argument cursor, and the two things the function changes outside itself:
    the text written to stdout and the slots written through [%n] pointers.

    [vprint_switch] is the [switch] on the type of the current cell,
    [vprint_display] the [{}] branch, [vprint_iter] one iteration of
    [while ( *p)], and [display_vprint] the whole function.
    [display_vprintln] (495-501) adds the newline. *)

From Stdlib Require Import Ascii ZArith Lia.
From stdpp Require Import base tactics option list numbers strings gmap.
From S2P Require Import Prelude CString Types Scanner VaList Native.

(** ** Definitions *)

Record vstate : Type := VState {
  vp : nat;
  spec_idx : nat;
  spec_count : nat;
  struct_count : nat;
  args : va_list;
  out : list ascii;
  mem : gmap loc Z;
}.

(** [p += n] *)
Definition advance (n : nat) (st : vstate) : vstate :=
  VState (vp st + n) (spec_idx st) (spec_count st) (struct_count st)
    (args st) (out st) (mem st).

(** [putchar(c)] and the text a callee writes to stdout. *)
Definition emit (text : list ascii) (st : vstate) : vstate :=
  VState (vp st) (spec_idx st) (spec_count st) (struct_count st)
    (args st) (out st ++ text) (mem st).

Definition putchar (c : ascii) (st : vstate) : vstate := emit [c] st.

Definition with_args (ap : va_list) (st : vstate) : vstate :=
  VState (vp st) (spec_idx st) (spec_count st) (struct_count st) ap (out st) (mem st).

Definition with_mem (m : gmap loc Z) (st : vstate) : vstate :=
  VState (vp st) (spec_idx st) (spec_count st) (struct_count st) (args st) (out st) m.

(** [p += strlen(substr); spec_idx++; spec_count++;] (460-462) *)
Definition next_spec (n : nat) (st : vstate) : vstate :=
  VState (vp st + n) (S (spec_idx st)) (S (spec_count st)) (struct_count st)
    (args st) (out st) (mem st).

(** [struct_count++] (483) *)
Definition count_struct (st : vstate) : vstate :=
  VState (vp st) (spec_idx st) (spec_count st) (S (struct_count st))
    (args st) (out st) (mem st).

(** [spec_count + struct_count], the value returned and the one [%n] stores. *)
Definition fields (st : vstate) : nat := spec_count st + struct_count st.

Section Driver.
Context `{ArgModel} `{NativeFormat}.

(** [printf(specs.data[spec_idx].substr, va_arg(args, T));] *)
Definition print_arg (T : c_type) (e : format_spec_t) (st : vstate) : outcome vstate :=
  '(v, ap) ← va_arg T (args st);
  text ← native_format (c_str (substr e)) v;
  Done (emit text (with_args ap st)).

(** [*va_arg(args, T * ) = spec_count + struct_count;] *)
Definition write_count (T : c_type) (st : vstate) : outcome vstate :=
  '(v, ap) ← va_arg (T_ptr T) (args st);
  m ← store_count T v (Z.of_nat (fields st)) (mem st);
  Done (with_mem m (with_args ap st)).

(** The [switch] (362-459), case by case in the order of the source. *)
Definition vprint_switch (e : format_spec_t) (st : vstate) : outcome vstate :=
  match type e with
  (* Signed integers *)
  | TYPE_INT => print_arg T_int e st
  | TYPE_SIGNED_INT8 => print_arg T_int e st
  | TYPE_SHORT => print_arg T_int e st
  | TYPE_LONG => print_arg T_long e st
  | TYPE_LONG_LONG => print_arg T_long_long e st
  | TYPE_INTMAX_T => print_arg T_intmax_t e st
  | TYPE_SSIZE_T => print_arg T_ssize_t e st
  | TYPE_PTRDIFF_T => print_arg T_ptrdiff_t e st
  (* Unsigned integers *)
  | TYPE_UINT => print_arg T_unsigned_int e st
  | TYPE_UINT8 => print_arg T_unsigned_int e st
  | TYPE_USHORT => print_arg T_unsigned_int e st
  | TYPE_ULONG => print_arg T_unsigned_long e st
  | TYPE_ULONG_LONG => print_arg T_unsigned_long_long e st
  | TYPE_UINTMAX_T => print_arg T_uintmax_t e st
  | TYPE_SIZE_T => print_arg T_size_t e st
  (* Pointers *)
  | TYPE_POINTER => print_arg T_void_ptr e st
  | TYPE_STRING => print_arg T_char_ptr e st
  (* Reference %n *)
  | TYPE_POINTER_INT => write_count T_int st
  | TYPE_POINTER_SIGNED_INT8 => write_count T_signed_char st
  | TYPE_POINTER_SHORT => write_count T_short st
  | TYPE_POINTER_LONG => write_count T_long st
  | TYPE_POINTER_LONG_LONG => write_count T_long_long st
  | TYPE_POINTER_INTMAX_T => write_count T_intmax_t st
  | TYPE_POINTER_SSIZE_T => write_count T_ssize_t st
  | TYPE_POINTER_PTRDIFF_T => write_count T_ptrdiff_t st
  (* Floating point *)
  | TYPE_FLOAT => print_arg T_double e st
  | TYPE_DOUBLE => print_arg T_double e st
  | TYPE_LONG_DOUBLE => print_arg T_long_double e st
  | TYPE_NONE => Done st
  end.

(** The [{}] branch (471-483). *)
Definition vprint_display (st : vstate) : outcome vstate :=
  '(v, ap) ← va_arg T_display_ptr (args st);
  let st := with_args ap st in
  match v with
  | V_display None => Done (advance 2 st)
  | V_display (Some d) =>
      match display_fn d, self d with
      | Some f, Some obj =>
          '(text, ret) ← of_call (f obj);
          let st := emit text st in
          if (ret =? -1)%Z then Done (advance 2 st)
          else Done (count_struct (advance 2 st))
      | _, _ => Done (advance 2 st)
      end
  | _ => Undef VaArgType
  end.

(** One iteration of [while ( *p)] (359-488): [inr] when the loop ends. *)
Definition vprint_iter (buf : list ascii) (specs : format_specs_array_t) (st : vstate) :
    outcome (vstate + vstate) :=
  let p := vp st in
  c ← char_at buf p;
  if is_nul c then Done (inr st)
  else if (c =? "%")%char then
    c' ← char_at buf (S p);
    if negb (c' =? "%")%char then
      if spec_idx st <? count specs then
        e ← specs_at specs (spec_idx st);
        st ← vprint_switch e st;
        Done (inl (next_spec (strlen (substr e)) st))
      else Done (inl (advance 1 (putchar c st)))
    else Done (inl (advance 2 (putchar "%" st)))
  else if (c =? "{")%char then
    c' ← char_at buf (S p);
    if (c' =? "}")%char then inl <$> vprint_display st
    else Done (inl (advance 1 (putchar c st)))
  else Done (inl (advance 1 (putchar c st))).

Definition vprint_fuel (buf : list ascii) : nat := S (S (length buf)).

(** The state at the entry of the loop (354-357). *)
Definition vstart (ap : va_list) (o : list ascii) (m : gmap loc Z) : vstate :=
  VState 0 0 0 0 ap o m.

(** [display_vprint(format, args)] from a world with [o] on stdout and the
    slots [m]: the [int] returned and the final state.  [format] is [None]
    for a null pointer. *)
Definition display_vprint (format : option (list ascii)) (ap : va_list)
    (o : list ascii) (m : gmap loc Z) : outcome (Z * vstate) :=
  match format with
  | None => Done ((-1)%Z, vstart ap o m)
  | Some buf =>
      specs ← find_format_specifiers buf;
      st ← loop (vprint_iter buf specs) (vprint_fuel buf) (vstart ap o m);
      Done (Z.of_nat (fields st), st)
  end.

(** [display_vprintln] (495-501). *)
Definition display_vprintln (format : option (list ascii)) (ap : va_list)
    (o : list ascii) (m : gmap loc Z) : outcome (Z * vstate) :=
  '(result, st) ← display_vprint format ap o m;
  if negb (result =? -1)%Z then Done (result, putchar "010" st)
  else Done (result, st).

End Driver.

(** ** The state after a piece of the template *)

Lemma vstate_eq st st' :
  vp st = vp st' → spec_idx st = spec_idx st' → spec_count st = spec_count st' →
  struct_count st = struct_count st' → args st = args st' → out st = out st' →
  mem st = mem st' → st = st'.
Proof. destruct st, st'. simpl. by intros; subst. Qed.

Lemma advance_emit_cons c l st :
  advance (length l) (emit l (advance 1 (putchar c st))) = advance (S (length l)) (emit (c :: l) st).
Proof. apply vstate_eq; simpl; first [done|lia|by rewrite <- app_assoc]. Qed.

Lemma advance_0_emit_nil st : advance 0 (emit [] st) = st.
Proof. apply vstate_eq; simpl; first [done|lia|by rewrite app_nil_r]. Qed.

Section DriverFacts.
Context `{ArgModel} `{NativeFormat}.
Implicit Types (st : vstate) (e : format_spec_t) (specs : format_specs_array_t).

(** ** What each branch does to the state *)

Lemma print_arg_Done T e st st' :
  print_arg T e st ⇓ st' ↔
  ∃ v ap text, va_arg T (args st) ⇓ (v, ap)
    ∧ native_format (c_str (substr e)) v ⇓ text ∧ st' = emit text (with_args ap st).
Proof.
  unfold print_arg. rewrite bind_Done. split.
  - intros ([v ap] & Hv & (text & Ht & [= <-])%bind_Done). by exists v, ap, text.
  - intros (v & ap & text & Hv & Ht & ->). exists (v, ap). by rewrite Ht.
Qed.

Lemma write_count_Done T st st' :
  write_count T st ⇓ st' ↔
  ∃ v ap m, va_arg (T_ptr T) (args st) ⇓ (v, ap)
    ∧ store_count T v (Z.of_nat (fields st)) (mem st) ⇓ m
    ∧ st' = with_mem m (with_args ap st).
Proof.
  unfold write_count. rewrite bind_Done. split.
  - intros ([v ap] & Hv & (m & Hm & [= <-])%bind_Done). by exists v, ap, m.
  - intros (v & ap & m & Hv & Hm & ->). exists (v, ap). by rewrite Hm.
Qed.

(** A frame for the branches: what they leave alone, and in which direction
    they move the rest. *)
Definition frame st st' : Prop :=
  spec_idx st' = spec_idx st ∧ spec_count st' = spec_count st
  ∧ out st `prefix_of` out st' ∧ args st' `suffix_of` args st.

Lemma print_arg_frame T e st st' :
  print_arg T e st ⇓ st' → vp st' = vp st ∧ struct_count st' = struct_count st ∧ frame st st'.
Proof.
  intros (v & ap & text & [Hap _]%va_arg_Done & _ & ->)%print_arg_Done. unfold frame. simpl.
  rewrite Hap. split_and!; try done; [by apply prefix_app_r|by apply suffix_cons_r].
Qed.

Lemma write_count_frame T st st' :
  write_count T st ⇓ st' → vp st' = vp st ∧ struct_count st' = struct_count st ∧ frame st st'.
Proof.
  intros (v & ap & m & [Hap _]%va_arg_Done & _ & ->)%write_count_Done. unfold frame. simpl.
  rewrite Hap. split_and!; try done. by apply suffix_cons_r.
Qed.

Lemma vprint_switch_frame e st st' :
  vprint_switch e st ⇓ st' → vp st' = vp st ∧ struct_count st' = struct_count st ∧ frame st st'.
Proof.
  unfold vprint_switch.
  destruct (type e); first [apply print_arg_frame|apply write_count_frame|idtac].
  intros [= <-]. by unfold frame.
Qed.

Lemma vprint_display_frame st st' :
  vprint_display st ⇓ st' →
  vp st' = vp st + 2 ∧ struct_count st ≤ struct_count st' ≤ S (struct_count st)
  ∧ frame st st'.
Proof.
  unfold vprint_display, frame. intros ([v ap] & [Hap _]%va_arg_Done & Hst)%bind_Done.
  assert (ap `suffix_of` args st) by (rewrite Hap; by apply suffix_cons_r).
  destruct v as [| | | | |[d|]]; try done; [|by injection Hst as <-; simpl; split_and!; try lia].
  destruct (display_fn d) as [f|], (self d) as [obj|];
    try (by injection Hst as <-; simpl; split_and!; try lia).
  destruct (f obj) as [[text ret]|]; [|done]. simpl in Hst.
  case_if; injection Hst as <-; simpl; split_and!; try done; try lia; by apply prefix_app_r.
Qed.

(** ** Termination *)

Lemma print_arg_terminates T e st : terminates (print_arg T e st).
Proof. unfold print_arg. solve_terminates. Qed.

Lemma write_count_terminates T st : terminates (write_count T st).
Proof. unfold write_count. solve_terminates. Qed.

Lemma vprint_switch_terminates e st : terminates (vprint_switch e st).
Proof.
  unfold vprint_switch.
  destruct (type e); auto using print_arg_terminates, write_count_terminates with disp.
Qed.

Lemma vprint_display_terminates st : terminates (vprint_display st).
Proof. unfold vprint_display. solve_terminates. Qed.

Lemma vprint_iter_terminates buf specs st : terminates (vprint_iter buf specs st).
Proof.
  unfold vprint_iter, specs_at.
  pose proof vprint_switch_terminates. pose proof vprint_display_terminates.
  solve_terminates.
Qed.

End DriverFacts.

(** ** One iteration *)

Section DriverLoop.
Context `{ArgModel} `{NativeFormat}.
Context (buf : list ascii) (specs : format_specs_array_t).
Implicit Types (st : vstate).

Lemma vprint_iter_exit st st' :
  vprint_iter buf specs st ⇓ inr st' → st' = st ∧ buf !! vp st = Some NUL.
Proof.
  unfold vprint_iter. intros (c & Hc%char_at_Done & Hst)%bind_Done.
  destruct (is_nul c) eqn:E; [apply is_nul_true in E as ->; by injection Hst as <-|].
  repeat first
    [ done | progress case_if
    | apply bind_Done in Hst as (? & _ & Hst)
    | apply fmap_Done in Hst as (? & _ & ?) ].
Qed.

Context (Hspecs : Forall (λ e, 1 ≤ strlen (substr e)) (data specs)).

(** Every iteration that goes round again moves the offset forward, counts
    at most one field for it, only appends to stdout and only advances the
    cursor. *)
Lemma vprint_iter_step st st' :
  vprint_iter buf specs st ⇓ inl st' →
  vp st < length buf ∧ vp st < vp st'
  ∧ fields st' + vp st ≤ fields st + vp st'
  ∧ out st `prefix_of` out st' ∧ args st' `suffix_of` args st.
Proof using Hspecs.
  unfold vprint_iter, fields. intros (c & Hc%char_at_lt & Hst)%bind_Done.
  split; [done|]. clear Hc. case_if; [done|].
  assert (∀ n text, 1 ≤ n → vp st < vp (advance n (emit text st))
    ∧ spec_count st + struct_count st + vp st
      ≤ spec_count st + struct_count st + vp (advance n (emit text st))
    ∧ out st `prefix_of` out (advance n (emit text st))
    ∧ args (advance n (emit text st)) `suffix_of` args st) as Hlit.
  { intros n text Hn. simpl. split_and!; [lia|lia|by apply prefix_app_r|done]. }
  case_if; [|case_if].
  - apply bind_Done in Hst as (c' & _ & Hst). case_if; [|injection Hst as <-; apply Hlit; lia].
    case_if; [|injection Hst as <-; apply Hlit; lia].
    apply bind_Done in Hst as (e & He%specs_at_Done & Hst).
    apply bind_Done in Hst as (st1 & (Hvp & Hsc & Hidx & Hcnt & Hout & Hargs)%vprint_switch_frame & [= <-]).
    rewrite Forall_forall in Hspecs. apply list_elem_of_lookup_2, Hspecs in He.
    simpl. rewrite Hvp, Hsc, Hcnt. split_and!; [lia|lia|done|done].
  - apply bind_Done in Hst as (c' & _ & Hst). case_if; [|injection Hst as <-; apply Hlit; lia].
    apply fmap_Done in Hst as (st1 & (Hvp & Hsc & Hidx & Hcnt & Hout & Hargs)%vprint_display_frame & [= ->]).
    rewrite Hvp, Hcnt. split_and!; [lia|lia|done|done].
  - injection Hst as <-. apply Hlit; lia.
Qed.

Lemma vprint_loop_terminates fuel st :
  S (length buf) - vp st < fuel → terminates (loop (vprint_iter buf specs) fuel st).
Proof using Hspecs.
  apply (loop_terminates _ (λ _, True) (λ st, S (length buf) - vp st));
    [intros; apply vprint_iter_terminates| |done].
  intros s s' _ (? & ? & _)%vprint_iter_step. split; [done|lia].
Qed.

(** The invariant of the loop: the fields counted so far are at most the
    characters walked, stdout has only grown and the cursor only advanced. *)
Definition vprint_inv (st0 st : vstate) : Prop :=
  fields st + vp st0 ≤ fields st0 + vp st
  ∧ out st0 `prefix_of` out st ∧ args st `suffix_of` args st0.

Lemma vprint_loop_inv fuel st0 st :
  loop (vprint_iter buf specs) fuel st0 ⇓ st →
  vprint_inv st0 st ∧ buf !! vp st = Some NUL.
Proof using Hspecs.
  apply (loop_invariant _ (vprint_inv st0) (λ st, vprint_inv st0 st ∧ buf !! vp st = Some NUL)).
  - intros s s' (Hf & Ho & Ha) (_ & _ & Hf' & Ho' & Ha')%vprint_iter_step.
    split_and!; [lia|by etrans|by etrans].
  - by intros s r Hinv [-> ?]%vprint_iter_exit.
  - by unfold vprint_inv.
Qed.

End DriverLoop.

(** ** The whole function *)

Section DriverTheorems.
Context `{ArgModel} `{NativeFormat}.
Implicit Types (buf : list ascii) (ap : va_list) (o : list ascii) (m : gmap loc Z).

Lemma display_vprint_Done buf ap o m r st :
  display_vprint (Some buf) ap o m ⇓ (r, st) ↔
  ∃ specs, find_format_specifiers buf ⇓ specs
    ∧ loop (vprint_iter buf specs) (vprint_fuel buf) (vstart ap o m) ⇓ st
    ∧ r = Z.of_nat (fields st).
Proof.
  unfold display_vprint. rewrite bind_Done. apply exist_proper. intros specs.
  rewrite bind_Done. split.
  - by intros (Hf & st' & Hl & [= <- <-]).
  - intros (Hf & Hl & ->). split; [done|]. by exists st.
Qed.

(** [display_vprint] returns on every template, every argument list and
    every [printf]: with its result or with an undefined behaviour of C, never
    by running for ever. *)
Theorem display_vprint_terminates format ap o m : terminates (display_vprint format ap o m).
Proof.
  destruct format as [buf|]; [|done]. unfold display_vprint.
  apply bind_terminates; [apply scan_fuel_enough|].
  intros specs Hspecs%find_format_specifiers_nonempty.
  apply bind_terminates; [|done].
  apply (vprint_loop_terminates _ _ Hspecs). unfold vprint_fuel. simpl. lia.
Qed.

Lemma display_vprint_result buf ap o m r st :
  display_vprint (Some buf) ap o m ⇓ (r, st) →
  r = Z.of_nat (spec_count st + struct_count st) ∧ (0 ≤ r < Z.of_nat (length buf))%Z.
Proof.
  intros (specs & Hspecs%find_format_specifiers_nonempty & Hloop & ->)%display_vprint_Done.
  apply (vprint_loop_inv _ _ Hspecs) in Hloop as [(Hf & _ & _) Hnul%lookup_lt_Some].
  split; [done|]. simpl in Hf. lia.
Qed.

(** C29. The value returned for a non-null template is the number of fields
    counted, it is not negative and it is below the size of the template, so
    it is an [int] that did not overflow, and it is never the -1 of the
    failure. *)
Theorem display_vprint_bound buf ap o m r st :
  display_vprint (Some buf) ap o m ⇓ (r, st) →
  r = Z.of_nat (spec_count st + struct_count st) ∧ (0 ≤ r < Z.of_nat (length buf))%Z.
Proof. apply display_vprint_result. Qed.

(** The function only appends to stdout and only advances the cursor. *)
Theorem display_vprint_appends buf ap o m r st :
  display_vprint (Some buf) ap o m ⇓ (r, st) → o `prefix_of` out st ∧ args st `suffix_of` ap.
Proof.
  intros (specs & Hspecs%find_format_specifiers_nonempty & Hloop & ->)%display_vprint_Done.
  by apply (vprint_loop_inv _ _ Hspecs) in Hloop as [(_ & ? & ?) _].
Qed.

(** A call that returns has walked the template to its end: the loop
    went, iteration by iteration, from the start of the template to a state
    whose offset is on the terminator, and that state is the one the result
    is computed from.  With termination: every call ends at the terminator
    or in an undefined behaviour. *)
Theorem display_vprint_reaches_end buf ap o m r st :
  display_vprint (Some buf) ap o m ⇓ (r, st) →
  ∃ specs, find_format_specifiers buf ⇓ specs
    ∧ rtc (loop_step (vprint_iter buf specs)) (vstart ap o m) st
    ∧ buf !! vp st = Some NUL.
Proof.
  intros (specs & Hspecs & Hloop & ->)%display_vprint_Done. exists specs. split; [done|].
  apply loop_Done_rtc in Hloop as (st' & Hrtc & [-> Hnul]%vprint_iter_exit). done.
Qed.

(** C20. [display_vprintln] writes one newline after what [display_vprint]
    wrote when the template is not null, and writes nothing when it is. *)
Theorem display_vprintln_newline format ap o m r st :
  display_vprintln format ap o m ⇓ (r, st) ↔
  ∃ st0, display_vprint format ap o m ⇓ (r, st0)
    ∧ st = if format is Some _ then putchar "010" st0 else st0.
Proof.
  unfold display_vprintln. rewrite bind_Done. split.
  - intros ([r0 st0] & Hv & Hst). exists st0. destruct format as [buf|].
    + pose proof (display_vprint_result _ _ _ _ _ _ Hv) as [_ Hr].
      destruct (Z.eqb_spec r0 (-1)); [lia|]. simpl in Hst. by injection Hst as <- <-.
    + injection Hv as <- <-. simpl in Hst. by injection Hst as <- <-.
  - intros (st0 & Hv & ->). exists (r, st0). split; [done|]. destruct format as [buf|].
    + pose proof (display_vprint_result _ _ _ _ _ _ Hv) as [_ Hr].
      by destruct (Z.eqb_spec r (-1)); [lia|].
    + by injection Hv as <- <-.
Qed.

End DriverTheorems.

(** ** The theorems at a concrete call *)

Lemma sample_call :
  @display_vprint strict demo_printf (Some (cstr (lit "a%d"))) [V_int T_int 5] [] ∅
  ⇓ (1%Z, VState 3 1 1 0 [] (lit "a5") ∅).
Proof. by vm_compute. Defined.

Lemma display_vprint_bound_witness :
  1%Z = Z.of_nat (1 + 0) ∧ (0 ≤ 1 < Z.of_nat (length (cstr (lit "a%d"))))%Z.
Proof. exact (display_vprint_bound _ _ _ _ _ _ sample_call). Defined.

Lemma display_vprint_appends_witness :
  [] `prefix_of` lit "a5" ∧ [] `suffix_of` [V_int T_int 5].
Proof. exact (display_vprint_appends _ _ _ _ _ _ sample_call). Defined.

Lemma display_vprint_reaches_end_witness :
  ∃ specs, find_format_specifiers (cstr (lit "a%d")) ⇓ specs
    ∧ rtc (loop_step (@vprint_iter strict demo_printf (cstr (lit "a%d")) specs))
        (vstart [V_int T_int 5] [] ∅) (VState 3 1 1 0 [] (lit "a5") ∅)
    ∧ cstr (lit "a%d") !! vp (VState 3 1 1 0 [] (lit "a5") ∅) = Some NUL.
Proof. exact (display_vprint_reaches_end _ _ _ _ _ _ sample_call). Defined.
