(* ===== verification/FDriver.v ===== *)
(** * The render driver for a stream, and the entry points

    [display_vfprint] (display.h 521-669) is [display_vprint] written again
    for a [FILE*]: [fprintf] for [printf], [putc] for [putchar],
    [fdisplay_fn(self, file)] for [display_fn(self)], and a null check of the
    stream.  The state is the [vstate] of the stdout driver, its [out] being
    the text written to the stream of the call.

    The variadic entry points [display_print], [display_println],
    [display_fprint] and [display_fprintln] build the cursor from their
    arguments and call the [v] functions.  The unprefixed names of
    [DISPLAY_STRIP_PREFIX] are the same functions. *)

From Stdlib Require Import Ascii ZArith Lia.
From stdpp Require Import base tactics option list numbers strings gmap.
From S2P Require Import Prelude CString Types Scanner VaList Native Driver.

(** ** Definitions *)

(** [putc(c, file)] *)
Definition putc (c : ascii) (file : FILE) (st : vstate) : vstate := emit [c] st.

Section FDriver.
Context `{ArgModel} `{NativeFormat}.

(** [fprintf(file, specs.data[spec_idx].substr, va_arg(args, T));] *)
Definition fprint_arg (file : FILE) (T : c_type) (e : format_spec_t) (st : vstate) :
    outcome vstate :=
  '(v, ap) ← va_arg T (args st);
  text ← native_format (c_str (substr e)) v;
  Done (emit text (with_args ap st)).

(** The [switch] (533-635). *)
Definition vfprint_switch (file : FILE) (e : format_spec_t) (st : vstate) : outcome vstate :=
  match type e with
  (* Signed integers *)
  | TYPE_INT => fprint_arg file T_int e st
  | TYPE_SIGNED_INT8 => fprint_arg file T_int e st
  | TYPE_SHORT => fprint_arg file T_int e st
  | TYPE_LONG => fprint_arg file T_long e st
  | TYPE_LONG_LONG => fprint_arg file T_long_long e st
  | TYPE_INTMAX_T => fprint_arg file T_intmax_t e st
  | TYPE_SSIZE_T => fprint_arg file T_ssize_t e st
  | TYPE_PTRDIFF_T => fprint_arg file T_ptrdiff_t e st
  (* Unsigned integers *)
  | TYPE_UINT => fprint_arg file T_unsigned_int e st
  | TYPE_UINT8 => fprint_arg file T_unsigned_int e st
  | TYPE_USHORT => fprint_arg file T_unsigned_int e st
  | TYPE_ULONG => fprint_arg file T_unsigned_long e st
  | TYPE_ULONG_LONG => fprint_arg file T_unsigned_long_long e st
  | TYPE_UINTMAX_T => fprint_arg file T_uintmax_t e st
  | TYPE_SIZE_T => fprint_arg file T_size_t e st
  (* Pointers *)
  | TYPE_POINTER => fprint_arg file T_void_ptr e st
  | TYPE_STRING => fprint_arg file T_char_ptr e st
  (* Reference %n *)
  | TYPE_POINTER_INT => write_count T_int st
  | TYPE_POINTER_SIGNED_INT8 => write_count T_signed_char st
  | TYPE_POINTER_SHORT => write_count T_short st
  | TYPE_POINTER_LONG => write_count T_long st
  | TYPE_POINTER_LONG_LONG => write_count T_long_long st
  | TYPE_POINTER_INTMAX_T => write_count T_intmax_t st
  | TYPE_POINTER_SSIZE_T => write_count T_ssize_t st
  | TYPE_POINTER_PTRDIFF_T => write_count T_ptrdiff_t st
  (* Floating point *)
  | TYPE_FLOAT => fprint_arg file T_double e st
  | TYPE_DOUBLE => fprint_arg file T_double e st
  | TYPE_LONG_DOUBLE => fprint_arg file T_long_double e st
  | TYPE_NONE => Done st
  end.

(** The [{}] branch (647-659). *)
Definition vfprint_display (file : FILE) (st : vstate) : outcome vstate :=
  '(v, ap) ← va_arg T_display_ptr (args st);
  let st := with_args ap st in
  match v with
  | V_display None => Done (advance 2 st)
  | V_display (Some d) =>
      match fdisplay_fn d, self d with
      | Some f, Some obj =>
          '(text, ret) ← of_call (f obj file);
          let st := emit text st in
          if (ret =? -1)%Z then Done (advance 2 st)
          else Done (count_struct (advance 2 st))
      | _, _ => Done (advance 2 st)
      end
  | _ => Undef VaArgType
  end.

(** One iteration of [while ( *p)] (530-664). *)
Definition vfprint_iter (file : FILE) (buf : list ascii) (specs : format_specs_array_t)
    (st : vstate) : outcome (vstate + vstate) :=
  let p := vp st in
  c ← char_at buf p;
  if is_nul c then Done (inr st)
  else if (c =? "%")%char then
    c' ← char_at buf (S p);
    if negb (c' =? "%")%char then
      if spec_idx st <? count specs then
        e ← specs_at specs (spec_idx st);
        st ← vfprint_switch file e st;
        Done (inl (next_spec (strlen (substr e)) st))
      else Done (inl (advance 1 (putc c file st)))
    else Done (inl (advance 2 (putc "%" file st)))
  else if (c =? "{")%char then
    c' ← char_at buf (S p);
    if (c' =? "}")%char then inl <$> vfprint_display file st
    else Done (inl (advance 1 (putc c file st)))
  else Done (inl (advance 1 (putc c file st))).

(** [display_vfprint(file, format, args)]: [o] is the text already on the
    stream.  [file] and [format] are [None] for null pointers. *)
Definition display_vfprint (file : option FILE) (format : option (list ascii))
    (ap : va_list) (o : list ascii) (m : gmap loc Z) : outcome (Z * vstate) :=
  match format, file with
  | Some buf, Some f =>
      specs ← find_format_specifiers buf;
      st ← loop (vfprint_iter f buf specs) (vprint_fuel buf) (vstart ap o m);
      Done (Z.of_nat (fields st), st)
  | _, _ => Done ((-1)%Z, vstart ap o m)
  end.

(** [display_vfprintln] (671-677). *)
Definition display_vfprintln (file : option FILE) (format : option (list ascii))
    (ap : va_list) (o : list ascii) (m : gmap loc Z) : outcome (Z * vstate) :=
  '(result, st) ← display_vfprint file format ap o m;
  if negb (result =? -1)%Z then Done (result, if file is Some f then putc "010" f st else st)
  else Done (result, st).

(** The variadic entry points (503-519, 679-695): [va_start], the call,
    [va_end]. *)
Definition display_print (format : option (list ascii)) (variadic : list c_val)
    (o : list ascii) (m : gmap loc Z) : outcome (Z * vstate) :=
  display_vprint format variadic o m.

Definition display_println (format : option (list ascii)) (variadic : list c_val)
    (o : list ascii) (m : gmap loc Z) : outcome (Z * vstate) :=
  display_vprintln format variadic o m.

Definition display_fprint (file : option FILE) (format : option (list ascii))
    (variadic : list c_val) (o : list ascii) (m : gmap loc Z) : outcome (Z * vstate) :=
  display_vfprint file format variadic o m.

Definition display_fprintln (file : option FILE) (format : option (list ascii))
    (variadic : list c_val) (o : list ascii) (m : gmap loc Z) : outcome (Z * vstate) :=
  display_vfprintln file format variadic o m.

(** The unprefixed names of [DISPLAY_STRIP_PREFIX] (697-706). *)
Definition print := display_print.
Definition println := display_println.
Definition vprint := display_vprint.
Definition vprintln := display_vprintln.
Definition fprint := display_fprint.
Definition fprintln := display_fprintln.
Definition vfprint := display_vfprint.
Definition vfprintln := display_vfprintln.

End FDriver.

(** An argument whose stdout function and stream function write the same
    for the stream [file]; every argument that is not an object does. *)
Definition agrees (file : FILE) (v : c_val) : Prop :=
  match v with
  | V_display (Some d) =>
      match display_fn d, fdisplay_fn d with
      | Some g, Some f => ∀ obj, g obj = f obj file
      | None, None => True
      | _, _ => False
      end
  | _ => True
  end.

(** ** The stream driver, branch by branch *)

Section FDriverFacts.
Context `{ArgModel} `{NativeFormat}.
Context (file : FILE).
Implicit Types (st : vstate) (e : format_spec_t) (specs : format_specs_array_t).

Lemma vfprint_switch_eq e st : vfprint_switch file e st = vprint_switch e st.
Proof. unfold vfprint_switch, vprint_switch. by destruct (type e). Qed.

Lemma vfprint_display_eq st :
  Forall (agrees file) (args st) → vfprint_display file st = vprint_display st.
Proof.
  unfold vfprint_display, vprint_display. destruct (args st) as [|v ap]; [done|].
  intros [Hv _]%Forall_cons. simpl. destruct (compatible _ v); [|done]. simpl.
  destruct v as [| | | | |[d|]]; try done. simpl in Hv.
  destruct (display_fn d) as [g|], (fdisplay_fn d) as [f|]; try done.
  destruct (self d) as [obj|]; [|done]. by rewrite Hv.
Qed.

Lemma vfprint_iter_eq buf specs st :
  Forall (agrees file) (args st) → vfprint_iter file buf specs st = vprint_iter buf specs st.
Proof.
  intros Hst. unfold vfprint_iter, vprint_iter, putc, putchar.
  rewrite (vfprint_display_eq st Hst).
  repeat first [done | rewrite vfprint_switch_eq | case_bind | case_if].
Qed.

Lemma vfprint_display_vp st st' : vfprint_display file st ⇓ st' → vp st' = vp st + 2.
Proof.
  unfold vfprint_display. intros ([v ap] & _ & Hst)%bind_Done.
  destruct v as [| | | | |[d|]]; try done; [|by injection Hst as <-].
  destruct (fdisplay_fn d) as [f|], (self d) as [obj|]; try (by injection Hst as <-).
  destruct (f obj file) as [[text ret]|]; [|done]. simpl in Hst.
  by case_if; injection Hst as <-.
Qed.

Lemma vfprint_display_terminates st : terminates (vfprint_display file st).
Proof. unfold vfprint_display. solve_terminates. Qed.

Lemma vfprint_iter_terminates buf specs st : terminates (vfprint_iter file buf specs st).
Proof.
  assert (∀ e st, terminates (vfprint_switch file e st)).
  { intros. rewrite vfprint_switch_eq. apply vprint_switch_terminates. }
  unfold vfprint_iter, specs_at. pose proof vfprint_display_terminates.
  solve_terminates.
Qed.

(** Every iteration that goes round again moves the offset forward. *)
Lemma vfprint_iter_advances buf specs st st' :
  Forall (λ e, 1 ≤ strlen (substr e)) (data specs) →
  vfprint_iter file buf specs st ⇓ inl st' → vp st < vp st' ∧ vp st < length buf.
Proof.
  intros Hspecs. unfold vfprint_iter. intros (c & Hc%char_at_lt & Hst)%bind_Done.
  split; [|done]. clear Hc. case_if; [done|].
  case_if; [|case_if].
  - apply bind_Done in Hst as (c' & _ & Hst). case_if; [|injection Hst as <-; simpl; lia].
    case_if; [|injection Hst as <-; simpl; lia].
    apply bind_Done in Hst as (e & He%specs_at_Done & Hst).
    rewrite vfprint_switch_eq in Hst.
    apply bind_Done in Hst as (st1 & (Hvp & _)%vprint_switch_frame & [= <-]).
    rewrite Forall_forall in Hspecs. apply list_elem_of_lookup_2, Hspecs in He.
    simpl. lia.
  - apply bind_Done in Hst as (c' & _ & Hst). case_if; [|injection Hst as <-; simpl; lia].
    apply fmap_Done in Hst as (st1 & Hvp%vfprint_display_vp & [= ->]). lia.
  - injection Hst as <-. simpl. lia.
Qed.

End FDriverFacts.

(** ** The whole function *)

Section FDriverTheorems.
Context `{ArgModel} `{NativeFormat}.
Implicit Types (ap : va_list) (o : list ascii) (m : gmap loc Z).

(** [display_vfprint] returns on every stream, template and argument
    list: with its result or with an undefined behaviour of C. *)
Theorem display_vfprint_terminates file format ap o m :
  terminates (display_vfprint file format ap o m).
Proof.
  destruct format as [buf|], file as [f|]; try done. unfold display_vfprint.
  apply bind_terminates; [apply scan_fuel_enough|].
  intros specs Hspecs%find_format_specifiers_nonempty.
  apply bind_terminates; [|done].
  apply (loop_terminates _ (λ _, True) (λ st, S (length buf) - vp st));
    [intros; apply vfprint_iter_terminates| |done|unfold vprint_fuel; simpl; lia].
  intros s s' _ [? ?]%(vfprint_iter_advances _ _ _ _ _ Hspecs). split; [done|lia].
Qed.

(** A null stream or a null template fails the call: -1 is returned,
    nothing is written and no argument is taken. *)
Theorem display_vfprint_null file format ap o m :
  file = None ∨ format = None →
  display_vfprint file format ap o m ⇓ ((-1)%Z, vstart ap o m).
Proof. intros [-> | ->]; [by destruct format|done]. Qed.

(** The value returned on a stream is the number of fields counted. *)
Lemma display_vfprint_counts file buf ap o m r st :
  display_vfprint (Some file) (Some buf) ap o m ⇓ (r, st) → r = Z.of_nat (fields st).
Proof.
  unfold display_vfprint. by intros (specs & _ & (st' & _ & [= <- <-])%bind_Done)%bind_Done.
Qed.

(** The stream driver and the stdout driver agree on every state of a run
    whose objects agree. *)
Lemma vfprint_loop_eq file buf specs fuel st :
  Forall (λ e, 1 ≤ strlen (substr e)) (data specs) →
  Forall (agrees file) (args st) →
  loop (vfprint_iter file buf specs) fuel st = loop (vprint_iter buf specs) fuel st.
Proof.
  intros Hspecs. apply (loop_ext_inv _ _ (λ st, Forall (agrees file) (args st))).
  - intros s Hs. by apply vfprint_iter_eq.
  - intros s s' Hs (_ & _ & _ & _ & [k Hk])%(vprint_iter_step _ _ Hspecs).
    rewrite Hk in Hs. by apply Forall_app in Hs as [_ ?].
Qed.

Lemma display_vfprint_stdout file format ap o m :
  Forall (agrees file) ap →
  display_vfprint (Some file) format ap o m = display_vprint format ap o m.
Proof.
  intros Hap. destruct format as [buf|]; [|done]. unfold display_vfprint, display_vprint.
  destruct (find_format_specifiers buf) as [specs| |] eqn:E; [|done..].
  rewrite !bind_Done_l.
  by rewrite vfprint_loop_eq; [| apply (find_format_specifiers_nonempty buf) |].
Qed.

(** Rendering to a stream is rendering to stdout: for arguments whose
    objects write to the stream what they write to stdout, [display_vfprint]
    returns what [display_vprint] returns and leaves on the stream what
    [display_vprint] leaves on stdout, undefined behaviours included. *)
Theorem display_vfprint_vprint file format ap o m :
  Forall (agrees file) ap →
  display_vfprint (Some file) format ap o m = display_vprint format ap o m.
Proof. apply display_vfprint_stdout. Qed.

(** The same for the line variants. *)
Theorem display_vfprintln_vprintln file format ap o m :
  Forall (agrees file) ap →
  display_vfprintln (Some file) format ap o m = display_vprintln format ap o m.
Proof.
  intros Hap. unfold display_vfprintln, display_vprintln.
  by rewrite display_vfprint_stdout.
Qed.

End FDriverTheorems.

(** ** The theorems at concrete calls *)

Lemma display_vfprint_null_witness :
  @display_vfprint strict demo_printf None (Some (cstr (lit "a%d"))) [V_int T_int 5] [] ∅
  ⇓ ((-1)%Z, vstart [V_int T_int 5] [] ∅).
Proof. apply display_vfprint_null. by left. Defined.

Lemma sample_agrees :
  Forall (agrees 3%N)
    [V_int T_int 5;
     V_display (Some (Build_display_t (Some (λ _, Returns (lit "OK", 2%Z)))
                        (Some (λ _ _, Returns (lit "OK", 2%Z))) None (Some 1%N)))].
Proof. repeat constructor. Defined.

Lemma display_vfprint_vprint_witness :
  @display_vfprint strict demo_printf (Some 3%N) (Some (cstr (lit "%d {}")))
    [V_int T_int 5;
     V_display (Some (Build_display_t (Some (λ _, Returns (lit "OK", 2%Z)))
                        (Some (λ _ _, Returns (lit "OK", 2%Z))) None (Some 1%N)))] [] ∅
  = @display_vprint strict demo_printf (Some (cstr (lit "%d {}")))
      [V_int T_int 5;
       V_display (Some (Build_display_t (Some (λ _, Returns (lit "OK", 2%Z)))
                          (Some (λ _ _, Returns (lit "OK", 2%Z))) None (Some 1%N)))] [] ∅.
Proof. apply display_vfprint_vprint, sample_agrees. Defined.

Lemma display_vfprintln_vprintln_witness :
  @display_vfprintln strict demo_printf (Some 3%N) (Some (cstr (lit "%d {}")))
    [V_int T_int 5;
     V_display (Some (Build_display_t (Some (λ _, Returns (lit "OK", 2%Z)))
                        (Some (λ _ _, Returns (lit "OK", 2%Z))) None (Some 1%N)))] [] ∅
  = @display_vprintln strict demo_printf (Some (cstr (lit "%d {}")))
      [V_int T_int 5;
       V_display (Some (Build_display_t (Some (λ _, Returns (lit "OK", 2%Z)))
                          (Some (λ _ _, Returns (lit "OK", 2%Z))) None (Some 1%N)))] [] ∅.
Proof. apply display_vfprintln_vprintln, sample_agrees. Defined.
