(* ===== verification/StreamView.v ===== *)
(** * The stream driver is the stdout driver on the stream's view of the objects

    [display_vfprint] differs from [display_vprint] in one thing that the
    state can see: at a [{}] field it calls [fdisplay_fn(self, file)] where
    [display_vprint] calls [display_fn(self)].  [stream_view file d] is the
    object [d] as the stream driver uses it: its stdout function is what its
    stream function does on [file].  On the arguments seen this way the
    stdout driver does what the stream driver does on the arguments
    themselves, for all objects, also those that have one function only.

    The platform must read an object pointer as a [display_t*] and as
    nothing else; [DisplayArgs] states it, and holds of both models of
    [VaList]. *)

From Stdlib Require Import Ascii ZArith Lia.
From stdpp Require Import base tactics option list numbers strings gmap.
From S2P Require Import Prelude CString Types Scanner VaList Native Driver FDriver.

(** ** Definitions *)

Definition stream_view (file : FILE) (d : display_t) : display_t :=
  {| display_fn := (λ f obj, f obj file) <$> fdisplay_fn d;
     fdisplay_fn := fdisplay_fn d;
     sndisplay_fn := sndisplay_fn d;
     self := self d |}.

Definition on_stream (file : FILE) (v : c_val) : c_val :=
  match v with
  | V_display d => V_display (stream_view file <$> d)
  | v => v
  end.

(** The arguments of a call, each seen through the stream. *)
Definition on_stream_args (file : FILE) (ap : va_list) : va_list :=
  fmap (M := list) (on_stream file) ap.

(** A state of the stream driver as a state of the stdout driver. *)
Definition view (file : FILE) (st : vstate) : vstate :=
  with_args (on_stream_args file (args st)) st.

(** An object pointer is compatible with [display_t*] only. *)
Class DisplayArgs `{ArgModel} : Prop :=
  compatible_display : ∀ T d, compatible T (V_display d) = bool_decide (T = T_display_ptr).

#[export] Instance strict_display : @DisplayArgs strict.
Proof. intros T d. simpl. apply bool_decide_ext. naive_solver. Qed.

#[export] Instance lp64_display : @DisplayArgs lp64.
Proof.
  intros T d. simpl. unfold lp64_compatible. simpl. rewrite orb_false_r.
  apply bool_decide_ext. destruct T; naive_solver.
Qed.

(** ** The branches *)

Section StreamView.
Context `{DisplayArgs} `{NativeFormat}.
Context (file : FILE).
Implicit Types (st : vstate) (e : format_spec_t).

Lemma va_arg_on_stream T ap :
  va_arg T (on_stream_args file ap)
  = (λ '(v, ap'), (on_stream file v, on_stream_args file ap')) <$> va_arg T ap.
Proof.
  destruct ap as [|v ap]; [done|]. simpl.
  replace (compatible T (on_stream file v)) with (compatible T v); [by destruct (compatible T v)|].
  destruct v; try done. simpl. by rewrite !compatible_display.
Qed.

(** An argument fetched at a type other than [display_t*] is no object. *)
Lemma va_arg_plain T ap v ap' :
  T ≠ T_display_ptr → va_arg T ap ⇓ (v, ap') → on_stream file v = v.
Proof.
  intros HT [-> Hv]%va_arg_Done. destruct v; try done.
  by rewrite compatible_display, bool_decide_eq_false_2 in Hv.
Qed.

Lemma print_arg_view T e st :
  T ≠ T_display_ptr → print_arg T e (view file st) = view file <$> fprint_arg file T e st.
Proof.
  intros HT. unfold print_arg, fprint_arg. simpl. rewrite va_arg_on_stream.
  destruct (va_arg T (args st)) as [[v ap]| |] eqn:E; simpl; [|done..].
  rewrite (va_arg_plain _ _ _ _ HT E). by destruct (native_format _ v).
Qed.

Lemma write_count_view T st : write_count T (view file st) = view file <$> write_count T st.
Proof.
  unfold write_count. simpl. rewrite va_arg_on_stream.
  destruct (va_arg (T_ptr T) (args st)) as [[v ap]| |] eqn:E; simpl; [|done..].
  assert (T_ptr T ≠ T_display_ptr) as HT by done.
  rewrite (va_arg_plain _ _ _ _ HT E). by destruct (store_count _ v _ _).
Qed.

Lemma vprint_switch_view e st :
  vprint_switch e (view file st) = view file <$> vfprint_switch file e st.
Proof.
  unfold vprint_switch, vfprint_switch.
  destruct (type e); first [by apply print_arg_view|apply write_count_view|done].
Qed.

Lemma vprint_display_view st :
  vprint_display (view file st) = view file <$> vfprint_display file st.
Proof.
  unfold vprint_display, vfprint_display. simpl. rewrite va_arg_on_stream.
  destruct (va_arg _ (args st)) as [[v ap]| |]; simpl; [|done..].
  destruct v as [| | | | |[d|]]; try done. simpl.
  destruct (fdisplay_fn d) as [f|], (self d) as [obj|]; try done. simpl.
  destruct (f obj file) as [[text ret]|]; [|done]. simpl. by destruct (ret =? -1)%Z.
Qed.

Lemma vprint_iter_view buf specs st :
  vprint_iter buf specs (view file st)
  = sum_map (view file) (view file) <$> vfprint_iter file buf specs st.
Proof.
  unfold vprint_iter, vfprint_iter. simpl.
  destruct (char_at buf (vp st)) as [c| |]; simpl; [|done..].
  destruct (is_nul c); [done|]. destruct (c =? "%")%char.
  - destruct (char_at buf (S (vp st))) as [c'| |]; simpl; [|done..].
    destruct (negb _); [|done]. destruct (spec_idx st <? count specs); [|done].
    destruct (specs_at specs (spec_idx st)) as [e| |]; simpl; [|done..].
    rewrite vprint_switch_view. by destruct (vfprint_switch file e st).
  - destruct (c =? "{")%char; [|done].
    destruct (char_at buf (S (vp st))) as [c'| |]; simpl; [|done..].
    destruct (c' =? "}")%char; [|done].
    rewrite vprint_display_view. by destruct (vfprint_display file st).
Qed.

(** ** The whole function *)

Lemma display_vfprint_view format ap o m :
  display_vprint format (on_stream_args file ap) o m
  = (λ '(n, st), (n, view file st)) <$> display_vfprint (Some file) format ap o m.
Proof.
  destruct format as [buf|]; [|done]. unfold display_vprint, display_vfprint.
  destruct (find_format_specifiers buf) as [specs| |]; [|done..]. rewrite !bind_Done_l.
  change (vstart (on_stream_args file ap) o m) with (view file (vstart ap o m)).
  rewrite (loop_fmap (vfprint_iter file buf specs) (vprint_iter buf specs)
             (view file) (view file)) by apply vprint_iter_view.
  by destruct (loop _ _ _).
Qed.

(** C4. Rendering to a stream is rendering to stdout with each object seen
    through its stream function: for every template and every argument list,
    [display_vfprint] ends as [display_vprint] does on the stream's view of
    the arguments, with the same value and the same text, and with the same
    undefined behaviour when there is one. *)
Theorem display_vfprint_on_stream format ap o m :
  display_vprint format (on_stream_args file ap) o m
  = (λ '(n, st), (n, view file st)) <$> display_vfprint (Some file) format ap o m.
Proof. apply display_vfprint_view. Qed.

(** The same for the line variants. *)
Theorem display_vfprintln_on_stream format ap o m :
  display_vprintln format (on_stream_args file ap) o m
  = (λ '(n, st), (n, view file st)) <$> display_vfprintln (Some file) format ap o m.
Proof.
  unfold display_vprintln, display_vfprintln. rewrite display_vfprint_view.
  destruct (display_vfprint _ _ _ _ _) as [[n st]| |]; simpl; [|done..].
  by destruct (negb _).
Qed.

End StreamView.

(** An object with a stream function only: on the stream it renders. *)
Example stream_only_object :
  (λ '(n, st), (n, out st))
  <$> @display_vfprint strict demo_printf (Some 3%N) (Some (cstr (lit "<{}>")))
        [V_display (Some (Build_display_t None (Some (λ _ _, Returns (lit "OK", 2%Z))) None
                            (Some 1%N)))] [] ∅
  ⇓ (1%Z, lit "<OK>").
Proof. by vm_compute. Qed.

Lemma display_vfprint_on_stream_witness :
  @display_vprint strict demo_printf (Some (cstr (lit "%d {}")))
    (on_stream_args 3%N
       [V_int T_int 5;
        V_display (Some (Build_display_t None (Some (λ _ _, Returns (lit "OK", 2%Z))) None
                           (Some 1%N)))]) [] ∅
  = (λ '(n, st), (n, view 3%N st))
    <$> @display_vfprint strict demo_printf (Some 3%N) (Some (cstr (lit "%d {}")))
          [V_int T_int 5;
           V_display (Some (Build_display_t None (Some (λ _ _, Returns (lit "OK", 2%Z))) None
                              (Some 1%N)))] [] ∅.
Proof. apply display_vfprint_on_stream. Defined.
