(* ===== verification/Heap.v ===== *)
(** * Allocated storage

    The heap on which [Alloc] runs the scanner and the drivers: blocks at
    addresses, an allocator that hands out fresh addresses and can fail,
    and the reads and writes of the cells of the array
    (display.h 157-161).

    The allocator fails when the heap's [oracle] says so: the oracle is the
    list of the outcomes of the next calls to [malloc] and [realloc], and
    every call after its end succeeds.  [realloc] moves the block (one of the
    behaviours C allows) and leaves it alone when it fails.  Freeing an
    address that is not a live block is undefined, and so are a read through
    null and a read of a cell that was never written. *)

From Stdlib Require Import Ascii ZArith Lia.
From stdpp Require Import base tactics option list numbers strings gmap.
From S2P Require Import Prelude CString Types.

(** ** Definitions *)

(** A cell of the array in memory: the pointer [substr] and the tag. *)
Record acell : Type := ACell {
  a_substr : ptr;
  a_type : var_type;
}.

(** A block: the characters of a string, or an array of cells, [None] for a
    cell that was never written. *)
Inductive block : Type :=
| Chars (s : list ascii)
| Cells (cs : list (option acell)).

Record heap : Type := Heap {
  blocks : gmap loc block;
  next_loc : loc;
  oracle : list bool;
}.

(** The heap once the allocator has decided on a call. *)
Definition tick (h : heap) : heap := Heap (blocks h) (next_loc h) (tail (oracle h)).

(** Whether the next allocation succeeds. *)
Definition alloc_ok (h : heap) : bool * heap := (hd true (oracle h), tick h).

Definition fresh_block (b : block) (h : heap) : loc * heap :=
  (next_loc h, Heap (<[next_loc h := b]> (blocks h)) (N.succ (next_loc h)) (oracle h)).

(** [malloc]: a new block with contents [b], or null. *)
Definition malloc (b : block) (h : heap) : ptr * heap :=
  let '(ok, h) := alloc_ok h in
  if ok then let '(l, h) := fresh_block b h in (Some l, h) else (None, h).

(** The cells of an array resized to [n] cells: the new ones are
    uninitialised. *)
Definition resize (n : nat) (cs : list (option acell)) : list (option acell) :=
  take n (cs ++ replicate n None).

(** [realloc(p, n * sizeof(struct format_spec_t))]: on failure the old block
    stays as it is and null is returned. *)
Definition realloc (p : ptr) (n : nat) (h : heap) : outcome (ptr * heap) :=
  let '(ok, h) := alloc_ok h in
  if ok then
    match p with
    | None => let '(l, h) := fresh_block (Cells (replicate n None)) h in Done (Some l, h)
    | Some d =>
        match blocks h !! d with
        | Some (Cells cs) =>
            let '(l, h) :=
              fresh_block (Cells (resize n cs))
                (Heap (delete d (blocks h)) (next_loc h) (oracle h)) in
            Done (Some l, h)
        | _ => Undef InvalidFree
        end
    end
  else Done (None, h).

(** [free(p)]: nothing for null. *)
Definition free (p : ptr) (h : heap) : outcome heap :=
  match p with
  | None => Done h
  | Some l =>
      if blocks h !! l is Some _
      then Done (Heap (delete l (blocks h)) (next_loc h) (oracle h))
      else Undef InvalidFree
  end.

(** The contents of the block at [l] replaced. *)
Definition store (l : loc) (b : block) (h : heap) : heap :=
  Heap (<[l := b]> (blocks h)) (next_loc h) (oracle h).

(** [data[i] = c] *)
Definition store_cell (data : ptr) (i : nat) (c : acell) (h : heap) : outcome heap :=
  match data with
  | None => Undef NullDeref
  | Some d =>
      match blocks h !! d with
      | Some (Cells cs) =>
          if bool_decide (i < length cs) then Done (store d (Cells (<[i := Some c]> cs)) h)
          else Undef OobRead
      | _ => Undef OobRead
      end
  end.

(** [data[i]] as an rvalue. *)
Definition load_cell (data : ptr) (i : nat) (h : heap) : outcome acell :=
  match data with
  | None => Undef NullDeref
  | Some d =>
      match blocks h !! d with
      | Some (Cells cs) =>
          match cs !! i with
          | Some (Some c) => Done c
          | Some None => Undef Uninit
          | None => Undef OobRead
          end
      | _ => Undef OobRead
      end
  end.

(** The string a [char*] points to. *)
Definition load_chars (p : ptr) (h : heap) : outcome (list ascii) :=
  match p with
  | None => Undef NullDeref
  | Some l => if blocks h !! l is Some (Chars s) then Done s else Undef OobRead
  end.

(** The empty heap with the allocation outcomes [o]. *)
Definition heap_init (o : list bool) : heap := Heap ∅ 1%N o.

(** The allocator does not fail. *)
Definition succeeds (h : heap) : Prop := Forall (λ b, b = true) (oracle h).

(** Every live address is below the next fresh one. *)
Definition heap_wf (h : heap) : Prop := ∀ l, is_Some (blocks h !! l) → (l < next_loc h)%N.

Arguments realloc : simpl never.
Arguments free : simpl never.
Arguments store_cell : simpl never.
Arguments load_cell : simpl never.

(** ** The allocator *)

Lemma succeeds_next h : succeeds h → hd true (oracle h) = true ∧ succeeds (tick h).
Proof.
  unfold succeeds. destruct h as [B n [|b o]]; simpl; [done|]. by intros [-> ?]%Forall_cons.
Qed.

Lemma heap_wf_fresh h : heap_wf h → blocks h !! next_loc h = None.
Proof.
  intros Hwf. destruct (blocks h !! next_loc h) eqn:E; [|done].
  assert (is_Some (blocks h !! next_loc h)) as Hs%Hwf by (by eexists). lia.
Qed.

(** A heap whose live addresses are those of a well-formed one and
    addresses below its next one is well formed. *)
Lemma heap_wf_below h B n o :
  heap_wf h → (∀ k, is_Some (B !! k) → is_Some (blocks h !! k) ∨ (k < n)%N) →
  (next_loc h ≤ n)%N → heap_wf (Heap B n o).
Proof. intros Hwf HB Hn k [Hk%Hwf|Hk]%HB; simpl; lia. Qed.

Lemma heap_init_wf o : heap_wf (heap_init o).
Proof. intros l [b Hb]. simpl in Hb. by rewrite lookup_empty in Hb. Qed.

Lemma malloc_fails b h : hd true (oracle h) = false → malloc b h = (None, tick h).
Proof. unfold malloc, alloc_ok. by intros ->. Qed.

Lemma malloc_ok b h :
  hd true (oracle h) = true →
  malloc b h = (Some (next_loc h),
                Heap (<[next_loc h := b]> (blocks h)) (N.succ (next_loc h)) (tail (oracle h))).
Proof. unfold malloc, alloc_ok. by intros ->. Qed.

Lemma realloc_fails p n h : hd true (oracle h) = false → realloc p n h ⇓ (None, tick h).
Proof. unfold realloc, alloc_ok. by intros ->. Qed.

(** A successful [realloc] to one more cell: the cells [cs] of the old
    array, cells never written when there was none, and the new cell, at a
    fresh address. *)
Lemma realloc_ok p cs h :
  hd true (oracle h) = true →
  match p with
  | None => cs = replicate (length cs) None
  | Some d => blocks h !! d = Some (Cells cs)
  end →
  realloc p (S (length cs)) h
  ⇓ (Some (next_loc h),
     Heap (<[next_loc h := Cells (cs ++ [None])]>
             (if p is Some d then delete d (blocks h) else blocks h))
       (N.succ (next_loc h)) (tail (oracle h))).
Proof.
  unfold realloc, alloc_ok. intros -> Hp. destruct p as [d|]; simpl.
  - rewrite Hp. unfold resize. rewrite take_app_ge by lia.
    by replace (S (length cs) - length cs) with 1 by lia.
  - by rewrite Hp at 2; rewrite <- replicate_S_end.
Qed.

(** ** The cells *)

Lemma store_cell_last d cs c h :
  blocks h !! d = Some (Cells (cs ++ [None])) →
  store_cell (Some d) (length cs) c h ⇓ store d (Cells (cs ++ [Some c])) h.
Proof.
  intros E. unfold store_cell. rewrite E.
  rewrite bool_decide_eq_true_2 by (rewrite length_app; simpl; lia).
  rewrite insert_app_r_alt by lia. by rewrite Nat.sub_diag.
Qed.

(** A cell written is the cell read at that index, and the other cells are
    as they were. *)
Lemma store_load_cell data i j c h h' :
  store_cell data i c h ⇓ h' →
  load_cell data j h' = if decide (i = j) then Done c else load_cell data j h.
Proof.
  unfold store_cell, load_cell. destruct data as [d|]; [|done].
  destruct (blocks h !! d) as [[s|cs]|] eqn:E; try done.
  case_bool_decide as Hi; [|done]. intros [= <-]. simpl. rewrite lookup_insert_eq.
  destruct (decide (i = j)) as [->|Hne].
  - by rewrite list_lookup_insert_eq.
  - by rewrite list_lookup_insert_ne.
Qed.

(** The release of a string that was just allocated at the fresh address
    gives back the blocks there were. *)
Lemma free_fresh h text n o :
  heap_wf h →
  free (Some (next_loc h)) (Heap (<[next_loc h := Chars text]> (blocks h)) n o)
  ⇓ Heap (blocks h) n o.
Proof.
  intros Hwf%heap_wf_fresh. unfold free. simpl. rewrite lookup_insert_eq.
  by rewrite delete_insert_eq, delete_id.
Qed.

(** ** The operations end *)

Lemma free_terminates p h : terminates (free p h).
Proof. unfold free. solve_terminates. Qed.

Lemma load_cell_terminates data i h : terminates (load_cell data i h).
Proof. unfold load_cell. solve_terminates. Qed.

Lemma load_chars_terminates p h : terminates (load_chars p h).
Proof. unfold load_chars. solve_terminates. Qed.

#[export] Hint Resolve free_terminates load_cell_terminates load_chars_terminates : disp.
