(* ===== verification/Alloc.v ===== *)
(** * Allocation: the scanner and the driver on a heap

    [Scanner] and [Driver] take [malloc] and [realloc] to succeed and keep
    the cells of the array as values.  This file models the same functions
    on the heap of [Heap], whose allocator can fail: the two failure
    branches of [find_format_specifiers] (display.h 242-245 and 332-335),
    the local [count] next to [specs.count], the array as a block of cells
    that can be uninitialised, [format_specs_array_t_free] (169-174), and
    the two drivers with their reads of the cells and their release of the
    array.

    What the allocations of a scan leave is a [ledger]: the cells that were
    stored and the [shape] of the array.  A failed [malloc] drops the
    marker and leaves the array [Sound].  A failed [realloc] leaves a null
    array next to the local [count] that was already incremented: the array
    is [Bare] when no cell was stored, [Null] when [specs.count] is not 0,
    and [Holed], with cells that were never written, once a later marker is
    stored.  The scanner on the heap refines the scanner on values through
    the ledger of the cells of the markers it accepts, for every oracle. *)

From Stdlib Require Import Ascii ZArith Lia.
From stdpp Require Import base tactics option list numbers strings gmap.
From S2P Require Import Prelude CString Types Scanner VaList Native Driver FDriver.
From S2P Require Import StreamView Heap.

(** ** Definitions *)

(** The state of [find_format_specifiers]: [p], the local [count], the two
    fields of [specs], and the heap. *)
Record astate : Type := AState {
  a_p : nat;
  a_count : nat;
  a_data : ptr;
  a_specs_count : nat;
  a_heap : heap;
}.

(** The value of type [format_specs_array_t] the function returns. *)
Record aspecs : Type := ASpecs {
  as_data : ptr;
  as_count : nat;
}.

Definition a_goto (p : nat) (st : astate) (h : heap) : astate :=
  AState p (a_count st) (a_data st) (a_specs_count st) h.

(** The conversion was accepted (240-341): the copy of the marker, its
    type, the new cell. *)
Definition scan_accept_a (buf : list ascii) (st : astate) (start p : nat)
    (specifier : ascii) (length : list ascii) : outcome astate :=
  let '(sub, h) := malloc (Chars []) (a_heap st) in            (* 241 *)
  match sub with
  | None => Done (a_goto p st h)                               (* 242-245 *)
  | Some l =>
      text ← copy_substr buf start (p - start);                (* 247-248 *)
      let h := store l (Chars text) h in
      match resolve_type specifier length with
      | Some ty =>
          let count := S (a_count st) in                       (* 329 *)
          '(data, h) ← realloc (a_data st) count h;            (* 330-331 *)
          match data with
          | None =>                                            (* 332-335 *)
              h ← free sub h;
              Done (AState p count None (a_specs_count st) h)
          | Some _ =>                                          (* 336-338 *)
              h ← store_cell data (count - 1) (ACell sub ty) h;
              Done (AState p count data count h)
          end
      | None => h ← free sub h; Done (a_goto p st h)           (* 339-341 *)
      end
  end.

(** The marker that starts at [start] (189-341), with its allocations. *)
Definition scan_marker_a (buf : list ascii) (st : astate) (start : nat) : outcome astate :=
  p ← skip_flags buf (S start);
  p ← skip_width buf p;
  p ← skip_precision buf p;
  '(length, p) ← scan_length buf p;
  specifier ← char_at buf p;
  if is_specifier specifier then scan_accept_a buf st start (S p) specifier length
  else Done (a_goto p st (a_heap st)).

(** One iteration of [while ( *p)] (181-345). *)
Definition scan_iter_a (buf : list ascii) (st : astate) : outcome (astate + aspecs * heap) :=
  let p := a_p st in
  c ← char_at buf p;
  if is_nul c then Done (inr (ASpecs (a_data st) (a_specs_count st), a_heap st))
  else if (c =? "%")%char then
    c' ← char_at buf (S p);
    if (c' =? "%")%char then Done (inl (a_goto (p + 2) st (a_heap st)))
    else inl <$> scan_marker_a buf st p
  else Done (inl (a_goto (S p) st (a_heap st))).

(** [find_format_specifiers] (176-348) on the heap [h]. *)
Definition find_format_specifiers_a (buf : list ascii) (h : heap) : outcome (aspecs * heap) :=
  loop (scan_iter_a buf) (scan_fuel buf) (AState 0 0 None 0 h).

(** [format_specs_array_t_free] (169-174): the strings of the first [count]
    cells, then the array. *)
Fixpoint free_cells (data : ptr) (i n : nat) (h : heap) : outcome heap :=
  match n with
  | 0 => Done h
  | S n =>
      c ← load_cell data i h;
      h ← free (a_substr c) h;
      free_cells data (S i) n h
  end.

Definition format_specs_array_t_free (specs : aspecs) (h : heap) : outcome heap :=
  h ← free_cells (as_data specs) 0 (as_count specs) h;
  free (as_data specs) h.

(** [specs.data[i]] as the driver uses it: the text of [substr] and the
    tag. *)
Definition cell_at (specs : aspecs) (h : heap) (i : nat) : outcome format_spec_t :=
  c ← load_cell (as_data specs) i h;
  text ← load_chars (a_substr c) h;
  Done {| substr := text; type := a_type c |}.

Section AllocDriver.
Context `{ArgModel} `{NativeFormat}.

(** One iteration of the loop of [display_vprint] (359-488), the cells read
    from the heap. *)
Definition vprint_iter_a (buf : list ascii) (specs : aspecs) (h : heap) (st : vstate) :
    outcome (vstate + vstate) :=
  let p := vp st in
  c ← char_at buf p;
  if is_nul c then Done (inr st)
  else if (c =? "%")%char then
    c' ← char_at buf (S p);
    if negb (c' =? "%")%char then
      if spec_idx st <? as_count specs then
        e ← cell_at specs h (spec_idx st);
        st ← vprint_switch e st;
        Done (inl (next_spec (strlen (substr e)) st))
      else Done (inl (advance 1 (putchar c st)))
    else Done (inl (advance 2 (putchar "%" st)))
  else if (c =? "{")%char then
    c' ← char_at buf (S p);
    if (c' =? "}")%char then inl <$> vprint_display st
    else Done (inl (advance 1 (putchar c st)))
  else Done (inl (advance 1 (putchar c st))).

(** [display_vprint] (350-493) on the heap [h]: the scan, the loop, the
    release of the array. *)
Definition display_vprint_a (format : option (list ascii)) (ap : va_list)
    (o : list ascii) (m : gmap loc Z) (h : heap) : outcome (Z * vstate * heap) :=
  match format with
  | None => Done ((-1)%Z, vstart ap o m, h)
  | Some buf =>
      '(specs, h) ← find_format_specifiers_a buf h;
      st ← loop (vprint_iter_a buf specs h) (vprint_fuel buf) (vstart ap o m);
      h ← format_specs_array_t_free specs h;
      Done (Z.of_nat (fields st), st, h)
  end.

(** The loop of [display_vfprint] (530-664), the cells read from the heap. *)
Definition vfprint_iter_a (file : FILE) (buf : list ascii) (specs : aspecs) (h : heap)
    (st : vstate) : outcome (vstate + vstate) :=
  let p := vp st in
  c ← char_at buf p;
  if is_nul c then Done (inr st)
  else if (c =? "%")%char then
    c' ← char_at buf (S p);
    if negb (c' =? "%")%char then
      if spec_idx st <? as_count specs then
        e ← cell_at specs h (spec_idx st);
        st ← vfprint_switch file e st;
        Done (inl (next_spec (strlen (substr e)) st))
      else Done (inl (advance 1 (putc c file st)))
    else Done (inl (advance 2 (putc "%" file st)))
  else if (c =? "{")%char then
    c' ← char_at buf (S p);
    if (c' =? "}")%char then inl <$> vfprint_display file st
    else Done (inl (advance 1 (putc c file st)))
  else Done (inl (advance 1 (putc c file st))).

(** [display_vfprint] (521-669) on the heap [h]. *)
Definition display_vfprint_a (file : option FILE) (format : option (list ascii))
    (ap : va_list) (o : list ascii) (m : gmap loc Z) (h : heap) :
    outcome (Z * vstate * heap) :=
  match format, file with
  | Some buf, Some f =>
      '(specs, h) ← find_format_specifiers_a buf h;
      st ← loop (vfprint_iter_a f buf specs h) (vprint_fuel buf) (vstart ap o m);
      h ← format_specs_array_t_free specs h;
      Done (Z.of_nat (fields st), st, h)
  | _, _ => Done ((-1)%Z, vstart ap o m, h)
  end.

End AllocDriver.

(** ** The ledger of a scan *)

(** What the allocations of a scan leave of the array. *)
Inductive shape : Type :=
| Sound    (* the array holds the cells that were stored, [count] their number *)
| Bare     (* [realloc] failed and no cell was ever stored: null, [count] 0 *)
| Null     (* a null array with a [count] that is not 0 *)
| Holed.   (* an array whose first cell was never written *)

#[export] Instance shape_eq_dec : EqDecision shape.
Proof. solve_decision. Defined.

(** The cells that were stored, the shape of the array and the outcomes of
    the allocations to come. *)
Record ledger (A : Type) : Type := Ledger {
  l_shape : shape;
  l_cells : list A;
  l_oracle : list bool;
}.
Arguments Ledger {A} _ _ _.
Arguments l_shape {A} _.
Arguments l_cells {A} _.
Arguments l_oracle {A} _.

(** After a failed [realloc] (332-335): [specs.data] is null and the local
    [count] was incremented. *)
Definition after_failure (sh : shape) (n : nat) : shape :=
  match sh with
  | Sound => if n is 0 then Bare else Null
  | Holed => Null
  | _ => sh
  end.

(** After a cell was stored (336-338), at the index the local [count]
    gives. *)
Definition after_success (sh : shape) : shape := if sh is Sound then Sound else Holed.

(** The allocations of one accepted marker (241, 330): a failed [malloc]
    drops it, a failed [realloc] breaks the array. *)
Definition alloc_step {A} (l : ledger A) (x : A) : ledger A :=
  let o := l_oracle l in
  if hd true o then
    if hd true (tail o)
    then Ledger (after_success (l_shape l)) (l_cells l ++ [x]) (tail (tail o))
    else Ledger (after_failure (l_shape l) (length (l_cells l))) (l_cells l) (tail (tail o))
  else Ledger (l_shape l) (l_cells l) (tail o).

(** The ledger of a scan that accepts the markers [xs], with the
    allocation outcomes [o]. *)
Definition allocs {A} (o : list bool) (xs : list A) : ledger A :=
  foldl alloc_step (Ledger Sound [] o) xs.

(** ** The representation of the array on the heap *)

(** The strings of the cells [es], at the addresses [ls]. *)
Definition sub_map (ls : list loc) (es : list format_spec_t) : gmap loc block :=
  list_to_map (zip ls (Chars ∘ substr <$> es)).

(** The cells of the array in memory. *)
Definition cells_of (ls : list loc) (es : list format_spec_t) : list (option acell) :=
  zip_with (λ l e, Some (ACell (Some l) (type e))) ls es.

(** The blocks of [h] are those of [B0] and the representation of the array
    [es]: one string per cell, at the distinct addresses [ls], and the block
    of cells at [data]; no array block for the empty array. *)
Definition represents (B0 : gmap loc block) (es : list format_spec_t) (ls : list loc)
    (data : ptr) (h : heap) : Prop :=
  heap_wf h ∧ length ls = length es ∧ NoDup ls
  ∧ Forall (λ l, B0 !! l = None) ls
  ∧ match data with
    | None => es = [] ∧ blocks h = B0
    | Some d =>
        es ≠ [] ∧ (d ∉ ls) ∧ B0 !! d = None
        ∧ blocks h = <[d := Cells (cells_of ls es)]> (sub_map ls es ∪ B0)
    end.

(** The heap after a marker was stored: the string at the fresh address
    [l], the array moved to the next one. *)
Definition stored (l : loc) (text : list ascii) (cs : list (option acell)) (data : ptr)
    (h : heap) : heap :=
  Heap (<[N.succ l := Cells cs]>
          (<[l := Chars text]> (if data is Some d then delete d (blocks h) else blocks h)))
    (N.succ (N.succ l)) (tail (tail (oracle h))).

(** The heap [h], the array [r] and the local [count] of a scan are as the
    ledger says.  In a [Sound] ledger the array is represented, next to the
    blocks [B0] the heap had. *)
Definition ledger_inv (B0 : gmap loc block) (l : ledger format_spec_t) (count : nat)
    (r : aspecs) (h : heap) : Prop :=
  heap_wf h ∧ oracle h = l_oracle l
  ∧ match l_shape l with
    | Sound =>
        count = as_count r ∧ as_count r = length (l_cells l)
        ∧ ∃ ls, represents B0 (l_cells l) ls (as_data r) h
    | Bare => as_data r = None ∧ as_count r = 0 ∧ 0 < count ∧ blocks h = B0 ∧ l_cells l = []
    | Null => as_data r = None ∧ 0 < as_count r ∧ 0 < count
    | Holed =>
        as_count r = count
        ∧ ∃ d cs, as_data r = Some d ∧ blocks h !! d = Some (Cells (None :: cs))
                  ∧ S (length cs) = count
    end.

(** The state of the heap-level scanner against the state of the
    value-level one: the same offset, and the heap as the ledger of the
    cells accepted so far says. *)
Definition scan_rel (B0 : gmap loc block) (o : list bool) (st : scan_state) (a : astate) : Prop :=
  a_p a = scan_p st
  ∧ ledger_inv B0 (allocs o (data (scan_specs st))) (a_count a)
      (ASpecs (a_data a) (a_specs_count a)) (a_heap a).

(** What the heap-level scanner returns against what the value-level one
    returns. *)
Definition scan_result (B0 : gmap loc block) (o : list bool) (specs : format_specs_array_t)
    (r : aspecs * heap) : Prop :=
  ∃ count, ledger_inv B0 (allocs o (data specs)) count r.1 r.2.

(** With an allocator that does not fail: the array is represented, both
    counts the number of cells. *)
Definition specs_rel (B0 : gmap loc block) (specs : format_specs_array_t)
    (data : ptr) (n : nat) (h : heap) : Prop :=
  n = length (Types.data specs) ∧ count specs = length (Types.data specs)
  ∧ ∃ ls, represents B0 (Types.data specs) ls data h.

(** What a call on the heap has to do with a call on values: the same value
    returned, the same final state, and the heap it started from. *)
Definition same_call (h : heap) (r : Z * vstate) (r' : Z * vstate * heap) : Prop :=
  r'.1 = r ∧ blocks r'.2 = blocks h.

(** ** Calls and states to look at *)

(** What a call on the heap shows: the value returned, the text on stdout
    and the number of blocks that are live after it. *)
Definition run_a (format : string) (ap : va_list) (o : list bool) :
    outcome (Z * list ascii * nat) :=
  (λ '(n, st, h), (n, out st, size (blocks h)))
  <$> @display_vprint_a strict demo_printf (Some (cstr (lit format))) ap [] ∅ (heap_init o).

(** The scan on the heap: the array returned and the number of live
    blocks. *)
Definition scan_a (format : string) (o : list bool) : outcome (aspecs * nat) :=
  (λ '(specs, h), (specs, size (blocks h)))
  <$> find_format_specifiers_a (cstr (lit format)) (heap_init o).

(** The state of a scan that stored one marker, before a [realloc] that
    fails. *)
Definition one_stored : astate :=
  AState 2 1 (Some 2%N) 1
    (stored 1%N (cstr (lit "%d")) [Some (ACell (Some 1%N) TYPE_INT)] None
       (heap_init [true; true; true; false])).

(** ** Ledgers *)

Lemma allocs_snoc {A} o (xs : list A) x : allocs o (xs ++ [x]) = alloc_step (allocs o xs) x.
Proof. apply foldl_snoc. Qed.

(** With an allocator that does not fail every cell is stored. *)
Lemma allocs_succeeds {A} o (xs : list A) :
  Forall (λ b, b = true) o →
  l_shape (allocs o xs) = Sound ∧ l_cells (allocs o xs) = xs
  ∧ Forall (λ b, b = true) (l_oracle (allocs o xs)).
Proof.
  intros Ho. induction xs as [|x xs (Hsh & Hc & Hor)] using rev_ind; [done|].
  rewrite allocs_snoc. unfold alloc_step.
  assert (∀ o', Forall (λ b, b = true) o' → hd true o' = true ∧ Forall (λ b, b = true) (tail o'))
    as Hnext by (intros [|b o']; [done|by intros [-> ?]%Forall_cons]).
  destruct (Hnext _ Hor) as [-> Ht], (Hnext _ Ht) as [-> Ht']. simpl. by rewrite Hsh, Hc.
Qed.

(** A ledger through a map of its cells. *)
Lemma allocs_fmap {A B} (f : A → B) o xs :
  allocs o (f <$> xs)
  = Ledger (l_shape (allocs o xs)) (f <$> l_cells (allocs o xs)) (l_oracle (allocs o xs)).
Proof.
  induction xs as [|x xs IH] using rev_ind; [done|].
  rewrite fmap_app. change (f <$> [x]) with [f x]. rewrite !allocs_snoc, IH.
  unfold alloc_step. simpl.
  rewrite length_fmap. destruct (hd true _); [destruct (hd true _)|]; simpl; [|done..].
  by rewrite fmap_app.
Qed.

(** The cells that are stored are cells that were accepted. *)
Lemma allocs_cells_Forall {A} (P : A → Prop) o xs :
  Forall P xs → Forall P (l_cells (allocs o xs)).
Proof.
  induction xs as [|x xs IH] using rev_ind; [done|]. intros [Hxs Hx]%Forall_app.
  rewrite allocs_snoc. unfold alloc_step.
  destruct (hd true _); [destruct (hd true _)|]; simpl; auto. apply Forall_app. auto.
Qed.

(** ** Facts on the representation *)

Lemma sub_map_None ls es k : k ∉ ls → sub_map ls es !! k = None.
Proof.
  intros Hk. apply not_elem_of_list_to_map_1. intros Hin. apply Hk.
  apply list_elem_of_fmap in Hin as ([l b] & -> & Hin). by apply elem_of_zip_l in Hin.
Qed.

Lemma sub_map_snoc ls es l e :
  length ls = length es → l ∉ ls →
  sub_map (ls ++ [l]) (es ++ [e]) = <[l := Chars (substr e)]> (sub_map ls es).
Proof.
  intros Hlen Hl. unfold sub_map. rewrite fmap_app, zip_with_app by by rewrite length_fmap.
  rewrite list_to_map_app. simpl. rewrite insert_empty, <- insert_union_singleton_r; [done|].
  by apply sub_map_None.
Qed.

Lemma cells_of_snoc ls es l e :
  length ls = length es →
  cells_of (ls ++ [l]) (es ++ [e]) = cells_of ls es ++ [Some (ACell (Some l) (type e))].
Proof. intros. unfold cells_of. by rewrite zip_with_app. Qed.

Lemma cells_of_length ls es : length ls = length es → length (cells_of ls es) = length es.
Proof. intros Hl. unfold cells_of. rewrite length_zip_with. lia. Qed.

(** What is not in the heap is not in its parts. *)
Lemma represents_fresh B0 es ls data h k :
  represents B0 es ls data h → blocks h !! k = None →
  B0 !! k = None ∧ (k ∉ ls) ∧ data ≠ Some k.
Proof.
  intros (_ & Hlen & _ & _ & Hd) Hk. destruct data as [d|].
  - destruct Hd as (_ & _ & _ & E). rewrite E in Hk.
    destruct (decide (k = d)) as [->|Hne]; [by rewrite lookup_insert_eq in Hk|].
    rewrite lookup_insert_ne in Hk by done. apply lookup_union_None in Hk as [Hs ?].
    split_and!; [done| |congruence]. intros Hin.
    apply not_elem_of_list_to_map_2 in Hs. apply Hs.
    rewrite fst_zip by (rewrite length_fmap; lia). done.
  - destruct Hd as [-> E]. destruct ls; [|done]. rewrite E in Hk.
    split_and!; [done|apply not_elem_of_nil|done].
Qed.

(** The blocks of the heap without the array. *)
Lemma represents_strings B0 es ls data h :
  represents B0 es ls data h →
  (if data is Some d then delete d (blocks h) else blocks h) = sub_map ls es ∪ B0.
Proof.
  intros (_ & Hlen & _ & _ & Hd). destruct data as [d|].
  - destruct Hd as (_ & Hdls & HdB & ->). rewrite delete_insert_eq, delete_id; [done|].
    by apply lookup_union_None; split; [apply sub_map_None|].
  - destruct Hd as [-> ->]. destruct ls; [|done]. unfold sub_map. simpl.
    by rewrite (left_id_L ∅ (∪)).
Qed.

Lemma stored_wf text cs data h : heap_wf h → heap_wf (stored (next_loc h) text cs data h).
Proof.
  intros Hwf. apply (heap_wf_below h); [done| |lia]. intros k.
  intros [->|[_ [->|[_ Hk]]%lookup_insert_is_Some]]%lookup_insert_is_Some; [right; lia..|left].
  destruct data as [d|]; [|done]. by apply lookup_delete_is_Some in Hk as [_ ?].
Qed.

(** The heap with the array moved and the cell for the string at the fresh
    address appended represents the array with the cell appended. *)
Lemma represents_stores B0 es ls data h text ty :
  represents B0 es ls data h →
  represents B0 (es ++ [{| substr := text; type := ty |}]) (ls ++ [next_loc h])
    (Some (N.succ (next_loc h)))
    (stored (next_loc h) text (cells_of ls es ++ [Some (ACell (Some (next_loc h)) ty)]) data h).
Proof.
  intros Hrep. pose proof Hrep as (Hwf & Hlen & Hnd & Hfr & _).
  pose proof (heap_wf_fresh h Hwf) as Hl.
  assert (blocks h !! N.succ (next_loc h) = None) as Hn.
  { destruct (blocks h !! N.succ (next_loc h)) eqn:E; [|done].
    assert (is_Some (blocks h !! N.succ (next_loc h))) as Hs%Hwf by (by eexists). lia. }
  destruct (represents_fresh _ _ _ _ _ _ Hrep Hl) as (HlB & Hlls & _).
  destruct (represents_fresh _ _ _ _ _ _ Hrep Hn) as (HnB & Hnls & _).
  split_and!; [by apply stored_wf|rewrite !length_app; simpl; lia|..].
  - apply NoDup_app. split_and!; [done| |apply NoDup_singleton].
    by intros k Hk ->%list_elem_of_singleton.
  - apply Forall_app. split; [done|]. by constructor.
  - by destruct es.
  - rewrite elem_of_app, list_elem_of_singleton. intros [?|?]; [done|lia].
  - done.
  - unfold stored. simpl. rewrite (represents_strings _ _ _ _ _ Hrep).
    by rewrite cells_of_snoc, sub_map_snoc, insert_union_l.
Qed.

(** ** The allocations of an accepted marker *)

Section Accept.
Context (buf : list ascii) (a : astate) (start p : nat) (c : ascii) (len : list ascii).
Context (text : list ascii) (ty : var_type).
Context (Hwf : heap_wf (a_heap a)).
Context (Htext : copy_substr buf start (p - start) ⇓ text).
Context (Hty : resolve_type c len = Some ty).

(** [malloc] fails: the marker is dropped (242-245). *)
Lemma accept_dropped :
  hd true (oracle (a_heap a)) = false →
  scan_accept_a buf a start p c len ⇓ a_goto p a (tick (a_heap a)).
Proof. intros Hm. unfold scan_accept_a. by rewrite (malloc_fails _ _ Hm). Qed.

(** [realloc] fails: the copy is freed, the array is null, and the local
    [count] stays incremented (332-335). *)
Lemma accept_failed :
  hd true (oracle (a_heap a)) = true → hd true (tail (oracle (a_heap a))) = false →
  scan_accept_a buf a start p c len
  ⇓ AState p (S (a_count a)) None (a_specs_count a)
      (Heap (blocks (a_heap a)) (N.succ (next_loc (a_heap a))) (tail (tail (oracle (a_heap a))))).
Proof using Hwf Htext Hty.
  intros Hm Hr. unfold scan_accept_a. rewrite (malloc_ok _ _ Hm), Htext, bind_Done_l, Hty.
  cbv zeta. rewrite realloc_fails by done. rewrite bind_Done_l. cbv beta iota.
  unfold store, tick. simpl. rewrite insert_insert_eq.
  by rewrite (free_fresh (a_heap a) text _ _ Hwf).
Qed.

(** Both succeed: the array is moved, with one more cell, and the cell is
    written at the index the local [count] gives (336-338). *)
Lemma accept_stored cs :
  hd true (oracle (a_heap a)) = true → hd true (tail (oracle (a_heap a))) = true →
  length cs = a_count a →
  match a_data a with
  | None => cs = replicate (length cs) None
  | Some d => blocks (a_heap a) !! d = Some (Cells cs)
  end →
  scan_accept_a buf a start p c len
  ⇓ AState p (S (a_count a)) (Some (N.succ (next_loc (a_heap a)))) (S (a_count a))
      (stored (next_loc (a_heap a)) text
         (cs ++ [Some (ACell (Some (next_loc (a_heap a))) ty)]) (a_data a) (a_heap a)).
Proof using Hwf Htext Hty.
  intros Hm Hr Hlen Hcs. pose proof (heap_wf_fresh _ Hwf) as Hl.
  unfold scan_accept_a. rewrite (malloc_ok _ _ Hm), Htext, bind_Done_l, Hty.
  cbv zeta. unfold store. simpl. rewrite insert_insert_eq, <- Hlen.
  rewrite (realloc_ok (a_data a) cs); [|done|].
  - rewrite bind_Done_l. cbv beta iota. rewrite Nat.sub_0_r.
    rewrite store_cell_last by (simpl; apply lookup_insert_eq).
    rewrite bind_Done_l. unfold store, stored. simpl. rewrite insert_insert_eq.
    destruct (a_data a) as [d|]; [|done]. rewrite delete_insert_ne; [done|congruence].
  - destruct (a_data a) as [d|]; [|done]. simpl. rewrite lookup_insert_ne; [done|congruence].
Qed.

End Accept.

(** ** The ledger is kept *)

Section LedgerInv.
Context (B0 : gmap loc block) (l : ledger format_spec_t) (count : nat) (r : aspecs) (h : heap).
Context (Hinv : ledger_inv B0 l count r h).

Lemma ledger_inv_dropped x :
  hd true (oracle h) = false → ledger_inv B0 (alloc_step l x) count r (tick h).
Proof using Hinv.
  destruct Hinv as (Hwf & Ho & Hsh). intros Hm. unfold alloc_step. rewrite <- Ho, Hm.
  unfold ledger_inv. simpl. split_and!; [done..|].
  by destruct (l_shape l).
Qed.

Lemma ledger_inv_failed x :
  hd true (oracle h) = true → hd true (tail (oracle h)) = false →
  ledger_inv B0 (alloc_step l x) (S count) (ASpecs None (as_count r))
    (Heap (blocks h) (N.succ (next_loc h)) (tail (tail (oracle h)))).
Proof using Hinv.
  destruct Hinv as (Hwf & Ho & Hsh). intros Hm Hr. unfold alloc_step. rewrite <- Ho, Hm, Hr.
  unfold ledger_inv. simpl. split_and!; [apply (heap_wf_below h); [done|by left|lia]|done|].
  destruct (l_shape l); simpl.
  - destruct Hsh as (_ & Hn & ls & _ & Hlen & _ & _ & Hd).
    destruct (l_cells l) as [|e es] eqn:Hes; simpl in *.
    + destruct (as_data r); [by destruct Hd|]. destruct Hd as [_ ?]. split_and!; try done; lia.
    + split_and!; [done|lia..].
  - destruct Hsh as (? & ? & ? & ? & ?). split_and!; try done; lia.
  - destruct Hsh as (? & ? & ?). split_and!; try done; lia.
  - destruct Hsh as (? & ? & ? & ? & ? & ?). split_and!; [done|lia..].
Qed.

(** The cells of the array of the ledger, as [realloc] finds them. *)
Lemma ledger_array :
  ∃ cs, length cs = count
    ∧ match as_data r with
      | None => cs = replicate (length cs) None
      | Some d => blocks h !! d = Some (Cells cs)
      end
    ∧ if l_shape l is Sound
      then ∃ ls, cs = cells_of ls (l_cells l) ∧ represents B0 (l_cells l) ls (as_data r) h
      else ∃ cs', cs = None :: cs'.
Proof using Hinv.
  destruct Hinv as (Hwf & Ho & Hsh). destruct (l_shape l).
  - destruct Hsh as (-> & Hn & ls & Hrep). exists (cells_of ls (l_cells l)).
    pose proof Hrep as (_ & Hlen & _ & _ & Hd). rewrite cells_of_length, Hn by done.
    split_and!; [done| |by exists ls]. destruct (as_data r).
    + destruct Hd as (_ & _ & _ & ->). apply lookup_insert_eq.
    + destruct Hd as [-> _]. by destruct ls.
  - destruct Hsh as (-> & _ & Hc & _). exists (replicate count None).
    rewrite length_replicate. split_and!; [done..|]. destruct count; [lia|by eexists].
  - destruct Hsh as (-> & _ & Hc). exists (replicate count None).
    rewrite length_replicate. split_and!; [done..|]. destruct count; [lia|by eexists].
  - destruct Hsh as (_ & d & cs & -> & Hd & Hc). exists (None :: cs). eauto.
Qed.

Lemma ledger_inv_stored cs text ty :
  hd true (oracle h) = true → hd true (tail (oracle h)) = true →
  length cs = count →
  (if l_shape l is Sound
   then ∃ ls, cs = cells_of ls (l_cells l) ∧ represents B0 (l_cells l) ls (as_data r) h
   else ∃ cs', cs = None :: cs') →
  ledger_inv B0 (alloc_step l {| substr := text; type := ty |}) (S count)
    (ASpecs (Some (N.succ (next_loc h))) (S count))
    (stored (next_loc h) text (cs ++ [Some (ACell (Some (next_loc h)) ty)]) (as_data r) h).
Proof using Hinv.
  destruct Hinv as (Hwf & Ho & Hsh). intros Hm Hr Hlen Hcs. unfold alloc_step.
  rewrite <- Ho, Hm, Hr. unfold ledger_inv. simpl. split_and!; [by apply stored_wf|done|].
  assert (∀ cs', cs = None :: cs' →
    ∃ d cs0, Some (N.succ (next_loc h)) = Some d
      ∧ blocks (stored (next_loc h) text (cs ++ [Some (ACell (Some (next_loc h)) ty)])
                  (as_data r) h) !! d = Some (Cells (None :: cs0))
      ∧ S (length cs0) = S count) as Hholed.
  { intros cs' ->. eexists _, (cs' ++ [_]). split; [done|]. simpl. rewrite lookup_insert_eq.
    split; [done|]. rewrite length_app. simpl in *. lia. }
  destruct (l_shape l); simpl; try (destruct Hcs as [cs' Hcs']; split; [done|by eapply Hholed]).
  destruct Hsh as (Hc & Hn & _), Hcs as (ls & -> & Hrep).
  split; [done|split; [rewrite length_app; simpl; lia|]].
  exists (ls ++ [next_loc h]). by apply represents_stores.
Qed.

End LedgerInv.

(** ** The scanner on the heap against the scanner on values *)

Lemma scan_rel_goto B0 o p p' specs a :
  scan_rel B0 o (ScanState p specs) a →
  scan_rel B0 o (ScanState p' specs) (a_goto p' a (a_heap a)).
Proof. by intros (_ & ?). Qed.

(** The part of [scan_marker_a] after the conversion letter was accepted:
    the value-level scanner appends the cell, and the ledger says what the
    heap-level one does. *)
Lemma scan_accept_sim B0 o buf specs a start p c len :
  scan_rel B0 o (ScanState (a_p a) specs) a →
  is_specifier c = true → safe (copy_substr buf start (p - start)) →
  outcome_rel (scan_rel B0 o)
    (sub ← copy_substr buf start (p - start);
     match resolve_type c len with
     | Some ty => Done (ScanState p (push_spec specs sub ty))
     | None => Done (ScanState p specs)
     end)
    (scan_accept_a buf a start p c len).
Proof.
  intros [_ Hinv] [ty Hty]%(resolve_type_accepts c len) [text Htext]. simpl in Hinv.
  pose proof Hinv as (Hwf & _). rewrite Htext, bind_Done_l, Hty.
  unfold outcome_rel, scan_rel. simpl. rewrite allocs_snoc.
  destruct (hd true (oracle (a_heap a))) eqn:Hm;
    [destruct (hd true (tail (oracle (a_heap a)))) eqn:Hr|].
  - destruct (ledger_array _ _ _ _ _ Hinv) as (cs & Hlen & Hcs & Hsh).
    eexists. split; [by eapply (accept_stored _ _ _ _ _ _ text ty)|].
    split; [done|]. by apply (ledger_inv_stored _ _ _ _ _ Hinv).
  - eexists. split; [by eapply (accept_failed _ _ _ _ _ _ text ty)|].
    split; [done|]. by apply (ledger_inv_failed _ _ _ _ _ Hinv).
  - eexists. split; [by eapply (accept_dropped _ _ _ _ _ _)|].
    split; [done|]. by apply (ledger_inv_dropped _ _ _ _ _ Hinv).
Qed.

Lemma scan_marker_sim B0 o buf specs a start :
  scan_rel B0 o (ScanState (a_p a) specs) a → start < length buf →
  outcome_rel (scan_rel B0 o) (scan_marker buf specs start) (scan_marker_a buf a start).
Proof.
  intros Hrel Hstart. unfold scan_marker, scan_marker_a.
  do 3 (apply outcome_rel_bind_eq; intros ? _).
  apply outcome_rel_bind_eq. intros [length p] _.
  apply outcome_rel_bind_eq. intros specifier Hc%char_at_Done%lookup_lt_Some.
  destruct (is_specifier specifier) eqn:Hs.
  - apply scan_accept_sim; [done..|]. apply copy_substr_safe. lia.
  - apply outcome_rel_Done. by apply (scan_rel_goto _ _ (a_p a)).
Qed.

Lemma scan_iter_sim B0 o buf st a :
  scan_rel B0 o st a →
  outcome_rel (sum_rel (scan_rel B0 o) (scan_result B0 o)) (scan_iter buf st) (scan_iter_a buf a).
Proof.
  intros Hrel. pose proof Hrel as (Hp & Hinv). destruct st as [p specs]. simpl in *.
  unfold scan_iter, scan_iter_a. simpl. rewrite Hp.
  apply outcome_rel_bind_eq. intros c Hc%char_at_Done%lookup_lt_Some.
  destruct (is_nul c); [apply outcome_rel_Done; by eexists|].
  destruct (c =? "%")%char; [|by apply outcome_rel_Done, (scan_rel_goto _ _ p); rewrite <- Hp].
  apply outcome_rel_bind_eq. intros c' _.
  destruct (c' =? "%")%char; [by apply outcome_rel_Done, (scan_rel_goto _ _ p); rewrite <- Hp|].
  eapply outcome_rel_fmap; [apply scan_marker_sim; [by rewrite Hp|done]|done].
Qed.

(** A heap represents the empty array. *)
Lemma scan_rel_init h :
  heap_wf h → scan_rel (blocks h) (oracle h) (ScanState 0 specs_empty) (AState 0 0 None 0 h).
Proof.
  intros Hwf. split; [done|]. split_and!; try done. simpl. split_and!; try done.
  exists []. split_and!; try done. constructor.
Qed.

(** The scanner on the heap ends as the scanner on values does, with the
    heap the ledger of the cells describes. *)
Lemma find_format_specifiers_a_ledger buf h :
  heap_wf h →
  outcome_rel (scan_result (blocks h) (oracle h))
    (find_format_specifiers buf) (find_format_specifiers_a buf h).
Proof.
  intros Hwf. unfold find_format_specifiers, find_format_specifiers_a.
  eapply loop_sim; [intros; by apply scan_iter_sim|by apply scan_rel_init].
Qed.

Lemma find_format_specifiers_a_sim buf h :
  succeeds h → heap_wf h →
  outcome_rel (λ specs r, specs_rel (blocks h) specs (as_data r.1) (as_count r.1) r.2)
    (find_format_specifiers buf) (find_format_specifiers_a buf h).
Proof.
  intros Hok Hwf. pose proof (find_format_specifiers_a_ledger buf h Hwf) as Hsim.
  destruct (find_format_specifiers buf) as [specs| |] eqn:Hs; [|done..].
  destruct Hsim as (r & -> & n & _ & _ & Hsh). eexists. split; [done|].
  destruct (allocs_succeeds (oracle h) (data specs) Hok) as (Hsound & Hcells & _).
  rewrite Hsound, Hcells in Hsh. destruct Hsh as (_ & Hn & ls & Hrep).
  split_and!; [done| |by exists ls]. by apply (find_format_specifiers_wf buf).
Qed.

(** ** Reading and releasing the represented array *)

Lemma sub_map_cons l ls e es :
  sub_map (l :: ls) (e :: es) = <[l := Chars (substr e)]> (sub_map ls es).
Proof. done. Qed.

Lemma sub_map_lookup ls es i l e :
  NoDup ls → length ls = length es → ls !! i = Some l → es !! i = Some e →
  sub_map ls es !! l = Some (Chars (substr e)).
Proof.
  intros Hnd Hlen Hl He. apply elem_of_list_to_map_1.
  - by rewrite fst_zip by (rewrite length_fmap; lia).
  - apply (list_elem_of_lookup_2 _ i). apply lookup_zip_with_Some.
    exists l, (Chars (substr e)). by rewrite list_lookup_fmap, He.
Qed.

(** The cell [i] of the represented array, read from the heap, is the cell
    [i] of the array. *)
Lemma represents_cell_at B0 es ls data h n i e :
  represents B0 es ls data h → es !! i = Some e → cell_at (ASpecs data n) h i ⇓ e.
Proof.
  intros (_ & Hlen & Hnd & _ & Hd) He.
  destruct data as [d|]; [|by destruct Hd as [-> _]]. destruct Hd as (_ & Hdls & _ & E).
  destruct (lookup_lt_is_Some_2 ls i) as [l Hl]; [apply lookup_lt_Some in He; lia|].
  assert (l ≠ d) by (intros ->; by apply list_elem_of_lookup_2 in Hl).
  unfold cell_at, load_cell, load_chars. simpl. rewrite E, lookup_insert_eq.
  unfold cells_of. rewrite (proj2 (lookup_zip_with_Some _ _ _ _ _)) by eauto. simpl.
  rewrite lookup_insert_ne, (lookup_union_Some_l _ _ _ _ (sub_map_lookup _ _ _ _ _ Hnd Hlen Hl He)) by done.
  simpl. by destruct e.
Qed.

(** The loop of [format_specs_array_t_free] from cell [i] on: the strings
    that are left are released, the array block stays. *)
Lemma free_cells_run B0 d cs o n : ∀ ls es i B,
  B = <[d := Cells cs]> (sub_map ls es ∪ B0) →
  (∀ j l e, ls !! j = Some l → es !! j = Some e →
     cs !! (i + j) = Some (Some (ACell (Some l) (type e)))) →
  length ls = length es → NoDup ls → d ∉ ls → Forall (λ l, B0 !! l = None) ls →
  free_cells (Some d) i (length es) (Heap B n o) ⇓ Heap (<[d := Cells cs]> B0) n o.
Proof.
  induction ls as [|l ls IH]; intros [|e es] i B -> Hcs Hlen Hnd Hd Hfr; simplify_eq/=.
  { unfold sub_map. simpl. by rewrite (left_id_L ∅ (∪)). }
  apply NoDup_cons in Hnd as [Hl Hnd]. apply not_elem_of_cons in Hd as [Hdl Hd].
  apply Forall_cons in Hfr as [HlB Hfr].
  unfold load_cell. simpl. rewrite lookup_insert_eq.
  rewrite <- (Nat.add_0_r i) at 1. rewrite (Hcs 0 l e) by done. simpl.
  unfold free at 1. simpl. rewrite lookup_insert_ne, sub_map_cons by done.
  rewrite <- insert_union_l, lookup_insert_eq. simpl.
  apply (IH es (S i)); try done.
  - rewrite delete_insert_ne, delete_insert_eq, delete_id by
      first [done|by apply lookup_union_None; split; [apply sub_map_None|]]. done.
  - intros j l' e' Hl' He'. rewrite <- (Hcs (S j) l' e') by done. f_equal. lia.
Qed.

(** Releasing the represented array gives back the heap it was built on. *)
Lemma represents_free_eq B0 es ls data h :
  represents B0 es ls data h →
  format_specs_array_t_free (ASpecs data (length es)) h ⇓ Heap B0 (next_loc h) (oracle h).
Proof.
  intros (_ & Hlen & Hnd & Hfr & Hd). unfold format_specs_array_t_free. simpl.
  destruct h as [B n o], data as [d|]; simpl in *.
  - destruct Hd as (_ & Hdls & HdB & E).
    rewrite (free_cells_run B0 d (cells_of ls es) o n ls es 0 B); try done.
    + simpl. unfold free. simpl. rewrite lookup_insert_eq.
      by rewrite delete_insert_eq, delete_id.
    + intros j l e Hl He. unfold cells_of. apply lookup_zip_with_Some. eauto.
  - by destruct Hd as [-> ->].
Qed.

Lemma represents_free B0 es ls data h :
  represents B0 es ls data h →
  ∃ h', format_specs_array_t_free (ASpecs data (length es)) h ⇓ h' ∧ blocks h' = B0.
Proof. intros Hrep. eexists. split; [by apply (represents_free_eq B0 es ls)|done]. Qed.

(** ** The reads and the release end *)

Lemma cell_at_terminates r h i : terminates (cell_at r h i).
Proof. unfold cell_at. solve_terminates. Qed.

Lemma free_cells_terminates data n : ∀ i h, terminates (free_cells data i n h).
Proof. induction n as [|n IH]; intros i h; simpl; solve_terminates. Qed.

Lemma format_specs_array_t_free_terminates r h : terminates (format_specs_array_t_free r h).
Proof. unfold format_specs_array_t_free. pose proof free_cells_terminates. solve_terminates. Qed.

#[export] Hint Resolve cell_at_terminates format_specs_array_t_free_terminates : disp.

(** What a scan leaves is an array that is represented, or one whose first
    cell cannot be read. *)
Lemma ledger_inv_cases B0 l n r h :
  ledger_inv B0 l n r h →
  (as_count r = length (l_cells l) ∧ ∃ ls, represents B0 (l_cells l) ls (as_data r) h)
  ∨ (0 < as_count r ∧ ∃ u, cell_at r h 0 ↯ u).
Proof.
  intros (Hwf & _ & Hsh). unfold cell_at, load_cell. destruct (l_shape l).
  - left. by destruct Hsh as (_ & ? & ?).
  - left. destruct Hsh as (Hd & -> & _ & HB & ->). split; [done|]. exists [].
    rewrite Hd. split_and!; try done; constructor.
  - right. destruct Hsh as (-> & ? & _). eauto.
  - right. destruct Hsh as (-> & d & cs & -> & -> & <-). split; [lia|]. eauto.
Qed.

(** ** The driver on the heap against the driver on values *)

Section AllocDriverFacts.
Context `{ArgModel} `{NativeFormat}.

Lemma vprint_iter_a_eq B0 buf specs ls data h st :
  represents B0 (Types.data specs) ls data h → count specs = length (Types.data specs) →
  vprint_iter_a buf (ASpecs data (count specs)) h st = vprint_iter buf specs st.
Proof.
  intros Hrep Hc. unfold vprint_iter_a, vprint_iter. simpl.
  destruct (char_at buf (vp st)) as [c| |]; simpl; [|done..].
  destruct (is_nul c); [done|]. destruct (c =? "%")%char; [|done].
  destruct (char_at buf (S (vp st))) as [c'| |]; simpl; [|done..].
  destruct (negb _); [|done]. destruct (spec_idx st <? count specs) eqn:E; [|done].
  apply Nat.ltb_lt in E. rewrite Hc in E.
  destruct (lookup_lt_is_Some_2 _ _ E) as [e He].
  rewrite (represents_cell_at _ _ _ _ _ _ _ _ Hrep He). unfold specs_at. by rewrite He.
Qed.

(** The loop of the driver on an array that is represented is the loop on
    the cells. *)
Lemma vprint_loop_a_eq B0 buf es ls data h fuel st :
  represents B0 es ls data h →
  loop (vprint_iter_a buf (ASpecs data (length es)) h) fuel st
  = loop (vprint_iter buf {| data := es; count := length es |}) fuel st.
Proof.
  intros Hrep. apply (loop_ext_inv _ _ (λ _, True)); [|done..]. intros s _.
  by apply (vprint_iter_a_eq B0 buf {| data := es; count := length es |} ls).
Qed.

Lemma display_vprint_a_sim format ap o m h :
  succeeds h → heap_wf h →
  outcome_rel (same_call h) (display_vprint format ap o m) (display_vprint_a format ap o m h).
Proof.
  intros Hok Hwf. destruct format as [buf|]; [|by apply outcome_rel_Done].
  unfold display_vprint, display_vprint_a.
  eapply outcome_rel_bind; [by apply find_format_specifiers_a_sim|].
  intros specs [[data n] h'] (Hn & Hc & ls & Hrep). simpl in Hn, Hc, Hrep. subst n.
  cbv beta iota.
  rewrite <- Hc, (loop_ext_inv (vprint_iter_a buf (ASpecs data (count specs)) h')
                    (vprint_iter buf specs) (λ _, True));
    [|intros; by eapply vprint_iter_a_eq|done..].
  apply outcome_rel_bind_eq. intros st _. rewrite Hc.
  destruct (represents_free _ _ _ _ _ Hrep) as (h'' & -> & Hb). by apply outcome_rel_Done.
Qed.

Lemma vfprint_iter_a_eq B0 file buf specs ls data h st :
  represents B0 (Types.data specs) ls data h → count specs = length (Types.data specs) →
  vfprint_iter_a file buf (ASpecs data (count specs)) h st = vfprint_iter file buf specs st.
Proof.
  intros Hrep Hc. unfold vfprint_iter_a, vfprint_iter. simpl.
  destruct (char_at buf (vp st)) as [c| |]; simpl; [|done..].
  destruct (is_nul c); [done|]. destruct (c =? "%")%char; [|done].
  destruct (char_at buf (S (vp st))) as [c'| |]; simpl; [|done..].
  destruct (negb _); [|done]. destruct (spec_idx st <? count specs) eqn:E; [|done].
  apply Nat.ltb_lt in E. rewrite Hc in E.
  destruct (lookup_lt_is_Some_2 _ _ E) as [e He].
  rewrite (represents_cell_at _ _ _ _ _ _ _ _ Hrep He). unfold specs_at. by rewrite He.
Qed.

(** The stream driver on the heap ends as the stream driver on values does,
    and leaves the heap as it found it. *)
Lemma display_vfprint_a_sim file format ap o m h :
  succeeds h → heap_wf h →
  outcome_rel (same_call h)
    (display_vfprint file format ap o m) (display_vfprint_a file format ap o m h).
Proof.
  intros Hok Hwf. destruct format as [buf|], file as [f|]; try by apply outcome_rel_Done.
  unfold display_vfprint, display_vfprint_a.
  eapply outcome_rel_bind; [by apply find_format_specifiers_a_sim|].
  intros specs [[data n] h'] (Hn & Hc & ls & Hrep). simpl in Hn, Hc, Hrep. subst n.
  cbv beta iota.
  rewrite <- Hc, (loop_ext_inv (vfprint_iter_a f buf (ASpecs data (count specs)) h')
                    (vfprint_iter f buf specs) (λ _, True));
    [|intros; by eapply vfprint_iter_a_eq|done..].
  apply outcome_rel_bind_eq. intros st _. rewrite Hc.
  destruct (represents_free _ _ _ _ _ Hrep) as (h'' & -> & Hb). by apply outcome_rel_Done.
Qed.

End AllocDriverFacts.

(** ** The stream driver on the heap, seen from stdout *)

Section AllocStreamView.
Context `{DisplayArgs} `{NativeFormat}.
Context (file : FILE).

Lemma vprint_iter_a_view buf specs h st :
  vprint_iter_a buf specs h (view file st)
  = sum_map (view file) (view file) <$> vfprint_iter_a file buf specs h st.
Proof.
  unfold vprint_iter_a, vfprint_iter_a. simpl.
  destruct (char_at buf (vp st)) as [c| |]; simpl; [|done..].
  destruct (is_nul c); [done|]. destruct (c =? "%")%char.
  - destruct (char_at buf (S (vp st))) as [c'| |]; simpl; [|done..].
    destruct (negb _); [|done]. destruct (spec_idx st <? as_count specs); [|done].
    destruct (cell_at specs h (spec_idx st)) as [e| |]; simpl; [|done..].
    rewrite vprint_switch_view. by destruct (vfprint_switch file e st).
  - destruct (c =? "{")%char; [|done].
    destruct (char_at buf (S (vp st))) as [c'| |]; simpl; [|done..].
    destruct (c' =? "}")%char; [|done].
    rewrite vprint_display_view. by destruct (vfprint_display file st).
Qed.

(** On the heap too, the stream driver is the stdout driver on the
    stream's view of the arguments, whatever the allocator does. *)
Lemma display_vfprint_a_view format ap o m h :
  display_vprint_a format (on_stream_args file ap) o m h
  = (λ '(n, st, h'), (n, view file st, h')) <$> display_vfprint_a (Some file) format ap o m h.
Proof.
  destruct format as [buf|]; [|done]. unfold display_vprint_a, display_vfprint_a.
  destruct (find_format_specifiers_a buf h) as [[specs h']| |]; [|done..]. rewrite !bind_Done_l.
  cbv beta iota. change (vstart (on_stream_args file ap) o m) with (view file (vstart ap o m)).
  rewrite (loop_fmap (vfprint_iter_a file buf specs h') (vprint_iter_a buf specs h')
             (view file) (view file)) by apply vprint_iter_a_view.
  destruct (loop _ _ _) as [st| |]; simpl; [|done..].
  by destruct (format_specs_array_t_free specs h').
Qed.

End AllocStreamView.

(** ** The loop of the driver ends, whatever the array is *)

Section Ends.
Context `{ArgModel} `{NativeFormat}.
Context (buf : list ascii).
Implicit Types (r : aspecs) (h : heap).

(** With no cell to take, an iteration leaves the index where it is. *)
Lemma vprint_iter_no_cell st st' :
  vprint_iter buf specs_empty st ⇓ inl st' → spec_idx st' = spec_idx st.
Proof.
  unfold vprint_iter. intros (c & _ & Hst)%bind_Done. case_if; [done|].
  case_if; [|case_if]; try (by injection Hst as <-);
    apply bind_Done in Hst as (c' & _ & Hst); case_if; try (by injection Hst as <-).
  by apply fmap_Done in Hst as (st1 & (_ & _ & ? & _)%vprint_display_frame & [= ->]).
Qed.

(** Before it has taken a cell, the driver on an array whose first cell
    cannot be read does what the driver without cells does, or reads that
    cell. *)
Lemma vprint_iter_a_broken r h u st :
  0 < as_count r → cell_at r h 0 ↯ u → spec_idx st = 0 →
  vprint_iter_a buf r h st = vprint_iter buf specs_empty st ∨ vprint_iter_a buf r h st ↯ u.
Proof.
  intros Hcount%Nat.ltb_lt Hcell Hi. unfold vprint_iter_a, vprint_iter.
  destruct (char_at buf (vp st)) as [c| |]; simpl; [|by left..].
  destruct (is_nul c); [by left|]. destruct (c =? "%")%char; [|by left].
  destruct (char_at buf (S (vp st))) as [c'| |]; simpl; [|by left..].
  destruct (negb _); [|by left]. rewrite Hi, Hcount, Hcell. by right.
Qed.

Lemma vprint_loop_a_broken r h u fuel st :
  0 < as_count r → cell_at r h 0 ↯ u → spec_idx st = 0 → S (length buf) - vp st < fuel →
  terminates (loop (vprint_iter_a buf r h) fuel st).
Proof.
  intros Hcount Hcell. 
  apply (loop_terminates _ (λ st, spec_idx st = 0) (λ st, S (length buf) - vp st)).
  - intros s Hi. destruct (vprint_iter_a_broken r h u s Hcount Hcell Hi) as [->| ->]; [|done].
    apply vprint_iter_terminates.
  - intros s s' Hi Hs.
    destruct (vprint_iter_a_broken r h u s Hcount Hcell Hi) as [E|E]; rewrite E in Hs; [|done].
    apply vprint_iter_no_cell in Hs as Hi'. apply vprint_iter_step in Hs; [|constructor].
    split; [congruence|lia].
Qed.

(** The loop on what a scan leaves. *)
Lemma vprint_loop_a_terminates B0 o specs n r h st :
  Forall (λ e, 1 ≤ strlen (substr e)) (data specs) →
  ledger_inv B0 (allocs o (data specs)) n r h →
  spec_idx st = 0 → vp st = 0 →
  terminates (loop (vprint_iter_a buf r h) (vprint_fuel buf) st).
Proof.
  intros Hne [[Hn [ls Hrep]]|[Hcount [u Hcell]]]%ledger_inv_cases Hi Hp.
  - destruct r as [d k]. simpl in Hn, Hrep. subst k. rewrite (vprint_loop_a_eq B0 _ _ ls) by done.
    apply vprint_loop_terminates; [by apply allocs_cells_Forall|]. unfold vprint_fuel. lia.
  - apply (vprint_loop_a_broken r h u); [done..|]. unfold vprint_fuel. lia.
Qed.

End Ends.

Lemma display_vprint_a_ends `{ArgModel} `{NativeFormat} format ap o m h :
  heap_wf h → terminates (display_vprint_a format ap o m h).
Proof.
  intros Hwf. destruct format as [buf|]; [|done]. unfold display_vprint_a.
  pose proof (find_format_specifiers_a_ledger buf h Hwf) as Hsim.
  destruct (find_format_specifiers buf) as [specs| |] eqn:Hs; simpl in Hsim.
  - destruct Hsim as ([r h'] & -> & n & Hinv). rewrite bind_Done_l.
    apply bind_terminates; [|intros; solve_terminates].
    by apply (vprint_loop_a_terminates buf (blocks h) (oracle h) specs n r h');
      [apply (find_format_specifiers_nonempty buf)|..].
  - by rewrite Hsim.
  - by apply scan_fuel_enough in Hs.
Qed.

(** ** What is stored is read back *)

(** Every cell the scanner produced is read back from the heap it left. *)
Lemma scan_read_back buf h specs :
  succeeds h → heap_wf h → find_format_specifiers buf ⇓ specs →
  ∃ r h', find_format_specifiers_a buf h ⇓ (r, h') ∧ as_count r = count specs
    ∧ ∀ i e, data specs !! i = Some e → cell_at r h' i ⇓ e.
Proof.
  intros Hok Hwf Hs. pose proof (find_format_specifiers_a_sim buf h Hok Hwf) as Hsim.
  rewrite Hs in Hsim. destruct Hsim as ([[d n] h'] & -> & Hn & Hc & ls & Hrep).
  simpl in *. exists (ASpecs d n), h'. split_and!; [done|simpl; congruence|].
  intros i e He. by eapply represents_cell_at.
Qed.

(** ** After a failed [realloc] *)

(** A null array with a count that is not 0 (what a failed [realloc] leaves
    when a marker was accepted before): the release dereferences null. *)
Lemma stale_count_free n h : format_specs_array_t_free (ASpecs None (S n)) h ↯ NullDeref.
Proof. done. Qed.

(** The driver's read of a cell does too. *)
Lemma stale_count_cell_at n h i : cell_at (ASpecs None n) h i ↯ NullDeref.
Proof. done. Qed.

(** ** The theorems *)

Section AllocTheorems.
Context `{ArgModel} `{NativeFormat}.

(** C6. For every outcome of the allocations, the scanner on the heap ends as the
    scanner on values does: with the same undefined read, or with the heap
    and the array that the ledger of the accepted cells describes: the cells
    that were stored, in an array that is represented next to the blocks the
    heap had when no [realloc] failed, and an array that is null or has a
    first cell never written otherwise. *)
Theorem find_format_specifiers_a_accounts buf h :
  heap_wf h →
  outcome_rel (scan_result (blocks h) (oracle h))
    (find_format_specifiers buf) (find_format_specifiers_a buf h).
Proof. apply find_format_specifiers_a_ledger. Qed.

(** C35. When [realloc] fails on an array that holds cells (332-335), the copy
    of the marker is released and nothing else: the block of the array and
    the string of every cell stay allocated, while [specs.data] is null and
    [specs.count] is what it was.  No pointer to them is left. *)
Theorem realloc_failure_leaks B0 buf a start p c len es ls d :
  represents B0 es ls (a_data a) (a_heap a) → a_data a = Some d →
  hd true (oracle (a_heap a)) = true → hd true (tail (oracle (a_heap a))) = false →
  is_specifier c = true → safe (copy_substr buf start (p - start)) →
  ∃ a', scan_accept_a buf a start p c len ⇓ a'
    ∧ a_data a' = None ∧ a_count a' = S (a_count a) ∧ a_specs_count a' = a_specs_count a
    ∧ blocks (a_heap a') !! d = Some (Cells (cells_of ls es))
    ∧ ∀ i l e, ls !! i = Some l → es !! i = Some e →
        blocks (a_heap a') !! l = Some (Chars (substr e)).
Proof.
  intros Hrep Hd Hm Hr [ty Hty]%(resolve_type_accepts c len) [text Htext].
  pose proof Hrep as (Hwf & Hlen & Hnd & _ & Hb). rewrite Hd in Hb.
  destruct Hb as (_ & Hdls & _ & Hb).
  eexists. split; [by apply (accept_failed _ _ _ _ _ _ text ty)|]. simpl. rewrite Hb.
  split_and!; [done..|apply lookup_insert_eq|]. intros i l e Hl He.
  assert (l ≠ d) by (intros ->; by apply list_elem_of_lookup_2 in Hl).
  rewrite lookup_insert_ne by done. by apply lookup_union_Some_l, (sub_map_lookup _ _ i).
Qed.

(** With an allocator that does not fail, the scanner on the heap ends as
    the scanner on values does: with the same undefined read, or with an
    array block that holds the same cells, [count] their number, each
    [substr] a block of its own, next to the blocks the heap had. *)
Theorem find_format_specifiers_a_refines buf h :
  succeeds h → heap_wf h →
  outcome_rel (λ specs r, specs_rel (blocks h) specs (as_data r.1) (as_count r.1) r.2)
    (find_format_specifiers buf) (find_format_specifiers_a buf h).
Proof. apply find_format_specifiers_a_sim. Qed.

(** C8. With an allocator that does not fail, [display_vprint] on the heap ends
    as [display_vprint] on values does: with the same undefined behaviour, or
    with the same value returned and the same final state, and then every
    block the call allocated has been released: the heap has the blocks it
    had before the call. *)
Theorem display_vprint_a_refines format ap o m h :
  succeeds h → heap_wf h →
  outcome_rel (same_call h) (display_vprint format ap o m) (display_vprint_a format ap o m h).
Proof. apply display_vprint_a_sim. Qed.

(** Round trip through the heap: with an allocator that does not fail,
    the array the scanner builds in memory has the count of the scanner on
    values, and the driver's read of cell [i], through [specs.data] and the
    [substr] pointer, gives back the text and the type the scanner stored
    for the [i]-th marker. *)
Theorem find_format_specifiers_a_read_back buf h specs :
  succeeds h → heap_wf h → find_format_specifiers buf ⇓ specs →
  ∃ r h', find_format_specifiers_a buf h ⇓ (r, h') ∧ as_count r = count specs
    ∧ ∀ i e, data specs !! i = Some e → cell_at r h' i ⇓ e.
Proof. apply scan_read_back. Qed.

(** The stream driver on the heap ends as the stream driver on values
    does, and leaves the heap with the blocks it had before the call. *)
Theorem display_vfprint_a_refines file format ap o m h :
  succeeds h → heap_wf h →
  outcome_rel (same_call h)
    (display_vfprint file format ap o m) (display_vfprint_a file format ap o m h).
Proof. apply display_vfprint_a_sim. Qed.

(** C27. A call on the heap ends, for every buffer, every argument list and
    every outcome of the allocations, with its result or with an undefined
    behaviour of C: the scanner on the heap ends where the scanner on values
    does, the loop of the driver moves forward on every array the scan can
    leave, and the release is a loop over the cells. *)
Theorem display_vprint_a_terminates format ap o m h :
  heap_wf h → terminates (display_vprint_a format ap o m h).
Proof. apply display_vprint_a_ends. Qed.

End AllocTheorems.

(** The stream driver on the heap ends too. *)
Theorem display_vfprint_a_terminates `{DisplayArgs} `{NativeFormat} file format ap o m h :
  heap_wf h → terminates (display_vfprint_a file format ap o m h).
Proof.
  intros Hwf. destruct file as [file|]; [|by destruct format].
  pose proof (display_vprint_a_ends format (on_stream_args file ap) o m h Hwf) as Ht.
  rewrite display_vfprint_a_view in Ht. intros E. by rewrite E in Ht.
Qed.

Lemma find_format_specifiers_a_refines_witness :
  outcome_rel
    (λ specs r, specs_rel (blocks (heap_init [])) specs (as_data r.1) (as_count r.1) r.2)
    (find_format_specifiers (cstr (lit "%d-%s")))
    (find_format_specifiers_a (cstr (lit "%d-%s")) (heap_init [])).
Proof. apply find_format_specifiers_a_refines; [apply Forall_nil_2|apply heap_init_wf]. Defined.

Lemma find_format_specifiers_a_accounts_witness :
  outcome_rel (scan_result (blocks (heap_init [true; false])) (oracle (heap_init [true; false])))
    (find_format_specifiers (cstr (lit "%d-%s")))
    (find_format_specifiers_a (cstr (lit "%d-%s")) (heap_init [true; false])).
Proof. apply find_format_specifiers_a_accounts, heap_init_wf. Defined.

Lemma realloc_failure_leaks_witness :
  ∃ a', scan_accept_a (cstr (lit "%d%s")) one_stored 2 4 "s" [] ⇓ a'
    ∧ a_data a' = None ∧ a_count a' = 2 ∧ a_specs_count a' = 1
    ∧ blocks (a_heap a') !! 2%N
      = Some (Cells (cells_of [1%N] [{| substr := cstr (lit "%d"); type := TYPE_INT |}]))
    ∧ ∀ i l e, [1%N] !! i = Some l
        → [{| substr := cstr (lit "%d"); type := TYPE_INT |}] !! i = Some e
        → blocks (a_heap a') !! l = Some (Chars (substr e)).
Proof.
  apply (realloc_failure_leaks ∅ (cstr (lit "%d%s")) one_stored 2 4 "s" []
           [{| substr := cstr (lit "%d"); type := TYPE_INT |}] [1%N] 2%N); try done.
  - apply (represents_stores ∅ [] [] None (heap_init [true; true; true; false])).
    split_and!; try done; [apply heap_init_wf|constructor..].
  - by eexists.
Defined.

Lemma display_vprint_a_refines_witness :
  outcome_rel (same_call (heap_init [true; true]))
    (@display_vprint strict demo_printf (Some (cstr (lit "%d"))) [V_int T_int 5] [] ∅)
    (@display_vprint_a strict demo_printf (Some (cstr (lit "%d"))) [V_int T_int 5] [] ∅
       (heap_init [true; true])).
Proof.
  apply display_vprint_a_refines; [by repeat constructor|apply heap_init_wf].
Defined.

Lemma find_format_specifiers_a_read_back_witness :
  ∃ r h', find_format_specifiers_a (cstr (lit "a%d")) (heap_init []) ⇓ (r, h')
    ∧ as_count r = count {| data := [{| substr := cstr (lit "%d"); type := TYPE_INT |}]; count := 1 |}
    ∧ ∀ i e, data {| data := [{| substr := cstr (lit "%d"); type := TYPE_INT |}]; count := 1 |} !! i
             = Some e → cell_at r h' i ⇓ e.
Proof.
  apply find_format_specifiers_a_read_back; [apply Forall_nil_2|apply heap_init_wf|reflexivity].
Defined.

Lemma display_vfprint_a_refines_witness :
  outcome_rel (same_call (heap_init []))
    (@display_vfprint strict demo_printf (Some 2%N) (Some (cstr (lit "%d"))) [V_int T_int 5] [] ∅)
    (@display_vfprint_a strict demo_printf (Some 2%N) (Some (cstr (lit "%d"))) [V_int T_int 5] [] ∅
       (heap_init [])).
Proof. apply display_vfprint_a_refines; [apply Forall_nil_2|apply heap_init_wf]. Defined.

Lemma display_vprint_a_terminates_witness :
  terminates (@display_vprint_a strict demo_printf (Some (cstr (lit "%d-%s")))
                [V_int T_int 5] [] ∅ (heap_init [true; true; true; false])).
Proof. apply (@display_vprint_a_terminates strict demo_printf), heap_init_wf. Defined.

(** ** Calls with a failing allocator *)

(** No failure: the call returns and leaves no block behind. *)
Example alloc_success :
  run_a "%d-%s" [V_int T_int 5; V_str (Some (cstr (lit "ok")))] [] ⇓ (2%Z, lit "5-ok", 0).
Proof. by vm_compute. Qed.

(** [realloc] fails at the second marker (the fourth allocation): the scan
    returns a null array with [count] still 1, and the string and the array
    of the first marker are lost. *)
Example realloc_failure_leak :
  scan_a "%d-%s" [true; true; true; false] ⇓ (ASpecs None 1, 2).
Proof. by vm_compute. Qed.

(** The driver then reads [specs.data[0]] through the null pointer. *)
Example realloc_failure_null_deref :
  run_a "%d-%s" [V_int T_int 5; V_str (Some (cstr (lit "ok")))] [true; true; true; false]
  ↯ NullDeref.
Proof. by vm_compute. Qed.

(** [realloc] fails at the first marker and succeeds at the second: the new
    array has two cells, the first one never written, and the driver reads
    it. *)
Example realloc_failure_uninit :
  run_a "%d-%s" [V_int T_int 5; V_str (Some (cstr (lit "ok")))] [true; false; true; true]
  ↯ Uninit.
Proof. by vm_compute. Qed.

(** [malloc] fails at the first marker: the marker is dropped, and the
    driver prints the first argument under the second marker's text, where
    the first marker stands. *)
Example malloc_failure_desync :
  run_a "%d-%s" [V_str (Some (cstr (lit "ok")))] [false] ⇓ (1%Z, lit "ok-%s", 0).
Proof. by vm_compute. Qed.
