(* ===== verification/Template.v ===== *)
(** * The template grammar

    The grammar of templates, as the documentation of the library gives it:
<<
    literal-text | "%%" | "%" flags* width? ("." precision)? length? conv | "{}"
    flags     := one of - + space # 0
    width     := digit+ | "*"
    precision := digit+ | "*"
    length    := "hh" | "h" | "l" | "ll" | "j" | "z" | "t" | "L"
    conv      := one of d i o u x X e E f F g G a A c s p n
>>
    The scanner also takes [hl] and [lh] for length modifiers; [length_mod]
    has them, and the grammar ([wf_marker]) leaves them out.

    A template is a list of [item]s; [template_text] is the text it stands
    for.  [tag_of] is the type-resolution policy: the type of the argument a
    marker consumes, from its conversion letter and its length modifier
    alone.

    These definitions are the specification the scanner and the driver are
    proved against; they are not a translation of code. *)

From Stdlib Require Import Ascii ZArith Lia.
From stdpp Require Import base tactics option list numbers strings.
From S2P Require Import Prelude CString Types.

(** ** Definitions *)

Inductive length_mod : Set :=
| L_none | L_hh | L_h | L_l | L_ll | L_j | L_z | L_t | L_L
| L_hl | L_lh.

#[export] Instance length_mod_eq_dec : EqDecision length_mod.
Proof. solve_decision. Defined.

Definition length_text (l : length_mod) : list ascii :=
  lit match l with
      | L_none => "" | L_hh => "hh" | L_h => "h" | L_l => "l" | L_ll => "ll"
      | L_j => "j" | L_z => "z" | L_t => "t" | L_L => "L"
      | L_hl => "hl" | L_lh => "lh"
      end.

Definition CONVS : list ascii := lit "diouxXeEfFgGaAcspn".
Definition FLAG_CHARS : list ascii := lit "-+ #0".

Record marker : Type := Marker {
  m_flags : list ascii;
  m_width : list ascii;             (* empty, "*" or digits *)
  m_prec : option (list ascii);     (* what follows the "." *)
  m_length : length_mod;
  m_conv : ascii;
}.

#[export] Instance marker_eq_dec : EqDecision marker.
Proof. solve_decision. Defined.

Definition digits (w : list ascii) : Prop := Forall (λ c, isdigit c = true) w.

(** A marker of the grammar.  The decomposition is the one in which a
    leading [0] of the width counts as a flag, so that every marker text has
    one decomposition. *)
Definition wf_marker (m : marker) : Prop :=
  Forall (λ c, c ∈ FLAG_CHARS) (m_flags m)
  ∧ (m_width m = lit "*" ∨ (digits (m_width m) ∧ head (m_width m) ≠ Some "0"%char))
  ∧ (∀ d, m_prec m = Some d → d = lit "*" ∨ digits d)
  ∧ m_conv m ∈ CONVS
  ∧ m_length m ∉ [L_hl; L_lh].

Definition prec_text (p : option (list ascii)) : list ascii :=
  match p with
  | None => []
  | Some d => "."%char :: d
  end.

(** What follows the [%]. *)
Definition marker_body (m : marker) : list ascii :=
  m_flags m ++ m_width m ++ prec_text (m_prec m) ++ length_text (m_length m) ++ [m_conv m].

Definition marker_text (m : marker) : list ascii := "%"%char :: marker_body m.

(** The type-resolution policy. *)
Definition signed_tag (l : length_mod) : var_type :=
  match l with
  | L_hh => TYPE_SIGNED_INT8 | L_h => TYPE_SHORT | L_l => TYPE_LONG
  | L_ll => TYPE_LONG_LONG | L_j => TYPE_INTMAX_T | L_z => TYPE_SSIZE_T
  | L_t => TYPE_PTRDIFF_T | L_none | L_L | L_hl | L_lh => TYPE_INT
  end.

Definition unsigned_tag (l : length_mod) : var_type :=
  match l with
  | L_hh => TYPE_UINT8 | L_h => TYPE_USHORT | L_l => TYPE_ULONG
  | L_ll => TYPE_ULONG_LONG | L_j => TYPE_UINTMAX_T | L_z => TYPE_SIZE_T
  | L_t => TYPE_PTRDIFF_T | L_none | L_L | L_hl | L_lh => TYPE_UINT
  end.

Definition reference_tag (l : length_mod) : var_type :=
  match l with
  | L_hh => TYPE_POINTER_SIGNED_INT8 | L_h => TYPE_POINTER_SHORT
  | L_l => TYPE_POINTER_LONG | L_ll => TYPE_POINTER_LONG_LONG
  | L_j => TYPE_POINTER_INTMAX_T | L_z => TYPE_POINTER_SSIZE_T
  | L_t => TYPE_POINTER_PTRDIFF_T | L_none | L_L | L_hl | L_lh => TYPE_POINTER_INT
  end.

Definition float_tag (l : length_mod) : var_type :=
  match l with
  | L_L => TYPE_LONG_DOUBLE
  | _ => TYPE_DOUBLE
  end.

Definition tag_of (conv : ascii) (l : length_mod) : var_type :=
  if bool_decide (conv ∈ lit "di") then signed_tag l
  else if bool_decide (conv ∈ lit "ouxX") then unsigned_tag l
  else if bool_decide (conv ∈ lit "eEfFgGaA") then float_tag l
  else if bool_decide (conv = "n"%char) then reference_tag l
  else if bool_decide (conv = "c"%char) then TYPE_INT
  else if bool_decide (conv = "s"%char) then TYPE_STRING
  else if bool_decide (conv = "p"%char) then TYPE_POINTER
  else TYPE_NONE.

Definition marker_tag (m : marker) : var_type := tag_of (m_conv m) (m_length m).

Inductive item : Type :=
| Lit (c : ascii)
| Percent
| Braces
| Mark (m : marker).

#[export] Instance item_eq_dec : EqDecision item.
Proof. solve_decision. Defined.

Definition item_text (i : item) : list ascii :=
  match i with
  | Lit c => [c]
  | Percent => lit "%%"
  | Braces => lit "{}"
  | Mark m => marker_text m
  end.

Definition template_text (t : list item) : list ascii := mjoin (item_text <$> t).

(** An item of a template, given the item that follows it.  A literal is
    neither the terminator nor [%], and a literal [{] does not stand before a
    literal [}]: that text is [Braces]. *)
Definition wf_item (i : item) (next : option item) : Prop :=
  match i with
  | Lit c =>
      c ≠ NUL ∧ c ≠ "%"%char ∧ ¬ (c = "{"%char ∧ next = Some (Lit "}"%char))
  | Mark m => wf_marker m
  | Percent | Braces => True
  end.

Fixpoint wf_template (t : list item) : Prop :=
  match t with
  | [] => True
  | i :: t' => wf_item i (head t') ∧ wf_template t'
  end.

(** ** Decidability *)

#[export] Instance digits_dec w : Decision (digits w).
Proof. unfold digits. apply _. Defined.

#[export] Instance wf_marker_dec m : Decision (wf_marker m).
Proof.
  unfold wf_marker.
  assert (Decision (∀ d, m_prec m = Some d → d = lit "*" ∨ digits d)).
  { destruct (m_prec m) as [d|].
    - destruct (decide (d = lit "*" ∨ digits d)) as [Hd|Hd]; [left|right].
      + by intros ? [= <-].
      + intros Hall. by apply Hd, Hall.
    - left. by intros. }
  apply _.
Defined.

#[export] Instance wf_item_dec i next : Decision (wf_item i next).
Proof. destruct i; simpl; apply _. Defined.

#[export] Instance wf_template_dec t : Decision (wf_template t).
Proof. induction t as [|i t IH]; simpl; apply _. Defined.

(** ** The text of a template *)

Lemma template_text_nil : template_text [] = [].
Proof. done. Qed.

Lemma template_text_cons i t : template_text (i :: t) = item_text i ++ template_text t.
Proof. done. Qed.

Lemma template_text_app t1 t2 : template_text (t1 ++ t2) = template_text t1 ++ template_text t2.
Proof. unfold template_text. by rewrite fmap_app, join_app. Qed.

Lemma wf_template_app t1 t2 : wf_template (t1 ++ t2) → wf_template t1 ∧ wf_template t2.
Proof.
  induction t1 as [|i t1 IH]; simpl; [done|]. intros [Hi [? ?]%IH]. split_and!; try done.
  destruct i; try done. destruct Hi as (? & ? & Hn). split_and!; try done.
  intros [-> Hh]. apply Hn. split; [done|]. by destruct t1.
Qed.

Lemma length_text_length l : length (length_text l) ≤ 2.
Proof. destruct l; simpl; lia. Qed.

Lemma marker_text_length m : 2 ≤ length (marker_text m).
Proof. unfold marker_text, marker_body. simpl. rewrite !length_app. simpl. lia. Qed.

(** ** The characters of a marker *)

Lemma digits_no_nul w : digits w → no_nul w.
Proof.
  unfold digits, no_nul. rewrite Forall_forall. intros H Hin. by apply H in Hin.
Qed.

Lemma elem_of_lit_no_nul (set : string) w :
  no_nul (lit set) → Forall (λ c, c ∈ lit set) w → no_nul w.
Proof.
  unfold no_nul. rewrite Forall_forall. intros Hset H Hin. by apply H in Hin.
Qed.

Lemma length_text_no_nul l : no_nul (length_text l).
Proof. unfold no_nul. destruct l; by apply (bool_decide_unpack _). Qed.

Lemma marker_text_no_nul m : wf_marker m → no_nul (marker_text m).
Proof.
  intros (Hfl & Hw & Hp & Hc & _). unfold marker_text, marker_body.
  change (?c :: ?l) with ([c] ++ l). rewrite !no_nul_app. split_and!.
  - by apply (bool_decide_unpack _).
  - apply (elem_of_lit_no_nul "-+ #0"); [by apply (bool_decide_unpack _)|done].
  - destruct Hw as [->|[Hw _]]; [by apply (bool_decide_unpack _)|by apply digits_no_nul].
  - destruct (m_prec m) as [d|]; simpl; [|apply not_elem_of_nil].
    change (?c :: ?l) with ([c] ++ l). rewrite no_nul_app. split.
    + by apply (bool_decide_unpack _).
    + destruct (Hp d eq_refl) as [->|]; [by apply (bool_decide_unpack _)|by apply digits_no_nul].
  - apply length_text_no_nul.
  - unfold no_nul. rewrite list_elem_of_singleton. intros E. rewrite <- E in Hc.
    revert Hc. by apply (bool_decide_unpack _).
Qed.

Lemma template_text_no_nul t : wf_template t → no_nul (template_text t).
Proof.
  induction t as [|i t IH]; simpl; [intros _; apply not_elem_of_nil|].
  intros [Hi Ht]. rewrite template_text_cons, no_nul_app. split; [|by apply IH].
  destruct i as [c| | |m]; simpl in *.
  - unfold no_nul. rewrite list_elem_of_singleton. naive_solver.
  - by apply (bool_decide_unpack _).
  - by apply (bool_decide_unpack _).
  - by apply marker_text_no_nul.
Qed.

Lemma item_text_length i : 1 ≤ length (item_text i).
Proof. destruct i; simpl; lia. Qed.

Lemma template_text_items t : length t ≤ length (template_text t).
Proof.
  induction t as [|i t IH]; [done|]. rewrite template_text_cons, length_app. simpl.
  pose proof (item_text_length i). lia.
Qed.

(** The character after an item: a closing brace only when the next item is
    that literal. *)
Lemma next_char t :
  ∃ x r, template_text t ++ [NUL] = x :: r ∧ (x = "}"%char → head t = Some (Lit "}"%char)).
Proof.
  destruct t as [|[c| | |m] t]; simpl; eexists _, _; (split; [done|]); try done.
  by intros ->.
Qed.
