(* ===== verification/Render.v ===== *)
(** * What a template renders

    The meaning of a template, item by item, independent of character
    offsets and of the scanner's array: ordinary text is copied, [%%] is one
    percent sign, a marker takes one argument and hands it to the native
    formatter with the marker's own text (or stores the running count for
    [%n]), and [{}] takes a capability pointer and lets the object render
    itself.  The state is the [world]: the arguments that are left, the text
    on the sink, the slots, and the two counters.

    [conv_action] is the table from the type of a marker to what is fetched:
    the promoted argument type of the conversion (C11 6.5.2.2p6, 7.21.6.1),
    or the pointee of the slot a [%n] writes.

    These definitions are the specification of the drivers. *)

From Stdlib Require Import Ascii ZArith Lia.
From stdpp Require Import base tactics option list numbers gmap.
From S2P Require Import Prelude CString Types VaList Native Template.

(** ** Definitions *)

Record world : Type := World {
  w_args : va_list;
  w_out : list ascii;
  w_mem : gmap loc Z;
  w_printed : nat;      (* markers rendered *)
  w_shown : nat;        (* objects rendered *)
}.

(** The count a call reports: rendered markers and rendered objects. *)
Definition w_fields (w : world) : nat := w_printed w + w_shown w.

Inductive action : Set :=
| Print (T : c_type)      (* fetch a [T], format it *)
| Store (T : c_type)      (* fetch a [T*], store the running count *)
| Skip.                   (* fetch nothing, write nothing *)

Definition conv_action (tag : var_type) : action :=
  match tag with
  | TYPE_NONE => Skip
  | TYPE_INT | TYPE_SIGNED_INT8 | TYPE_SHORT => Print T_int
  | TYPE_LONG => Print T_long
  | TYPE_LONG_LONG => Print T_long_long
  | TYPE_INTMAX_T => Print T_intmax_t
  | TYPE_SSIZE_T => Print T_ssize_t
  | TYPE_PTRDIFF_T => Print T_ptrdiff_t
  | TYPE_UINT | TYPE_UINT8 | TYPE_USHORT => Print T_unsigned_int
  | TYPE_ULONG => Print T_unsigned_long
  | TYPE_ULONG_LONG => Print T_unsigned_long_long
  | TYPE_UINTMAX_T => Print T_uintmax_t
  | TYPE_SIZE_T => Print T_size_t
  | TYPE_POINTER => Print T_void_ptr
  | TYPE_STRING => Print T_char_ptr
  | TYPE_FLOAT | TYPE_DOUBLE => Print T_double
  | TYPE_LONG_DOUBLE => Print T_long_double
  | TYPE_POINTER_INT => Store T_int
  | TYPE_POINTER_SIGNED_INT8 => Store T_signed_char
  | TYPE_POINTER_SHORT => Store T_short
  | TYPE_POINTER_LONG => Store T_long
  | TYPE_POINTER_LONG_LONG => Store T_long_long
  | TYPE_POINTER_INTMAX_T => Store T_intmax_t
  | TYPE_POINTER_SSIZE_T => Store T_ssize_t
  | TYPE_POINTER_PTRDIFF_T => Store T_ptrdiff_t
  end.

Definition write (text : list ascii) (w : world) : world :=
  World (w_args w) (w_out w ++ text) (w_mem w) (w_printed w) (w_shown w).

Definition printed (w : world) : world :=
  World (w_args w) (w_out w) (w_mem w) (S (w_printed w)) (w_shown w).

Definition shown (w : world) : world :=
  World (w_args w) (w_out w) (w_mem w) (w_printed w) (S (w_shown w)).

Definition take_arg (ap : va_list) (w : world) : world :=
  World ap (w_out w) (w_mem w) (w_printed w) (w_shown w).

Definition set_mem (m : gmap loc Z) (w : world) : world :=
  World (w_args w) (w_out w) m (w_printed w) (w_shown w).

Section Render.
Context `{ArgModel} `{NativeFormat}.

(** A marker: one argument of the type of the conversion, formatted by the
    native formatter under the marker's text; or the count stored. *)
Definition render_marker (m : marker) (w : world) : outcome world :=
  match conv_action (marker_tag m) with
  | Print T =>
      '(v, ap) ← va_arg T (w_args w);
      text ← native_format (marker_text m) v;
      Done (printed (write text (take_arg ap w)))
  | Store T =>
      '(v, ap) ← va_arg (T_ptr T) (w_args w);
      mem ← store_count T v (Z.of_nat (w_fields w)) (w_mem w);
      Done (printed (set_mem mem (take_arg ap w)))
  | Skip => Done (printed w)
  end.

(** A [{}] field: skipped for a null pointer, a null object or a missing
    function; counted unless the function reports [-1]. *)
Definition render_braces (w : world) : outcome world :=
  '(v, ap) ← va_arg T_display_ptr (w_args w);
  let w := take_arg ap w in
  match v with
  | V_display None => Done w
  | V_display (Some d) =>
      match display_fn d, self d with
      | Some f, Some obj =>
          '(text, ret) ← of_call (f obj);
          if (ret =? -1)%Z then Done (write text w) else Done (shown (write text w))
      | _, _ => Done w
      end
  | _ => Undef VaArgType
  end.

Definition render_item (i : item) (w : world) : outcome world :=
  match i with
  | Lit c => Done (write [c] w)
  | Percent => Done (write ["%"%char] w)
  | Braces => render_braces w
  | Mark m => render_marker m w
  end.

Fixpoint render (t : list item) (w : world) : outcome world :=
  match t with
  | [] => Done w
  | i :: t' => w' ← render_item i w; render t' w'
  end.

End Render.

(** The world a call starts from. *)
Definition wstart (ap : va_list) (o : list ascii) (m : gmap loc Z) : world :=
  World ap o m 0 0.

(** ** Facts *)

Section RenderFacts.
Context `{ArgModel} `{NativeFormat}.

Lemma render_app t1 t2 w : render (t1 ++ t2) w = render t1 w ≫= render t2.
Proof.
  revert w. induction t1 as [|i t1 IH]; intros w; simpl; [done|].
  destruct (render_item i w); simpl; auto.
Qed.

Lemma render_marker_terminates m w : terminates (render_marker m w).
Proof.
  unfold render_marker. destruct (conv_action (marker_tag m)); [| |done];
    (apply bind_terminates; [apply va_arg_terminates|]; intros [v ap] _;
     apply bind_terminates; [auto with disp|done]).
Qed.

Lemma render_braces_terminates w : terminates (render_braces w).
Proof.
  unfold render_braces. apply bind_terminates; [apply va_arg_terminates|].
  intros [v ap] _. destruct v as [| | | | |[d|]]; try done.
  destruct (display_fn d) as [f|], (self d) as [obj|]; try done.
  destruct (f obj) as [[text ret]|]; [|done]. simpl. by case_match.
Qed.

(** Rendering is total: it needs no fuel. *)
Lemma render_terminates t w : terminates (render t w).
Proof.
  revert w. induction t as [|i t IH]; intros w; simpl; [done|].
  apply bind_terminates; [|by intros]. destruct i; simpl; try done;
    [apply render_braces_terminates|apply render_marker_terminates].
Qed.

(** Plain text is copied and counts for nothing. *)
Lemma render_literals s w : render (Lit <$> s) w ⇓ write s w.
Proof.
  revert w. induction s as [|c s IH]; intros w; simpl.
  - destruct w. unfold write. simpl. by rewrite app_nil_r.
  - rewrite IH. unfold write. simpl. by rewrite <- app_assoc.
Qed.

End RenderFacts.
