(* ===== verification/ScannerRefine.v ===== *)
(** * The scanner implements the grammar

    On the text of a well-formed template, [find_format_specifiers] returns
    exactly the cells of the template's markers, in order, each with the
    type the type-resolution policy gives it; it reads nothing outside the
    string.  The proof follows the scanner through one marker, phase by
    phase, then through the items of the template. *)

From Stdlib Require Import Ascii ZArith Lia.
From stdpp Require Import base tactics option list numbers strings relations.
From S2P Require Import Prelude CString Types Scanner Template.

(** ** Definitions *)

(** The cell a scan has to return for a marker, and the cells of a
    template: the specification of the scanner. *)
Definition marker_cell (m : marker) : format_spec_t :=
  {| substr := cstr (marker_text m); type := marker_tag m |}.

Definition markers (t : list item) : list format_spec_t :=
  omap (λ i, if i is Mark m then Some (marker_cell m) else None) t.

Definition specs_of (t : list item) : format_specs_array_t :=
  {| data := markers t; count := length (markers t) |}.

(** The array [char length[3]] the scanner fills for a length modifier. *)
Definition length_array (l : length_mod) : list ascii :=
  take 3 (length_text l ++ [NUL; NUL; NUL]).

(** The array after the cells [es] were appended. *)
Definition push_all (specs : format_specs_array_t) (es : list format_spec_t) :
    format_specs_array_t :=
  {| data := data specs ++ es; count := count specs + length es |}.

(** The first character of a text, when it has one, satisfies [P]. *)
Definition starts (P : ascii → Prop) (l : list ascii) : Prop :=
  ∃ c rest, l = c :: rest ∧ P c.

(** A character at which the flags, the width and the precision all stop. *)
Definition stop_char (c : ascii) : Prop :=
  is_flag c = false ∧ isdigit c = false ∧ c ≠ "*"%char ∧ c ≠ "."%char ∧ c ≠ "%"%char.

(** ** The cells of a template *)

Lemma markers_cons i t :
  markers (i :: t) = (if i is Mark m then [marker_cell m] else []) ++ markers t.
Proof. by destruct i. Qed.

Lemma markers_app t1 t2 : markers (t1 ++ t2) = markers t1 ++ markers t2.
Proof. apply omap_app. Qed.

Lemma markers_item i t : markers (i :: t) = markers [i] ++ markers t.
Proof. apply (markers_app [i]). Qed.

Lemma specs_of_wf t : specs_wf (specs_of t).
Proof. done. Qed.

(** ** Character classes *)

Lemma conv_classes c :
  c ∈ CONVS →
  stop_char c ∧ is_length c = false ∧ c ≠ "h"%char ∧ c ≠ "l"%char
  ∧ is_specifier c = true.
Proof.
  unfold CONVS, lit. simpl. intros Hc.
  repeat (apply elem_of_cons in Hc as [->|Hc]; [by repeat split|]).
  by apply elem_of_nil in Hc.
Qed.

Lemma flag_chars_is_flag c : c ∈ FLAG_CHARS → is_flag c = true ∧ c ≠ "%"%char.
Proof.
  unfold FLAG_CHARS, lit. simpl. intros Hc.
  repeat (apply elem_of_cons in Hc as [->|Hc]; [done|]).
  by apply elem_of_nil in Hc.
Qed.

Lemma digit_classes c :
  isdigit c = true → c ≠ "*"%char ∧ c ≠ "%"%char ∧ (c ≠ "0"%char → is_flag c = false).
Proof.
  intros Hc%isdigit_spec. unfold lit in Hc. simpl in Hc.
  repeat (apply elem_of_cons in Hc as [->|Hc]; [done|]).
  by apply elem_of_nil in Hc.
Qed.

Lemma starts_app_l P l1 l2 : starts P l1 → starts P (l1 ++ l2).
Proof. intros (c & rest & -> & ?). by exists c, (rest ++ l2). Qed.

Lemma starts_app_nil P l : starts P l → starts P ([] ++ l).
Proof. done. Qed.

Lemma starts_cons (P : ascii → Prop) c l : P c → starts P (c :: l).
Proof. by exists c, l. Qed.

Lemma starts_impl (P Q : ascii → Prop) l : (∀ c, P c → Q c) → starts P l → starts Q l.
Proof. intros HPQ (c & rest & -> & ?). exists c, rest. auto. Qed.

(** What follows the length modifier, the precision, the width and the
    flags of a marker starts with a character the earlier phases stop at. *)
Lemma length_tail_starts l c : c ∈ CONVS → starts stop_char (length_text l ++ [c]).
Proof.
  intros (Hc & _)%conv_classes. destruct l; simpl; apply starts_cons; try done;
    unfold stop_char; split_and!; first [done|by vm_compute].
Qed.

Lemma prec_tail_starts pr l c :
  c ∈ CONVS →
  starts (λ x, is_flag x = false ∧ isdigit x = false ∧ x ≠ "*"%char ∧ x ≠ "%"%char)
    (prec_text pr ++ length_text l ++ [c]).
Proof.
  intros Hc. destruct pr as [d|]; simpl.
  - apply starts_cons. by repeat split.
  - eapply starts_impl, length_tail_starts; [|done]. by intros x (? & ? & ? & _ & ?).
Qed.

Lemma width_tail_starts w pr l c :
  w = lit "*" ∨ (digits w ∧ head w ≠ Some "0"%char) → c ∈ CONVS →
  starts (λ x, is_flag x = false ∧ x ≠ "%"%char) (w ++ prec_text pr ++ length_text l ++ [c]).
Proof.
  intros [->|[Hw Hh]] Hc.
  - simpl. by apply starts_cons.
  - destruct Hw as [|x w Hx _]; simpl.
    + eapply starts_impl, prec_tail_starts; [|done]. by intros y (? & _ & _ & ?).
    + apply starts_cons. apply digit_classes in Hx as (_ & ? & Hf). split; [|done].
      apply Hf. simpl in Hh. congruence.
Qed.

(** ** The phases of one marker *)

Section Phases.
Context (buf : list ascii).

Lemma skip_flags_exact p fl rest :
  has_at buf p (fl ++ rest) → Forall (λ c, c ∈ FLAG_CHARS) fl →
  starts (λ x, is_flag x = false) rest →
  skip_flags buf p ⇓ p + length fl.
Proof.
  intros Hat Hfl (c & r & -> & Hc). eapply skip_while_exact; [done| |done].
  eapply Forall_impl; [done|]. by intros x [? _]%flag_chars_is_flag.
Qed.

Lemma skip_width_exact p w rest :
  has_at buf p (w ++ rest) → w = lit "*" ∨ digits w →
  starts (λ x, isdigit x = false ∧ x ≠ "*"%char) rest →
  skip_width buf p ⇓ p + length w.
Proof.
  intros Hat [->|Hw] (c & r & -> & Hc & Hs); unfold skip_width.
  - apply has_at_head, char_at_Done in Hat as ->. simpl. f_equal. lia.
  - assert (∃ x, buf !! p = Some x ∧ x ≠ "*"%char) as (x & ->%char_at_Done & Hx).
    { destruct Hw as [|x w Hx _]; apply has_at_head in Hat; eexists; split; try done.
      by apply digit_classes in Hx as [? _]. }
    simpl. apply Ascii.eqb_neq in Hx as ->. by eapply skip_while_exact.
Qed.

Lemma skip_precision_exact p pr rest :
  has_at buf p (prec_text pr ++ rest) → (∀ d, pr = Some d → d = lit "*" ∨ digits d) →
  starts (λ x, isdigit x = false ∧ x ≠ "*"%char ∧ x ≠ "."%char) rest →
  skip_precision buf p ⇓ p + length (prec_text pr).
Proof.
  intros Hat Hpr Hrest. unfold skip_precision. destruct pr as [d|]; simpl in *.
  - apply has_at_cons in Hat as [->%char_at_Done Hat]. simpl.
    replace (p + S (length d)) with (S p + length d) by lia.
    apply (skip_width_exact (S p) d rest); [done|by apply Hpr|].
    eapply starts_impl; [|done]. by intros x (? & ? & _).
  - destruct Hrest as (c & r & -> & _ & _ & Hc).
    apply has_at_head, char_at_Done in Hat as ->. simpl.
    apply Ascii.eqb_neq in Hc as ->. f_equal. lia.
Qed.

Lemma scan_length_exact p l c :
  has_at buf p (length_text l ++ [c]) → c ∈ CONVS →
  scan_length buf p ⇓ (length_array l, p + length (length_text l)).
Proof.
  intros Hat (_ & Hl & Hh%Ascii.eqb_neq & Hll%Ascii.eqb_neq & _)%conv_classes.
  unfold scan_length.
  destruct l; simpl in Hat;
    repeat (apply has_at_cons in Hat as [->%char_at_Done Hat]); simpl;
    rewrite ?Hl, ?Hh, ?Hll; simpl; unfold length_array; simpl; do 2 f_equal; lia.
Qed.

Lemma copy_substr_exact start text :
  has_at buf start text → text ≠ [] → no_nul text →
  copy_substr buf start (length text) ⇓ cstr text.
Proof.
  intros Hat Hne Hnn. unfold copy_substr. pose proof (has_at_length _ _ _ Hat Hne).
  rewrite strncpy_no_nul; rewrite ?(has_at_take_drop _ _ _ Hat); try done.
  rewrite length_drop. lia.
Qed.

End Phases.

(** The type the scanner resolves is the one of the policy. *)
Lemma resolve_type_tag c l :
  c ∈ CONVS → resolve_type c (length_array l) = Some (tag_of c l).
Proof.
  unfold CONVS, lit. simpl. intros Hc.
  repeat (apply elem_of_cons in Hc as [->|Hc]; [by destruct l; vm_compute|]).
  by apply elem_of_nil in Hc.
Qed.

(** ** One marker *)

Lemma marker_body_starts m :
  wf_marker m → starts (λ x, x ≠ "%"%char) (marker_body m).
Proof.
  intros (Hfl & Hw & _ & Hc & _). unfold marker_body.
  destruct Hfl as [|x fl Hx _]; simpl.
  - eapply starts_impl, width_tail_starts; [|done..]. by intros x [_ ?].
  - apply starts_cons. by apply flag_chars_is_flag in Hx as [_ ?].
Qed.

(** The phases of the scanner on the text of a marker of the grammar: each
    stops where the part it reads ends. *)
Lemma marker_phases buf start m :
  has_at buf start (marker_text m) → wf_marker m →
  let p1 := S start + length (m_flags m) in
  let p2 := p1 + length (m_width m) in
  let p3 := p2 + length (prec_text (m_prec m)) in
  let p4 := p3 + length (length_text (m_length m)) in
  skip_flags buf (S start) ⇓ p1 ∧ skip_width buf p1 ⇓ p2 ∧ skip_precision buf p2 ⇓ p3
  ∧ scan_length buf p3 ⇓ (length_array (m_length m), p4) ∧ char_at buf p4 ⇓ m_conv m.
Proof.
  intros [_ Hbody]%has_at_cons (Hfl & Hw & Hp & Hc & _). unfold marker_body in Hbody.
  pose proof Hbody as [_ Hwidth]%has_at_app.
  pose proof Hwidth as [_ Hprec]%has_at_app.
  pose proof Hprec as [_ Hlen]%has_at_app.
  pose proof Hlen as [_ Hconv%has_at_head%char_at_Done]%has_at_app.
  split_and!; [| | |by eapply scan_length_exact|done].
  - eapply skip_flags_exact; [done..|].
    eapply starts_impl, width_tail_starts; [|done..]. by intros x [? _].
  - eapply skip_width_exact; [done|tauto|].
    eapply starts_impl, prec_tail_starts; [|done]. by intros x (_ & ? & ? & _).
  - eapply skip_precision_exact; [done..|].
    eapply starts_impl, length_tail_starts; [|done]. by intros x (_ & ? & ? & ? & _).
Qed.

(** On the text of a marker of the grammar the scanner stops right after
    the conversion letter and appends the marker's cell. *)
Lemma scan_marker_exact buf specs start m :
  has_at buf start (marker_text m) → wf_marker m →
  scan_marker buf specs start
  ⇓ ScanState (start + length (marker_text m))
      (push_spec specs (cstr (marker_text m)) (marker_tag m)).
Proof.
  intros Hat Hwf. destruct (marker_phases buf start m Hat Hwf) as (E1 & E2 & E3 & E4 & E5).
  pose proof Hwf as (Hfl & Hw & Hp & Hc & _). unfold scan_marker.
  rewrite E1, bind_Done_l, E2, bind_Done_l, E3, bind_Done_l, E4, bind_Done_l.
  cbv beta iota. rewrite E5, bind_Done_l.
  apply conv_classes in Hc as Hcl. destruct Hcl as (_ & _ & _ & _ & ->).
  rewrite resolve_type_tag by done.
  assert (S (S start + length (m_flags m) + length (m_width m)
             + length (prec_text (m_prec m)) + length (length_text (m_length m)))
          = start + length (marker_text m)) as ->.
  { unfold marker_text, marker_body. simpl. rewrite !length_app. simpl. lia. }
  replace (start + length (marker_text m) - start) with (length (marker_text m)) by lia.
  by rewrite copy_substr_exact; [|done|done|by apply marker_text_no_nul].
Qed.

(** ** A whole template *)

Lemma push_all_nil specs : push_all specs [] = specs.
Proof. destruct specs. unfold push_all. simpl. by rewrite app_nil_r, Nat.add_0_r. Qed.

Lemma push_all_singleton specs sub ty :
  push_all specs [{| substr := sub; type := ty |}] = push_spec specs sub ty.
Proof. unfold push_all, push_spec. simpl. f_equal. lia. Qed.

Lemma push_all_app specs es1 es2 :
  push_all (push_all specs es1) es2 = push_all specs (es1 ++ es2).
Proof. unfold push_all. simpl. rewrite length_app, <- app_assoc. f_equal. lia. Qed.

Lemma push_all_empty es : push_all specs_empty es = {| data := es; count := length es |}.
Proof. done. Qed.

Lemma wf_item_literal c next : wf_item (Lit c) next → c ≠ NUL ∧ c ≠ "%"%char.
Proof. simpl. tauto. Qed.

(** The scanner's run over the text of one item. *)
Lemma scan_run_item buf p i next specs :
  has_at buf p (item_text i) → wf_item i next →
  rtc (scan_step buf) (ScanState p specs)
    (ScanState (p + length (item_text i)) (push_all specs (markers [i]))).
Proof.
  intros Hat Hwf. destruct i as [c| | |m]; simpl in *; rewrite ?push_all_nil.
  - by apply (scan_run_literals buf p [c]); [|constructor; [tauto|]].
  - apply has_at_cons in Hat as [? [? _]%has_at_cons]. apply rtc_once.
    by apply scan_iter_percent.
  - by apply (scan_run_literals buf p (lit "{}")); [|repeat constructor].
  - apply rtc_once. unfold loop_step.
    destruct (marker_body_starts m Hwf) as (c & r & E & Hc).
    pose proof Hat as Hat'. unfold marker_text in Hat'. rewrite E in Hat'.
    apply has_at_cons in Hat' as [? [? _]%has_at_cons].
    erewrite scan_iter_marker by done. rewrite (scan_marker_exact _ _ _ m) by done.
    unfold markers, marker_cell. simpl. by rewrite push_all_singleton.
Qed.

Lemma scan_run_template buf t : ∀ p specs,
  has_at buf p (template_text t) → wf_template t →
  rtc (scan_step buf) (ScanState p specs)
    (ScanState (p + length (template_text t)) (push_all specs (markers t))).
Proof.
  induction t as [|i t IH]; intros p specs Hat Hwf.
  - simpl. by rewrite Nat.add_0_r, push_all_nil.
  - rewrite template_text_cons in *. apply has_at_app in Hat as [Hi Ht].
    destruct Hwf as [Hwi Hwt]. etrans; [by eapply scan_run_item|].
    rewrite length_app, Nat.add_assoc.
    change (i :: t) with ([i] ++ t). rewrite markers_app, <- push_all_app. by apply IH.
Qed.

Lemma scan_template t :
  wf_template t →
  find_format_specifiers (cstr (template_text t)) ⇓ specs_of t.
Proof.
  intros Hwf. eapply find_format_specifiers_exit.
  - eapply (scan_run_template _ t 0 specs_empty); [|done].
    pose proof (has_at_whole (cstr (template_text t))) as H. unfold cstr at 2 in H.
    by apply has_at_app in H as [H _].
  - unfold scan_iter. simpl. rewrite (char_at_cstr_end (template_text t)). done.
Qed.

(** On the text of a well-formed template the scanner returns the cells
    of its markers, in order: the text of each marker as a C string and the
    type the policy [tag_of] gives it, with [count] their number.  It reads
    nothing outside the string. *)
Theorem find_format_specifiers_refines t :
  wf_template t →
  find_format_specifiers (cstr (template_text t)) ⇓ specs_of t.
Proof. apply scan_template. Qed.

Lemma find_format_specifiers_refines_witness :
  find_format_specifiers
    (cstr (template_text
             [Lit "n"; Percent; Mark (Marker (lit "-0") (lit "12") (Some (lit "3")) L_ll "d");
              Braces; Mark (Marker [] [] None L_hh "n")]))
  ⇓ {| data := [{| substr := cstr (lit "%-012.3lld"); type := TYPE_LONG_LONG |};
                {| substr := cstr (lit "%hhn"); type := TYPE_POINTER_SIGNED_INT8 |}];
       count := 2 |}.
Proof. apply find_format_specifiers_refines. by apply (bool_decide_unpack _). Defined.
