(* ===== verification/Parse.v ===== *)
(** * Reading a template back

    A reader of templates built from the scanner's own phases: where
    [find_format_specifiers] only keeps the text and the type of a marker,
    [parse_marker] also keeps where each phase stopped, and so the flags,
    the width, the precision, the length modifier and the conversion as the
    scanner delimits them.  [parse] walks a whole string with the dispatch
    of the two passes ([%%], a marker, [{}], ordinary text).

    The round trip: the text of a well-formed template is read back as that
    template, and whatever is read back from a string spells the string.  So
    the phases cut a marker exactly where the grammar does, a text has at
    most one reading, and [in_grammar] decides whether a text is one of the
    grammar. *)

From Stdlib Require Import Ascii ZArith Lia.
From stdpp Require Import base tactics option list numbers strings.
From S2P Require Import Prelude CString Types Scanner Template ScannerRefine.

(** ** Definitions *)

(** The characters of [buf] from offset [p] up to offset [q]. *)
Definition sub (buf : list ascii) (p q : nat) : list ascii := take (q - p) (drop p buf).

Definition length_mods : list length_mod :=
  [L_none; L_hh; L_h; L_l; L_ll; L_j; L_z; L_t; L_L; L_hl; L_lh].

(** The modifier the array [char length[3]] spells. *)
Definition length_of (a : list ascii) : option length_mod :=
  snd <$> list_find (λ l, length_text l = c_str a) length_mods.

(** The phases of display.h 190-232 on the marker at [start], with the
    parts they delimit, and the offset after the conversion. *)
Definition parse_marker (buf : list ascii) (start : nat) : outcome (marker * nat) :=
  p1 ← skip_flags buf (S start);
  p2 ← skip_width buf p1;
  p3 ← skip_precision buf p2;
  '(len, p4) ← scan_length buf p3;
  conv ← char_at buf p4;
  l ← of_option BadFormat (length_of len);
  Done (Marker (sub buf (S start) p1) (sub buf p1 p2)
          (if decide (p3 = p2) then None else Some (sub buf (S p2) p3)) l conv,
        S p4).

(** The item at offset [p], whose first character is [c], and the offset
    after it. *)
Definition parse_item (buf : list ascii) (p : nat) (c : ascii) : outcome (item * nat) :=
  if (c =? "%")%char then
    c' ← char_at buf (S p);
    if (c' =? "%")%char then Done (Percent, p + 2)
    else '(m, q) ← parse_marker buf p; Done (Mark m, q)
  else if (c =? "{")%char then
    c' ← char_at buf (S p);
    if (c' =? "}")%char then Done (Braces, p + 2) else Done (Lit c, S p)
  else Done (Lit c, S p).

Fixpoint parse_from (buf : list ascii) (fuel p : nat) : outcome (list item) :=
  match fuel with
  | 0 => OutOfFuel
  | S k =>
      c ← char_at buf p;
      if is_nul c then Done []
      else
        '(i, q) ← parse_item buf p c;
        (i ::.) <$> parse_from buf k q
  end.

Definition parse (buf : list ascii) : outcome (list item) :=
  parse_from buf (S (length buf)) 0.

(** Whether a text is the text of a template of the grammar. *)
Definition in_grammar (s : list ascii) : bool :=
  bool_decide (no_nul s)
  && match parse (cstr s) with
     | Done t => bool_decide (wf_template t)
     | _ => false
     end.

(** ** Segments *)

Lemma sub_has_at_eq buf p q l : has_at buf p l → q = p + length l → sub buf p q = l.
Proof.
  intros H ->. unfold sub. replace (p + length l - p) with (length l) by lia.
  by apply has_at_take_drop.
Qed.

Lemma sub_has_at buf p l : has_at buf p l → sub buf p (p + length l) = l.
Proof. intros H. by apply sub_has_at_eq. Qed.

Lemma sub_nil buf p : sub buf p p = [].
Proof. unfold sub. by rewrite Nat.sub_diag. Qed.

Lemma length_of_array l : length_of (length_array l) = Some l.
Proof. by destruct l. Qed.

(** ** One marker *)

Lemma parse_marker_exact buf start m :
  has_at buf start (marker_text m) → wf_marker m →
  parse_marker buf start ⇓ (m, start + length (marker_text m)).
Proof.
  intros Hat Hwf. destruct (marker_phases buf start m Hat Hwf) as (E1 & E2 & E3 & E4 & E5).
  apply has_at_cons in Hat as [_ Hfl]. unfold marker_body in Hfl.
  apply has_at_app in Hfl as [Hfl Hw]. apply has_at_app in Hw as [Hw Hp].
  apply has_at_app in Hp as [Hp _]. unfold parse_marker.
  rewrite E1, bind_Done_l, E2, bind_Done_l, E3, bind_Done_l, E4, bind_Done_l.
  cbv beta iota. rewrite E5, bind_Done_l, length_of_array, !sub_has_at by done. simpl.
  destruct m as [fl w pr l c]. simpl in *. do 2 f_equal.
  - f_equal. destruct pr as [d|]; simpl in *.
    + rewrite decide_False by lia. f_equal. apply has_at_cons in Hp as [_ Hp].
      apply sub_has_at_eq; [done|lia].
    + rewrite decide_True by lia. done.
  - unfold marker_text, marker_body. simpl. rewrite !length_app. simpl. lia.
Qed.

(** ** One item *)

Lemma parse_item_exact buf p i c rest x r next :
  has_at buf p (item_text i ++ x :: r) → item_text i = c :: rest →
  wf_item i next → (x = "}"%char → next = Some (Lit "}"%char)) →
  parse_item buf p c ⇓ (i, p + length (item_text i)).
Proof.
  intros Hat Hc Hwf Hx. unfold parse_item. pose proof Hat as [Hi Hn]%has_at_app.
  destruct i as [a| | |m]; simpl in *; simplify_eq.
  - apply has_at_cons in Hat as [_ [->%char_at_Done _]%has_at_cons].
    destruct Hwf as (_ & ->%Ascii.eqb_neq & Hb). rewrite Nat.add_1_r.
    destruct (Ascii.eqb_spec c "{"); [|done]. simpl.
    destruct (Ascii.eqb_spec x "}"); [|done]. destruct Hb. auto.
  - by apply has_at_cons in Hi as [_ [->%char_at_Done _]%has_at_cons].
  - by apply has_at_cons in Hi as [_ [->%char_at_Done _]%has_at_cons].
  - unfold marker_text in Hc. injection Hc as <- _.
    destruct (marker_body_starts m Hwf) as (y & b & Eb & Hy%Ascii.eqb_neq).
    pose proof Hi as Hi'. unfold marker_text in Hi'. rewrite Eb in Hi'.
    apply has_at_cons in Hi' as [_ [->%char_at_Done _]%has_at_cons]. simpl. rewrite Hy.
    by rewrite (parse_marker_exact _ _ m).
Qed.

(** ** The reader is total *)

Lemma parse_marker_terminates buf start : terminates (parse_marker buf start).
Proof. unfold parse_marker, skip_flags. solve_terminates. Qed.

Lemma parse_marker_advances buf start m q : parse_marker buf start ⇓ (m, q) → start < q.
Proof.
  unfold parse_marker. intros (p1 & [H1 _]%skip_flags_bounds & Hq)%bind_Done.
  apply bind_Done in Hq as (p2 & [H2 _]%skip_width_bounds & Hq).
  apply bind_Done in Hq as (p3 & [H3 _]%skip_precision_bounds & Hq).
  apply bind_Done in Hq as ([len p4] & [H4 _]%scan_length_bounds & Hq).
  apply bind_Done in Hq as (conv & _ & Hq). apply bind_Done in Hq as (l & _ & Hq).
  simplify_eq. lia.
Qed.

Lemma parse_item_terminates buf p c : terminates (parse_item buf p c).
Proof.
  unfold parse_item. pose proof (parse_marker_terminates buf p). solve_terminates.
Qed.

Lemma parse_item_advances buf p c i q : parse_item buf p c ⇓ (i, q) → p < q.
Proof.
  unfold parse_item. intros Hq.
  destruct (c =? "%")%char.
  - apply bind_Done in Hq as (c' & _ & Hq). destruct (c' =? "%")%char; [simplify_eq; lia|].
    apply bind_Done in Hq as ([m q'] & Hm%parse_marker_advances & Hq). by simplify_eq.
  - destruct (c =? "{")%char; [|simplify_eq; lia].
    apply bind_Done in Hq as (c' & _ & Hq). destruct (c' =? "}")%char; simplify_eq; lia.
Qed.

(** What the reader tested to return an item. *)
Lemma parse_item_inv buf p c i q :
  parse_item buf p c ⇓ (i, q) →
  match i with
  | Lit a => a = c ∧ q = S p ∧ c ≠ "%"%char ∧ ¬ (c = "{"%char ∧ buf !! S p = Some "}"%char)
  | Percent => c = "%"%char ∧ buf !! S p = Some "%"%char ∧ q = p + 2
  | Braces => c = "{"%char ∧ buf !! S p = Some "}"%char ∧ q = p + 2
  | Mark m =>
      c = "%"%char ∧ (∃ x, buf !! S p = Some x ∧ x ≠ "%"%char) ∧ parse_marker buf p ⇓ (m, q)
  end.
Proof.
  unfold parse_item. intros Hq. destruct (Ascii.eqb_spec c "%") as [->|Hc].
  - apply bind_Done in Hq as (c' & Hc'%char_at_Done & Hq).
    destruct (Ascii.eqb_spec c' "%") as [->|?]; [by injection Hq as <- <-|].
    apply bind_Done in Hq as ([m q'] & Hm & [= <- <-]). eauto 6.
  - destruct (Ascii.eqb_spec c "{") as [->|?]; [|injection Hq as <- <-; naive_solver].
    apply bind_Done in Hq as (c' & Hc'%char_at_Done & Hq).
    destruct (Ascii.eqb_spec c' "}") as [->|?]; injection Hq as <- <-; [done|].
    split_and!; try done. intros [_ ?]. congruence.
Qed.

(** The conversion of a marker that was read is the character before the
    offset the reader returns. *)
Lemma parse_marker_conv buf start m q :
  parse_marker buf start ⇓ (m, q) →
  ∃ p, q = S p ∧ start < p ∧ buf !! p = Some (m_conv m).
Proof.
  unfold parse_marker. intros (p1 & [H1 _]%skip_flags_bounds & Hq)%bind_Done.
  apply bind_Done in Hq as (p2 & [H2 _]%skip_width_bounds & Hq).
  apply bind_Done in Hq as (p3 & [H3 _]%skip_precision_bounds & Hq).
  apply bind_Done in Hq as ([len p4] & [H4 _]%scan_length_bounds & Hq).
  apply bind_Done in Hq as (conv & Hc%char_at_Done & Hq).
  apply bind_Done in Hq as (l & _ & [= <- <-]). exists p4. split_and!; [done|lia|done].
Qed.

Lemma parse_from_terminates buf : ∀ fuel p,
  length buf - p < fuel → terminates (parse_from buf fuel p).
Proof.
  induction fuel as [|k IH]; intros p Hf; [lia|]. simpl.
  apply bind_terminates; [auto with disp|]. intros c Hc%char_at_lt.
  destruct (is_nul c); [done|].
  apply bind_terminates; [apply parse_item_terminates|].
  intros [i q] Hq%parse_item_advances. apply fmap_terminates, IH. lia.
Qed.

(** What the reader did to return a first item. *)
Lemma parse_from_cons buf k p i t :
  parse_from buf k p ⇓ i :: t →
  ∃ c q k', k = S k' ∧ buf !! p = Some c ∧ c ≠ NUL
    ∧ parse_item buf p c ⇓ (i, q) ∧ parse_from buf k' q ⇓ t.
Proof.
  destruct k as [|k]; [done|]. simpl. intros (c & Hc%char_at_Done & Ht)%bind_Done.
  destruct (is_nul c) eqn:Hnul; [done|]. apply is_nul_false in Hnul.
  apply bind_Done in Ht as ([i' q] & Hi & Ht). apply fmap_Done in Ht as (t' & Ht & [= <- <-]).
  by exists c, q, k.
Qed.

Lemma parse_from_inside buf k p t : parse_from buf k p ⇓ t → p < length buf.
Proof. destruct k; [done|]. simpl. by intros (c & ?%char_at_lt & _)%bind_Done. Qed.

(** ** A whole template *)

Lemma parse_from_exact buf t : ∀ p fuel,
  has_at buf p (template_text t ++ [NUL]) → wf_template t → length t < fuel →
  parse_from buf fuel p ⇓ t.
Proof.
  induction t as [|i t IH]; intros p [|k] Hat Hwf Hf; try (simpl in Hf; lia).
  - apply has_at_head, char_at_Done in Hat. simpl. by rewrite Hat.
  - destruct Hwf as [Hi Ht]. rewrite template_text_cons, <- app_assoc in Hat.
    destruct (next_char t) as (x & r & Ex & Hx). rewrite Ex in Hat.
    pose proof (item_text_length i) as Hl.
    destruct (item_text i) as [|c rest] eqn:Ei; [simpl in Hl; lia|].
    pose proof Hat as [Hc%char_at_Done _]%has_at_cons. simpl. rewrite Hc. simpl.
    assert (c ≠ NUL) as ->%is_nul_false.
    { pose proof (template_text_no_nul (i :: t) (conj Hi Ht)) as Hnn.
      rewrite template_text_cons, Ei in Hnn. intros ->. apply Hnn. by left. }
    rewrite <- Ei in Hat. rewrite (parse_item_exact buf p i c rest x r (head t)) by done.
    simpl. rewrite IH; [done| |done|simpl in Hf; lia].
    apply has_at_app in Hat as [_ Hat]. by rewrite Ex.
Qed.

Lemma parse_exact t : wf_template t → parse (cstr (template_text t)) ⇓ t.
Proof.
  intros Hwf. apply parse_from_exact; [apply has_at_whole|done|].
  unfold cstr. rewrite length_app. pose proof (template_text_items t). simpl. lia.
Qed.

(** ** What a reading spells

    [seg buf p q l]: the characters [l] are those of [buf] from offset [p]
    up to offset [q]. *)

Definition seg (buf : list ascii) (p q : nat) (l : list ascii) : Prop :=
  has_at buf p l ∧ q = p + length l.

Lemma seg_nil buf p : seg buf p p [].
Proof. split; [apply has_at_nil|simpl; lia]. Qed.

Lemma seg_one buf p c : buf !! p = Some c → seg buf p (S p) [c].
Proof. intros Hc. split; [|simpl; lia]. apply has_at_cons. split; [done|apply has_at_nil]. Qed.

Lemma seg_app buf p q r l1 l2 : seg buf p q l1 → seg buf q r l2 → seg buf p r (l1 ++ l2).
Proof.
  intros [H1 ->] [H2 ->]. split; [by apply has_at_app|]. rewrite length_app. lia.
Qed.

Lemma seg_sub buf p q : p ≤ q ≤ length buf → seg buf p q (sub buf p q).
Proof.
  intros Hq. unfold sub. split.
  - intros i c [Hc Hi]%lookup_take_Some. by rewrite lookup_drop in Hc.
  - rewrite length_take_drop_le; lia.
Qed.

Lemma seg_precision buf p q :
  skip_precision buf p ⇓ q →
  seg buf p q (prec_text (if decide (q = p) then None else Some (sub buf (S p) q))).
Proof.
  intros Hq. pose proof (skip_precision_bounds _ _ _ Hq) as Hb. revert Hq.
  unfold skip_precision. intros (c & Hc%char_at_Done & Hq)%bind_Done.
  destruct (Ascii.eqb_spec c "."); [subst c|injection Hq as <-; rewrite decide_True by done;
                                            apply seg_nil].
  assert (S p ≤ q) as Hle.
  { apply bind_Done in Hq as (c' & _ & Hq).
    destruct (c' =? "*")%char; [injection Hq as <-; lia|]. apply skip_while_bounds in Hq. lia. }
  rewrite decide_False by lia. simpl.
  apply (seg_app _ _ (S p) _ ["."%char]); [by apply seg_one|apply seg_sub; lia].
Qed.

Lemma length_of_Some a l : length_of a = Some l → length_text l = c_str a.
Proof.
  unfold length_of. intros ([i l'] & (_ & Hl & _)%list_find_Some & [= <-])%fmap_Some. done.
Qed.

Lemma seg_length buf p q len l :
  scan_length buf p ⇓ (len, q) → length_of len = Some l →
  (∀ i, p ≤ i < q → buf !! i ≠ Some NUL) → seg buf p q (length_text l).
Proof.
  intros Hq ->%length_of_Some Hnn. revert Hq. unfold scan_length.
  intros (c & Hc%char_at_Done & Hq)%bind_Done.
  destruct (is_length c); [|injection Hq as <- <-; apply seg_nil].
  apply bind_Done in Hq as (c' & Hc'%char_at_Done & Hq).
  assert (is_nul c = false) as Hn.
  { apply is_nul_false. intros ->. apply (Hnn p); [|done]. case_match; simplify_eq; lia. }
  destruct (_ && _) eqn:E; injection Hq as <- <-; simpl; rewrite Hn.
  - assert (is_nul c' = false) as ->.
    { apply is_nul_false. intros ->. apply (Hnn (S p)); [lia|done]. }
    apply (seg_app _ _ (S p) _ [c] [c']); by apply seg_one.
  - by apply seg_one.
Qed.

Lemma seg_marker buf p q m :
  parse_marker buf p ⇓ (m, q) → buf !! p = Some "%"%char →
  (∀ i, p ≤ i < q → buf !! i ≠ Some NUL) → seg buf p q (marker_text m).
Proof.
  unfold parse_marker. intros (p1 & H1 & Hq)%bind_Done Hp Hnn.
  apply bind_Done in Hq as (p2 & H2 & Hq). apply bind_Done in Hq as (p3 & H3 & Hq).
  apply bind_Done in Hq as ([len p4] & H4 & Hq). apply bind_Done in Hq as (conv & H5 & Hq).
  apply bind_Done in Hq as (l & Hl%of_option_Done & [= <- <-]).
  pose proof (skip_flags_bounds _ _ _ H1). pose proof (skip_width_bounds _ _ _ H2).
  pose proof (skip_precision_bounds _ _ _ H3). pose proof (scan_length_bounds _ _ _ _ H4).
  apply char_at_Done in H5. unfold marker_text, marker_body. simpl.
  apply (seg_app _ _ (S p) _ ["%"%char]); [by apply seg_one|].
  apply (seg_app _ _ p1); [apply seg_sub; lia|].
  apply (seg_app _ _ p2); [apply seg_sub; lia|].
  apply (seg_app _ _ p3); [by apply seg_precision|].
  apply (seg_app _ _ p4); [|by apply seg_one].
  eapply seg_length; [done..|]. intros i Hi. apply Hnn. lia.
Qed.

Lemma seg_item buf p q c i :
  parse_item buf p c ⇓ (i, q) → buf !! p = Some c →
  (∀ j, p ≤ j < q → buf !! j ≠ Some NUL) → seg buf p q (item_text i).
Proof.
  unfold parse_item. intros Hq Hc Hnn. destruct (Ascii.eqb_spec c "%") as [->|_].
  - apply bind_Done in Hq as (c' & Hc'%char_at_Done & Hq).
    destruct (Ascii.eqb_spec c' "%") as [->|_].
    + injection Hq as <- <-. rewrite Nat.add_comm.
      apply (seg_app _ _ (S p) _ ["%"%char] ["%"%char]); by apply seg_one.
    + apply bind_Done in Hq as ([m q'] & Hm & [= <- <-]). by apply seg_marker.
  - destruct (Ascii.eqb_spec c "{") as [->|_]; [|injection Hq as <- <-; by apply seg_one].
    apply bind_Done in Hq as (c' & Hc'%char_at_Done & Hq).
    destruct (Ascii.eqb_spec c' "}") as [->|_]; injection Hq as <- <-; [|by apply seg_one].
    rewrite Nat.add_comm. apply (seg_app _ _ (S p) _ ["{"%char] ["}"%char]); by apply seg_one.
Qed.

Lemma parse_from_spells s : no_nul s → ∀ fuel p t,
  parse_from (cstr s) fuel p ⇓ t → has_at (cstr s) p (template_text t ++ [NUL]).
Proof.
  intros Hs. induction fuel as [|k IH]; intros p t Ht; [done|]. simpl in Ht.
  apply bind_Done in Ht as (c & Hc%char_at_Done & Ht).
  destruct (is_nul c) eqn:En.
  { injection Ht as <-. apply is_nul_true in En as ->. simpl.
    apply has_at_cons. split; [done|apply has_at_nil]. }
  apply bind_Done in Ht as ([i q] & Hi & Ht). apply fmap_Done in Ht as (t' & Ht%IH & ->).
  rewrite template_text_cons, <- app_assoc.
  assert (q ≤ length s) as Hq.
  { apply has_at_length in Ht; [|by destruct (template_text t')].
    unfold cstr in Ht. rewrite !length_app in Ht. simpl in Ht. lia. }
  apply seg_item in Hi as [Hat ->]; [by apply has_at_app|done|].
  intros j Hj Hnul%(cstr_lookup_NUL _ _ Hs). lia.
Qed.

Lemma parse_spells s t : no_nul s → parse (cstr s) ⇓ t → template_text t = s.
Proof.
  intros Hs Ht%(parse_from_spells s Hs). pose proof Ht as [_ Hn]%has_at_app.
  apply has_at_head, (cstr_lookup_NUL _ _ Hs) in Hn. simpl in Hn.
  apply has_at_app in Ht as [Ht _]. apply has_at_take_drop in Ht.
  rewrite drop_0, Hn in Ht. unfold cstr in Ht. by rewrite take_app_length in Ht.
Qed.

(** C16. Round trip: the text of a well-formed template, read back with the
    scanner's phases, is the template; the flags, the width, the precision,
    the length modifier and the conversion of each marker are the parts the
    phases delimit. *)
Theorem parse_template_text t : wf_template t → parse (cstr (template_text t)) ⇓ t.
Proof. apply parse_exact. Qed.

(** A text has at most one reading: two well-formed templates that are
    read back alike, as two with the same text are, are the same template. *)
Theorem template_text_inj t1 t2 :
  wf_template t1 → wf_template t2 →
  parse (cstr (template_text t1)) = parse (cstr (template_text t2)) → t1 = t2.
Proof. intros H1%parse_exact H2%parse_exact. rewrite H1, H2. congruence. Qed.

(** The reader needs no more fuel than the length of the buffer: it
    ends on every buffer, with a template or with the undefined behaviour of
    a read outside the buffer. *)
Theorem parse_terminates buf : terminates (parse buf).
Proof. apply parse_from_terminates. lia. Qed.

(** C17. Round trip, the other way: whatever the reader returns for a C
    string spells that string. *)
Theorem parse_text s t : no_nul s → parse (cstr s) ⇓ t → template_text t = s.
Proof. apply parse_spells. Qed.

(** [in_grammar] decides the language of the grammar: it accepts a
    text exactly when the text is that of a well-formed template, and the
    template is then the one the reader returns. *)
Theorem in_grammar_spec s :
  in_grammar s = true ↔ ∃ t, wf_template t ∧ template_text t = s ∧ parse (cstr s) ⇓ t.
Proof.
  unfold in_grammar. rewrite andb_true_iff, bool_decide_eq_true. split.
  - intros [Hs Ht]. destruct (parse (cstr s)) as [t| |] eqn:E; [|done..].
    exists t. apply bool_decide_eq_true in Ht. split_and!; [done|by apply parse_spells|done].
  - intros (t & Hwf & <- & Ht). rewrite Ht. split; [by apply template_text_no_nul|].
    by apply bool_decide_eq_true.
Qed.

(** ** The round trip at a concrete template *)

Lemma parse_template_text_witness :
  parse (cstr (template_text
                 [Lit "n"; Percent; Mark (Marker (lit "-0") (lit "12") (Some (lit "3")) L_ll "d");
                  Braces; Mark (Marker [] (lit "*") (Some []) L_none "s")]))
  ⇓ [Lit "n"; Percent; Mark (Marker (lit "-0") (lit "12") (Some (lit "3")) L_ll "d");
     Braces; Mark (Marker [] (lit "*") (Some []) L_none "s")].
Proof. apply parse_template_text. by apply (bool_decide_unpack _). Defined.

Lemma template_text_inj_witness :
  [Mark (Marker (lit "0") (lit "5") None L_none "d")]
  = [Mark (Marker (lit "0") (lit "5") None L_none "d")].
Proof. by apply template_text_inj; [apply (bool_decide_unpack _)..|]. Defined.

(** Outside the grammar the reader still ends: the length [hl] is read as
    the scanner reads it, and a marker cut short is read past the
    terminator. *)
Example parse_mixed_length :
  parse (cstr (lit "%hld")) ⇓ [Mark (Marker [] [] None L_hl "d")]
  ∧ in_grammar (lit "%hld") = false.
Proof. by vm_compute. Qed.

Example parse_dangling : parse (cstr (lit "100%")) ↯ OobRead.
Proof. by vm_compute. Qed.

Lemma parse_text_witness :
  template_text [Mark (Marker [] [] None L_none "d"); Lit "{"] = lit "%d{".
Proof. by apply parse_text; [apply (bool_decide_unpack _)|vm_compute]. Defined.
