(* ===== verification/Reading.v ===== *)
(** * What the scanner keeps of a string

    [Parse.parse] reads any C string as a list of items, with the scanner's
    own phases.  The scanner keeps the markers of that reading whose
    conversion is one of [SPECIFIERS] and drops the others: it leaves the
    offset on the character it rejected and walks on from there.  [kept] is
    the reading without the dropped markers.

    The theorem of this file holds for every C string, in the grammar or
    not: [find_format_specifiers] returns the cells of the kept markers of
    the reading, in order, and it has an undefined behaviour exactly when
    the reader has one, the same one. *)

From Stdlib Require Import Ascii ZArith Lia.
From stdpp Require Import base tactics option list numbers strings relations.
From S2P Require Import Prelude CString Types Scanner Template ScannerRefine Parse.

(** ** Definitions *)

(** The test of display.h 236 on the conversion of a marker. *)
Definition keeps (i : item) : bool :=
  match i with
  | Mark m => is_specifier (m_conv m)
  | _ => true
  end.

(** The reading without the markers the scanner drops. *)
Definition kept (t : list item) : list item := List.filter keeps t.

(** A reading in which no marker is dropped. *)
Definition clean (t : list item) : Prop := Forall (λ i, keeps i = true) t.

#[export] Instance clean_dec t : Decision (clean t).
Proof. unfold clean. apply _. Defined.

(** [t] is the reading of the C string [s]. *)
Definition reading (s : list ascii) (t : list item) : Prop :=
  no_nul s ∧ parse (cstr s) ⇓ t.

(** ** The reading that is kept *)

Lemma kept_app t1 t2 : kept (t1 ++ t2) = kept t1 ++ kept t2.
Proof. apply List.filter_app. Qed.

Lemma kept_cons i t : kept (i :: t) = kept [i] ++ kept t.
Proof. apply (kept_app [i]). Qed.

Lemma kept_clean t : clean t → kept t = t.
Proof. induction 1 as [|i t Hi _ IH]; [done|]. simpl. by rewrite Hi, IH. Qed.

Lemma clean_app t1 t2 : clean (t1 ++ t2) ↔ clean t1 ∧ clean t2.
Proof. apply Forall_app. Qed.

Lemma wf_marker_keeps m : wf_marker m → keeps (Mark m) = true.
Proof. by intros (_ & _ & _ & (_ & _ & _ & _ & ?)%conv_classes & _). Qed.

Lemma wf_template_clean t : wf_template t → clean t.
Proof.
  induction t as [|i t IH]; intros Hwf; [constructor|]. destruct Hwf as [Hi Ht].
  constructor; [|by apply IH]. destruct i; try done. by apply wf_marker_keeps.
Qed.

(** ** One marker, read and scanned *)

(** The array the length phase fills is that of a modifier. *)
Lemma scan_length_of buf p len q :
  scan_length buf p ⇓ (len, q) → ∃ l, length_of len = Some l ∧ len = length_array l.
Proof.
  unfold scan_length. intros (c & _ & Hq)%bind_Done.
  destruct (is_length c) eqn:Hc; [|injection Hq as <- <-; by exists L_none].
  apply bind_Done in Hq as (c' & _ & Hq).
  apply is_length_true in Hc as [Hc| ->];
    [|simpl in Hq; rewrite andb_false_r in Hq; injection Hq as <- <-; by exists L_none].
  unfold LENGTHS, lit in Hc. simpl in Hc.
  repeat (apply elem_of_cons in Hc as [->|Hc];
    [destruct (Ascii.eqb_spec c' "h"), (Ascii.eqb_spec c' "l"); simplify_eq/=; by eexists|]).
  by apply elem_of_nil in Hc.
Qed.

(** The scanner on a marker is the reader followed by the test of the
    conversion: a marker that passes is copied and appended, and the offset
    moves past it; one that fails leaves the offset on its conversion. *)
Lemma scan_marker_parse buf specs start :
  scan_marker buf specs start
  = '(m, q) ← parse_marker buf start;
    if is_specifier (m_conv m) then
      sub ← copy_substr buf start (q - start);
      match resolve_type (m_conv m) (length_array (m_length m)) with
      | Some ty => Done (ScanState q (push_spec specs sub ty))
      | None => Done (ScanState q specs)
      end
    else Done (ScanState (pred q) specs).
Proof.
  unfold scan_marker, parse_marker. do 3 (case_bind; [|done..]).
  destruct (scan_length _ _) as [[len p4]| |] eqn:E; [|done..]. simpl.
  apply scan_length_of in E as (l & -> & ->). case_bind; [|done..]. done.
Qed.

(** The scanner resolves the type of every conversion it accepts as the
    policy [tag_of] says, whatever the length modifier. *)
Lemma resolve_type_kept c l :
  is_specifier c = true → c ≠ NUL → resolve_type c (length_array l) = Some (tag_of c l).
Proof.
  intros [Hc|?]%is_specifier_true ?; [|done]. unfold SPECIFIERS, lit in Hc. simpl in Hc.
  repeat (apply elem_of_cons in Hc as [->|Hc]; [by destruct l; vm_compute|]).
  by apply elem_of_nil in Hc.
Qed.

Lemma dropped_conv c : is_specifier c = false → c ≠ NUL ∧ c ≠ "%"%char.
Proof. intros Hc. split; by intros ->. Qed.

(** ** Runs of the scanner over one item of the reading *)

Section Follow.
Context (s : list ascii) (Hs : no_nul s).
Implicit Types (p q : nat) (specs : format_specs_array_t).

Lemma cstr_inside p q i : q ≤ length s → p ≤ i < q → cstr s !! i ≠ Some NUL.
Proof using Hs. intros Hq Hi Hnul%(cstr_lookup_NUL _ _ Hs). lia. Qed.

Lemma has_at_cstr_no_nul p l : has_at (cstr s) p l → p + length l ≤ length s → no_nul l.
Proof using Hs.
  intros Hat Hl [i Hi]%list_elem_of_lookup. pose proof (lookup_lt_Some _ _ _ Hi).
  apply (has_at_lookup _ _ _ _ _ Hat), (cstr_lookup_NUL _ _ Hs) in Hi. lia.
Qed.

(** A marker that is read inside the string: kept, it is appended in one
    iteration; dropped, the scanner stops on its conversion and walks over
    it in the next. *)
Lemma scan_run_marker p x m q specs :
  cstr s !! p = Some "%"%char → cstr s !! S p = Some x → x ≠ "%"%char →
  parse_marker (cstr s) p ⇓ (m, q) → q ≤ length s →
  rtc (scan_step (cstr s)) (ScanState p specs)
    (ScanState q (push_all specs (markers (kept [Mark m])))).
Proof using Hs.
  intros Hp Hx Hne Hm Hq. destruct (parse_marker_conv _ _ _ _ Hm) as (p4 & -> & Hlt & Hc).
  assert (m_conv m ≠ NUL) as Hnul.
  { intros E. rewrite E in Hc. by eapply (cstr_inside p (S p4) p4); [|lia|]. }
  pose proof (scan_iter_marker _ _ specs _ Hp Hx Hne) as Hit.
  rewrite scan_marker_parse, Hm, bind_Done_l in Hit. cbv beta iota in Hit.
  unfold kept. simpl. destruct (is_specifier (m_conv m)) eqn:Hk.
  - apply seg_marker in Hm as [Hat Hlen]; [|done|by intros i Hi; eapply cstr_inside].
    rewrite Hlen in Hit. replace (p + length (marker_text m) - p) with (length (marker_text m))
      in Hit by lia.
    rewrite (copy_substr_exact _ _ _ Hat) in Hit;
      [|done|by apply (has_at_cstr_no_nul p); [|lia]].
    rewrite bind_Done_l, (resolve_type_kept _ _ Hk Hnul) in Hit.
    apply rtc_once. unfold loop_step. rewrite Hit, Hlen. unfold markers, marker_cell. simpl.
    by rewrite push_all_singleton.
  - apply dropped_conv in Hk as [_ Hpc]. rewrite push_all_nil.
    eapply rtc_l; [by unfold loop_step; rewrite Hit|]. apply rtc_once. simpl.
    by apply (scan_iter_literal _ _ _ (m_conv m)).
Qed.

Lemma cstr_lookup_inside p c : cstr s !! p = Some c → c ≠ NUL → p < length s.
Proof. intros Hc Hnul. by apply cstr_lookup_lt, lookup_lt_Some in Hc. Qed.

Lemma cstr_lookup_next p c : cstr s !! p = Some c → c ≠ NUL → is_Some (cstr s !! S p).
Proof.
  intros Hc Hnul%(cstr_lookup_inside _ _ Hc). apply lookup_lt_is_Some.
  unfold cstr. rewrite length_app. simpl. lia.
Qed.

(** An item that is read inside the string: the scanner walks from its
    first character to the one after its last, and appends its cell if it
    is a marker that is kept. *)
Lemma scan_run_read p c i q specs :
  cstr s !! p = Some c → c ≠ NUL → parse_item (cstr s) p c ⇓ (i, q) → q ≤ length s →
  rtc (scan_step (cstr s)) (ScanState p specs)
    (ScanState q (push_all specs (markers (kept [i])))).
Proof using Hs.
  intros Hc Hnul Hi%parse_item_inv Hq.
  destruct i as [a| | |m]; simpl in Hi |- *; rewrite ?push_all_nil.
  - destruct Hi as (-> & -> & Hpc & _). apply rtc_once. by apply (scan_iter_literal _ _ _ c).
  - destruct Hi as (-> & Hx & ->). apply rtc_once. by apply scan_iter_percent.
  - destruct Hi as (-> & Hx & ->).
    apply (scan_run_literals _ p (lit "{}")); [|by repeat constructor].
    apply has_at_cons. split; [done|]. apply has_at_cons. split; [done|apply has_at_nil].
  - destruct Hi as (-> & (x & Hx & Hne) & Hm). by eapply scan_run_marker.
Qed.

(** Where the reader has an undefined behaviour, the scanner has it. *)
Lemma scan_iter_undef p c u specs :
  cstr s !! p = Some c → c ≠ NUL → parse_item (cstr s) p c ↯ u →
  scan_iter (cstr s) (ScanState p specs) ↯ u.
Proof using Hs.
  intros Hc Hnul Hu. destruct (cstr_lookup_next _ _ Hc Hnul) as (x & Hx).
  revert Hu. unfold parse_item, scan_iter, char_at. simpl. rewrite Hc, Hx. simpl.
  apply is_nul_false in Hnul as ->. destruct (c =? "%")%char; [|by repeat case_match].
  destruct (x =? "%")%char; [done|]. rewrite scan_marker_parse.
  destruct (parse_marker _ _) as [[m q]| |]; simpl; [done|by intros [= ->]|done].
Qed.

(** A marker whose conversion is the terminator is kept, and the offset
    leaves the string. *)
Lemma scan_iter_overrun p c i q specs :
  cstr s !! p = Some c → c ≠ NUL → parse_item (cstr s) p c ⇓ (i, q) → length s < q →
  ∃ specs', scan_iter (cstr s) (ScanState p specs) ⇓ inl (ScanState q specs').
Proof using Hs.
  intros Hc Hnul Hi%parse_item_inv Hq. pose proof (cstr_lookup_inside _ _ Hc Hnul).
  destruct i as [a| | |m]; simpl in Hi.
  - lia.
  - destruct Hi as (_ & ?%cstr_lookup_inside & ->); [lia|done].
  - destruct Hi as (_ & ?%cstr_lookup_inside & ->); [lia|done].
  - destruct Hi as (-> & (x & Hx & Hne) & Hm). rewrite (scan_iter_marker _ _ _ x) by done.
    rewrite scan_marker_parse, Hm, bind_Done_l. cbv beta iota.
    destruct (parse_marker_conv _ _ _ _ Hm) as (p4 & -> & Hlt & Hconv).
    assert (m_conv m = NUL) as ->.
    { destruct (decide (m_conv m = NUL)); [done|]. apply cstr_lookup_inside in Hconv; [lia|done]. }
    apply lookup_lt_Some in Hconv. simpl.
    destruct (copy_substr_safe (cstr s) p (S p4 - p)) as [sub ->]; [lia|]. simpl. eauto.
Qed.

(** ** The whole string *)

Lemma scan_loop_enough p specs :
  p ≤ S (length s) →
  terminates (loop (scan_iter (cstr s)) (scan_fuel (cstr s)) (ScanState p specs)).
Proof.
  intros Hp. apply scan_loop_terminates; unfold scan_fuel, cstr; rewrite length_app; simpl; lia.
Qed.

(** The scanner after an item that was read: it is where the reader is, with
    the cell of the item if it keeps one. *)
Lemma scan_reads_item k p c i q specs :
  (∀ specs', q ≤ length s →
     loop (scan_iter (cstr s)) (scan_fuel (cstr s)) (ScanState q specs')
     = (λ t, push_all specs' (markers (kept t))) <$> parse_from (cstr s) (S k) q) →
  cstr s !! p = Some c → c ≠ NUL → parse_item (cstr s) p c ⇓ (i, q) →
  loop (scan_iter (cstr s)) (scan_fuel (cstr s)) (ScanState p specs)
  = (λ t, push_all specs (markers (kept t))) <$> ((i ::.) <$> parse_from (cstr s) (S k) q).
Proof using Hs.
  intros IH Hc Hnul Hi. pose proof (cstr_lookup_inside _ _ Hc Hnul) as Hp.
  destruct (decide (q ≤ length s)) as [Hq|Hq].
  - rewrite (loop_rtc_agree _ _ _ _ (scan_run_read p c i q specs Hc Hnul Hi Hq));
      [|apply scan_loop_enough; lia..].
    rewrite IH by done. destruct (parse_from _ _ _) as [t| |]; [|done..].
    change (Done (push_all (push_all specs (markers (kept [i]))) (markers (kept t)))
            = Done (push_all specs (markers (kept (i :: t))))).
    by rewrite (kept_cons i t), markers_app, push_all_app.
  - destruct (scan_iter_overrun p c i q specs Hc Hnul Hi) as (specs' & Hit); [lia|].
    assert (parse_from (cstr s) (S k) q ↯ OobRead) as ->.
    { simpl. by rewrite char_at_cstr_past by lia. }
    assert (scan_fuel (cstr s) = S (S (length s))) as ->.
    { unfold scan_fuel, cstr. rewrite length_app. simpl. lia. }
    rewrite loop_S, Hit, bind_Done_l, loop_S. unfold scan_iter. cbv zeta. cbn [scan_p].
    by rewrite (char_at_cstr_past s q) by lia.
Qed.

(** From any offset of the string, the scanner appends the cells of the
    kept markers of what the reader reads from there. *)
Lemma scan_reads_from : ∀ k p specs,
  p ≤ length s → length s - p < k →
  loop (scan_iter (cstr s)) (scan_fuel (cstr s)) (ScanState p specs)
  = (λ t, push_all specs (markers (kept t))) <$> parse_from (cstr s) k p.
Proof using Hs.
  induction k as [|k IH]; intros p specs Hp Hk; [lia|].
  destruct (lookup_lt_is_Some_2 (cstr s) p) as [c Hc];
    [unfold cstr; rewrite length_app; simpl; lia|].
  simpl parse_from. rewrite (proj2 (char_at_Done _ _ _) Hc), bind_Done_l.
  destruct (is_nul c) eqn:Hnul.
  - unfold scan_fuel. rewrite loop_S. unfold scan_iter, char_at. simpl. rewrite Hc. simpl.
    rewrite Hnul. simpl. by rewrite push_all_nil.
  - apply is_nul_false in Hnul. pose proof (cstr_lookup_inside _ _ Hc Hnul).
    destruct (parse_item (cstr s) p c) as [[i q]|u|] eqn:Hi.
    + pose proof (parse_item_advances _ _ _ _ _ Hi). destruct k as [|k]; [lia|].
      rewrite bind_Done_l. cbv beta iota.
      apply (scan_reads_item k p c); [|done..]. intros specs' Hq. apply IH; lia.
    + unfold scan_fuel. by rewrite loop_S, (scan_iter_undef _ _ _ _ Hc Hnul Hi).
    + by destruct (parse_item_terminates (cstr s) p c).
Qed.

Lemma scan_reads :
  find_format_specifiers (cstr s) = (λ t, specs_of (kept t)) <$> parse (cstr s).
Proof using Hs.
  unfold find_format_specifiers, parse.
  rewrite (scan_reads_from (S (length (cstr s))) 0 specs_empty).
  - by destruct (parse_from _ _ _).
  - lia.
  - unfold cstr. rewrite length_app. simpl. lia.
Qed.

End Follow.

(** C2. The scanner returns the cells of the markers it keeps of the reading of
    the string, in the order of the string, and nothing else; it has an
    undefined behaviour exactly when the reader has it.  This holds for every
    C string, inside the grammar or not. *)
Theorem find_format_specifiers_reads s :
  no_nul s → find_format_specifiers (cstr s) = (λ t, specs_of (kept t)) <$> parse (cstr s).
Proof. apply scan_reads. Qed.

Lemma find_format_specifiers_reads_witness :
  find_format_specifiers (cstr (lit "%5y{}%hld%"))
  = (λ t, specs_of (kept t)) <$> parse (cstr (lit "%5y{}%hld%")).
Proof. apply find_format_specifiers_reads. by apply (bool_decide_unpack _). Defined.
