(* ===== verification/DriverRefine.v ===== *)
(** * The driver implements the renderer

    [display_vprint] does what [Render.render] says, item by item,
    undefined behaviours included, on every C string in whose reading the
    scanner drops no marker, and so on the text of every well-formed
    template: the two passes stay in step, every marker is printed under its
    own text with an argument of the type of its conversion, and the value
    returned is the number of fields rendered.

    The simulation relates a [world] to the driver's state at an item
    boundary: [conc p idx w] is the state with the offset [p] and the index
    [idx] into the scanner's array.  [item_at] is what one iteration of the
    driver tests at an offset before it treats the text there as an item,
    and [laid] says so of a list of items, one after the other: the driver
    renders every list that is laid in its buffer. *)

From Stdlib Require Import Ascii ZArith Lia.
From stdpp Require Import base tactics option list numbers strings gmap.
From S2P Require Import Prelude CString Types Scanner VaList Native Driver.
From S2P Require Import FDriver StreamView Template Render ScannerRefine Parse Reading.

(** ** Definitions *)

(** The driver's state for a world, at offset [p] and index [idx]. *)
Definition conc (p idx : nat) (w : world) : vstate :=
  VState p idx (w_printed w) (w_shown w) (w_args w) (w_out w) (w_mem w).

(** The state in which the driver leaves a template it rendered to [w]. *)
Definition final (t : list item) (w : world) : vstate :=
  conc (length (template_text t)) (length (markers t)) w.

(** The tests of one iteration of the driver (display.h 359-488) that make
    it treat the text at offset [p] as the item [i], when its index into
    the array is [idx]: a marker is whatever follows a [%] while cells are
    left, and it is rendered as the cell says; a [%] after the last cell is
    ordinary text. *)
Definition item_at (buf : list ascii) (specs : format_specs_array_t) (p idx : nat)
    (i : item) : Prop :=
  match i with
  | Lit c =>
      buf !! p = Some c ∧ c ≠ NUL
      ∧ (c = "%"%char → (∃ x, buf !! S p = Some x ∧ x ≠ "%"%char) ∧ count specs ≤ idx)
      ∧ (c = "{"%char → ∃ x, buf !! S p = Some x ∧ x ≠ "}"%char)
  | Percent => buf !! p = Some "%"%char ∧ buf !! S p = Some "%"%char
  | Braces => buf !! p = Some "{"%char ∧ buf !! S p = Some "}"%char
  | Mark m =>
      buf !! p = Some "%"%char ∧ (∃ x, buf !! S p = Some x ∧ x ≠ "%"%char)
      ∧ idx < count specs ∧ data specs !! idx = Some (marker_cell m)
      ∧ no_nul (marker_text m)
  end.

(** The items [t] lie in the buffer from offset [p], for a driver whose
    index is [idx] there. *)
Fixpoint laid (buf : list ascii) (specs : format_specs_array_t) (p idx : nat)
    (t : list item) : Prop :=
  match t with
  | [] => True
  | i :: t' =>
      item_at buf specs p idx i
      ∧ laid buf specs (p + length (item_text i)) (idx + length (markers [i])) t'
  end.

(** ** The branches *)

Section Branches.
Context `{ArgModel} `{NativeFormat}.

Lemma vprint_switch_render m n p idx w :
  no_nul (marker_text m) →
  vprint_switch (marker_cell m) (conc p idx w) ≫= (λ st, Done (next_spec n st))
  = conc (p + n) (S idx) <$> render_marker m w.
Proof.
  intros Hm. unfold vprint_switch, render_marker, print_arg, write_count.
  change (substr (marker_cell m)) with (cstr (marker_text m)).
  change (type (marker_cell m)) with (marker_tag m).
  rewrite (c_str_cstr _ Hm). unfold fields, w_fields.
  destruct (marker_tag m); simpl; try done;
    (destruct (va_arg _ (w_args w)) as [[v ap]| |]; simpl; [|done..]);
    first [by destruct (native_format _ v)|by destruct (store_count _ v _ _)].
Qed.

Lemma vprint_display_render p idx w :
  vprint_display (conc p idx w) = conc (p + 2) idx <$> render_braces w.
Proof.
  unfold vprint_display, render_braces. simpl.
  destruct (va_arg _ (w_args w)) as [[v ap]| |]; simpl; [|done..].
  destruct v as [| | | | |[d|]]; try done.
  destruct (display_fn d) as [f|], (self d) as [obj|]; try done.
  destruct (f obj) as [[text ret]|]; [|done]. simpl. by destruct (ret =? -1)%Z.
Qed.

(** ** One iteration, by the item under the offset *)

Context (buf : list ascii) (specs : format_specs_array_t).

Lemma vprint_iter_lit p idx w c :
  buf !! p = Some c → c ≠ NUL → c ≠ "%"%char →
  (c = "{"%char → ∃ x, buf !! S p = Some x ∧ x ≠ "}"%char) →
  vprint_iter buf specs (conc p idx w) ⇓ inl (conc (p + 1) idx (write [c] w)).
Proof.
  intros Hc Hnul%is_nul_false Hpc%Ascii.eqb_neq Hbr. unfold vprint_iter, char_at. simpl.
  rewrite Hc. simpl. rewrite Hnul, Hpc. destruct (Ascii.eqb_spec c "{") as [E|]; [|done].
  destruct (Hbr E) as (x & -> & ?%Ascii.eqb_neq). simpl. by case_match.
Qed.

Lemma vprint_iter_percent p idx w :
  buf !! p = Some "%"%char → buf !! S p = Some "%"%char →
  vprint_iter buf specs (conc p idx w) ⇓ inl (conc (p + 2) idx (write ["%"%char] w)).
Proof. intros Hc Hx. unfold vprint_iter, char_at. simpl. by rewrite Hc, Hx. Qed.

Lemma vprint_iter_braces p idx w :
  buf !! p = Some "{"%char → buf !! S p = Some "}"%char →
  vprint_iter buf specs (conc p idx w) = (inl ∘ conc (p + 2) idx) <$> render_braces w.
Proof.
  intros Hc Hx. unfold vprint_iter, char_at. simpl. rewrite Hc, Hx. simpl.
  rewrite vprint_display_render. by destruct (render_braces w).
Qed.

Lemma vprint_iter_mark p idx w m x :
  buf !! p = Some "%"%char → buf !! S p = Some x → x ≠ "%"%char →
  idx < count specs → data specs !! idx = Some (marker_cell m) → no_nul (marker_text m) →
  vprint_iter buf specs (conc p idx w)
  = (inl ∘ conc (p + length (marker_text m)) (S idx)) <$> render_marker m w.
Proof.
  intros Hc Hx Hpc%Ascii.eqb_neq Hidx%Nat.ltb_lt He%specs_at_Done Hm.
  unfold vprint_iter, char_at. simpl. rewrite Hc, Hx. simpl. rewrite Hpc, Hidx. simpl.
  rewrite He. simpl. rewrite (strlen_cstr _ Hm).
  pose proof (vprint_switch_render m (length (marker_text m)) p idx w Hm) as E.
  destruct (vprint_switch _ _), (render_marker m w); simpl in *; congruence.
Qed.

(** A [%] when no cell is left is written as it is (display.h 465-467). *)
Lemma vprint_iter_fallback p idx w x :
  buf !! p = Some "%"%char → buf !! S p = Some x → x ≠ "%"%char → count specs ≤ idx →
  vprint_iter buf specs (conc p idx w) ⇓ inl (conc (p + 1) idx (write ["%"%char] w)).
Proof.
  intros Hc Hx Hpc%Ascii.eqb_neq Hidx%Nat.ltb_ge. unfold vprint_iter, char_at. simpl.
  by rewrite Hc, Hx; simpl; rewrite Hpc, Hidx.
Qed.

(** One iteration on an item that lies at the offset renders the item. *)
Lemma vprint_iter_at p idx i w :
  item_at buf specs p idx i →
  vprint_iter buf specs (conc p idx w)
  = (inl ∘ conc (p + length (item_text i)) (idx + length (markers [i]))) <$> render_item i w.
Proof.
  destruct i as [c| | |m]; simpl; rewrite ?Nat.add_0_r, ?Nat.add_1_r.
  - intros (Hc & Hnul & Hpc & Hbr). rewrite <- Nat.add_1_r.
    destruct (decide (c = "%"%char)) as [->|Hne]; [|by apply vprint_iter_lit].
    destruct (Hpc eq_refl) as [(x & Hx & ?) ?]. by eapply vprint_iter_fallback.
  - intros [Hc Hx]. by apply vprint_iter_percent.
  - intros [Hc Hx]. by apply vprint_iter_braces.
  - intros (Hc & (x & Hx & Hne) & Hidx & He & Hm). by erewrite vprint_iter_mark.
Qed.

End Branches.

(** ** The simulation *)

Section Laid.
Context `{ArgModel} `{NativeFormat}.
Context (buf : list ascii) (specs : format_specs_array_t).

Lemma laid_app p idx t1 t2 :
  laid buf specs p idx (t1 ++ t2)
  ↔ laid buf specs p idx t1
    ∧ laid buf specs (p + length (template_text t1)) (idx + length (markers t1)) t2.
Proof.
  revert p idx. induction t1 as [|i t1 IH]; intros p idx.
  - simpl. rewrite !Nat.add_0_r. tauto.
  - cbn [laid app]. rewrite IH, template_text_cons, (markers_item i t1), !length_app, !Nat.add_assoc.
    tauto.
Qed.

(** The loop arrives at the end of every list of items that is laid in
    the buffer and renders. *)
Lemma vprint_reaches_laid t : ∀ p idx w w1,
  laid buf specs p idx t → render t w ⇓ w1 →
  rtc (loop_step (vprint_iter buf specs)) (conc p idx w)
    (conc (p + length (template_text t)) (idx + length (markers t)) w1).
Proof.
  induction t as [|i t IH]; intros p idx w w1 Hl Hr; simpl in Hl, Hr.
  - injection Hr as ->. by rewrite !Nat.add_0_r.
  - destruct Hl as [Hi Hl]. apply bind_Done in Hr as (w' & Hi' & Hr).
    eapply rtc_l; [unfold loop_step; by rewrite (vprint_iter_at _ _ _ _ _ _ Hi), Hi'|].
    rewrite template_text_cons, (markers_item i t), !length_app, !Nat.add_assoc. by apply IH.
Qed.

(** From an offset where a list of items is laid up to the terminator, the
    loop renders the list. *)
Lemma vprint_run_laid t : ∀ p idx w fuel,
  laid buf specs p idx t → buf !! (p + length (template_text t)) = Some NUL →
  length t < fuel →
  loop (vprint_iter buf specs) fuel (conc p idx w)
  = conc (p + length (template_text t)) (idx + length (markers t)) <$> render t w.
Proof.
  induction t as [|i t IH]; intros p idx w [|k] Hl Hend Hf; try (simpl in Hf; lia).
  - rewrite loop_S. simpl in *. rewrite !Nat.add_0_r in *. unfold vprint_iter, char_at.
    simpl. by rewrite Hend.
  - destruct Hl as [Hi Hl]. rewrite loop_S, (vprint_iter_at _ _ _ _ _ _ Hi). simpl render.
    rewrite template_text_cons, (markers_item i t), !length_app, !Nat.add_assoc in *.
    destruct (render_item i w) as [w'| |]; simpl; try done.
    apply IH; [done..|simpl in Hf; lia].
Qed.

End Laid.

(** ** The reading of a string is laid in it *)

Section ReadingLaid.
Context (s : list ascii) (Hs : no_nul s).
Context (specs : format_specs_array_t) (Hspecs : specs_wf specs).

(** An item that was read and is kept lies where it was read, if its cell
    is the one under the index. *)
Lemma read_item_at p c i q idx :
  cstr s !! p = Some c → c ≠ NUL → parse_item (cstr s) p c ⇓ (i, q) → q ≤ length s →
  (∀ m, i = Mark m → idx < count specs ∧ data specs !! idx = Some (marker_cell m)) →
  item_at (cstr s) specs p idx i ∧ q = p + length (item_text i).
Proof using Hs.
  intros Hc Hnul Hi Hq Hcell. destruct (cstr_lookup_next s _ _ Hc Hnul) as [x Hx].
  destruct (seg_item _ _ _ _ _ Hi Hc) as [Hat Hlen]; [by intros j Hj; eapply cstr_inside|].
  split; [|done]. apply parse_item_inv in Hi. destruct i as [a| | |m]; simpl in *.
  - destruct Hi as (-> & _ & Hpc & Hbr). split_and!; try done.
    intros ->. exists x. split; [done|]. intros ->. by apply Hbr.
  - by destruct Hi as (-> & ? & _).
  - by destruct Hi as (-> & ? & _).
  - destruct Hi as (-> & Hx' & _), (Hcell m eq_refl). split_and!; try done.
    apply (has_at_cstr_no_nul s Hs p); [done|simpl; lia].
Qed.

(** The items of a reading up to the first marker the scanner drops are
    laid in the string, for the array of the cells it keeps; the rest of
    the reading is read from where they end. *)
Lemma parse_from_laid t1 : ∀ t2 k p pre,
  parse_from (cstr s) k p ⇓ t1 ++ t2 → clean t1 →
  data specs = pre ++ markers (kept (t1 ++ t2)) →
  laid (cstr s) specs p (length pre) t1
  ∧ parse_from (cstr s) (k - length t1) (p + length (template_text t1)) ⇓ t2.
Proof using Hs Hspecs.
  induction t1 as [|i t1 IH]; intros t2 k p pre Ht Hcl Hd.
  { simpl. by rewrite Nat.add_0_r, Nat.sub_0_r. }
  apply parse_from_cons in Ht as (c & q & k' & -> & Hc & Hnul & Hi & Ht).
  apply Forall_cons in Hcl as [Hk Hcl]. pose proof (parse_from_inside _ _ _ _ Ht) as Hq.
  rewrite length_cstr in Hq.
  assert (markers (kept ((i :: t1) ++ t2)) = markers [i] ++ markers (kept (t1 ++ t2))) as E.
  { cbn [app kept List.filter]. by rewrite Hk, (markers_item i). }
  rewrite E in Hd. destruct (read_item_at p c i q (length pre)) as [Hat ->]; [done..|lia| |].
  { intros m ->. unfold specs_wf in Hspecs. rewrite Hspecs, Hd, !length_app. simpl.
    split; [lia|]. by apply list_lookup_middle. }
  destruct (IH t2 k' (p + length (item_text i)) (pre ++ markers [i])) as [Hl Hk'];
    [done|done|by rewrite <- app_assoc|].
  rewrite length_app in Hl. rewrite template_text_cons, length_app, Nat.add_assoc. done.
Qed.

End ReadingLaid.

Lemma final_snoc t1 i :
  final (t1 ++ [i])
  = conc (length (template_text t1) + length (item_text i))
      (length (markers t1) + length (markers [i])).
Proof.
  unfold final. rewrite template_text_app, markers_app, !length_app.
  by rewrite template_text_cons, template_text_nil, app_nil_r.
Qed.

Section Simulation.
Context `{ArgModel} `{NativeFormat}.
Context (s : list ascii) (t : list item) (Hrd : reading s t).

Lemma reading_laid t1 t2 :
  t = t1 ++ t2 → clean t1 → laid (cstr s) (specs_of (kept t)) 0 0 t1.
Proof using Hrd.
  destruct Hrd as [Hs Ht]. intros -> Hcl.
  by destruct (parse_from_laid s Hs (specs_of (kept (t1 ++ t2))) eq_refl t1 t2 _ 0 [] Ht Hcl).
Qed.

(** The loop arrives at every item boundary before the first dropped
    marker, if the items before it render. *)
Lemma vprint_reaches_reading t1 t2 w w1 :
  t = t1 ++ t2 → clean t1 → render t1 w ⇓ w1 →
  rtc (loop_step (vprint_iter (cstr s) (specs_of (kept t)))) (final [] w) (final t1 w1).
Proof using Hrd.
  intros Ht Hcl Hr. by apply (vprint_reaches_laid _ _ t1 0 0); [apply (reading_laid t1 t2)|].
Qed.

(** One iteration at the boundary before a kept item renders the item. *)
Lemma vprint_iter_reading t1 i t2 w :
  t = t1 ++ i :: t2 → clean (t1 ++ [i]) →
  vprint_iter (cstr s) (specs_of (kept t)) (final t1 w)
  = (inl ∘ final (t1 ++ [i])) <$> render_item i w.
Proof using Hrd.
  intros Ht Hcl. rewrite final_snoc. apply vprint_iter_at.
  pose proof (reading_laid (t1 ++ [i]) t2) as Hl. rewrite <- app_assoc in Hl.
  by apply Hl, laid_app in Hcl as [_ [? _]].
Qed.

Lemma display_vprint_reading ap o m :
  clean t →
  display_vprint (Some (cstr s)) ap o m
  = (λ w, (Z.of_nat (w_fields w), final t w)) <$> render t (wstart ap o m).
Proof using Hrd.
  intros Hcl. unfold display_vprint. pose proof Hrd as [Hs Ht].
  rewrite (scan_reads s Hs), Ht. simpl fmap. rewrite bind_Done_l.
  change (vstart ap o m) with (conc 0 0 (wstart ap o m)).
  rewrite (vprint_run_laid _ _ t); [by destruct (render t _)|..].
  - apply (reading_laid t []); [by rewrite app_nil_r|done].
  - rewrite (parse_spells s t Hs Ht). apply char_at_Done, char_at_cstr_end.
  - pose proof (template_text_items t) as Hl. rewrite (parse_spells s t Hs Ht) in Hl.
    unfold vprint_fuel, cstr. rewrite length_app. lia.
Qed.

End Simulation.

(** C3. On every C string in whose reading the scanner drops no marker,
    [display_vprint] is the renderer on that reading: it ends with the same
    undefined behaviour when rendering has one, and otherwise returns the
    number of fields rendered and leaves on stdout, in the slots and in the
    argument cursor what rendering the items in order leaves.  The length
    modifiers [hl] and [lh] and the conversion [%] of [%5%] are within
    it. *)
Theorem display_vprint_reads `{ArgModel} `{NativeFormat} s t ap o m :
  reading s t → clean t →
  display_vprint (Some (cstr s)) ap o m
  = (λ w, (Z.of_nat (w_fields w), final t w)) <$> render t (wstart ap o m).
Proof. intros Hrd Hcl. by apply display_vprint_reading. Qed.

(** The text of a well-formed template is read back as the template, and
    nothing of it is dropped. *)
Lemma wf_reading t : wf_template t → reading (template_text t) t.
Proof. intros Hwf. split; [by apply template_text_no_nul|by apply parse_exact]. Qed.

Section Grammar.
Context `{ArgModel} `{NativeFormat}.
Context (t : list item) (Hwf : wf_template t).

Lemma display_vprint_render ap o m :
  display_vprint (Some (cstr (template_text t))) ap o m
  = (λ w, (Z.of_nat (w_fields w), final t w)) <$> render t (wstart ap o m).
Proof using Hwf. by apply display_vprint_reading; [apply wf_reading|apply wf_template_clean]. Qed.

(** On the text of a well-formed template [display_vprint] is the
    renderer: it ends with the same undefined behaviour when rendering has
    one, and otherwise returns the number of fields rendered and leaves on
    stdout, in the slots and in the argument cursor what rendering the items
    in order leaves. *)
Theorem display_vprint_refines ap o m :
  display_vprint (Some (cstr (template_text t))) ap o m
  = (λ w, (Z.of_nat (w_fields w), final t w)) <$> render t (wstart ap o m).
Proof using Hwf. apply display_vprint_render. Qed.

(** C18. Every field is reached and rendered: when the items before an item
    [i] of a well-formed template render, the loop of [display_vprint]
    arrives at the boundary before [i] with the state they leave, and its
    next iteration is the rendering of [i], be it a result or an undefined
    behaviour. *)
Theorem display_vprint_reaches t1 i t2 w w1 :
  t = t1 ++ i :: t2 → render t1 w ⇓ w1 →
  rtc (loop_step (vprint_iter (cstr (template_text t)) (specs_of t)))
    (final [] w) (final t1 w1)
  ∧ vprint_iter (cstr (template_text t)) (specs_of t) (final t1 w1)
    = (inl ∘ final (t1 ++ [i])) <$> render_item i w1.
Proof using Hwf.
  intros Ht Hr. pose proof (wf_reading t Hwf) as Hrd.
  pose proof (wf_template_clean t Hwf) as Hcl. rewrite <- (kept_clean t Hcl) at 2 4.
  rewrite Ht, cons_middle, app_assoc in Hcl. apply clean_app in Hcl as [Hcl _].
  split; [|by apply (vprint_iter_reading _ _ Hrd t1 i t2)].
  apply (vprint_reaches_reading _ _ Hrd t1 (i :: t2)); [done| |done].
  by apply clean_app in Hcl as [? _].
Qed.

End Grammar.

(** The contract on strings: for a text that [in_grammar] accepts, the
    scanner returns the cells of the template the reader returns, and
    [display_vprint] renders that template. *)
Theorem display_vprint_in_grammar `{ArgModel} `{NativeFormat} s ap o m :
  in_grammar s = true →
  ∃ t, parse (cstr s) ⇓ t ∧ find_format_specifiers (cstr s) ⇓ specs_of t
    ∧ display_vprint (Some (cstr s)) ap o m
      = (λ w, (Z.of_nat (w_fields w), final t w)) <$> render t (wstart ap o m).
Proof.
  intros (t & Hwf & <- & Ht)%in_grammar_spec. exists t.
  split_and!; [done|by apply scan_template|by apply display_vprint_render].
Qed.

(** The stream driver implements the renderer too: on the text of a
    well-formed template [display_vfprint] is the renderer on the stream's
    view of the arguments, in which each object renders with its stream
    function. *)
Theorem display_vfprint_refines `{DisplayArgs} `{NativeFormat} file t ap o m :
  wf_template t →
  (λ '(n, st), (n, view file st))
  <$> display_vfprint (Some file) (Some (cstr (template_text t))) ap o m
  = (λ w, (Z.of_nat (w_fields w), final t w)) <$> render t (wstart (on_stream_args file ap) o m).
Proof. intros Hwf. by rewrite <- display_vfprint_view, display_vprint_render. Qed.

Lemma display_vprint_refines_witness :
  @display_vprint strict demo_printf
    (Some (cstr (template_text [Lit "n"; Percent; Mark (Marker [] [] None L_ll "d"); Braces])))
    [V_int T_long_long 7; V_display None] [] ∅
  = (λ w, (Z.of_nat (w_fields w),
           final [Lit "n"; Percent; Mark (Marker [] [] None L_ll "d"); Braces] w))
    <$> @render strict demo_printf
          [Lit "n"; Percent; Mark (Marker [] [] None L_ll "d"); Braces]
          (wstart [V_int T_long_long 7; V_display None] [] ∅).
Proof. apply display_vprint_refines. by apply (bool_decide_unpack _). Defined.

Lemma display_vprint_reads_witness :
  @display_vprint strict demo_printf (Some (cstr (lit "%hld|%5%{}")))
    [V_int T_int 7; V_display None] [] ∅
  = (λ w, (Z.of_nat (w_fields w),
           final [Mark (Marker [] [] None L_hl "d"); Lit "|";
                  Mark (Marker [] (lit "5") None L_none "%"); Braces] w))
    <$> @render strict demo_printf
          [Mark (Marker [] [] None L_hl "d"); Lit "|";
           Mark (Marker [] (lit "5") None L_none "%"); Braces]
          (wstart [V_int T_int 7; V_display None] [] ∅).
Proof.
  apply display_vprint_reads; [split|].
  - by apply (bool_decide_unpack _).
  - by vm_compute.
  - by apply (bool_decide_unpack _).
Defined.

Lemma display_vprint_reaches_witness :
  rtc (loop_step (@vprint_iter strict demo_printf (cstr (template_text [Lit "n"; Braces; Percent]))
                    (specs_of [Lit "n"; Braces; Percent])))
    (final [] (wstart [V_display None] [] ∅))
    (final [Lit "n"; Braces] (World [] ["n"%char] ∅ 0 0))
  ∧ @vprint_iter strict demo_printf (cstr (template_text [Lit "n"; Braces; Percent]))
      (specs_of [Lit "n"; Braces; Percent]) (final [Lit "n"; Braces] (World [] ["n"%char] ∅ 0 0))
    = (inl ∘ final ([Lit "n"; Braces] ++ [Percent]))
      <$> @render_item strict demo_printf Percent (World [] ["n"%char] ∅ 0 0).
Proof.
  assert (wf_template [Lit "n"; Braces; Percent]) as Hwf by (by apply (bool_decide_unpack _)).
  by apply (display_vprint_reaches _ Hwf [Lit "n"; Braces] Percent []).
Defined.

Lemma display_vfprint_refines_witness :
  (λ '(n, st), (n, view 3%N st))
  <$> @display_vfprint strict demo_printf (Some 3%N)
        (Some (cstr (template_text [Lit "n"; Braces]))) [V_display None] [] ∅
  = (λ w, (Z.of_nat (w_fields w), final [Lit "n"; Braces] w))
    <$> @render strict demo_printf [Lit "n"; Braces]
          (wstart (on_stream_args 3%N [V_display None]) [] ∅).
Proof. apply display_vfprint_refines. by apply (bool_decide_unpack _). Defined.

Lemma display_vprint_in_grammar_witness :
  ∃ t, parse (cstr (lit "a%d{}")) ⇓ t ∧ find_format_specifiers (cstr (lit "a%d{}")) ⇓ specs_of t
    ∧ @display_vprint strict demo_printf (Some (cstr (lit "a%d{}"))) [V_int T_int 5] [] ∅
      = (λ w, (Z.of_nat (w_fields w), final t w))
        <$> @render strict demo_printf t (wstart [V_int T_int 5] [] ∅).
Proof. by apply display_vprint_in_grammar. Defined.
