(* ===== verification/Desync.v ===== *)
(** * What the driver renders of any C string

    The driver does not read markers: at a [%] it takes the next cell of
    the scanner's array, renders it and moves on by the length of that
    cell's text (display.h 359-488).  [lex_item] is that dispatch without
    its effects, and [relex] the list of items it yields for a buffer and
    the markers the scanner kept: the driver's own reading.

    The theorem of this file holds for every C string: [display_vprint]
    renders its own reading, item by item, and then returns, or has the
    undefined behaviour of a read outside the string when the reading runs
    past the terminator.  Where the scanner dropped no marker it is the
    reading of [Parse.parse].  At the first dropped marker the two
    readings part: the driver renders the next kept marker there, or, when
    none is left, walks on over the text as it is. *)

From Stdlib Require Import Ascii ZArith Lia.
From stdpp Require Import base tactics option list numbers strings gmap.
From S2P Require Import Prelude CString Types Scanner VaList Native Driver.
From S2P Require Import FDriver StreamView.
From S2P Require Import Template Render ScannerRefine Parse Reading DriverRefine.

(** ** Definitions *)

(** The markers of a reading the scanner keeps. *)
Definition kept_markers (t : list item) : list marker :=
  omap (λ i, if i is Mark m then if is_specifier (m_conv m) then Some m else None else None) t.

(** What one iteration of the driver finds at an offset. *)
Inductive lexed : Type :=
| Item (i : item) (q : nat) (ms : list marker)  (* an item; the offset and the cells after it *)
| Stop                                          (* the terminator *)
| Past.                                         (* a read outside the buffer *)

(** The dispatch of one iteration (display.h 359-488), with the markers
    [ms] whose cells are left in the array. *)
Definition lex_item (buf : list ascii) (ms : list marker) (p : nat) : lexed :=
  match buf !! p with
  | None => Past
  | Some c =>
      if is_nul c then Stop
      else if (c =? "%")%char then
        match buf !! S p with
        | None => Past
        | Some c' =>
            if negb (c' =? "%")%char then
              match ms with
              | m :: ms' => Item (Mark m) (p + strlen (substr (marker_cell m))) ms'
              | [] => Item (Lit c) (p + 1) ms
              end
            else Item Percent (p + 2) ms
        end
      else if (c =? "{")%char then
        match buf !! S p with
        | None => Past
        | Some c' =>
            if (c' =? "}")%char then Item Braces (p + 2) ms else Item (Lit c) (p + 1) ms
        end
      else Item (Lit c) (p + 1) ms
  end.

(** The driver's reading from offset [p], and whether it ends on the
    terminator. *)
Fixpoint relex (buf : list ascii) (ms : list marker) (fuel p : nat) : list item * bool :=
  match fuel with
  | 0 => ([], false)
  | S k =>
      match lex_item buf ms p with
      | Item i q ms' => prod_map (cons i) id (relex buf ms' k q)
      | Stop => ([], true)
      | Past => ([], false)
      end
  end.

(** A text in which no [%] starts a marker: [%%], [{}] and characters. *)
Fixpoint plain_items (s : list ascii) : list item :=
  match s with
  | [] => []
  | c :: r =>
      match r with
      | c' :: r' =>
          if (c =? "%")%char && (c' =? "%")%char then Percent :: plain_items r'
          else if (c =? "{")%char && (c' =? "}")%char then Braces :: plain_items r'
          else Lit c :: plain_items r
      | [] => [Lit c]
      end
  end.

(** The driver's reading of a C string: that of its buffer with the markers
    the scanner keeps of the reader's reading. *)
Definition driver_reading (s : list ascii) : outcome (list item * bool) :=
  t ← parse (cstr s);
  Done (relex (cstr s) (kept_markers t) (S (S (length s))) 0).

(** What a call does with a reading: it renders the items and returns the
    number of fields, or reads outside the string after them. *)
Definition render_reading `{ArgModel} `{NativeFormat} (r : list item * bool)
    (ap : va_list) (o : list ascii) (m : gmap loc Z) : outcome (Z * vstate) :=
  w ← render r.1 (wstart ap o m);
  if r.2 then Done (Z.of_nat (w_fields w), final r.1 w) else Undef OobRead.

(** ** The cells of the kept markers *)

Lemma markers_kept t : markers (kept t) = marker_cell <$> kept_markers t.
Proof.
  induction t as [|[c| | |m] t IH]; simpl; try done.
  destruct (is_specifier (m_conv m)); simpl; [by f_equal|done].
Qed.

Lemma kept_markers_app t1 t2 : kept_markers (t1 ++ t2) = kept_markers t1 ++ kept_markers t2.
Proof. apply omap_app. Qed.

Lemma kept_markers_item i t : kept_markers (i :: t) = kept_markers [i] ++ kept_markers t.
Proof. apply (kept_markers_app [i]). Qed.

(** ** One iteration *)

Section Lex.
Context `{ArgModel} `{NativeFormat}.
Context (buf : list ascii) (specs : format_specs_array_t) (Hspecs : specs_wf specs).

Lemma lex_item_at ms pre p i q ms' :
  data specs = pre ++ (marker_cell <$> ms) → Forall (λ m, no_nul (marker_text m)) ms →
  lex_item buf ms p = Item i q ms' →
  item_at buf specs p (length pre) i ∧ q = p + length (item_text i)
  ∧ ms = (if i is Mark m then [m] else []) ++ ms'.
Proof using Hspecs.
  intros Hd Hms. unfold lex_item. destruct (buf !! p) as [c|] eqn:Hc; [|done].
  destruct (is_nul c) eqn:Hnul; [done|]. apply is_nul_false in Hnul.
  destruct (Ascii.eqb_spec c "%") as [->|Hpc].
  - destruct (buf !! S p) as [x|] eqn:Hx; [|done].
    destruct (Ascii.eqb_spec x "%") as [->|Hne]; simpl; [by intros [= <- <- <-]|].
    unfold specs_wf in Hspecs. destruct Hms as [|m ms Hm _]; intros [= <- <- <-]; simpl.
    + rewrite Hspecs, Hd, app_nil_r. split_and!; try done. intros _. split; [by exists x|done].
    + rewrite (strlen_cstr _ Hm). split_and!; try done; [by exists x| |].
      * rewrite Hspecs, Hd, length_app. simpl. lia.
      * rewrite Hd. by apply list_lookup_middle.
  - destruct (Ascii.eqb_spec c "{") as [->|Hbr]; [|intros [= <- <- <-]; by split_and!].
    destruct (buf !! S p) as [x|] eqn:Hx; [|done].
    destruct (Ascii.eqb_spec x "}") as [->|Hne]; intros [= <- <- <-]; simpl; [done|].
    split_and!; try done. intros _. by exists x.
Qed.

Lemma item_at_inside p idx i : item_at buf specs p idx i → p < length buf.
Proof. destruct i; simpl; intros [?%lookup_lt_Some _]; done. Qed.

Lemma lex_item_stop ms p idx w :
  lex_item buf ms p = Stop → vprint_iter buf specs (conc p idx w) ⇓ inr (conc p idx w).
Proof.
  unfold lex_item, vprint_iter, char_at. simpl. destruct (buf !! p) as [c|]; [|done].
  simpl. destruct (is_nul c); [done|]. repeat case_match; done.
Qed.

Lemma lex_item_past ms p idx w :
  lex_item buf ms p = Past → vprint_iter buf specs (conc p idx w) ↯ OobRead.
Proof.
  unfold lex_item, vprint_iter, char_at. simpl. destruct (buf !! p) as [c|]; [|done].
  simpl. destruct (is_nul c); [done|].
  destruct (c =? "%")%char; [by destruct (buf !! S p); [repeat case_match|]|].
  destruct (c =? "{")%char; [|done]. by destruct (buf !! S p); [repeat case_match|].
Qed.

#[local] Arguments markers : simpl never.

(** The loop renders the driver's reading of the buffer: item by item,
    then it ends on the terminator or reads outside the buffer. *)
Lemma vprint_run_relex : ∀ k ms pre p w fuel,
  data specs = pre ++ (marker_cell <$> ms) → Forall (λ m, no_nul (marker_text m)) ms →
  length buf - p < k → length (relex buf ms k p).1 < fuel →
  loop (vprint_iter buf specs) fuel (conc p (length pre) w)
  = w' ← render (relex buf ms k p).1 w;
    if (relex buf ms k p).2
    then Done (conc (p + length (template_text (relex buf ms k p).1))
                 (length pre + length (markers (relex buf ms k p).1)) w')
    else Undef OobRead.
Proof using Hspecs.
  induction k as [|k IH]; intros ms pre p w [|fuel] Hd Hms Hk Hf; try (simpl in *; lia).
  rewrite loop_S. simpl in Hf |- *. destruct (lex_item buf ms p) as [i q ms'| |] eqn:Hi.
  - destruct (lex_item_at _ _ _ _ _ _ Hd Hms Hi) as (Hat & -> & ->).
    rewrite (vprint_iter_at _ _ _ _ _ _ Hat). pose proof (item_text_length i).
    pose proof (item_at_inside _ _ _ Hat).
    destruct (relex buf ms' k _) as [t e] eqn:Hr. simpl in Hf |- *.
    destruct (render_item i w) as [w1| |]; simpl; [|done..].
    replace (length pre + length (markers [i])) with (length (pre ++ markers [i]))
      by by rewrite length_app.
    rewrite (IH ms' (pre ++ markers [i]) _ w1 fuel), Hr; [simpl| | |lia|rewrite Hr; simpl; lia].
    + rewrite template_text_cons, (markers_item i t), !length_app, !Nat.add_assoc. done.
    + rewrite Hd, <- app_assoc. by destruct i.
    + destruct i; try done. by apply Forall_cons in Hms as [_ ?].
  - simpl. by rewrite (lex_item_stop _ _ _ _ Hi), !Nat.add_0_r.
  - simpl. by rewrite (lex_item_past _ _ _ _ Hi).
Qed.

End Lex.

(** ** The driver's reading does not depend on the fuel *)

Lemma lex_item_advances buf ms p i q ms' : lex_item buf ms p = Item i q ms' → p < q.
Proof.
  unfold lex_item. intros Hi. repeat case_match; simplify_eq; try lia.
  unfold marker_cell, strlen, cstr, marker_text. simpl. lia.
Qed.

Lemma lex_item_inside buf ms p i q ms' : lex_item buf ms p = Item i q ms' → p < length buf.
Proof.
  unfold lex_item. destruct (buf !! p) eqn:Hp; [|done]. by apply lookup_lt_Some in Hp.
Qed.

Lemma relex_Item buf ms k p i q ms' :
  lex_item buf ms p = Item i q ms' →
  relex buf ms (S k) p = prod_map (cons i) id (relex buf ms' k q).
Proof. simpl. by intros ->. Qed.

Lemma relex_fuel buf : ∀ k k' ms p,
  length buf - p < k → length buf - p < k' → relex buf ms k p = relex buf ms k' p.
Proof.
  induction k as [|k IH]; intros [|k'] ms p Hk Hk'; try lia. simpl.
  destruct (lex_item buf ms p) as [i q ms'| |] eqn:Hi; [|done..].
  pose proof (lex_item_advances _ _ _ _ _ _ Hi). pose proof (lex_item_inside _ _ _ _ _ _ Hi).
  rewrite (IH k'); [done|lia..].
Qed.

(** ** The driver's reading and the reader's *)

Section Readings.
Context (s : list ascii) (Hs : no_nul s).

(** On an item that is read and kept the driver's dispatch agrees with
    the reader. *)
Lemma lex_item_read p c i q ms :
  cstr s !! p = Some c → c ≠ NUL → parse_item (cstr s) p c ⇓ (i, q) → q ≤ length s →
  keeps i = true → lex_item (cstr s) (kept_markers [i] ++ ms) p = Item i q ms.
Proof using Hs.
  intros Hc Hnul Hi Hq Hk. destruct (cstr_lookup_next s _ _ Hc Hnul) as [x Hx].
  destruct (seg_item _ _ _ _ _ Hi Hc) as [Hat Hlen]; [by intros j Hj; eapply cstr_inside|].
  apply parse_item_inv in Hi. unfold lex_item. rewrite Hc, Hx.
  apply is_nul_false in Hnul as ->. destruct i as [a| | |m]; simpl in *.
  - destruct Hi as (-> & -> & ->%Ascii.eqb_neq & Hbr). rewrite Nat.add_1_r.
    destruct (Ascii.eqb_spec c "{") as [->|]; [|done].
    by destruct (Ascii.eqb_spec x "}") as [->|]; [destruct Hbr|].
  - destruct Hi as (-> & Hx' & ->). rewrite Hx' in Hx. by injection Hx as <-.
  - destruct Hi as (-> & Hx' & ->). rewrite Hx' in Hx. by injection Hx as <-.
  - destruct Hi as (-> & (y & Hy & Hne%Ascii.eqb_neq) & _). rewrite Hy in Hx.
    injection Hx as <-. rewrite Hk, Hne. simpl. rewrite strlen_cstr, Hlen; [done|].
    apply (has_at_cstr_no_nul s Hs p); [done|simpl; lia].
Qed.

(** Up to the first marker the scanner drops, the driver reads what the
    reader read. *)
Lemma relex_reading t1 : ∀ t2 k fuel p,
  parse_from (cstr s) k p ⇓ t1 ++ t2 → clean t1 → length (cstr s) - p < fuel →
  relex (cstr s) (kept_markers (t1 ++ t2)) fuel p
  = prod_map (t1 ++.) id
      (relex (cstr s) (kept_markers t2) fuel (p + length (template_text t1))).
Proof using Hs.
  induction t1 as [|i t1 IH]; intros t2 k fuel p Ht Hcl Hf.
  { simpl. rewrite Nat.add_0_r. by destruct (relex _ _ _ _). }
  apply parse_from_cons in Ht as (c & q & k' & -> & Hc & Hnul & Hi & Ht).
  apply Forall_cons in Hcl as [Hk Hcl]. pose proof (parse_from_inside _ _ _ _ Ht) as Hq.
  pose proof (parse_item_advances _ _ _ _ _ Hi). rewrite length_cstr in Hq, Hf.
  assert (q ≤ length s) as Hq' by lia. destruct fuel as [|f]; [lia|].
  pose proof (lex_item_read p c i q (kept_markers (t1 ++ t2)) Hc Hnul Hi Hq' Hk) as Hlex.
  rewrite <- kept_markers_item in Hlex. rewrite <- app_comm_cons, (relex_Item _ _ _ _ _ _ _ Hlex).
  destruct (seg_item _ _ _ _ _ Hi Hc) as [_ ->]; [intros j Hj; by apply (cstr_inside s Hs p q)|].
  rewrite (relex_fuel _ f (S f)), (IH t2 k') by (rewrite ?length_cstr; done || lia).
  rewrite template_text_cons, length_app, Nat.add_assoc.
  by destruct (relex _ (kept_markers t2) _ _).
Qed.

Lemma relex_end ms fuel : relex (cstr s) ms (S fuel) (length s) = ([], true).
Proof.
  simpl. unfold lex_item. by rewrite (proj1 (char_at_Done _ _ _) (char_at_cstr_end s)).
Qed.

End Readings.

(** ** Text after the last cell *)

Lemma eqb_pair_false (a b c x : ascii) :
  ¬ (c = a ∧ x = b) → ((c =? a) && (x =? b))%char = false.
Proof. intros Hn. destruct (Ascii.eqb_spec c a), (Ascii.eqb_spec x b); try done. by destruct Hn. Qed.

Lemma plain_items_lit c r :
  ¬ (c = "%"%char ∧ head r = Some "%"%char) → ¬ (c = "{"%char ∧ head r = Some "}"%char) →
  plain_items (c :: r) = Lit c :: plain_items r.
Proof.
  intros Hpc Hbr. destruct r as [|x r]; [done|]. cbn [plain_items].
  by rewrite !eqb_pair_false by (intros [-> ->]; auto).
Qed.

Lemma lex_item_plain pre c r :
  c ≠ NUL → no_nul r →
  lex_item (pre ++ (c :: r) ++ [NUL]) [] (length pre)
  = if decide (c = "%"%char ∧ head r = Some "%"%char) then Item Percent (length pre + 2) []
    else if decide (c = "{"%char ∧ head r = Some "}"%char) then Item Braces (length pre + 2) []
    else Item (Lit c) (length pre + 1) [].
Proof.
  intros Hnul%is_nul_false Hr. unfold lex_item. rewrite <- app_comm_cons.
  rewrite (list_lookup_middle pre _ c (length pre) eq_refl), Hnul.
  assert ((pre ++ c :: r ++ [NUL]) !! S (length pre) = Some (default NUL (head r))) as ->.
  { rewrite cons_middle, !app_assoc, <- (app_assoc _ r).
    rewrite (lookup_app_r (pre ++ [c])) by (rewrite length_app; simpl; lia).
    rewrite length_app. simpl. rewrite Nat.add_1_r, Nat.sub_diag. by destruct r. }
  destruct (decide (c = "%"%char ∧ _)) as [[-> ->]|Hpc]; [done|].
  destruct (decide (c = "{"%char ∧ _)) as [[-> ->]|Hbr]; [done|].
  destruct (Ascii.eqb_spec c "%") as [->|?]; [|destruct (Ascii.eqb_spec c "{") as [->|?]];
    [| |done]; destruct (head r) as [x|]; simpl; try done.
  - by destruct (Ascii.eqb_spec x "%") as [->|?]; [destruct Hpc|].
  - by destruct (Ascii.eqb_spec x "}") as [->|?]; [destruct Hbr|].
Qed.

(** With no cell left the driver's reading of a text is [plain_items]. *)
Lemma relex_plain : ∀ fuel pre r,
  no_nul r → length r < fuel →
  relex (pre ++ r ++ [NUL]) [] fuel (length pre) = (plain_items r, true).
Proof.
  induction fuel as [|f IH]; intros pre r Hr Hf; [lia|]. destruct r as [|c r].
  { simpl. unfold lex_item. by rewrite (list_lookup_middle pre [] NUL (length pre) eq_refl). }
  apply no_nul_app with (s := [c]) in Hr as [Hc Hr]. simpl in Hf.
  assert (c ≠ NUL) as Hnul by (intros ->; apply Hc; by left).
  pose proof (lex_item_plain pre c r Hnul Hr) as Hlex.
  pose proof (IH (pre ++ [c]) r Hr ltac:(lia)) as IH1.
  rewrite length_app, <- app_assoc in IH1. change (length [c]) with 1 in IH1.
  change ([c] ++ r ++ [NUL]) with ((c :: r) ++ [NUL]) in IH1.
  destruct (decide (c = "%"%char ∧ _)) as [[-> Hx]|Hpc];
    [|destruct (decide (c = "{"%char ∧ _)) as [[-> Hx]|Hbr]];
    rewrite (relex_Item _ _ _ _ _ _ _ Hlex).
  - destruct r as [|x r]; simplify_eq/=. apply no_nul_app with (s := ["%"%char]) in Hr as [_ Hr].
    pose proof (IH (pre ++ lit "%%") r Hr ltac:(lia)) as IH2.
    rewrite length_app, <- app_assoc in IH2. simpl in IH2. by rewrite IH2.
  - destruct r as [|x r]; simplify_eq/=. apply no_nul_app with (s := ["}"%char]) in Hr as [_ Hr].
    pose proof (IH (pre ++ lit "{}") r Hr ltac:(lia)) as IH2.
    rewrite length_app, <- app_assoc in IH2. simpl in IH2. by rewrite IH2.
  - rewrite IH1, plain_items_lit by done. done.
Qed.

Lemma relex_length buf : ∀ k ms p, length (relex buf ms k p).1 ≤ k.
Proof.
  induction k as [|k IH]; intros ms p; simpl; [done|].
  destruct (lex_item buf ms p) as [i q ms'| |]; simpl; [|lia..]. specialize (IH ms' q). lia.
Qed.

Lemma template_markers_no_nul t :
  no_nul (template_text t) → Forall (λ m, no_nul (marker_text m)) (kept_markers t).
Proof.
  induction t as [|i t IH]; [constructor|]. rewrite template_text_cons, no_nul_app.
  intros [Hi Ht]. destruct i as [c| | |m]; simpl; auto.
  destruct (is_specifier (m_conv m)); auto.
Qed.

(** ** The driver's reading of a C string *)

Section Strings.
Context (s : list ascii).

(** Where every dropped marker comes after the last kept one, the driver
    reads the reader's items up to the first dropped marker and the rest of
    the text as it is. *)
Lemma driver_reading_plain t1 t2 :
  reading s (t1 ++ t2) → clean t1 → kept_markers t2 = [] →
  driver_reading s ⇓ (t1 ++ plain_items (template_text t2), true).
Proof.
  intros [Hs Ht] Hcl Hk. unfold driver_reading. rewrite Ht, bind_Done_l. f_equal.
  rewrite (relex_reading s Hs t1 t2 _ _ 0 Ht Hcl), Hk by (rewrite length_cstr; lia).
  pose proof (parse_spells s _ Hs Ht) as Es. rewrite template_text_app in Es.
  unfold cstr. rewrite <- Es, <- app_assoc, relex_plain; [done| |].
  - rewrite <- Es in Hs. by apply no_nul_app in Hs as [_ ?].
  - rewrite length_app. lia.
Qed.

(** At the first dropped marker, when a kept marker follows, the driver
    reads that marker, and goes on from the offset its length gives. *)
Lemma driver_reading_next t1 bad t2 m' :
  reading s (t1 ++ Mark bad :: t2) → clean t1 → is_specifier (m_conv bad) = false →
  head (kept_markers t2) = Some m' →
  driver_reading s
  ⇓ prod_map (λ r, t1 ++ Mark m' :: r) id
      (relex (cstr s) (tail (kept_markers t2)) (S (length s))
         (length (template_text t1) + length (marker_text m'))).
Proof.
  intros [Hs Ht] Hcl Hbad Hm'. unfold driver_reading. rewrite Ht, bind_Done_l. f_equal.
  rewrite (relex_reading s Hs t1 _ _ _ 0 Ht Hcl) by (rewrite length_cstr; lia).
  destruct (parse_from_laid s Hs (specs_of (kept (t1 ++ Mark bad :: t2))) eq_refl
              t1 _ _ 0 [] Ht Hcl eq_refl) as [_ Hrest].
  apply parse_from_cons in Hrest as (c & q & k' & _ & Hc & _ & Hi%parse_item_inv & _).
  destruct Hi as (-> & (x & Hx & Hne%Ascii.eqb_neq) & _). simpl kept_markers. rewrite Hbad.
  destruct (kept_markers t2) as [|m ms] eqn:Hk; [done|]. injection Hm' as ->.
  assert (no_nul (marker_text m')) as Hnn.
  { pose proof (template_markers_no_nul (t1 ++ Mark bad :: t2)) as Hall.
    rewrite (parse_spells s _ Hs Ht), kept_markers_app in Hall. simpl in Hall.
    rewrite Hbad, Hk in Hall. specialize (Hall Hs).
    by apply Forall_app in Hall as [_ [? _]%Forall_cons]. }
  rewrite (relex_Item _ _ _ _ (Mark m') (length (template_text t1) + length (marker_text m')) ms).
  - by destruct (relex _ _ _ _).
  - unfold lex_item. rewrite Hc, Hx. simpl. by rewrite Hne, (strlen_cstr _ Hnn).
Qed.

(** Where the scanner drops nothing the driver's reading is the
    reader's. *)
Lemma driver_reading_clean t : reading s t → clean t → driver_reading s ⇓ (t, true).
Proof.
  intros Hrd Hcl. pose proof (driver_reading_plain t []) as E. simpl in E.
  rewrite !app_nil_r in E. by apply E.
Qed.

End Strings.

(** ** The whole call *)

Section Call.
Context `{ArgModel} `{NativeFormat}.

Lemma display_vprint_relex s ap o m :
  no_nul s →
  display_vprint (Some (cstr s)) ap o m = r ← driver_reading s; render_reading r ap o m.
Proof.
  intros Hs. unfold display_vprint, driver_reading.
  rewrite (scan_reads s Hs).
  destruct (parse (cstr s)) as [t| |] eqn:Ht; [|done..]. simpl fmap. rewrite !bind_Done_l.
  change (vstart ap o m) with (conc 0 (length (@nil format_spec_t)) (wstart ap o m)).
  rewrite (vprint_run_relex (cstr s) (specs_of (kept t)) eq_refl
             (S (S (length s))) (kept_markers t) [] 0).
  - unfold render_reading, final. destruct (relex _ _ _ _) as [t' e]. simpl.
    destruct (render t' _); simpl; [|done..]. by destruct e.
  - apply markers_kept.
  - apply template_markers_no_nul. by rewrite (parse_spells s t Hs Ht).
  - rewrite length_cstr. lia.
  - pose proof (relex_length (cstr s) (S (S (length s))) (kept_markers t) 0).
    unfold vprint_fuel. rewrite length_cstr. lia.
Qed.

(** C1. A call on any C string renders the driver's reading of the string,
    item by item, undefined behaviours included, and returns the number of
    fields rendered; when the reading runs past the terminator it ends, after
    the items, with a read outside the string. *)
Theorem display_vprint_own_reading s ap o m :
  no_nul s →
  display_vprint (Some (cstr s)) ap o m = r ← driver_reading s; render_reading r ap o m.
Proof. apply display_vprint_relex. Qed.

(** C13. Markers the scanner drops after the last one it keeps are written as
    they stand: the call renders the reader's items up to the first of them
    and the rest of the text character by character, [%%] and [{}] apart,
    and it reads nothing outside the string. *)
Theorem display_vprint_verbatim s t1 t2 ap o m :
  reading s (t1 ++ t2) → clean t1 → kept_markers t2 = [] →
  display_vprint (Some (cstr s)) ap o m
  = render_reading (t1 ++ plain_items (template_text t2), true) ap o m.
Proof.
  intros Hrd Hcl Hk. rewrite display_vprint_relex by apply Hrd.
  by rewrite (driver_reading_plain s t1 t2).
Qed.

(** C12. A marker the scanner drops before one it keeps shifts the two passes:
    up to it the call renders the reader's items, and in its place it
    renders the next kept marker [m'], with the argument and the text of
    [m'], and moves on by the length of [m']. *)
Theorem display_vprint_desync s t1 bad t2 m' ap o m :
  reading s (t1 ++ Mark bad :: t2) → clean t1 → is_specifier (m_conv bad) = false →
  head (kept_markers t2) = Some m' →
  ∃ r, r = relex (cstr s) (tail (kept_markers t2)) (S (length s))
             (length (template_text t1) + length (marker_text m'))
    ∧ display_vprint (Some (cstr s)) ap o m
      = render_reading (t1 ++ Mark m' :: r.1, r.2) ap o m.
Proof.
  intros Hrd Hcl Hbad Hm'. eexists. split; [done|].
  rewrite display_vprint_relex by apply Hrd.
  rewrite (driver_reading_next s t1 bad t2 m') by done. by destruct (relex _ _ _ _).
Qed.

End Call.

(** The stream driver renders the same reading, on the stream's view of
    the arguments: what a call of [display_vfprint] on any C string writes
    to the stream, stores and returns is what rendering the driver's reading
    of the string does, with every object rendered by its stream
    function. *)
Theorem display_vfprint_own_reading `{DisplayArgs} `{NativeFormat} file s ap o m :
  no_nul s →
  (λ '(n, st), (n, view file st)) <$> display_vfprint (Some file) (Some (cstr s)) ap o m
  = r ← driver_reading s; render_reading r (on_stream_args file ap) o m.
Proof. intros Hs. by rewrite <- display_vfprint_view, display_vprint_relex. Qed.

(** ** The theorems at concrete strings *)

Lemma display_vfprint_own_reading_witness :
  (λ '(n, st), (n, view 3%N st))
  <$> @display_vfprint strict demo_printf (Some 3%N) (Some (cstr (lit "%q{}%d")))
        [V_display None; V_int T_int 5] [] ∅
  = r ← driver_reading (lit "%q{}%d");
    @render_reading strict demo_printf r (on_stream_args 3%N [V_display None; V_int T_int 5]) [] ∅.
Proof. apply display_vfprint_own_reading. by apply (bool_decide_unpack _). Defined.

Lemma display_vprint_own_reading_witness :
  @display_vprint strict demo_printf (Some (cstr (lit "%q%5%%10d%k"))) [V_int T_int 7] [] ∅
  = r ← driver_reading (lit "%q%5%%10d%k");
    @render_reading strict demo_printf r [V_int T_int 7] [] ∅.
Proof. apply display_vprint_own_reading. by apply (bool_decide_unpack _). Defined.

Lemma display_vprint_verbatim_witness :
  @display_vprint strict demo_printf (Some (cstr (lit "a%d%y{}")))
    [V_int T_int 5; V_display None] [] ∅
  = @render_reading strict demo_printf
      ([Lit "a"; Mark (Marker [] [] None L_none "d")] ++ plain_items (lit "%y{}"), true)
      [V_int T_int 5; V_display None] [] ∅.
Proof.
  apply (display_vprint_verbatim (lit "a%d%y{}") [Lit "a"; Mark (Marker [] [] None L_none "d")]
           [Mark (Marker [] [] None L_none "y"); Braces]); [split| |done].
  - by apply (bool_decide_unpack _).
  - by vm_compute.
  - by apply (bool_decide_unpack _).
Defined.

Lemma display_vprint_desync_witness :
  ∃ r, r = relex (cstr (lit "%q %d")) [] 6 2
    ∧ @display_vprint strict demo_printf (Some (cstr (lit "%q %d"))) [V_int T_int 5] [] ∅
      = @render_reading strict demo_printf
          ([] ++ Mark (Marker [] [] None L_none "d") :: r.1, r.2) [V_int T_int 5] [] ∅.
Proof.
  apply (display_vprint_desync (lit "%q %d") [] (Marker [] [] None L_none "q")
           [Lit " "; Mark (Marker [] [] None L_none "d")] (Marker [] [] None L_none "d"));
    [split| | |]; try done.
  - by apply (bool_decide_unpack _).
  - constructor.
Defined.

(** The reading of the driver where the two passes part: the argument of
    [%d] is printed where [%q] stands, and [%d] is text. *)
Example driver_reading_shift :
  driver_reading (lit "%q %d")
  ⇓ ([Mark (Marker [] [] None L_none "d"); Lit " "; Lit "%"; Lit "d"], true).
Proof. by vm_compute. Qed.

(** A reading that leaves the string. *)
Example driver_reading_overrun :
  driver_reading (lit "%q%5%%10d%k")
  ⇓ ([Mark (Marker [] (lit "5") None L_none "%"); Lit "5"; Percent; Lit "1"; Lit "0"; Lit "d";
      Mark (Marker [] (lit "10") None L_none "d")], false).
Proof. by vm_compute. Qed.
