(* ===== verification/AllocFail.v ===== *)
(** * Calls whose allocations fail

    [Alloc] relates the scanner on the heap to the ledger of the cells it
    accepts, for every oracle.  This file says what a call of
    [display_vprint] does then, on every C string that has a reading.

    A failed [malloc] is a dropped marker: the call renders the driver's
    reading of the string with the markers that were stored, as [Desync]
    describes it for the markers the scanner rejects, and releases every
    block it allocated.  The same holds when [realloc] fails and no cell is
    stored at all.  After any other failure of [realloc] the array is null
    with a count that is not 0, or has a first cell that was never written:
    the call renders the text before the first marker and then reads that
    cell, which is undefined. *)

From Stdlib Require Import Ascii ZArith Lia.
From stdpp Require Import base tactics option list numbers strings gmap.
From S2P Require Import Prelude CString Types Scanner VaList Native Driver.
From S2P Require Import FDriver StreamView Heap Alloc.
From S2P Require Import Template Render ScannerRefine Parse Reading DriverRefine Desync.

(** ** Definitions *)

(** The ledger of the scan of a reading: that of the markers the scanner
    keeps, with the allocation outcomes [o]. *)
Definition scan_ledger (o : list bool) (t : list item) : ledger marker :=
  allocs o (kept_markers t).

(** The same ledger, of the cells. *)
Definition cells_ledger (o : list bool) (t : list item) : ledger format_spec_t :=
  allocs o (marker_cell <$> kept_markers t).

(** The markers whose cells the driver finds in the array, when the array
    can be read. *)
Definition survivors (o : list bool) (t : list item) : option (list marker) :=
  match l_shape (scan_ledger o t) with
  | Sound | Bare => Some (l_cells (scan_ledger o t))
  | Null | Holed => None
  end.

(** What the read of the first cell does when the array cannot be read
    (display.h 365). *)
Definition crash (sh : shape) : ub := if sh is Null then NullDeref else Uninit.

(** ** The scan of a string *)

Lemma cells_ledger_eq o t :
  cells_ledger o t
  = Ledger (l_shape (scan_ledger o t)) (marker_cell <$> l_cells (scan_ledger o t))
      (l_oracle (scan_ledger o t)).
Proof. apply allocs_fmap. Qed.

(** On every C string the scanner on the heap ends as the reader does, and
    leaves the heap the ledger of the kept markers describes. *)
Lemma scan_a_reads s h :
  no_nul s → heap_wf h →
  outcome_rel (λ t r, ∃ n, ledger_inv (blocks h) (cells_ledger (oracle h) t) n r.1 r.2)
    (parse (cstr s)) (find_format_specifiers_a (cstr s) h).
Proof.
  intros Hs Hwf. pose proof (find_format_specifiers_a_ledger (cstr s) h Hwf) as Hsim.
  rewrite (scan_reads s Hs) in Hsim. destruct (parse (cstr s)) as [t| |]; [|done..].
  destruct Hsim as (r & -> & n & Hinv). exists r. split; [done|]. exists n.
  unfold cells_ledger. by rewrite <- markers_kept.
Qed.

(** An array that can be read is represented: it holds the cells of the
    survivors, next to the blocks the heap had. *)
Lemma survivors_represented B0 o t n r h ms :
  ledger_inv B0 (cells_ledger o t) n r h → survivors o t = Some ms →
  as_count r = length (marker_cell <$> ms)
  ∧ ∃ ls, represents B0 (marker_cell <$> ms) ls (as_data r) h.
Proof.
  rewrite cells_ledger_eq. unfold survivors. intros (Hwf & _ & Hsh) Hms. simpl in Hsh.
  destruct (l_shape (scan_ledger o t)); simplify_eq.
  - by destruct Hsh as (_ & ? & ?).
  - destruct Hsh as (Hd & -> & _ & HB & Hc). rewrite Hc. split; [done|]. exists [].
    rewrite Hd. split_and!; try done; constructor.
Qed.

(** An array that cannot be read has a first cell, and the read of it is
    undefined. *)
Lemma broken_cell B0 o t n r h :
  ledger_inv B0 (cells_ledger o t) n r h → survivors o t = None →
  0 < as_count r ∧ cell_at r h 0 ↯ crash (l_shape (scan_ledger o t)).
Proof.
  rewrite cells_ledger_eq. unfold survivors. intros (Hwf & _ & Hsh) Hms. simpl in Hsh.
  destruct (l_shape (scan_ledger o t)); simplify_eq; simpl.
  - destruct Hsh as (Hd & ? & _). unfold cell_at. by rewrite Hd.
  - destruct Hsh as (-> & d & cs & Hd & Hb & <-). split; [lia|].
    unfold cell_at, load_cell. by rewrite Hd, Hb.
Qed.

Lemma survivors_no_nul s t o ms :
  reading s t → survivors o t = Some ms → Forall (λ m, no_nul (marker_text m)) ms.
Proof.
  intros [Hs Ht] Hms. assert (ms = l_cells (scan_ledger o t)) as ->.
  { unfold survivors in Hms. by destruct (l_shape _); simplify_eq. }
  apply allocs_cells_Forall, template_markers_no_nul. by rewrite (parse_spells s t Hs Ht).
Qed.

(** ** The driver on an array that cannot be read *)

Section Crash.
Context `{ArgModel} `{NativeFormat}.
Context (s : list ascii) (Hs : no_nul s) (r : aspecs) (h : heap) (u : ub).
Context (Hcount : 0 < as_count r) (Hcell : cell_at r h 0 ↯ u).

(** Away from a [%] that starts a marker the driver does not look at the
    array. *)
Lemma vprint_iter_a_plain specs st :
  (cstr s !! vp st = Some "%"%char → cstr s !! S (vp st) = Some "%"%char) →
  vprint_iter_a (cstr s) r h st = vprint_iter (cstr s) specs st.
Proof.
  intros Hp. unfold vprint_iter_a, vprint_iter, char_at.
  destruct (cstr s !! vp st) as [c|] eqn:Hc; [|done]. simpl.
  destruct (is_nul c); [done|]. destruct (Ascii.eqb_spec c "%") as [->|]; [|done].
  by rewrite (Hp eq_refl).
Qed.

(** At the first one it reads the first cell. *)
Lemma vprint_iter_a_crash p w x :
  cstr s !! p = Some "%"%char → cstr s !! S p = Some x → x ≠ "%"%char →
  vprint_iter_a (cstr s) r h (conc p 0 w) ↯ u.
Proof using Hcount Hcell.
  intros Hc Hx Hne%Ascii.eqb_neq. unfold vprint_iter_a, char_at. simpl. rewrite Hc, Hx. simpl.
  rewrite Hne. simpl. apply Nat.ltb_lt in Hcount as ->. by rewrite Hcell.
Qed.

(** The loop renders the items before the first marker and ends in the
    read of the first cell. *)
Lemma vprint_a_crash_from t0 m0 t1 : ∀ k p w fuel,
  parse_from (cstr s) k p ⇓ t0 ++ Mark m0 :: t1 → markers t0 = [] → length t0 < fuel →
  loop (vprint_iter_a (cstr s) r h) fuel (conc p 0 w) = render t0 w ≫= λ _, Undef u.
Proof using Hs Hcount Hcell.
  induction t0 as [|i t0 IH]; intros k p w [|fuel] Ht Hm Hf; try (simpl in Hf; lia);
    apply parse_from_cons in Ht as (c & q & k' & -> & Hc & Hnul & Hi & Ht); rewrite loop_S.
  { apply parse_item_inv in Hi as (-> & (x & Hx & Hne) & _).
    by rewrite (vprint_iter_a_crash p w x). }
  pose proof (parse_from_inside _ _ _ _ Ht) as Hq. rewrite length_cstr in Hq.
  rewrite (markers_item i t0) in Hm. apply app_eq_nil in Hm as [Hi0 Hm].
  destruct (read_item_at s Hs specs_empty p c i q 0 Hc Hnul Hi) as [Hat ->];
    [lia|by intros m ->|].
  assert (cstr s !! p = Some "%"%char → cstr s !! S p = Some "%"%char) as Hplain.
  { intros Hp. rewrite Hp in Hc. injection Hc as <-. apply parse_item_inv in Hi.
    destruct i as [a| | |m]; simpl in Hi; [by destruct Hi as (_ & _ & ? & _)| | |done].
    - by destruct Hi as (_ & ? & _).
    - by destruct Hi as [? _]. }
  rewrite (vprint_iter_a_plain specs_empty (conc p 0 w) Hplain).
  rewrite (vprint_iter_at _ _ _ _ _ _ Hat), Hi0.
  simpl render. destruct (render_item i w) as [w'| |]; simpl; [|done..].
  apply (IH k'); [done..|simpl in Hf; lia].
Qed.

End Crash.

(** ** The whole call *)

Section Call.
Context `{ArgModel} `{NativeFormat}.
Context (s : list ascii) (t : list item) (Hrd : reading s t).
Context (h : heap) (Hwf : heap_wf h).

Lemma scan_a_reading :
  ∃ r h' n, find_format_specifiers_a (cstr s) h ⇓ (r, h')
    ∧ ledger_inv (blocks h) (cells_ledger (oracle h) t) n r h'.
Proof using Hrd Hwf.
  destruct Hrd as [Hs Ht]. pose proof (scan_a_reads s h Hs Hwf) as Hsim. rewrite Ht in Hsim.
  destruct Hsim as ([r h'] & ? & n & ?). by exists r, h', n.
Qed.

Lemma display_vprint_a_relex ap o m ms :
  survivors (oracle h) t = Some ms →
  outcome_rel (same_call h)
    (render_reading (relex (cstr s) ms (S (S (length s))) 0) ap o m)
    (display_vprint_a (Some (cstr s)) ap o m h).
Proof using Hrd Hwf.
  intros Hms. destruct scan_a_reading as ([data n] & h' & k & Hscan & Hinv).
  destruct (survivors_represented _ _ _ _ _ _ _ Hinv Hms) as (Hn & ls & Hrep). simpl in Hn, Hrep.
  unfold display_vprint_a. rewrite Hscan, bind_Done_l. cbv beta iota. rewrite Hn.
  rewrite (vprint_loop_a_eq _ _ _ _ _ _ _ _ Hrep).
  change (vstart ap o m) with (conc 0 (length (@nil format_spec_t)) (wstart ap o m)).
  rewrite (vprint_run_relex (cstr s) {| data := marker_cell <$> ms; count := _ |} eq_refl
             (S (S (length s))) ms [] 0).
  - unfold render_reading, final. destruct (relex _ _ _ _) as [t' e]. simpl.
    destruct (render t' _); simpl; [|done..]. destruct e; [|done]. simpl.
    destruct (represents_free _ _ _ _ _ Hrep) as (h'' & -> & Hb). by eexists.
  - done.
  - by apply (survivors_no_nul s t (oracle h)).
  - rewrite length_cstr. lia.
  - pose proof (relex_length (cstr s) (S (S (length s))) ms 0).
    unfold vprint_fuel. rewrite length_cstr. lia.
Qed.

Lemma display_vprint_a_crash t0 m0 t1 ap o m :
  t = t0 ++ Mark m0 :: t1 → markers t0 = [] → survivors (oracle h) t = None →
  display_vprint_a (Some (cstr s)) ap o m h
  = render t0 (wstart ap o m) ≫= λ _, Undef (crash (l_shape (scan_ledger (oracle h) t))).
Proof using Hrd Hwf.
  intros Ht Hm Hms. destruct scan_a_reading as (r & h' & k & Hscan & Hinv).
  destruct (broken_cell _ _ _ _ _ _ Hinv Hms) as [Hcount Hcell]. destruct Hrd as [Hs Hp].
  unfold display_vprint_a. rewrite Hscan, bind_Done_l. cbv beta iota.
  change (vstart ap o m) with (conc 0 0 (wstart ap o m)).
  rewrite (vprint_a_crash_from s Hs r h' _ Hcount Hcell t0 m0 t1 (S (length (cstr s))) 0).
  - by destruct (render t0 _).
  - by rewrite <- Ht.
  - done.
  - pose proof (template_text_items t) as Hl. rewrite (parse_spells s t Hs Hp), Ht in Hl.
    rewrite length_app in Hl. unfold vprint_fuel. rewrite length_cstr. simpl in Hl. lia.
Qed.

End Call.

(** With an allocator that does not fail every kept marker survives. *)
Lemma survivors_succeeds o t : Forall (λ b, b = true) o → survivors o t = Some (kept_markers t).
Proof.
  intros Ho. unfold survivors, scan_ledger.
  by destruct (allocs_succeeds o (kept_markers t) Ho) as (-> & -> & _).
Qed.

(** ** The theorems *)

(** On every C string and for every outcome of the allocations, the scanner
    on the heap ends as the reader does: with the same undefined read, or
    with the array and the heap that the ledger of the kept markers
    describes. *)
Theorem find_format_specifiers_a_reads s h :
  no_nul s → heap_wf h →
  outcome_rel (λ t r, ∃ n, ledger_inv (blocks h) (cells_ledger (oracle h) t) n r.1 r.2)
    (parse (cstr s)) (find_format_specifiers_a (cstr s) h).
Proof. apply scan_a_reads. Qed.

Section Theorems.
Context `{ArgModel} `{NativeFormat}.

(** C5. A failed [malloc] is a dropped marker.  When the array the scan leaves
    can be read, whatever allocations failed, the call on the heap renders
    the driver's reading of the string with the markers that survived, as a
    call on values does with the markers the scanner keeps: it ends with the
    same undefined behaviour, or returns the same value in the same state,
    and then the heap has the blocks it had before the call. *)
Theorem display_vprint_a_survivors s t ap o m h ms :
  reading s t → heap_wf h → survivors (oracle h) t = Some ms →
  outcome_rel (same_call h)
    (render_reading (relex (cstr s) ms (S (S (length s))) 0) ap o m)
    (display_vprint_a (Some (cstr s)) ap o m h).
Proof. intros Hrd Hwf. by apply display_vprint_a_relex. Qed.

(** C7. After a failed [realloc] that leaves an array that cannot be read, the
    call renders the items before the first marker of the string and then
    reads the first cell: through the null pointer when the array is null,
    and a cell that was never written otherwise.  It never returns. *)
Theorem display_vprint_a_crashes s t0 m0 t1 ap o m h :
  reading s (t0 ++ Mark m0 :: t1) → markers t0 = [] → heap_wf h →
  survivors (oracle h) (t0 ++ Mark m0 :: t1) = None →
  display_vprint_a (Some (cstr s)) ap o m h
  = render t0 (wstart ap o m)
    ≫= λ _, Undef (crash (l_shape (scan_ledger (oracle h) (t0 ++ Mark m0 :: t1)))).
Proof. intros Hrd Hm Hwf. by apply (display_vprint_a_crash s _ Hrd h Hwf t0 m0 t1). Qed.

(** With an allocator that does not fail, a call on the heap renders the
    driver's own reading of the string. *)
Corollary display_vprint_a_own_reading s ap o m h :
  no_nul s → heap_wf h → succeeds h →
  outcome_rel (same_call h)
    (r ← driver_reading s; render_reading r ap o m)
    (display_vprint_a (Some (cstr s)) ap o m h).
Proof.
  intros Hs Hwf Hok. rewrite <- display_vprint_relex by done.
  by apply display_vprint_a_sim.
Qed.

End Theorems.

(** The stream driver with failing allocations: when the array can be
    read, [display_vfprint] on the heap renders the driver's reading with the
    markers that survived, on the stream's view of the arguments, and leaves
    the heap with the blocks it had. *)
Theorem display_vfprint_a_survivors `{DisplayArgs} `{NativeFormat} file s t ap o m h ms :
  reading s t → heap_wf h → survivors (oracle h) t = Some ms →
  outcome_rel (λ r r', (r'.1.1, view file r'.1.2) = r ∧ blocks r'.2 = blocks h)
    (render_reading (relex (cstr s) ms (S (S (length s))) 0) (on_stream_args file ap) o m)
    (display_vfprint_a (Some file) (Some (cstr s)) ap o m h).
Proof.
  intros Hrd Hwf Hms.
  pose proof (display_vprint_a_relex s t Hrd h Hwf (on_stream_args file ap) o m ms Hms) as Hsim.
  rewrite display_vfprint_a_view in Hsim. apply outcome_rel_fmap_r in Hsim.
  eapply outcome_rel_impl; [exact Hsim|]. by intros r [[n st] h'] [<- Hb].
Qed.

(** ** The theorems at concrete strings *)

Lemma display_vfprint_a_survivors_witness :
  outcome_rel
    (λ r r', (r'.1.1, view 3%N r'.1.2) = r ∧ blocks r'.2 = blocks (heap_init [true; true; false]))
    (@render_reading strict demo_printf
       (relex (cstr (lit "%d{}%s")) [Marker [] [] None L_none "d"] 8 0)
       (on_stream_args 3%N [V_int T_int 5; V_display None]) [] ∅)
    (@display_vfprint_a strict demo_printf (Some 3%N) (Some (cstr (lit "%d{}%s")))
       [V_int T_int 5; V_display None] [] ∅ (heap_init [true; true; false])).
Proof.
  apply (display_vfprint_a_survivors 3%N (lit "%d{}%s")
           [Mark (Marker [] [] None L_none "d"); Braces; Mark (Marker [] [] None L_none "s")]);
    [split| |done].
  - by apply (bool_decide_unpack _).
  - done.
  - apply heap_init_wf.
Defined.


Lemma find_format_specifiers_a_reads_witness :
  outcome_rel
    (λ t r, ∃ n, ledger_inv (blocks (heap_init [false; true; false]))
                   (cells_ledger (oracle (heap_init [false; true; false])) t) n r.1 r.2)
    (parse (cstr (lit "%d%q%s")))
    (find_format_specifiers_a (cstr (lit "%d%q%s")) (heap_init [false; true; false])).
Proof.
  apply find_format_specifiers_a_reads; [by apply (bool_decide_unpack _)|apply heap_init_wf].
Defined.

(** [malloc] fails at the first of two markers: the argument is printed
    under the text of the second marker, where the first one stands, and the
    second marker is written as it is. *)
Lemma display_vprint_a_survivors_witness :
  outcome_rel (same_call (heap_init [false]))
    (@render_reading strict demo_printf
       (relex (cstr (lit "%d-%s")) [Marker [] [] None L_none "s"] 7 0)
       [V_str (Some (cstr (lit "ok")))] [] ∅)
    (@display_vprint_a strict demo_printf (Some (cstr (lit "%d-%s")))
       [V_str (Some (cstr (lit "ok")))] [] ∅ (heap_init [false])).
Proof.
  apply (display_vprint_a_survivors (lit "%d-%s")
           [Mark (Marker [] [] None L_none "d"); Lit "-"; Mark (Marker [] [] None L_none "s")]);
    [split| |done].
  - by apply (bool_decide_unpack _).
  - done.
  - apply heap_init_wf.
Defined.

(** [realloc] fails at the second marker: the text before the first marker
    is written and the driver reads [specs.data[0]] through null. *)
Lemma display_vprint_a_crashes_witness :
  @display_vprint_a strict demo_printf (Some (cstr (lit "a%d-%s")))
    [V_int T_int 5; V_str (Some (cstr (lit "ok")))] [] ∅ (heap_init [true; true; true; false])
  = @render strict demo_printf [Lit "a"] (wstart [V_int T_int 5; V_str (Some (cstr (lit "ok")))] [] ∅)
    ≫= λ _, Undef (crash (l_shape (scan_ledger (oracle (heap_init [true; true; true; false]))
                                     ([Lit "a"] ++ Mark (Marker [] [] None L_none "d")
                                        :: [Lit "-"; Mark (Marker [] [] None L_none "s")])))).
Proof.
  apply (display_vprint_a_crashes (lit "a%d-%s") [Lit "a"] (Marker [] [] None L_none "d")
           [Lit "-"; Mark (Marker [] [] None L_none "s")]); [split| | |done].
  - by apply (bool_decide_unpack _).
  - done.
  - done.
  - apply heap_init_wf.
Defined.

(** The ledgers of a scan of two markers: the first [malloc] fails; the
    second [realloc] fails; the first [realloc] fails and the second marker
    is stored; the only [realloc] fails. *)
Example scan_ledger_shapes :
  let t := [Mark (Marker [] [] None L_none "d"); Lit "-"; Mark (Marker [] [] None L_none "s")] in
  survivors [false] t = Some [Marker [] [] None L_none "s"]
  ∧ l_shape (scan_ledger [true; true; true; false] t) = Null
  ∧ l_shape (scan_ledger [true; false; true; true] t) = Holed
  ∧ survivors [true; false; false] t = Some [].
Proof. done. Qed.
