(* ===== verification/Api.v ===== *)
(** * The interface of the header

    display.h 68-110 declares the eight functions of the library, each with
    a line of contract: the function prints formatted text, to stdout or to
    the stream it is given, the [ln] variants add a newline, and the value
    returned is the number of elements printed, or -1 on failure.

    [DisplayApi] is that interface: the eight operations, with the types of
    the prototypes, and the laws a caller may rely on.  What "formatted
    text" is, is [Render.render] on the reading of the template; the failure
    a function reports is a null template or a null stream.  The functions
    of the implementation section of the header are an instance
    ([display_h]): the refinement theorems discharge the laws.  So are the
    same functions on a heap whose allocator does not fail
    ([display_h_heap]); with an allocator that fails they are not: a
    failed allocation is not reported, the marker is dropped
    ([AllocFail.display_vprint_a_survivors]).  The
    theorems of a caller are proved from the laws alone, and hold of every
    instance; [Objects] proves the usage example that way. *)

From Stdlib Require Import Ascii ZArith Lia.
From stdpp Require Import base tactics option list numbers strings gmap.
From S2P Require Import Prelude CString Types Scanner VaList Native Driver FDriver.
From S2P Require Import StreamView Heap Alloc.
From S2P Require Import Template Render ScannerRefine Parse Reading DriverRefine.

(** ** Definitions *)

(** The type of the four functions that print to stdout, and of the four
    that print to a stream: the template (null or a buffer), the arguments,
    the text already on the sink and the slots; the [int] returned and the
    state the call leaves. *)
Definition print_fn : Type :=
  option (list ascii) → va_list → list ascii → gmap loc Z → outcome (Z * vstate).
Definition fprint_fn : Type := option FILE → print_fn.

(** The value and the state in which a call that rendered the template [t]
    to the world [w] returns. *)
Definition rendered (t : list item) (w : world) : Z * vstate :=
  (Z.of_nat (w_fields w), final t w).

(** The same after the newline of the [ln] variants. *)
Definition rendered_line (t : list item) (w : world) : Z * vstate :=
  (Z.of_nat (w_fields w), putchar "010" (final t w)).

(** The [ln] variants (495-501, 671-677) over the function they call. *)
Definition with_line (f : print_fn) : print_fn := λ format ap o m,
  '(result, st) ← f format ap o m;
  if negb (result =? -1)%Z then Done (result, putchar "010" st)
  else Done (result, st).

Definition with_fline (f : fprint_fn) : fprint_fn := λ file format ap o m,
  '(result, st) ← f file format ap o m;
  if negb (result =? -1)%Z then Done (result, if file is Some fl then putc "010" fl st else st)
  else Done (result, st).

(** The two drivers run on the heap [h]: the value and the state of the
    call. *)
Definition heap_vprint `{ArgModel} `{NativeFormat} (h : heap) : print_fn :=
  λ format ap o m, fst <$> display_vprint_a format ap o m h.

Definition heap_vfprint `{ArgModel} `{NativeFormat} (h : heap) : fprint_fn :=
  λ file format ap o m, fst <$> display_vfprint_a file format ap o m h.

(** The declarations of display.h 68-110 and what they promise. *)
Class DisplayApi `{ArgModel} `{NativeFormat} : Type := {
  d_vprint : print_fn;                                         (* 70-72 *)
  d_vprintln : print_fn;                                       (* 74-76 *)
  d_print : print_fn;                                          (* 78-80 *)
  d_println : print_fn;                                        (* 82-84 *)
  d_vfprint : fprint_fn;                                       (* 90-92 *)
  d_vfprintln : fprint_fn;                                     (* 94-97 *)
  d_fprint : fprint_fn;                                        (* 99-101 *)
  d_fprintln : fprint_fn;                                      (* 103-106 *)
  (* "Prints formatted text": the template is rendered, item by item, and
     the value returned is the number of elements printed. *)
  d_renders s t ap o m :
    reading s t → clean t →
    d_vprint (Some (cstr s)) ap o m = rendered t <$> render t (wstart ap o m);
  (* "or -1 on failure": a null template, and nothing is written. *)
  d_null ap o m : d_vprint None ap o m ⇓ ((-1)%Z, vstart ap o m);
  (* No other call returns -1. *)
  d_counts buf ap o m r st :
    d_vprint (Some buf) ap o m ⇓ (r, st) → r = Z.of_nat (fields st);
  (* "followed by a newline", unless the call failed. *)
  d_line format ap o m :
    d_vprintln format ap o m
    = '(r, st) ← d_vprint format ap o m;
      Done (r, if format is Some _ then putchar "010" st else st);
  (* "to the specified file stream": each object renders with its stream
     function, where an object pointer is read as a [display_t*] only. *)
  d_stream file format ap o m :
    DisplayArgs →
    (λ '(n, st), (n, view file st)) <$> d_vfprint (Some file) format ap o m
    = d_vprint format (on_stream_args file ap) o m;
  d_stream_null format ap o m : d_vfprint None format ap o m ⇓ ((-1)%Z, vstart ap o m);
  d_stream_line file format ap o m :
    d_vfprintln file format ap o m
    = '(r, st) ← d_vfprint file format ap o m;
      Done (r, match file, format with Some f, Some _ => putc "010" f st | _, _ => st end);
  (* The variadic functions are the [v] functions on their arguments. *)
  d_variadic : d_print = d_vprint;
  d_variadic_line : d_println = d_vprintln;
  d_variadic_stream : d_fprint = d_vfprint;
  d_variadic_stream_line : d_fprintln = d_vfprintln;
}.

(** ** The header implements its interface *)

Section Implementation.
Context `{ArgModel} `{NativeFormat}.
Context (vp : print_fn) (vfp : fprint_fn).
Context (Hvp : ∀ format ap o m, vp format ap o m = display_vprint format ap o m).
Context (Hvfp : ∀ file format ap o m, vfp file format ap o m = display_vfprint file format ap o m).

Lemma with_line_newline format ap o m :
  with_line vp format ap o m
  = '(r, st) ← vp format ap o m;
    Done (r, if format is Some _ then putchar "010" st else st).
Proof using Hvp.
  unfold with_line. rewrite Hvp.
  destruct (display_vprint format ap o m) as [[r st]| |] eqn:E; [|done..].
  simpl. destruct format as [buf|].
  - apply display_vprint_result in E as [_ Hr]. by destruct (Z.eqb_spec r (-1)); [lia|].
  - by injection E as <- <-.
Qed.

Lemma with_fline_newline file format ap o m :
  with_fline vfp file format ap o m
  = '(r, st) ← vfp file format ap o m;
    Done (r, match file, format with Some f, Some _ => putc "010" f st | _, _ => st end).
Proof using Hvfp.
  unfold with_fline. rewrite Hvfp.
  destruct (display_vfprint file format ap o m) as [[r st]| |] eqn:E; [|done..]. simpl.
  destruct file as [f|], format as [buf|];
    try (rewrite display_vfprint_null in E by auto; injection E as <- <-; by simpl).
  apply display_vfprint_counts in E. by destruct (Z.eqb_spec r (-1)); [lia|].
Qed.

(** Functions that do what the two drivers do implement the interface,
    with the wrappers of the header. *)
#[refine] Definition api_of : DisplayApi := {|
  d_vprint := vp;
  d_vprintln := with_line vp;
  d_print := vp;
  d_println := with_line vp;
  d_vfprint := vfp;
  d_vfprintln := with_fline vfp;
  d_fprint := vfp;
  d_fprintln := with_fline vfp;
|}.
Proof.
  - intros s t ap o m Hrd Hcl. rewrite Hvp. by apply display_vprint_reading.
  - intros ap o m. by rewrite Hvp.
  - intros buf ap o m r st. rewrite Hvp. by intros [-> _]%display_vprint_result.
  - apply with_line_newline.
  - intros file format ap o m HD. rewrite Hvp, Hvfp. symmetry. apply display_vfprint_view.
  - intros format ap o m. rewrite Hvfp. by destruct format.
  - apply with_fline_newline.
  - done.
  - done.
  - done.
  - done.
Defined.

End Implementation.

(** The functions of the implementation section (350-695). *)
#[export] Instance display_h `{ArgModel} `{NativeFormat} : DisplayApi :=
  api_of display_vprint display_vfprint (λ _ _ _ _, eq_refl) (λ _ _ _ _ _, eq_refl).

(** Its [println] is the [println] of [DISPLAY_STRIP_PREFIX]. *)
Lemma d_println_header `{ArgModel} `{NativeFormat} : d_println = println.
Proof. reflexivity. Qed.

Section OnHeap.
Context `{ArgModel} `{NativeFormat}.
Context (h : heap) (Hwf : heap_wf h) (Hok : succeeds h).

Lemma heap_vprint_eq format ap o m : heap_vprint h format ap o m = display_vprint format ap o m.
Proof using Hwf Hok.
  apply (outcome_rel_eq fst (λ r, blocks r.2 = blocks h)). by apply display_vprint_a_sim.
Qed.

Lemma heap_vfprint_eq file format ap o m :
  heap_vfprint h file format ap o m = display_vfprint file format ap o m.
Proof using Hwf Hok.
  apply (outcome_rel_eq fst (λ r, blocks r.2 = blocks h)). by apply display_vfprint_a_sim.
Qed.

(** The functions on a heap whose allocator does not fail. *)
Definition display_h_heap : DisplayApi :=
  api_of (heap_vprint h) (heap_vfprint h) heap_vprint_eq heap_vfprint_eq.

End OnHeap.

(** ** What a caller has *)

Section Client.
Context `{DisplayApi}.

Lemma view_putc file c st : view file (putc c file st) = putchar c (view file st).
Proof. done. Qed.

(** A line: the template rendered, then the newline. *)
Lemma d_println_renders s t ap o m :
  reading s t → clean t →
  d_println (Some (cstr s)) ap o m = rendered_line t <$> render t (wstart ap o m).
Proof.
  intros Hrd Hcl. rewrite d_variadic_line, d_line, (d_renders s t) by done.
  by destruct (render t _).
Qed.

(** A line on a stream: the template rendered on the stream's view of the
    arguments, then the newline. *)
Lemma d_fprintln_renders file s t ap o m :
  DisplayArgs → reading s t → clean t →
  (λ '(n, st), (n, view file st)) <$> d_fprintln (Some file) (Some (cstr s)) ap o m
  = rendered_line t <$> render t (wstart (on_stream_args file ap) o m).
Proof.
  intros HD Hrd Hcl. rewrite d_variadic_stream_line, d_stream_line.
  pose proof (d_renders s t (on_stream_args file ap) o m Hrd Hcl) as Hr.
  rewrite <- d_stream in Hr by done.
  destruct (d_vfprint _ _ _ _ _) as [[n st]| |], (render t _) as [w| |]; try done.
  apply (Done_inj (n, view file st) (rendered t w)), pair_equal_spec in Hr as [-> Hv].
  change (Done (Z.of_nat (w_fields w), view file (putc "010" file st)) = Done (rendered_line t w)).
  by rewrite view_putc, Hv.
Qed.

(** A call returns -1 for a null template only. *)
Lemma d_print_fails format ap o m st :
  d_print format ap o m ⇓ ((-1)%Z, st) → format = None.
Proof.
  rewrite d_variadic. destruct format as [buf|]; [|done]. intros Hr%d_counts. lia.
Qed.

End Client.

(** ** The theorems *)

(** With every implementation of the interface, [println] on a C string in
    whose reading the scanner drops nothing renders the reading item by
    item, writes one newline after it and returns the number of fields
    rendered; it has the undefined behaviour of the rendering when there is
    one. *)
Theorem println_renders `{DisplayApi} s t ap o m :
  reading s t → clean t →
  d_println (Some (cstr s)) ap o m = rendered_line t <$> render t (wstart ap o m).
Proof. apply d_println_renders. Qed.

(** The same on a stream, on the stream's view of the arguments. *)
Theorem fprintln_renders `{DisplayApi} file s t ap o m :
  DisplayArgs → reading s t → clean t →
  (λ '(n, st), (n, view file st)) <$> d_fprintln (Some file) (Some (cstr s)) ap o m
  = rendered_line t <$> render t (wstart (on_stream_args file ap) o m).
Proof. apply d_fprintln_renders. Qed.

(** ** The theorems at concrete calls *)

(** A line printed by the functions on a heap whose allocator does not
    fail. *)
Lemma println_renders_witness :
  @d_println strict demo_printf
    (display_h_heap (heap_init []) (heap_init_wf []) (Forall_nil_2 _))
    (Some (cstr (lit "x=%d"))) [V_int T_int 5] [] ∅
  = rendered_line [Lit "x"; Lit "="; Mark (Marker [] [] None L_none "d")]
    <$> @render strict demo_printf [Lit "x"; Lit "="; Mark (Marker [] [] None L_none "d")]
          (wstart [V_int T_int 5] [] ∅).
Proof.
  apply println_renders; [split; [by apply (bool_decide_unpack _)|done]|].
  by apply (bool_decide_unpack _).
Defined.

Lemma fprintln_renders_witness :
  (λ '(n, st), (n, view 3%N st))
  <$> @d_fprintln strict demo_printf display_h (Some 3%N) (Some (cstr (lit "{}!")))
        [V_display None] [] ∅
  = rendered_line [Braces; Lit "!"]
    <$> @render strict demo_printf [Braces; Lit "!"]
          (wstart (on_stream_args 3%N [V_display None]) [] ∅).
Proof.
  apply fprintln_renders;
    [apply strict_display|split; [by apply (bool_decide_unpack _)|done]|].
  by apply (bool_decide_unpack _).
Defined.
