(* ===== verification/Interleave.v ===== *)
(** * Calls that run at the same time

    The header keeps no state between calls: the array of a call is local
    to it, and all that two calls share is the allocator.  This file runs
    two calls of [display_vprint] on one heap, step by step in any order: a
    step is one iteration of the scanner's loop, one iteration of the
    driver's loop, or the release of the array, and a schedule picks the
    call that takes the next step.

    [call_step] is [Alloc.display_vprint_a] cut into these steps
    ([call_alone_run]).  With an allocator that does not fail, every schedule
    gives each call the value and the state it has when it runs alone, an
    undefined behaviour only where the call alone has it, and leaves the
    heap with the blocks it had: the addresses the calls get depend on the
    schedule, what they print does not.

    Each call writes to a sink of its own here; [Sink] has the two calls
    on one stdout. *)

From Stdlib Require Import Ascii ZArith Lia.
From stdpp Require Import base tactics option list numbers strings relations gmap.
From S2P Require Import Prelude CString Types Scanner VaList Native Driver FDriver.
From S2P Require Import StreamView Heap Alloc.

(** ** Definitions *)

(** A call of [display_vprint]: the template, the arguments, the text on the
    sink of the call and the slots. *)
Record request : Type := Request {
  q_format : list ascii;
  q_args : va_list;
  q_out : list ascii;
  q_mem : gmap loc Z;
}.

(** The locals of [find_format_specifiers] (177-179, 329). *)
Record scan_locals : Type := Locals {
  k_p : nat;
  k_count : nat;
  k_data : ptr;
  k_specs_count : nat;
}.

Definition enter (k : scan_locals) (h : heap) : astate :=
  AState (k_p k) (k_count k) (k_data k) (k_specs_count k) h.

Definition locals (a : astate) : scan_locals :=
  Locals (a_p a) (a_count a) (a_data a) (a_specs_count a).

(** Where a call is: in the loop of the scanner, in the loop of the driver,
    before the release of the array, or back in its caller. *)
Inductive phase : Type :=
| Scanning (k : scan_locals)
| Driving (r : aspecs) (st : vstate)
| Releasing (r : aspecs) (st : vstate)
| Returned (n : Z) (st : vstate).

Definition start : phase := Scanning (Locals 0 0 None 0).

Definition running (ph : phase) : Prop := if ph is Returned _ _ then False else True.

#[export] Instance running_dec ph : Decision (running ph) :=
  match ph with
  | Returned _ _ => right (λ x, x)
  | _ => left I
  end.

Section Machine.
Context `{ArgModel} `{NativeFormat}.

(** One step of a call on the heap [h]: an iteration of [while ( *p)] of the
    scanner (181-345), an iteration of that of the driver (359-488), or the
    call of [format_specs_array_t_free] (490) and the return. *)
Definition call_step (q : request) (ph : phase) (h : heap) : outcome (phase * heap) :=
  match ph with
  | Scanning k =>
      r ← scan_iter_a (q_format q) (enter k h);
      match r with
      | inl a => Done (Scanning (locals a), a_heap a)
      | inr (specs, h') => Done (Driving specs (vstart (q_args q) (q_out q) (q_mem q)), h')
      end
  | Driving r st =>
      x ← vprint_iter_a (q_format q) r h st;
      match x with
      | inl st' => Done (Driving r st', h)
      | inr st' => Done (Releasing r st', h)
      end
  | Releasing r st =>
      h' ← format_specs_array_t_free r h;
      Done (Returned (Z.of_nat (fields st)) st, h')
  | Returned n st => Done (ph, h)
  end.

(** A call that runs alone. *)
Definition alone (q : request) (x y : phase * heap) : Prop :=
  running x.1 ∧ call_step q x.1 x.2 ⇓ y.

(** Two calls and the heap they share. *)
Record system : Type := System {
  left : phase;
  right : phase;
  shared : heap;
}.

(** A step of the system is a step of one of the calls. *)
Inductive sys_step (q1 q2 : request) : system → system → Prop :=
| step_left s ph h :
    running (left s) → call_step q1 (left s) (shared s) ⇓ (ph, h) →
    sys_step q1 q2 s (System ph (right s) h)
| step_right s ph h :
    running (right s) → call_step q2 (right s) (shared s) ⇓ (ph, h) →
    sys_step q1 q2 s (System (left s) ph h).

(** The system under a schedule: [true] lets the left call step, [false]
    the right one; a call that has returned stays where it is. *)
Fixpoint schedule (q1 q2 : request) (sched : list bool) (s : system) : outcome system :=
  match sched with
  | [] => Done s
  | b :: sched =>
      '(ph, h) ← (if b then call_step q1 (left s) else call_step q2 (right s)) (shared s);
      schedule q1 q2 sched (if b then System ph (right s) h else System (left s) ph h)
  end.

End Machine.

(** The blocks a call owns: the array and the strings of its cells. *)
Definition holds (es : list format_spec_t) (ls : list loc) (data : ptr)
    (own : gmap loc block) : Prop :=
  length ls = length es ∧ NoDup ls
  ∧ match data with
    | None => es = [] ∧ own = ∅
    | Some d => es ≠ [] ∧ (d ∉ ls) ∧ own = <[d := Cells (cells_of ls es)]> (sub_map ls es)
    end.

Section Invariant.
Context `{ArgModel} `{NativeFormat}.

(** What a call has done so far, against the call on values: the scanner
    and the driver on values have come as far, and the blocks [own] are the
    array as it stands. *)
Definition call_inv (q : request) (ph : phase) (own : gmap loc block) : Prop :=
  match ph with
  | Scanning k =>
      ∃ st ls, rtc (scan_step (q_format q)) (ScanState 0 specs_empty) st
        ∧ k_p k = scan_p st ∧ k_count k = k_specs_count k
        ∧ k_specs_count k = length (data (scan_specs st))
        ∧ holds (data (scan_specs st)) ls (k_data k) own
  | Driving r st =>
      ∃ specs ls, find_format_specifiers (q_format q) ⇓ specs
        ∧ rtc (loop_step (vprint_iter (q_format q) specs))
            (vstart (q_args q) (q_out q) (q_mem q)) st
        ∧ as_count r = length (data specs) ∧ holds (data specs) ls (as_data r) own
  | Releasing r st =>
      ∃ specs ls, find_format_specifiers (q_format q) ⇓ specs
        ∧ loop (vprint_iter (q_format q) specs) (vprint_fuel (q_format q))
            (vstart (q_args q) (q_out q) (q_mem q)) ⇓ st
        ∧ as_count r = length (data specs) ∧ holds (data specs) ls (as_data r) own
  | Returned n st =>
      display_vprint (Some (q_format q)) (q_args q) (q_out q) (q_mem q) ⇓ (n, st) ∧ own = ∅
  end.

(** The steps a call has left, at most: the characters the loop it is in
    has not walked, and what comes after the loop. *)
Definition remaining (q : request) (ph : phase) : nat :=
  match ph with
  | Scanning k => length (q_format q) - k_p k + length (q_format q) + 4
  | Driving _ st => S (length (q_format q)) - vp st + 2
  | Releasing _ _ => 1
  | Returned _ _ => 0
  end.

(** The heap [h] is made of the blocks [own] of a call and the blocks
    [F] of everybody else; the allocator does not fail. *)
Definition framed (F own : gmap loc block) (h : heap) : Prop :=
  heap_wf h ∧ oracle h = [] ∧ own ##ₘ F ∧ blocks h = own ∪ F.

(** What a step of a call in the phase [ph] may do, next to the blocks [F]:
    go on, with [F] as it was and fewer steps left, or stop with an
    undefined behaviour the call on values has too. *)
Definition step_ok (q : request) (F : gmap loc block) (ph : phase)
    (r : outcome (phase * heap)) : Prop :=
  match r with
  | Done (ph', h') =>
      remaining q ph' ≤ pred (remaining q ph)
      ∧ ∃ own', framed F own' h' ∧ call_inv q ph' own'
  | Undef u => display_vprint (Some (q_format q)) (q_args q) (q_out q) (q_mem q) ↯ u
  | OutOfFuel => False
  end.

(** The heap of the system is made of the blocks of the two calls and the
    blocks [base] it had. *)
Definition sys_inv (base : gmap loc block) (q1 q2 : request) (s : system) : Prop :=
  ∃ own1 own2,
    own2 ##ₘ base ∧ framed (own2 ∪ base) own1 (shared s)
    ∧ call_inv q1 (left s) own1 ∧ call_inv q2 (right s) own2.

(** The steps a schedule gives to the call [b]. *)
Definition turns (b : bool) (sched : list bool) : nat :=
  length (filter (λ x, x = b) sched).

(** The steps the two calls have left. *)
Definition budget (q1 q2 : request) (s : system) : nat :=
  remaining q1 (left s) + remaining q2 (right s).

End Invariant.

(** ** Calls to look at *)

(** Two calls with a marker each. *)
Definition left_call : request := Request (cstr (lit "%d;")) [V_int T_int 5] [] ∅.

Definition right_call : request :=
  Request (cstr (lit "<%s>")) [V_str (Some (cstr (lit "ok")))] [] ∅.

(** The two calls after the schedule [sched], from a heap with nothing on
    it. *)
Definition after (sched : list bool) : system :=
  let s := System start start (heap_init []) in
  match @schedule strict demo_printf left_call right_call sched s with
  | Done s' => s'
  | _ => s
  end.

(** What a call shows once it has returned: its value and its text. *)
Definition shown (ph : phase) : option (Z * list ascii) :=
  if ph is Returned n st then Some (n, out st) else None.

(** The left call first, the right call first, and a turn each. *)
Definition left_first : list bool := replicate 12 true ++ replicate 14 false.
Definition right_first : list bool := replicate 14 false ++ replicate 12 true.
Definition in_turn : list bool := mjoin (replicate 14 [true; false]).

(** ** The machine is the function *)

Lemma enter_locals a : enter (locals a) (a_heap a) = a.
Proof. by destruct a. Qed.

Section Alone.
Context `{ArgModel} `{NativeFormat}.
Context (q : request).

Lemma alone_scan a a' :
  rtc (loop_step (scan_iter_a (q_format q))) a a' →
  rtc (alone q) (Scanning (locals a), a_heap a) (Scanning (locals a'), a_heap a').
Proof.
  induction 1 as [a|a a1 a2 Hstep _ IH]; [done|]. eapply rtc_l; [|exact IH].
  split; [done|]. unfold loop_step in Hstep. simpl. by rewrite enter_locals, Hstep.
Qed.

Lemma alone_drive r h st st' :
  rtc (loop_step (vprint_iter_a (q_format q) r h)) st st' →
  rtc (alone q) (Driving r st, h) (Driving r st', h).
Proof.
  induction 1 as [st|st st1 st2 Hstep _ IH]; [done|]. eapply rtc_l; [|exact IH].
  split; [done|]. unfold loop_step in Hstep. simpl. by rewrite Hstep.
Qed.

(** Every result of [display_vprint_a] is a run of the machine. *)
Lemma call_alone_run h n st h' :
  display_vprint_a (Some (q_format q)) (q_args q) (q_out q) (q_mem q) h ⇓ (n, st, h') →
  rtc (alone q) (start, h) (Returned n st, h').
Proof.
  unfold display_vprint_a. intros ([r h1] & Hscan & Hrest)%bind_Done.
  apply bind_Done in Hrest as (st' & Hloop & (h2 & Hfree & [= <- <- <-])%bind_Done).
  apply loop_Done_rtc in Hscan as (a & Hrun & Hexit).
  apply loop_Done_rtc in Hloop as (st1 & Hrun' & Hexit').
  etrans; [exact (alone_scan _ _ Hrun)|].
  eapply rtc_l; [split; [done|]; simpl; by rewrite enter_locals, Hexit|].
  etrans; [exact (alone_drive _ _ _ _ Hrun')|].
  eapply rtc_l; [split; [done|]; simpl; by rewrite Hexit'|].
  apply rtc_once. split; [done|]. simpl. by rewrite Hfree.
Qed.

End Alone.

(** ** The blocks of a call and the blocks of the others *)

Lemma allocs_nil {A} (xs : list A) : allocs [] xs = Ledger Sound xs [].
Proof. induction xs as [|x xs IH] using rev_ind; [done|]. by rewrite allocs_snoc, IH. Qed.

Lemma sub_map_disjoint ls es F :
  length ls = length es → sub_map ls es ##ₘ F ↔ Forall (λ l, F !! l = None) ls.
Proof.
  intros Hlen. rewrite map_disjoint_alt, Forall_forall. split.
  - intros Hd l Hl. destruct (Hd l) as [E|]; [|done].
    apply not_elem_of_list_to_map in E. by rewrite fst_zip in E by (rewrite length_fmap; lia).
  - intros Hf l. destruct (decide (l ∈ ls)); [right; auto|left; by apply sub_map_None].
Qed.

(** The array is represented next to [F] when the heap is the blocks of
    the array and [F]. *)
Lemma represents_frame F es ls data h :
  represents F es ls data h ↔
  heap_wf h ∧ ∃ own, holds es ls data own ∧ own ##ₘ F ∧ blocks h = own ∪ F.
Proof.
  unfold represents, holds. split.
  - intros (Hwf & Hlen & Hnd & Hfr & Hd). split; [done|]. destruct data as [d|].
    + destruct Hd as (Hne & Hdls & HdF & E). eexists. split; [done|].
      rewrite E, insert_union_l. split; [|done].
      by apply map_disjoint_insert_l_2, sub_map_disjoint.
    + destruct Hd as [-> ->]. exists ∅. rewrite (left_id_L ∅ (∪)).
      split_and!; try done. apply map_disjoint_empty_l.
  - intros (Hwf & own & (Hlen & Hnd & Hd) & Hdisj & E). destruct data as [d|].
    + destruct Hd as (Hne & Hdls & ->). apply map_disjoint_insert_l in Hdisj as [HdF Hsub].
      rewrite <- insert_union_l in E. by rewrite <- sub_map_disjoint.
    + destruct Hd as [-> ->]. rewrite (left_id_L ∅ (∪)) in E.
      destruct ls; [|done]. split_and!; try done.
Qed.

Lemma ledger_inv_nil F xs count r h :
  ledger_inv F (allocs [] xs) count r h ↔
  count = as_count r ∧ as_count r = length xs
  ∧ ∃ ls own, holds xs ls (as_data r) own ∧ framed F own h.
Proof.
  rewrite allocs_nil. unfold ledger_inv, framed. simpl. setoid_rewrite represents_frame.
  naive_solver.
Qed.

(** The two calls see the heap the same way. *)
Lemma framed_swap base own1 own2 h :
  own2 ##ₘ base → framed (own2 ∪ base) own1 h →
  own1 ##ₘ base ∧ framed (own1 ∪ base) own2 h.
Proof.
  intros Hb (Hwf & Ho & [H12 H1b]%map_disjoint_union_r & E). split; [done|].
  split_and!; [done..|by apply map_disjoint_union_r|].
  by rewrite E, !(assoc_L (∪)), (map_union_comm own1 own2).
Qed.

(** ** One step of a call, next to the blocks of the others *)

Section Steps.
Context `{ArgModel} `{NativeFormat}.
Context (q : request) (F : gmap loc block).

#[local] Abbreviation buf := (q_format q).
#[local] Abbreviation on_values := (display_vprint (Some buf) (q_args q) (q_out q) (q_mem q)).

Lemma scanning_rel k own h st ls :
  framed F own h → k_p k = scan_p st → k_count k = k_specs_count k →
  k_specs_count k = length (data (scan_specs st)) →
  holds (data (scan_specs st)) ls (k_data k) own →
  scan_rel F [] st (enter k h).
Proof. intros. split; [done|]. apply ledger_inv_nil. simpl. eauto 10. Qed.

Lemma scan_undef_on_values st u :
  rtc (scan_step buf) (ScanState 0 specs_empty) st → scan_iter buf st ↯ u → on_values ↯ u.
Proof.
  intros Hrun Hu. unfold display_vprint.
  by rewrite (find_format_specifiers_undef _ _ _ Hrun Hu).
Qed.

Lemma step_scanning k own h :
  framed F own h → call_inv q (Scanning k) own →
  step_ok q F (Scanning k) (call_step q (Scanning k) h).
Proof.
  intros Hfr (st & ls & Hrun & Hp & Hc & Hn & Hown).
  pose proof (scan_iter_sim F [] buf st _ (scanning_rel k own h st ls Hfr Hp Hc Hn Hown)) as Hsim.
  unfold call_step. destruct (scan_iter buf st) as [[st'|specs]| |] eqn:Hit; simpl in Hsim.
  - destruct Hsim as ([a|] & -> & Hrel); [|done]. destruct Hrel as [Hp' Hinv]. simpl.
    apply ledger_inv_nil in Hinv as (Hc' & Hn' & ls' & own' & Hown' & Hfr').
    pose proof (scan_iter_advances _ _ _ Hit). split; [rewrite Hp', Hp; lia|].
    exists own'. split; [done|]. exists st', ls'. split_and!; try done. by eapply rtc_r.
  - destruct Hsim as ([|[r h']] & -> & Hrel); [done|]. destruct Hrel as [count Hinv]. simpl.
    apply ledger_inv_nil in Hinv as (_ & Hn' & ls' & own' & Hown' & Hfr').
    split; [lia|]. exists own'. split; [done|]. exists specs, ls'.
    split_and!; try done. by apply (find_format_specifiers_exit _ st).
  - rewrite Hsim. by apply (scan_undef_on_values st).
  - by apply scan_iter_terminates in Hit.
Qed.

(** In the loop of the driver the array is read and not written: the
    iteration on the heap is the iteration on the cells. *)
Lemma driving_eq r own h specs ls st :
  framed F own h → find_format_specifiers buf ⇓ specs →
  as_count r = length (data specs) → holds (data specs) ls (as_data r) own →
  vprint_iter_a buf r h st = vprint_iter buf specs st.
Proof.
  intros (Hwf & _ & Hdisj & E) Hwfs%find_format_specifiers_wf Hn Hown.
  destruct r as [d n]. simpl in *. rewrite Hn, <- Hwfs.
  apply (vprint_iter_a_eq F _ _ ls); [|done]. apply represents_frame. eauto.
Qed.

Lemma drive_terminates specs :
  find_format_specifiers buf ⇓ specs →
  terminates (loop (vprint_iter buf specs) (vprint_fuel buf) (vstart (q_args q) (q_out q) (q_mem q))).
Proof.
  intros Hs%find_format_specifiers_nonempty. apply vprint_loop_terminates; [done|].
  unfold vprint_fuel. simpl. lia.
Qed.

Lemma step_driving r st own h :
  framed F own h → call_inv q (Driving r st) own →
  step_ok q F (Driving r st) (call_step q (Driving r st) h).
Proof.
  intros Hfr (specs & ls & Hs & Hrun & Hn & Hown). unfold call_step.
  rewrite (driving_eq r own h specs ls st Hfr Hs Hn Hown).
  destruct (vprint_iter buf specs st) as [[st'|st']| |] eqn:Hit; cbn [mbind outcome_bind step_ok].
  - apply vprint_iter_step in Hit as Hlt; [|by apply (find_format_specifiers_nonempty buf)].
    split; [simpl; lia|]. exists own. split; [done|]. exists specs, ls.
    split_and!; try done. by eapply rtc_r.
  - split; [simpl; lia|]. exists own. split; [done|]. exists specs, ls. split_and!; try done.
    by eapply loop_rtc_exit; [..|apply drive_terminates].
  - unfold display_vprint. rewrite Hs, bind_Done_l.
    by rewrite (loop_rtc_undef _ _ _ _ _ Hrun Hit (drive_terminates specs Hs)).
  - by apply vprint_iter_terminates in Hit.
Qed.

(** The release gives back every block of the call. *)
Lemma step_releasing r st own h :
  framed F own h → call_inv q (Releasing r st) own →
  step_ok q F (Releasing r st) (call_step q (Releasing r st) h).
Proof.
  intros (Hwf & Ho & Hdisj & E) (specs & ls & Hs & Hloop & Hn & Hown). unfold call_step.
  destruct r as [d n]. simpl in *. subst n.
  rewrite (represents_free_eq F (data specs) ls d h) by (apply represents_frame; eauto).
  simpl. split; [lia|]. exists ∅. split.
  - split_and!; simpl; [|done|apply map_disjoint_empty_l|by rewrite (left_id_L ∅ (∪))].
    intros l [b Hl]. apply Hwf. rewrite E. exists b. by apply lookup_union_Some_r.
  - split; [|done]. unfold display_vprint. by rewrite Hs, bind_Done_l, Hloop.
Qed.

(** Every step of a call keeps the blocks of the others, and the call in
    step with the call on values. *)
Lemma call_step_ok ph own h :
  framed F own h → call_inv q ph own → step_ok q F ph (call_step q ph h).
Proof.
  destruct ph as [k|r st|r st|n st]; intros Hfr Hinv;
    [by eapply step_scanning|by eapply step_driving|by eapply step_releasing|].
  simpl. split; [done|]. by exists own.
Qed.

End Steps.

(** ** The two calls together *)

Lemma running_remaining q ph : running ph ↔ 0 < remaining q ph.
Proof. destruct ph; simpl; lia. Qed.

Section System.
Context `{ArgModel} `{NativeFormat}.
Context (q1 q2 : request) (base : gmap loc block).

#[local] Abbreviation on_values q := (display_vprint (Some (q_format q)) (q_args q) (q_out q) (q_mem q)).

Lemma call_inv_start q : call_inv q start ∅.
Proof.
  exists (ScanState 0 specs_empty), []. split_and!; try done. split_and!; try done. constructor.
Qed.

Lemma sys_inv_start h :
  heap_wf h → oracle h = [] → blocks h = base → sys_inv base q1 q2 (System start start h).
Proof.
  intros Hwf Ho <-. exists ∅, ∅. rewrite !(left_id_L ∅ (∪)).
  split_and!; try apply call_inv_start; try apply map_disjoint_empty_l.
  split_and!; [done..|apply map_disjoint_empty_l|by rewrite (left_id_L ∅ (∪))].
Qed.

(** What a step of the left call, and of the right one, does to the
    system. *)
Lemma sys_inv_left s :
  sys_inv base q1 q2 s →
  match call_step q1 (left s) (shared s) with
  | Done (ph, h) =>
      remaining q1 ph ≤ pred (remaining q1 (left s)) ∧ sys_inv base q1 q2 (System ph (right s) h)
  | Undef u => on_values q1 ↯ u
  | OutOfFuel => False
  end.
Proof.
  intros (own1 & own2 & Hb & Hfr & H1 & H2).
  pose proof (call_step_ok q1 _ _ _ _ Hfr H1) as Hok.
  destruct (call_step q1 _ _) as [[ph h]| |]; [|done..].
  destruct Hok as (Hlt & own' & Hfr' & H1'). split; [done|]. by exists own', own2.
Qed.

Lemma sys_inv_right s :
  sys_inv base q1 q2 s →
  match call_step q2 (right s) (shared s) with
  | Done (ph, h) =>
      remaining q2 ph ≤ pred (remaining q2 (right s)) ∧ sys_inv base q1 q2 (System (left s) ph h)
  | Undef u => on_values q2 ↯ u
  | OutOfFuel => False
  end.
Proof.
  intros (own1 & own2 & Hb & Hfr & H1 & H2).
  destruct (framed_swap _ _ _ _ Hb Hfr) as [Hb1 Hfr2].
  pose proof (call_step_ok q2 _ _ _ _ Hfr2 H2) as Hok.
  destruct (call_step q2 _ _) as [[ph h]| |]; [|done..].
  destruct Hok as (Hlt & own' & Hfr' & H2'). split; [done|].
  destruct (framed_swap _ _ _ _ Hb1 Hfr') as [Hb' Hfr1]. by exists own1, own'.
Qed.

(** Every step keeps the invariant and uses up the budget. *)
Lemma sys_step_inv s s' :
  sys_inv base q1 q2 s → sys_step q1 q2 s s' →
  sys_inv base q1 q2 s' ∧ budget q1 q2 s' < budget q1 q2 s.
Proof.
  intros Hinv Hstep. revert Hinv.
  destruct Hstep as [s ph h Hrun%(running_remaining q1) Hstep
                    |s ph h Hrun%(running_remaining q2) Hstep]; intros Hinv.
  - pose proof (sys_inv_left _ Hinv) as Hok. rewrite Hstep in Hok.
    split; [easy|]. unfold budget. simpl. lia.
  - pose proof (sys_inv_right _ Hinv) as Hok. rewrite Hstep in Hok.
    split; [easy|]. unfold budget. simpl. lia.
Qed.

Lemma sys_run_inv n s s' :
  sys_inv base q1 q2 s → nsteps (sys_step q1 q2) n s s' →
  sys_inv base q1 q2 s' ∧ n + budget q1 q2 s' ≤ budget q1 q2 s.
Proof.
  intros Hinv Hrun. induction Hrun as [s|n s s1 s2 Hstep _ IH]; [split; [done|lia]|].
  destruct (sys_step_inv _ _ Hinv Hstep) as [Hinv1 Hlt], (IH Hinv1). split; [done|lia].
Qed.

(** What the invariant says of the calls that have returned. *)
Lemma sys_inv_returned s :
  sys_inv base q1 q2 s →
  (∀ n st, left s = Returned n st → on_values q1 ⇓ (n, st))
  ∧ (∀ n st, right s = Returned n st → on_values q2 ⇓ (n, st))
  ∧ (¬ running (left s) → ¬ running (right s) → blocks (shared s) = base).
Proof.
  intros (own1 & own2 & _ & (_ & _ & _ & E) & H1 & H2). split_and!.
  - intros n st E1. rewrite E1 in H1. by destruct H1.
  - intros n st E2. rewrite E2 in H2. by destruct H2.
  - destruct (left s), (right s); simpl; try done. intros _ _.
    destruct H1 as [_ ->], H2 as [_ ->]. by rewrite E, !(left_id_L ∅ (∪)).
Qed.

End System.

(** ** Schedules *)

Lemma turns_cons b x sched :
  turns b (x :: sched) = (if decide (x = b) then 1 else 0) + turns b sched.
Proof. unfold turns. rewrite filter_cons. by case_decide. Qed.

Section Schedules.
Context `{ArgModel} `{NativeFormat}.
Context (q1 q2 : request).

#[local] Abbreviation on_values q := (display_vprint (Some (q_format q)) (q_args q) (q_out q) (q_mem q)).

(** A schedule is a run of the system: a turn given to a call that has
    returned is no step. *)
Lemma schedule_run sched : ∀ s s',
  schedule q1 q2 sched s ⇓ s' → rtc (sys_step q1 q2) s s'.
Proof.
  induction sched as [|b sched IH]; intros [l r h] s' Hs; simpl in Hs; [by simplify_eq|].
  apply bind_Done in Hs as ([ph h'] & Hstep & Hrest). apply IH in Hrest.
  destruct b; [destruct (decide (running l))|destruct (decide (running r))];
    try (eapply rtc_l; [|done]; by constructor).
  - destruct l; simpl in *; try done. by simplify_eq.
  - destruct r; simpl in *; try done. by simplify_eq.
Qed.

(** Calls that are defined on values are never stopped by a schedule, and
    every turn a call gets is one step less for it. *)
Lemma schedule_fair base sched : ∀ s,
  sys_inv base q1 q2 s → safe (on_values q1) → safe (on_values q2) →
  ∃ s', schedule q1 q2 sched s ⇓ s' ∧ sys_inv base q1 q2 s'
    ∧ remaining q1 (left s') ≤ remaining q1 (left s) - turns true sched
    ∧ remaining q2 (right s') ≤ remaining q2 (right s) - turns false sched.
Proof.
  induction sched as [|b sched IH]; intros s Hinv [r1 Hr1] [r2 Hr2].
  { exists s. unfold turns. simpl. split_and!; [done..|lia|lia]. }
  rewrite !turns_cons. simpl.
  pose proof (sys_inv_left _ _ _ _ Hinv) as Hl. pose proof (sys_inv_right _ _ _ _ Hinv) as Hr.
  destruct b.
  - destruct (call_step q1 _ _) as [[ph h]| |]; [|congruence|done]. destruct Hl as [Hlt Hinv'].
    destruct (IH _ Hinv') as (s' & Hs & ? & ? & ?); [by eexists..|].
    exists s'. simpl in *. split_and!; [done..|lia|lia].
  - destruct (call_step q2 _ _) as [[ph h]| |]; [|congruence|done]. destruct Hr as [Hlt Hinv'].
    destruct (IH _ Hinv') as (s' & Hs & ? & ? & ?); [by eexists..|].
    exists s'. simpl in *. split_and!; [done..|lia|lia].
Qed.

Lemma returned_remaining q ph : remaining q ph = 0 → ∃ n st, ph = Returned n st.
Proof. destruct ph; simpl; try lia. eauto. Qed.

(** What is true of every state the two calls reach. *)
Lemma reachable_inv h s :
  heap_wf h → oracle h = [] → rtc (sys_step q1 q2) (System start start h) s →
  sys_inv (blocks h) q1 q2 s.
Proof.
  intros Hwf Ho (n & Hrun)%rtc_nsteps.
  by apply (sys_run_inv q1 q2 (blocks h) n (System start start h)); [apply sys_inv_start|].
Qed.

End Schedules.

(** ** Theorems *)

Section Theorems.
Context `{ArgModel} `{NativeFormat}.
Context (q1 q2 : request).

#[local] Abbreviation on_values q := (display_vprint (Some (q_format q)) (q_args q) (q_out q) (q_mem q)).

(** C10. With an allocator that does not fail, in every state two calls
    reach together a call that has returned has the value and the state it
    has alone, and when both have returned the heap has the blocks it
    had. *)
Theorem interleaved_results h s :
  heap_wf h → oracle h = [] → rtc (sys_step q1 q2) (System start start h) s →
  (∀ n st, left s = Returned n st → on_values q1 ⇓ (n, st))
  ∧ (∀ n st, right s = Returned n st → on_values q2 ⇓ (n, st))
  ∧ (¬ running (left s) → ¬ running (right s) → blocks (shared s) = blocks h).
Proof. intros Hwf Ho Hrun. by apply sys_inv_returned, reachable_inv. Qed.

(** C32. With an allocator that does not fail, a step that is undefined
    next to the other call is undefined in the call alone, with the same
    behaviour; no step runs out of fuel. *)
Theorem interleaved_faults h s :
  heap_wf h → oracle h = [] → rtc (sys_step q1 q2) (System start start h) s →
  (∀ u, call_step q1 (left s) (shared s) ↯ u → on_values q1 ↯ u)
  ∧ (∀ u, call_step q2 (right s) (shared s) ↯ u → on_values q2 ↯ u)
  ∧ terminates (call_step q1 (left s) (shared s))
  ∧ terminates (call_step q2 (right s) (shared s)).
Proof.
  intros Hwf Ho Hinv%reachable_inv; [|done..].
  pose proof (sys_inv_left _ _ _ _ Hinv) as Hl. pose proof (sys_inv_right _ _ _ _ Hinv) as Hr.
  unfold terminates.
  destruct (call_step q1 _ _) as [[]| |], (call_step q2 _ _) as [[]| |];
    try done; split_and!; try done; by intros ? [= <-].
Qed.

(** C30. With an allocator that does not fail, two calls together take no more
    steps than twice the characters of their templates, and eight, in
    whatever order they take them: every iteration of either loop moves its
    call on. *)
Theorem interleaved_bound h n s :
  heap_wf h → oracle h = [] → nsteps (sys_step q1 q2) n (System start start h) s →
  n ≤ 2 * length (q_format q1) + 2 * length (q_format q2) + 8.
Proof.
  intros Hwf Ho Hrun.
  destruct (sys_run_inv q1 q2 (blocks h) n _ s (sys_inv_start _ _ _ h Hwf Ho eq_refl) Hrun)
    as [_ Hn].
  unfold budget in Hn. simpl in Hn. lia.
Qed.

(** What a schedule with enough turns leaves. *)
Lemma fair_schedule_run h sched r1 r2 :
  heap_wf h → oracle h = [] → on_values q1 ⇓ r1 → on_values q2 ⇓ r2 →
  remaining q1 start ≤ turns true sched → remaining q2 start ≤ turns false sched →
  ∃ h', schedule q1 q2 sched (System start start h)
          ⇓ System (Returned r1.1 r1.2) (Returned r2.1 r2.2) h'
        ∧ blocks h' = blocks h.
Proof.
  intros Hwf Ho Hr1 Hr2 Ht Hf.
  destruct (schedule_fair q1 q2 (blocks h) sched (System start start h))
    as ([l r h'] & Hs & Hinv & Hl & Hr); [by apply sys_inv_start|by eexists..|].
  apply sys_inv_returned in Hinv as (H1 & H2 & Hb). cbn [left right shared] in *.
  destruct (returned_remaining q1 l) as (n1 & st1 & ->); [lia|].
  destruct (returned_remaining q2 r) as (n2 & st2 & ->); [lia|].
  rewrite (H1 n1 st1 eq_refl) in Hr1. rewrite (H2 n2 st2 eq_refl) in Hr2.
  apply Done_inj in Hr1 as <-. apply Done_inj in Hr2 as <-.
  exists h'. split; [done|]. by apply Hb; intros [].
Qed.

(** C9. With an allocator that does not fail, calls that are defined alone
    both return under every schedule that gives each of them its turns,
    with the values and the states they have alone, and the heap is left
    with the blocks it had. *)
Theorem fair_schedule_returns h sched r1 r2 :
  heap_wf h → oracle h = [] → on_values q1 ⇓ r1 → on_values q2 ⇓ r2 →
  remaining q1 start ≤ turns true sched → remaining q2 start ≤ turns false sched →
  ∃ h', schedule q1 q2 sched (System start start h)
          ⇓ System (Returned r1.1 r1.2) (Returned r2.1 r2.2) h'
        ∧ blocks h' = blocks h.
Proof. apply fair_schedule_run. Qed.

End Theorems.

(** ** The two calls to look at *)

(** The schedule decides the addresses: the array of the right call is the
    second block when it runs first, the fourth when the calls take
    turns. *)
Example schedule_addresses :
  right (after (take 2 right_first)) = Scanning (Locals 3 1 (Some 2%N) 1)
  ∧ right (after (take 4 in_turn)) = Scanning (Locals 3 1 (Some 4%N) 1).
Proof. by vm_compute. Qed.

(** It does not decide what the calls print, nor what they leave on the
    heap. *)
Example schedule_texts :
  Forall (λ sched, shown (left (after sched)) = Some (1%Z, lit "5;")
                   ∧ shown (right (after sched)) = Some (1%Z, lit "<ok>")
                   ∧ size (blocks (shared (after sched))) = 0)
    [left_first; right_first; in_turn].
Proof. repeat constructor; by vm_compute. Qed.

Lemma interleaved_results_witness :
  (∀ n st, left (after in_turn) = Returned n st →
     @display_vprint strict demo_printf (Some (cstr (lit "%d;"))) [V_int T_int 5] [] ∅ ⇓ (n, st))
  ∧ (∀ n st, right (after in_turn) = Returned n st →
       @display_vprint strict demo_printf (Some (cstr (lit "<%s>")))
         [V_str (Some (cstr (lit "ok")))] [] ∅ ⇓ (n, st))
  ∧ (¬ running (left (after in_turn)) → ¬ running (right (after in_turn)) →
     blocks (shared (after in_turn)) = ∅).
Proof.
  apply (@interleaved_results strict demo_printf left_call right_call (heap_init []));
    [apply heap_init_wf|done|]. apply (schedule_run _ _ in_turn). by vm_compute.
Defined.

Lemma interleaved_faults_witness :
  let s := after (take 5 in_turn) in
  (∀ u, @call_step strict demo_printf left_call (left s) (shared s) ↯ u →
     @display_vprint strict demo_printf (Some (cstr (lit "%d;"))) [V_int T_int 5] [] ∅ ↯ u)
  ∧ (∀ u, @call_step strict demo_printf right_call (right s) (shared s) ↯ u →
       @display_vprint strict demo_printf (Some (cstr (lit "<%s>")))
         [V_str (Some (cstr (lit "ok")))] [] ∅ ↯ u)
  ∧ terminates (@call_step strict demo_printf left_call (left s) (shared s))
  ∧ terminates (@call_step strict demo_printf right_call (right s) (shared s)).
Proof.
  apply (@interleaved_faults strict demo_printf left_call right_call (heap_init []));
    [apply heap_init_wf|done|]. apply (schedule_run _ _ (take 5 in_turn)). by vm_compute.
Defined.

Lemma interleaved_bound_witness :
  1 ≤ 2 * length (q_format left_call) + 2 * length (q_format right_call) + 8.
Proof.
  apply (@interleaved_bound strict demo_printf left_call right_call (heap_init []) 1
           (System (left (after [true])) start (shared (after [true]))));
    [apply heap_init_wf|done|].
  apply nsteps_once, (step_left _ _ (System start start (heap_init []))); [done|by vm_compute].
Defined.

Lemma fair_schedule_returns_witness :
  ∃ h, @schedule strict demo_printf left_call right_call in_turn (System start start (heap_init []))
         ⇓ System (Returned 1 (VState 3 1 1 0 [] (lit "5;") ∅))
             (Returned 1 (VState 4 1 1 0 [] (lit "<ok>") ∅)) h
       ∧ blocks h = ∅.
Proof.
  apply (@fair_schedule_returns strict demo_printf left_call right_call (heap_init []) in_turn
           (1%Z, VState 3 1 1 0 [] (lit "5;") ∅) (1%Z, VState 4 1 1 0 [] (lit "<ok>") ∅));
    [apply heap_init_wf|done|by vm_compute|by vm_compute|vm_compute; lia|vm_compute; lia].
Defined.
