(* ===== verification/Sink.v ===== *)
(** * Two calls that print to one stdout

    [Interleave] gives each call a sink of its own.  Here the two calls of
    [display_vprint] write to the same [stdout]: a step of a call runs on
    the text that stands there, and what it leaves is what the other call
    finds.

    The driver only appends to the sink and never reads it
    ([vprint_iter_a_rebase]), so a step writes the text it writes alone.
    Under every schedule the calls return what they return alone, and
    [stdout] holds the two texts merged as the schedule had it: each call's
    characters in their order, between them the other's ([merges]).  The
    header does nothing to keep the text of a call together. *)

From Stdlib Require Import Ascii ZArith Lia.
From stdpp Require Import base tactics option list numbers strings relations gmap.
From S2P Require Import Prelude CString Types Scanner VaList Native Driver FDriver.
From S2P Require Import StreamView Heap Alloc Interleave.

(** ** Definitions *)

(** The state of a call with the text [o] on stdout, and with [o] before
    what stands there. *)
Definition on_sink (o : list ascii) (st : vstate) : vstate :=
  VState (vp st) (spec_idx st) (spec_count st) (struct_count st) (args st) o (mem st).

Definition rebase (o : list ascii) (st : vstate) : vstate := on_sink (o ++ out st) st.

Definition map_phase (f : vstate → vstate) (ph : phase) : phase :=
  match ph with
  | Scanning k => Scanning k
  | Driving r st => Driving r (f st)
  | Releasing r st => Releasing r (f st)
  | Returned n st => Returned n (f st)
  end.

(** What a call has written. *)
Definition written (ph : phase) : list ascii :=
  match ph with
  | Scanning _ => []
  | Driving _ st | Releasing _ st | Returned _ st => out st
  end.

(** The call [q] when [o] stands on stdout. *)
Definition with_sink (o : list ascii) (q : request) : request :=
  Request (q_format q) (q_args q) o (q_mem q).

(** A phase without what stands on stdout. *)
Definition erase (ph : phase) : phase := map_phase (on_sink []) ph.

Section Machine.
Context `{ArgModel} `{NativeFormat}.

(** A step of a call on the shared stdout: the call finds the text [o]
    there, and leaves what it has appended.  Before the loop of the driver
    a call has not touched stdout. *)
Definition shared_step (q : request) (ph : phase) (o : list ascii) (h : heap) :
    outcome (phase * list ascii * heap) :=
  if decide (running ph) then
    '(ph', h') ← call_step (with_sink o q) (map_phase (on_sink o) ph) h;
    Done (ph', (if ph' is Scanning _ then o else written ph'), h')
  else Done (ph, o, h).

(** The two calls, the heap and the stdout they share, under a schedule. *)
Fixpoint schedule_shared (q1 q2 : request) (sched : list bool) (s : system)
    (o : list ascii) : outcome (system * list ascii) :=
  match sched with
  | [] => Done (s, o)
  | b :: sched =>
      '(ph, o', h) ← (if b then shared_step q1 (left s) else shared_step q2 (right s))
                       o (shared s);
      schedule_shared q1 q2 sched (if b then System ph (right s) h else System (left s) ph h) o'
  end.

End Machine.

(** [merges l1 l2 l]: [l] has the elements of [l1] and of [l2], each list
    in its order. *)
Inductive merges {A} : list A → list A → list A → Prop :=
| merges_nil : merges [] [] []
| merges_l x l1 l2 l : merges l1 l2 l → merges (x :: l1) l2 (x :: l)
| merges_r x l1 l2 l : merges l1 l2 l → merges l1 (x :: l2) (x :: l).

(** A step on the shared stdout follows the step of the call on a sink of
    its own: the same heap, the same phase but for the text, and the text
    [c] the step wrote after [w] on the one and after [sink] on the other. *)
Definition step_tracks (w sink : list ascii) (x : phase * heap)
    (y : phase * list ascii * heap) : Prop :=
  y.2 = x.2 ∧ erase y.1.1 = erase x.1 ∧ ∃ c, written x.1 = w ++ c ∧ y.1.2 = sink ++ c.

(** The system on the shared stdout follows the system with two sinks:
    after [o], which stood there, stdout has the two texts merged. *)
Definition tracks (o : list ascii) (s : system) (y : system * list ascii) : Prop :=
  erase (left y.1) = erase (left s) ∧ erase (right y.1) = erase (right s)
  ∧ shared y.1 = shared s
  ∧ ∃ text, y.2 = o ++ text ∧ merges (written (left s)) (written (right s)) text.

(** The left call of [Interleave] up to its first character, the right call,
    the rest of the left call. *)
Definition torn : list bool := replicate 4 true ++ replicate 14 false ++ replicate 8 true.

(** The two calls of [Interleave] and their stdout after the schedule
    [sched], from a heap with nothing on it and [> ] on stdout. *)
Definition after_shared (sched : list bool) : system * list ascii :=
  let s := System start start (heap_init []) in
  match @schedule_shared strict demo_printf left_call right_call sched s (lit "> ") with
  | Done y => y
  | _ => (s, [])
  end.

(** ** Merging *)

Lemma merges_nil_r {A} (l : list A) : merges l [] l.
Proof. induction l; by constructor. Qed.

Lemma merges_nil_l {A} (l : list A) : merges [] l l.
Proof. induction l; by constructor. Qed.

Lemma merges_app_l {A} (l1 l2 l c : list A) : merges l1 l2 l → merges (l1 ++ c) l2 (l ++ c).
Proof. induction 1; simpl; [apply merges_nil_r|by constructor..]. Qed.

Lemma merges_app_r {A} (l1 l2 l c : list A) : merges l1 l2 l → merges l1 (l2 ++ c) (l ++ c).
Proof. induction 1; simpl; [apply merges_nil_l|by constructor..]. Qed.

Lemma merges_length {A} (l1 l2 l : list A) : merges l1 l2 l → length l = length l1 + length l2.
Proof. induction 1; simpl; lia. Qed.

Lemma merges_sym {A} (l1 l2 l : list A) : merges l1 l2 l → merges l2 l1 l.
Proof. induction 1; by constructor. Qed.

(** ** The driver appends *)

Implicit Types (o : list ascii) (st : vstate).

Lemma rebase_nil st : rebase [] st = st.
Proof. by destruct st. Qed.

Lemma rebase_on_sink o st : rebase o (on_sink [] st) = on_sink o st.
Proof. unfold rebase, on_sink. simpl. by rewrite app_nil_r. Qed.

Lemma rebase_out st : rebase (out st) (on_sink [] st) = st.
Proof. rewrite rebase_on_sink. by destruct st. Qed.

Lemma rebase_emit o text st : emit text (rebase o st) = rebase o (emit text st).
Proof. unfold emit, rebase, on_sink. simpl. by rewrite app_assoc. Qed.

Section Appends.
Context `{ArgModel} `{NativeFormat}.
Lemma print_arg_rebase o T e st : print_arg T e (rebase o st) = rebase o <$> print_arg T e st.
Proof.
  unfold print_arg. simpl. destruct (va_arg T (args st)) as [[v ap]| |]; simpl; [|done..].
  destruct (native_format _ v); simpl; [|done..]. f_equal. apply (rebase_emit o _ (with_args ap st)).
Qed.

Lemma write_count_rebase o T st : write_count T (rebase o st) = rebase o <$> write_count T st.
Proof.
  unfold write_count. simpl. destruct (va_arg _ (args st)) as [[v ap]| |]; simpl; [|done..].
  change (fields (rebase o st)) with (fields st). by destruct (store_count _ _ _ _).
Qed.

Lemma vprint_switch_rebase o e st : vprint_switch e (rebase o st) = rebase o <$> vprint_switch e st.
Proof.
  unfold vprint_switch. destruct (type e); first [apply print_arg_rebase|apply write_count_rebase|done].
Qed.

Lemma vprint_display_rebase o st : vprint_display (rebase o st) = rebase o <$> vprint_display st.
Proof.
  unfold vprint_display. simpl. destruct (va_arg _ (args st)) as [[v ap]| |]; simpl; [|done..].
  destruct v as [| | | | |[d|]]; try done.
  destruct (display_fn d) as [f|], (self d) as [obj|]; try done.
  destruct (f obj) as [[text ret]|]; [|done]. simpl.
  pose proof (rebase_emit o text (with_args ap st)) as E. unfold emit, rebase, on_sink in E.
  simpl in E. injection E as E. unfold emit, advance, count_struct, rebase, on_sink. simpl.
  rewrite E. by case_match.
Qed.

Lemma vprint_iter_a_rebase o buf r h st :
  vprint_iter_a buf r h (rebase o st)
  = sum_map (rebase o) (rebase o) <$> vprint_iter_a buf r h st.
Proof.
  unfold vprint_iter_a, putchar. change (vp (rebase o st)) with (vp st).
  change (spec_idx (rebase o st)) with (spec_idx st).
  destruct (char_at buf (vp st)) as [c| |]; simpl; [|done..]. rewrite !rebase_emit.
  destruct (is_nul c); [done|]. destruct (c =? "%")%char.
  - destruct (char_at buf (S (vp st))) as [c'| |]; simpl; [|done..].
    destruct (negb _); [|done]. destruct (_ <? _); [|done].
    destruct (cell_at _ _ _) as [e| |]; simpl; [|done..]. rewrite vprint_switch_rebase.
    by destruct (vprint_switch e st).
  - destruct (c =? "{")%char; [|done].
    destruct (char_at buf (S (vp st))) as [c'| |]; simpl; [|done..].
    destruct (c' =? "}")%char; [|done]. rewrite vprint_display_rebase.
    by destruct (vprint_display st).
Qed.

End Appends.

(** ** A step on the shared stdout *)

Section Steps.
Context `{ArgModel} `{NativeFormat}.
Implicit Types (q : request) (ph : phase) (h : heap).

(** A step with [o] before the text on stdout is the step, with [o] before
    the text it leaves. *)
Lemma call_step_rebase o q ph h :
  call_step (with_sink (o ++ q_out q) q) (map_phase (rebase o) ph) h
  = prod_map (map_phase (rebase o)) id <$> call_step q ph h.
Proof.
  destruct ph as [k|r st|r st|n st]; simpl; [| | |done].
  - by destruct (scan_iter_a _ _) as [[a|[specs h']]| |].
  - rewrite vprint_iter_a_rebase. by destruct (vprint_iter_a _ _ _ _) as [[]| |].
  - by destruct (format_specs_array_t_free r h).
Qed.

Lemma erase_rebase o ph : erase (map_phase (rebase o) ph) = erase ph.
Proof. by destruct ph. Qed.

Lemma rebase_erase o ph : map_phase (rebase o) (erase ph) = map_phase (on_sink o) ph.
Proof. destruct ph; unfold erase; cbn [map_phase]; by rewrite ?rebase_on_sink. Qed.

Lemma rebase_written ph : map_phase (rebase (written ph)) (erase ph) = ph.
Proof. destruct ph; unfold erase; cbn [map_phase written]; by rewrite ?rebase_out. Qed.

Lemma running_erase ph ph' : erase ph' = erase ph → running ph' ↔ running ph.
Proof. by destruct ph, ph'. Qed.

(** Only the scanner's last step looks at the text of the request. *)
Lemma call_step_written q ph h :
  call_step (with_sink (written ph) q) ph h = call_step (with_sink [] q) ph h.
Proof. by destruct ph. Qed.

(** The scanner never follows the driver. *)
Lemma written_step q ph h ph1 h1 :
  call_step q (erase ph) h ⇓ (ph1, h1) →
  written (map_phase (rebase (written ph)) ph1) = written ph ++ written ph1.
Proof.
  destruct ph as [k|r st|r st|n st], ph1; simpl; try done; intros Hs; exfalso.
  - destruct (vprint_iter_a _ _ _ _) as [[]| |]; by simplify_eq.
  - by destruct (format_specs_array_t_free r h).
Qed.

(** A step of the call with its own sink, and the step on the shared
    stdout, from the step on an empty sink. *)
Lemma own_step q ph h :
  call_step (with_sink [] q) ph h
  = prod_map (map_phase (rebase (written ph))) id <$> call_step (with_sink [] q) (erase ph) h.
Proof.
  rewrite <- (call_step_rebase (written ph) (with_sink [] q)), rebase_written. simpl.
  by rewrite app_nil_r, call_step_written.
Qed.

Lemma shared_step_running q ph o h :
  running ph →
  shared_step q ph o h
  = (λ x, (map_phase (rebase o) x.1, o ++ written x.1, x.2))
    <$> call_step (with_sink [] q) (erase ph) h.
Proof.
  intros Hr. unfold shared_step. rewrite decide_True by done.
  rewrite <- rebase_erase, <- (app_nil_r o) at 1.
  rewrite (call_step_rebase o (with_sink [] q)).
  destruct (call_step _ (erase ph) h) as [[ph1 h1]| |]; simpl; [|done..].
  destruct ph1; simpl; by rewrite ?app_nil_r.
Qed.

Lemma shared_step_tracks q ph ph' sink h :
  erase ph' = erase ph →
  outcome_rel (step_tracks (written ph) sink)
    (call_step (with_sink [] q) ph h) (shared_step q ph' sink h).
Proof.
  intros He. destruct (decide (running ph)) as [Hr|Hr].
  - rewrite own_step, shared_step_running, He by by apply (running_erase ph ph').
    destruct (call_step _ (erase ph) h) as [[ph1 h1]| |] eqn:E; simpl; [|done..].
    eexists. split; [done|]. unfold step_tracks. simpl. rewrite !erase_rebase.
    split_and!; [done..|]. exists (written ph1). by rewrite (written_step _ _ _ _ _ E).
  - unfold shared_step. rewrite decide_False by by rewrite (running_erase ph ph').
    destruct ph; try done. simpl. eexists. split; [done|]. unfold step_tracks. simpl.
    split_and!; [done..|]. exists []. by rewrite !app_nil_r.
Qed.

End Steps.

(** ** Schedules *)

Section Schedules.
Context `{ArgModel} `{NativeFormat}.
Context (q1 q2 : request) (o : list ascii).

Lemma tracks_start h : tracks o (System start start h) (System start start h, o).
Proof. unfold tracks. simpl. split_and!; [done..|]. exists []. by rewrite app_nil_r; split; [|constructor]. Qed.

Lemma tracks_left s y x x' :
  tracks o s y → step_tracks (written (left s)) y.2 x x' →
  tracks o (System x.1 (right s) x.2) (System x'.1.1 (right y.1) x'.2, x'.1.2).
Proof.
  intros (_ & Hr & _ & text & -> & Hm) (-> & Hl & c & Hw & ->). unfold tracks. simpl.
  split_and!; [done..|]. exists (text ++ c). rewrite Hw, app_assoc. by split; [|apply merges_app_l].
Qed.

Lemma tracks_right s y x x' :
  tracks o s y → step_tracks (written (right s)) y.2 x x' →
  tracks o (System (left s) x.1 x.2) (System (left y.1) x'.1.1 x'.2, x'.1.2).
Proof.
  intros (Hl & _ & _ & text & -> & Hm) (-> & Hr & c & Hw & ->). unfold tracks. simpl.
  split_and!; [done..|]. exists (text ++ c). rewrite Hw, app_assoc. by split; [|apply merges_app_r].
Qed.

(** The calls on the shared stdout do what the calls on two sinks do, step
    for step. *)
Lemma schedule_shared_tracks sched : ∀ s y,
  tracks o s y →
  outcome_rel (tracks o) (schedule (with_sink [] q1) (with_sink [] q2) sched s)
    (schedule_shared q1 q2 sched y.1 y.2).
Proof.
  induction sched as [|b sched IH]; intros s [s' sink] Ht; simpl; [by exists (s', sink)|].
  pose proof Ht as (Hl & Hr & Hh & _). simpl in Hl, Hr, Hh. rewrite Hh. destruct b.
  - eapply outcome_rel_bind; [by apply shared_step_tracks|].
    intros [ph h] [[ph' sink'] h'] Hst. apply (IH _ (System ph' (right s') h', sink')).
    by apply (tracks_left s (s', sink) (ph, h) (ph', sink', h')).
  - eapply outcome_rel_bind; [by apply shared_step_tracks|].
    intros [ph h] [[ph' sink'] h'] Hst. apply (IH _ (System (left s') ph' h', sink')).
    by apply (tracks_right s (s', sink) (ph, h) (ph', sink', h')).
Qed.

End Schedules.

Lemma erase_Returned ph n st :
  erase ph = erase (Returned n st) → ∃ st', ph = Returned n st' ∧ on_sink [] st' = on_sink [] st.
Proof.
  destruct ph as [| | |n' st']; try done. unfold erase. simpl. intros Heq.
  assert (n' = n) as -> by congruence. exists st'. split; [done|congruence].
Qed.

(** ** Theorems *)

Section Theorems.
Context `{ArgModel} `{NativeFormat}.
Context (q1 q2 : request) (o : list ascii).

#[local] Abbreviation alone q := (display_vprint (Some (q_format q)) (q_args q) [] (q_mem q)).

(** What a schedule with enough turns leaves on the shared stdout. *)
Lemma shared_schedule_run h sched r1 r2 :
  heap_wf h → oracle h = [] → alone q1 ⇓ r1 → alone q2 ⇓ r2 →
  remaining q1 start ≤ turns true sched → remaining q2 start ≤ turns false sched →
  ∃ st1 st2 h' text,
    schedule_shared q1 q2 sched (System start start h) o
      ⇓ (System (Returned r1.1 st1) (Returned r2.1 st2) h', o ++ text)
    ∧ merges (out r1.2) (out r2.2) text
    ∧ on_sink [] st1 = on_sink [] r1.2 ∧ on_sink [] st2 = on_sink [] r2.2
    ∧ blocks h' = blocks h.
Proof.
  intros Hwf Ho Hr1 Hr2 Ht Hf.
  destruct (fair_schedule_run (with_sink [] q1) (with_sink [] q2) h sched r1 r2)
    as (h' & Hs & Hb); [done..|].
  pose proof (schedule_shared_tracks q1 q2 o sched _ _ (tracks_start o h)) as Hrel.
  rewrite Hs in Hrel. destruct Hrel as ([[l r hh] sink] & Hsh & Hl & Hr & Hh & text & Hk & Hm).
  simpl in *. subst sink. apply erase_Returned in Hl as (st1 & -> & ?), Hr as (st2 & -> & ?). subst hh.
  by exists st1, st2, h', text.
Qed.

(** C11. With an allocator that does not fail, two calls that are defined
    alone and print to one stdout, on which [o] stands, both return under
    every schedule that gives each of them its turns: each with the value
    and, but for the text, the state it has alone; stdout then has, after
    [o], the two texts merged, each in its order; and the heap is left with
    the blocks it had. *)
Theorem shared_stdout_merges h sched r1 r2 :
  heap_wf h → oracle h = [] → alone q1 ⇓ r1 → alone q2 ⇓ r2 →
  remaining q1 start ≤ turns true sched → remaining q2 start ≤ turns false sched →
  ∃ st1 st2 h' text,
    schedule_shared q1 q2 sched (System start start h) o
      ⇓ (System (Returned r1.1 st1) (Returned r2.1 st2) h', o ++ text)
    ∧ merges (out r1.2) (out r2.2) text
    ∧ on_sink [] st1 = on_sink [] r1.2 ∧ on_sink [] st2 = on_sink [] r2.2
    ∧ blocks h' = blocks h.
Proof. apply shared_schedule_run. Qed.

(** Nothing is lost and nothing is added: stdout grows by the characters
    the two calls write alone. *)
Theorem shared_stdout_length h sched r1 r2 s sink :
  heap_wf h → oracle h = [] → alone q1 ⇓ r1 → alone q2 ⇓ r2 →
  remaining q1 start ≤ turns true sched → remaining q2 start ≤ turns false sched →
  schedule_shared q1 q2 sched (System start start h) o ⇓ (s, sink) →
  length sink = length o + length (out r1.2) + length (out r2.2).
Proof.
  intros Hwf Ho Hr1 Hr2 Ht Hf Hs.
  destruct (shared_schedule_run h sched r1 r2) as (? & ? & ? & text & Hs' & Hm & _); [done..|].
  rewrite Hs' in Hs. injection Hs as _ <-. rewrite length_app, (merges_length _ _ _ Hm). lia.
Qed.

(** A schedule is undefined on the shared stdout only where it is with two
    sinks, and it never runs out of fuel there if it does not here. *)
Theorem shared_stdout_faults h sched :
  outcome_rel (tracks o)
    (schedule (with_sink [] q1) (with_sink [] q2) sched (System start start h))
    (schedule_shared q1 q2 sched (System start start h) o).
Proof. apply (schedule_shared_tracks q1 q2 o sched _ (_, _)), tracks_start. Qed.

End Theorems.

(** ** The two calls to look at *)

(** The text of a call is not kept together: the right call prints between
    the number and the semicolon of the left call.  The calls return 1 and
    1 all the same. *)
Example stdout_torn :
  (after_shared torn).2 = lit "> 5<ok>;"
  ∧ (after_shared left_first).2 = lit "> 5;<ok>"
  ∧ (after_shared right_first).2 = lit "> <ok>5;"
  ∧ fst <$> shown (left (after_shared torn).1) = Some 1%Z
  ∧ fst <$> shown (right (after_shared torn).1) = Some 1%Z.
Proof. by vm_compute. Qed.

Lemma shared_stdout_merges_witness :
  ∃ st1 st2 h' text,
    @schedule_shared strict demo_printf left_call right_call torn
      (System start start (heap_init [])) (lit "> ")
      ⇓ (System (Returned 1 st1) (Returned 1 st2) h', lit "> " ++ text)
    ∧ merges (lit "5;") (lit "<ok>") text
    ∧ on_sink [] st1 = on_sink [] (VState 3 1 1 0 [] (lit "5;") ∅)
    ∧ on_sink [] st2 = on_sink [] (VState 4 1 1 0 [] (lit "<ok>") ∅)
    ∧ blocks h' = blocks (heap_init []).
Proof.
  apply (@shared_stdout_merges strict demo_printf left_call right_call (lit "> ")
           (heap_init []) torn (1%Z, VState 3 1 1 0 [] (lit "5;") ∅)
           (1%Z, VState 4 1 1 0 [] (lit "<ok>") ∅));
    [apply heap_init_wf|reflexivity..|vm_compute; lia|vm_compute; lia].
Defined.

Lemma shared_stdout_length_witness :
  length (after_shared torn).2 = length (lit "> ") + length (lit "5;") + length (lit "<ok>").
Proof.
  apply (@shared_stdout_length strict demo_printf left_call right_call (lit "> ")
           (heap_init []) torn (1%Z, VState 3 1 1 0 [] (lit "5;") ∅)
           (1%Z, VState 4 1 1 0 [] (lit "<ok>") ∅) (after_shared torn).1);
    [apply heap_init_wf|reflexivity..|vm_compute; lia|vm_compute; lia|by vm_compute].
Defined.
