(* ===== verification/Contract.v ===== *)
(** * The documented behaviours of the stdout driver

    The properties the documentation of the library promises of a render
    call, each derived from the refinement of [Render.render] by
    [display_vprint]: plain text, [%%], one native marker, one [{}] field with
    an object that renders, that is missing, or that fails; the count a [%n]
    marker stores, anywhere in a string, and where it stops being the number
    of fields; and the value returned against the fields of the string. *)

From Stdlib Require Import Ascii ZArith Lia.
From stdpp Require Import base tactics option list numbers strings gmap.
From S2P Require Import Prelude CString Types Scanner VaList Native Driver.
From S2P Require Import Template Render ScannerRefine Parse Reading DriverRefine.

(** ** Definitions *)

(** The text has a [{] right before a [}]. *)
Fixpoint has_braces (s : list ascii) : bool :=
  match s with
  | [] => false
  | c :: s' =>
      ((c =? "{")%char && (if s' is c' :: _ then (c' =? "}")%char else false))
      || has_braces s'
  end.

(** Text with no conversion marker and no opaque delimiter. *)
Definition plain (s : list ascii) : Prop :=
  no_nul s ∧ ("%"%char ∉ s) ∧ has_braces s = false.

(** What a call shows to its caller: the value returned, the text on
    stdout, the arguments it did not take and the slots. *)
Definition observe (r : outcome (Z * vstate)) :
    outcome (Z * list ascii * va_list * gmap loc Z) :=
  (λ '(n, st), (n, out st, args st, mem st)) <$> r.

(** The [{}] fields of a template. *)
Definition braces (t : list item) : nat :=
  length (filter (λ i, i = Braces) t).

(** A string of [n] fields [%5%], which take no argument, and a [%hhn]. *)
Definition fields_then_count (n : nat) : list item :=
  replicate n (Mark (Marker [] (lit "5") None L_none "%")) ++ [Mark (Marker [] [] None L_hh "n")].

(** ** Plain text *)

Lemma template_text_literals s : template_text (Lit <$> s) = s.
Proof. induction s as [|c s IH]; [done|]. by rewrite fmap_cons, template_text_cons, IH. Qed.

Lemma markers_literals s : markers (Lit <$> s) = [].
Proof. by induction s. Qed.

Lemma wf_template_plain s : plain s → wf_template (Lit <$> s).
Proof.
  unfold plain, no_nul. induction s as [|c s IH]; [done|].
  rewrite !not_elem_of_cons. intros ([? ?] & [? ?] & [Hc Hs]%orb_false_elim).
  simpl. split_and!; [done|done| |by apply IH]. intros [-> Hh].
  destruct s as [|c' s]; by simplify_eq/=.
Qed.

Section Contract.
Context `{ArgModel} `{NativeFormat}.
Implicit Types (ap : va_list) (o : list ascii) (m : gmap loc Z).

(** A template with no conversion marker and no opaque delimiter is
    written to stdout verbatim; the call returns 0, takes no argument and
    stores nothing. *)
Theorem display_vprint_plain s ap o m :
  plain s →
  observe (display_vprint (Some (cstr s)) ap o m) ⇓ (0%Z, o ++ s, ap, m).
Proof.
  intros Hs%wf_template_plain. pose proof (display_vprint_render _ Hs ap o m) as E.
  rewrite render_literals, template_text_literals in E. unfold observe. by rewrite E.
Qed.

(** [%%] writes one percent sign, takes no argument and counts for nothing. *)
Theorem display_vprint_percent ap o m :
  observe (display_vprint (Some (cstr (lit "%%"))) ap o m) ⇓ (0%Z, o ++ ["%"%char], ap, m).
Proof. unfold observe. by rewrite (display_vprint_render [Percent] (conj I I) ap o m). Qed.

(** A template that is one native marker: the argument is fetched at the
    type of the switch and handed to the native formatter under the
    marker's own text; the call ends as the formatter does. *)
Lemma display_vprint_one_marker mk T v ap o m :
  wf_marker mk → conv_action (marker_tag mk) = Print T → compatible T v = true →
  observe (display_vprint (Some (cstr (marker_text mk))) (v :: ap) o m)
  = (text ← native_format (marker_text mk) v; Done (1%Z, o ++ text, ap, m)).
Proof.
  intros Hm Ha Hv. unfold observe.
  pose proof (display_vprint_render [Mark mk] (conj Hm I) (v :: ap) o m) as E.
  unfold final in E. rewrite template_text_cons, template_text_nil, app_nil_r in E.
  change (item_text (Mark mk)) with (marker_text mk) in E. rewrite E. simpl.
  unfold render_marker. rewrite Ha. simpl. rewrite Hv. simpl.
  by destruct (native_format _ v).
Qed.

(** A template that is one native marker writes what the native
    formatter writes for the marker's own text and the argument supplied,
    takes that argument and returns 1. *)
Theorem display_vprint_marker mk T v text ap o m :
  wf_marker mk → conv_action (marker_tag mk) = Print T →
  compatible T v = true → native_format (marker_text mk) v ⇓ text →
  observe (display_vprint (Some (cstr (marker_text mk))) (v :: ap) o m)
  ⇓ (1%Z, o ++ text, ap, m).
Proof. intros Hm Ha Hv Ht. by rewrite (display_vprint_one_marker mk T), Ht. Qed.

(** A [%n] marker writes nothing: it stores the number of fields rendered
    before it, converted to the type of the slot. *)
Theorem display_vprint_count mk T T' l ap o m :
  wf_marker mk → conv_action (marker_tag mk) = Store T →
  compatible (T_ptr T) (V_ref T' (Some l)) = true →
  observe (display_vprint (Some (cstr (marker_text mk))) (V_ref T' (Some l) :: ap) o m)
  ⇓ (1%Z, o, ap, <[l := 0%Z]> m).
Proof.
  intros Hm Ha Hv. unfold observe.
  pose proof (display_vprint_render [Mark mk] (conj Hm I) (V_ref T' (Some l) :: ap) o m) as E.
  unfold final in E. rewrite template_text_cons, template_text_nil, app_nil_r in E.
  change (item_text (Mark mk)) with (marker_text mk) in E. rewrite E. simpl. unfold render_marker. rewrite Ha. simpl. rewrite Hv. simpl.
  by rewrite convert_to_small.
Qed.

Lemma display_vprint_count_stored_gen s t1 mk T T' l w1 ap' ap o m :
  reading s (t1 ++ [Mark mk]) → clean (t1 ++ [Mark mk]) →
  conv_action (marker_tag mk) = Store T →
  render t1 (wstart ap o m) ⇓ w1 → w_args w1 = V_ref T' (Some l) :: ap' →
  compatible (T_ptr T) (V_ref T' (Some l)) = true →
  observe (display_vprint (Some (cstr s)) ap o m)
  ⇓ (Z.of_nat (S (w_fields w1)), w_out w1, ap',
     <[l := convert_to T (Z.of_nat (w_fields w1))]> (w_mem w1)).
Proof.
  intros Hrd Hcl Ha Hr Hargs Hv. unfold observe.
  rewrite (display_vprint_reading s _ Hrd ap o m Hcl), render_app, Hr, bind_Done_l.
  simpl. unfold render_marker. rewrite Ha, Hargs. simpl. by rewrite Hv.
Qed.

(** C23. A [%n] marker that ends a string the scanner keeps whole, after any
    items, stores the number of fields rendered before it, converted to the
    type of its slot, and counts as a field itself: the stored number is
    the count only while the count fits the slot
    ([VaList.convert_to_fits]). *)
Theorem display_vprint_count_stored s t1 mk T T' l w1 ap' ap o m :
  reading s (t1 ++ [Mark mk]) → clean (t1 ++ [Mark mk]) →
  conv_action (marker_tag mk) = Store T →
  render t1 (wstart ap o m) ⇓ w1 → w_args w1 = V_ref T' (Some l) :: ap' →
  compatible (T_ptr T) (V_ref T' (Some l)) = true →
  observe (display_vprint (Some (cstr s)) ap o m)
  ⇓ (Z.of_nat (S (w_fields w1)), w_out w1, ap',
     <[l := convert_to T (Z.of_nat (w_fields w1))]> (w_mem w1)).
Proof. apply display_vprint_count_stored_gen. Qed.

(** C24. From the 128th field on, the count a [%hhn] marker stores is not the
    number of fields: it is that number less 256, a negative number.  The
    conversion of an [int] that a [signed char] cannot hold is defined by
    the implementation (C11 6.3.1.3p3); the number is the one of the
    two's-complement platforms, which is what [VaList.convert_to]
    models. *)
Theorem display_vprint_count_wraps s t1 mk T' l w1 ap' ap o m :
  reading s (t1 ++ [Mark mk]) → clean (t1 ++ [Mark mk]) →
  conv_action (marker_tag mk) = Store T_signed_char →
  render t1 (wstart ap o m) ⇓ w1 → w_args w1 = V_ref T' (Some l) :: ap' →
  compatible (T_ptr T_signed_char) (V_ref T' (Some l)) = true →
  128 ≤ w_fields w1 < 384 →
  observe (display_vprint (Some (cstr s)) ap o m)
  ⇓ (Z.of_nat (S (w_fields w1)), w_out w1, ap',
     <[l := (Z.of_nat (w_fields w1) - 256)%Z]> (w_mem w1)).
Proof.
  intros Hrd Hcl Ha Hr Hargs Hv Hn.
  rewrite (display_vprint_count_stored_gen s t1 mk _ T' l w1 ap') by done.
  by rewrite (convert_to_wraps T_signed_char _ 8) by (auto || simpl; lia).
Qed.

Lemma braces_item i t : braces (i :: t) = braces [i] + braces t.
Proof. unfold braces. change (i :: t) with ([i] ++ t). by rewrite filter_app, length_app. Qed.

Lemma render_item_counts i w w' :
  render_item i w ⇓ w' →
  w_printed w' = w_printed w + length (markers [i])
  ∧ w_shown w ≤ w_shown w' ≤ w_shown w + braces [i].
Proof.
  destruct i as [c| | |mk]; simpl; try (intros [= <-]; simpl; lia).
  - change (braces [Braces]) with 1. unfold render_braces. intros ([v ap] & _ & Hw)%bind_Done.
    destruct v as [| | | | |[d|]]; try done; [|injection Hw as <-; simpl; lia].
    destruct (display_fn d) as [f|], (self d) as [obj|]; try (injection Hw as <-; simpl; lia).
    apply bind_Done in Hw as ([text ret] & _ & Hw). case_match; injection Hw as <-; simpl; lia.
  - unfold render_marker. destruct (conv_action _); [| |intros [= <-]; simpl; lia];
      intros ([v ap] & _ & (x & _ & [= <-])%bind_Done)%bind_Done; simpl; lia.
Qed.

Lemma render_counts t : ∀ w w',
  render t w ⇓ w' →
  w_printed w' = w_printed w + length (markers t)
  ∧ w_shown w ≤ w_shown w' ≤ w_shown w + braces t.
Proof.
  induction t as [|i t IH]; intros w w'; [intros [= <-]; unfold braces; simpl; lia|].
  cbn [render]. intros (w1 & Hi%render_item_counts & Ht%IH)%bind_Done.
  rewrite (markers_item i t), length_app, (braces_item i t). lia.
Qed.

(** C31. The value returned for a string the scanner keeps whole: every marker
    of its reading counts, and each [{}] field counts or not. *)
Theorem display_vprint_fields s t ap o m r st :
  reading s t → clean t → display_vprint (Some (cstr s)) ap o m ⇓ (r, st) →
  (Z.of_nat (length (markers t)) ≤ r ≤ Z.of_nat (length (markers t) + braces t))%Z.
Proof.
  intros Hrd Hcl. rewrite (display_vprint_reading s t Hrd ap o m Hcl).
  intros (w & Hw%render_counts & [= -> _])%fmap_Done. unfold w_fields. simpl in Hw. lia.
Qed.

(** [{}] with an object that has its function and its self reference,
    and whose function does not report -1: the output is the text the object
    wrote and the call returns 1. *)
Theorem display_vprint_object d f obj text ret ap o m :
  display_fn d = Some f → self d = Some obj → f obj = Returns (text, ret) → ret ≠ (-1)%Z →
  compatible T_display_ptr (V_display (Some d)) = true →
  observe (display_vprint (Some (cstr (lit "{}"))) (V_display (Some d) :: ap) o m)
  ⇓ (1%Z, o ++ text, ap, m).
Proof.
  intros Hf Hs Hr Hret%Z.eqb_neq Hv. unfold observe.
  rewrite (display_vprint_render [Braces] (conj I I)). simpl. unfold render_braces. simpl.
  rewrite Hv. simpl. rewrite Hf, Hs, Hr. simpl. by rewrite Hret.
Qed.

(** [{}] with a null pointer, or with an object that lacks the function
    or the self reference: nothing is written, the argument is taken, the
    call returns 0 and goes on. *)
Theorem display_vprint_object_missing d ap o m :
  (if d is Some d' then display_fn d' = None ∨ self d' = None else True) →
  compatible T_display_ptr (V_display d) = true →
  observe (display_vprint (Some (cstr (lit "{}"))) (V_display d :: ap) o m)
  ⇓ (0%Z, o, ap, m).
Proof.
  intros Hd Hv. unfold observe.
  rewrite (display_vprint_render [Braces] (conj I I)). simpl. unfold render_braces. simpl.
  rewrite Hv. simpl. destruct d as [d|]; [|done].
  by destruct Hd as [->| ->]; [|destruct (display_fn d)].
Qed.

(** C38. [{}] with an object whose function reports -1: the field is not
    counted, but whatever the function wrote before it failed is on stdout. *)
Theorem display_vprint_object_failed d f obj text ap o m :
  display_fn d = Some f → self d = Some obj → f obj = Returns (text, (-1)%Z) →
  compatible T_display_ptr (V_display (Some d)) = true →
  observe (display_vprint (Some (cstr (lit "{}"))) (V_display (Some d) :: ap) o m)
  ⇓ (0%Z, o ++ text, ap, m).
Proof.
  intros Hf Hs Hr Hv. unfold observe.
  rewrite (display_vprint_render [Braces] (conj I I)). simpl. unfold render_braces. simpl.
  rewrite Hv. simpl. rewrite Hf, Hs, Hr. done.
Qed.

(** [{}] with an object whose function has undefined behaviour, as one
    whose self reference does not address what the function reads: the call
    has that undefined behaviour. *)
Theorem display_vprint_object_faults d f obj u ap o m :
  display_fn d = Some f → self d = Some obj → f obj = Faults u →
  compatible T_display_ptr (V_display (Some d)) = true →
  observe (display_vprint (Some (cstr (lit "{}"))) (V_display (Some d) :: ap) o m) ↯ u.
Proof.
  intros Hf Hs Hr Hv. unfold observe.
  rewrite (display_vprint_render [Braces] (conj I I)). simpl. unfold render_braces. simpl.
  rewrite Hv. simpl. rewrite Hf, Hs, Hr. done.
Qed.

End Contract.

(** ** The theorems at concrete calls *)

Lemma display_vprint_plain_witness :
  observe (@display_vprint strict demo_printf (Some (cstr (lit "{hi}"))) [] [] ∅)
  ⇓ (0%Z, [] ++ lit "{hi}", [], ∅).
Proof.
  apply display_vprint_plain. split_and!; [by apply (bool_decide_unpack _)..|reflexivity].
Defined.

Lemma display_vprint_marker_witness :
  observe (@display_vprint strict demo_printf
             (Some (cstr (marker_text (Marker [] [] None L_none "d")))) [V_int T_int 5] [] ∅)
  ⇓ (1%Z, [] ++ lit "5", [], ∅).
Proof.
  apply (display_vprint_marker (Marker [] [] None L_none "d") T_int);
    [by apply (bool_decide_unpack _)|reflexivity..].
Defined.

Lemma display_vprint_count_witness :
  observe (@display_vprint strict demo_printf
             (Some (cstr (marker_text (Marker [] [] None L_h "n"))))
             [V_ref T_short (Some 4%N)] [] ∅)
  ⇓ (1%Z, [], [], <[4%N := 0%Z]> ∅).
Proof.
  apply (display_vprint_count (Marker [] [] None L_h "n") T_short);
    [by apply (bool_decide_unpack _)|reflexivity..].
Defined.

Lemma display_vprint_object_witness :
  observe (@display_vprint strict demo_printf (Some (cstr (lit "{}")))
    [V_display (Some (Build_display_t (Some (λ _, Returns (lit "OK", 2%Z))) None None (Some 1%N)))]
    [] ∅)
  ⇓ (1%Z, [] ++ lit "OK", [], ∅).
Proof.
  by apply (display_vprint_object _ (λ _, Returns (lit "OK", 2%Z)) 1%N (lit "OK") 2%Z).
Defined.

Lemma display_vprint_object_missing_witness :
  observe (@display_vprint strict demo_printf (Some (cstr (lit "{}")))
    [V_display (Some (Build_display_t None None None (Some 1%N)))] [] ∅)
  ⇓ (0%Z, [], [], ∅).
Proof. apply display_vprint_object_missing; [by left|reflexivity]. Defined.

Lemma display_vprint_object_failed_witness :
  observe (@display_vprint strict demo_printf (Some (cstr (lit "{}")))
    [V_display (Some (Build_display_t (Some (λ _, Returns (lit "par", (-1)%Z))) None None (Some 1%N)))]
    [] ∅)
  ⇓ (0%Z, [] ++ lit "par", [], ∅).
Proof.
  by apply (display_vprint_object_failed _ (λ _, Returns (lit "par", (-1)%Z)) 1%N (lit "par")).
Defined.

Lemma display_vprint_object_faults_witness :
  observe (@display_vprint strict demo_printf (Some (cstr (lit "{}")))
    [V_display (Some (Build_display_t (Some (λ _, Faults OobRead)) None None (Some 1%N)))]
    [] ∅)
  ↯ OobRead.
Proof. by apply (display_vprint_object_faults _ (λ _, Faults OobRead) 1%N). Defined.

Lemma display_vprint_count_stored_witness :
  observe (@display_vprint strict demo_printf (Some (cstr (lit "%d%hn")))
             [V_int T_int 5; V_ref T_short (Some 4%N)] [] ∅)
  ⇓ (Z.of_nat (S (w_fields (World [V_ref T_short (Some 4%N)] (lit "5") ∅ 1 0))), lit "5", [],
     <[4%N := convert_to T_short (Z.of_nat (w_fields (World [V_ref T_short (Some 4%N)] (lit "5") ∅ 1 0)))]> ∅).
Proof.
  apply (display_vprint_count_stored (lit "%d%hn") [Mark (Marker [] [] None L_none "d")]
           (Marker [] [] None L_h "n") T_short T_short 4%N
           (World [V_ref T_short (Some 4%N)] (lit "5") ∅ 1 0)); try done.
  - split; [by apply (bool_decide_unpack _)|by vm_compute].
  - by apply (bool_decide_unpack _).
Defined.

Lemma display_vprint_count_wraps_witness :
  observe (@display_vprint strict demo_printf
             (Some (cstr (template_text (fields_then_count 128))))
             [V_ref T_signed_char (Some 4%N)] [] ∅)
  ⇓ (129%Z, [], [], <[4%N := (-128)%Z]> ∅).
Proof.
  apply (display_vprint_count_wraps (template_text (fields_then_count 128))
           (replicate 128 (Mark (Marker [] (lit "5") None L_none "%")))
           (Marker [] [] None L_hh "n") T_signed_char 4%N
           (World [V_ref T_signed_char (Some 4%N)] [] ∅ 128 0)); try done.
  - split; [by apply (bool_decide_unpack _)|by vm_compute].
  - by apply (bool_decide_unpack _).
  - unfold w_fields. simpl. lia.
Defined.

Lemma display_vprint_fields_witness :
  (Z.of_nat (length (markers [Lit "a"; Mark (Marker [] [] None L_none "d")]))
   ≤ 1 ≤ Z.of_nat (length (markers [Lit "a"; Mark (Marker [] [] None L_none "d")])
                   + braces [Lit "a"; Mark (Marker [] [] None L_none "d")]))%Z.
Proof.
  apply (@display_vprint_fields strict demo_printf (lit "a%d") _ [V_int T_int 5] [] ∅ _
           (VState 3 1 1 0 [] (lit "a5") ∅)).
  - split; [by apply (bool_decide_unpack _)|by vm_compute].
  - by apply (bool_decide_unpack _).
  - exact sample_call.
Defined.
