(* ===== verification/Conform.v ===== *)
(** * The types the driver fetches against the types [printf] expects

    For a marker the scanner resolves a tag from the conversion and the
    length modifier (display.h 250-326), and the driver's [switch] names a
    type in [va_arg] for each tag (362-459) before it hands the argument to
    [printf] under the marker's own text.  [printf] in turn expects, for that
    conversion and that modifier, an argument of a type fixed by C11
    7.21.6.1p7-8.  This file compares the two, for every conversion and every
    modifier.

    [printf_expects] is the table of the standard, with the default argument
    promotions applied.  [verdict] compares it with what the code fetches.
    The theorems say exactly where the two agree, where they differ in
    signedness only (which [va_arg] allows for a value both types can
    represent, C11 7.16.1.1p2), where the code fetches a narrow type for a
    wide directive, and that a marker with an indirect width or precision
    reaches [printf] without the argument of the [*].  The markers the
    scanner accepts although [printf] gives their length modifier no
    meaning are in [Printf]. *)

From Stdlib Require Import Ascii ZArith Lia.
From stdpp Require Import base tactics option list numbers strings.
From stdpp Require Import gmap.
From S2P Require Import Prelude CString Types Scanner VaList Native Driver.
From S2P Require Import Template Render ScannerRefine DriverRefine Contract.

(** ** Definitions *)

(** What [printf] expects for a directive. *)
Inductive expected : Set :=
| Arg (T : c_type)          (* an argument of type [T] *)
| UnsignedOf (T : c_type)   (* the unsigned type that corresponds to [T] *)
| Slot (T : c_type)         (* a pointer to [T] *)
| Wide                      (* [wint_t] or [wchar_t*] *)
| NoMeaning.                (* the modifier is not specified for the conversion *)

#[export] Instance expected_eq_dec : EqDecision expected.
Proof. solve_decision. Defined.

(** C11 7.21.6.1p7: the modifiers of the integer conversions.  An
    [unsigned char] or [unsigned short] argument has been promoted to
    [int]. *)
Definition expects_signed (l : length_mod) : expected :=
  match l with
  | L_none | L_hh | L_h => Arg T_int
  | L_l => Arg T_long
  | L_ll => Arg T_long_long
  | L_j => Arg T_intmax_t
  | L_z => Arg T_ssize_t
  | L_t => Arg T_ptrdiff_t
  | L_L | L_hl | L_lh => NoMeaning
  end.

Definition expects_unsigned (l : length_mod) : expected :=
  match l with
  | L_none => Arg T_unsigned_int
  | L_hh | L_h => Arg T_int
  | L_l => Arg T_unsigned_long
  | L_ll => Arg T_unsigned_long_long
  | L_j => Arg T_uintmax_t
  | L_z => Arg T_size_t
  | L_t => UnsignedOf T_ptrdiff_t
  | L_L | L_hl | L_lh => NoMeaning
  end.

Definition expects_slot (l : length_mod) : expected :=
  match l with
  | L_none => Slot T_int
  | L_hh => Slot T_signed_char
  | L_h => Slot T_short
  | L_l => Slot T_long
  | L_ll => Slot T_long_long
  | L_j => Slot T_intmax_t
  | L_z => Slot T_ssize_t
  | L_t => Slot T_ptrdiff_t
  | L_L | L_hl | L_lh => NoMeaning
  end.

Definition expects_float (l : length_mod) : expected :=
  match l with
  | L_none | L_l => Arg T_double
  | L_L => Arg T_long_double
  | _ => NoMeaning
  end.

(** C11 7.21.6.1p8, conversion by conversion. *)
Definition printf_expects (c : ascii) (l : length_mod) : expected :=
  if bool_decide (c ∈ lit "di") then expects_signed l
  else if bool_decide (c ∈ lit "ouxX") then expects_unsigned l
  else if bool_decide (c ∈ lit "eEfFgGaA") then expects_float l
  else if bool_decide (c = "n"%char) then expects_slot l
  else if bool_decide (c = "c"%char) then
    match l with L_none => Arg T_int | L_l => Wide | _ => NoMeaning end
  else if bool_decide (c = "s"%char) then
    match l with L_none => Arg T_char_ptr | L_l => Wide | _ => NoMeaning end
  else if bool_decide (c = "p"%char) then
    match l with L_none => Arg T_void_ptr | _ => NoMeaning end
  else NoMeaning.

Inductive conformance : Set :=
| Same          (* the type fetched is the type expected *)
| Counterpart   (* they differ in signedness only *)
| Mismatch      (* they are different types *)
| Undefined     (* [printf] gives the directive no meaning *)
| Rejected.     (* the scanner resolves no type *)

#[export] Instance conformance_eq_dec : EqDecision conformance.
Proof. solve_decision. Defined.

(** The signed type of a pair that differs in signedness only. *)
Definition signed_of (T : c_type) : c_type :=
  match T with
  | T_unsigned_int => T_int
  | T_unsigned_long => T_long
  | T_unsigned_long_long => T_long_long
  | T_uintmax_t => T_intmax_t
  | T_size_t => T_ssize_t
  | T => T
  end.

Definition compare (e : expected) (a : action) : conformance :=
  match e, a with
  | NoMeaning, _ => Undefined
  | Arg T, Print T' =>
      if bool_decide (T = T') then Same
      else if bool_decide (signed_of T = signed_of T') then Counterpart else Mismatch
  | UnsignedOf T, Print T' => if bool_decide (T = T') then Counterpart else Mismatch
  | Slot T, Store T' => if bool_decide (T = T') then Same else Mismatch
  | _, _ => Mismatch
  end.

(** The type the driver fetches for the tag the scanner resolves, against
    the type [printf] expects for the same conversion and modifier. *)
Definition verdict (c : ascii) (l : length_mod) : conformance :=
  match resolve_type c (length_array l) with
  | Some ty => compare (printf_expects c l) (conv_action ty)
  | None => Rejected
  end.

(** The markers for which [printf] expects an argument of a type the driver
    could name. *)
Definition meaningful (c : ascii) (l : length_mod) : Prop :=
  printf_expects c l ≠ NoMeaning ∧ printf_expects c l ≠ Wide.

(** All pairs of a conversion and a modifier. *)
Definition directives : list (ascii * length_mod) :=
  c ← CONVS; l ← [L_none; L_hh; L_h; L_l; L_ll; L_j; L_z; L_t; L_L; L_hl; L_lh]; [(c, l)].

(** ** Facts *)

Lemma directives_complete c l : c ∈ CONVS → (c, l) ∈ directives.
Proof.
  intros Hc. unfold directives. apply list_elem_of_bind. exists c. split; [|done].
  apply list_elem_of_bind. exists l. split; [apply list_elem_of_singleton; done|].
  destruct l; by apply (bool_decide_unpack _).
Qed.

(** A property of all directives, by evaluation. *)
Lemma directives_ind (P : ascii → length_mod → Prop) `{∀ c l, Decision (P c l)} :
  Forall (λ d, P d.1 d.2) directives → ∀ c l, c ∈ CONVS → P c l.
Proof.
  intros HP c l Hc%(directives_complete c l). rewrite Forall_forall in HP.
  by apply HP in Hc.
Qed.

(** C25. Whenever [printf] gives a directive a meaning and expects a type
    that is not wide, the driver fetches that type, or the type of the other
    signedness. *)
Theorem fetch_conforms c l :
  c ∈ CONVS → meaningful c l → verdict c l = Same ∨ verdict c l = Counterpart.
Proof.
  revert c l. apply (directives_ind (λ c l, meaningful c l → _)).
  by apply (bool_decide_unpack _).
Qed.

(** The driver fetches the type of the other signedness exactly for the
    unsigned conversions with [hh], [h] (where the promoted argument is an
    [int] and [unsigned int] is fetched) and [t] (where [ptrdiff_t] is
    fetched for its unsigned counterpart). *)
Theorem fetch_counterpart c l :
  c ∈ CONVS →
  verdict c l = Counterpart ↔ c ∈ lit "ouxX" ∧ l ∈ [L_hh; L_h; L_t].
Proof.
  revert c l. apply (directives_ind (λ c l, _ ↔ _)). by apply (bool_decide_unpack _).
Qed.

(** C36. The type fetched is a different type exactly for [%ls] and [%lc]:
    the code ignores the modifier and fetches a [char*] or an [int] for a
    directive under which [printf] reads a [wchar_t*] or a [wint_t]. *)
Theorem fetch_mismatch c l :
  c ∈ CONVS → verdict c l = Mismatch ↔ c ∈ lit "cs" ∧ l = L_l.
Proof.
  revert c l. apply (directives_ind (λ c l, _ ↔ _)). by apply (bool_decide_unpack _).
Qed.

(** What the switch fetches for a marker that conforms. *)
Lemma verdict_Same_Arg m T :
  wf_marker m → printf_expects (m_conv m) (m_length m) = Arg T →
  verdict (m_conv m) (m_length m) = Same → conv_action (marker_tag m) = Print T.
Proof.
  intros (_ & _ & _ & Hc & _) He. unfold verdict, marker_tag.
  rewrite (resolve_type_tag _ _ Hc), He. destruct (conv_action _) as [T'| |]; simpl; try done.
  repeat case_bool_decide; by simplify_eq.
Qed.

(** A call on the text of one marker that conforms, under any formatter. *)
Lemma display_vprint_conforming `{ArgModel} `{NativeFormat} m v ap o mem :
  wf_marker m → printf_expects (m_conv m) (m_length m) = Arg (type_of v) →
  verdict (m_conv m) (m_length m) = Same →
  observe (display_vprint (Some (cstr (marker_text m))) (v :: ap) o mem)
  = (text ← native_format (marker_text m) v; Done (1%Z, o ++ text, ap, mem)).
Proof.
  intros Hm He Hv. apply (display_vprint_one_marker m (type_of v)); [done| |apply compatible_same].
  by apply verdict_Same_Arg.
Qed.

(** A marker that conforms passes [printf] what it expects: for every
    platform, an argument of the type [printf] expects under the marker is
    fetched without undefined behaviour and handed to [printf] under the
    marker's own text; the call writes what [printf] writes and returns
    1. *)
Theorem display_vprint_expected `{ArgModel} `{NativeFormat} m T v ap o mem :
  wf_marker m → printf_expects (m_conv m) (m_length m) = Arg T →
  verdict (m_conv m) (m_length m) = Same → type_of v = T →
  observe (display_vprint (Some (cstr (marker_text m))) (v :: ap) o mem)
  = (text ← native_format (marker_text m) v; Done (1%Z, o ++ text, ap, mem)).
Proof. intros Hm He Hv <-. by apply display_vprint_conforming. Qed.

Lemma star_marker_text m :
  m_width m = lit "*" ∨ m_prec m = Some (lit "*") → "*"%char ∈ marker_text m.
Proof.
  unfold marker_text, marker_body. intros [Hw|Hp]; [rewrite Hw|rewrite Hp]; simpl;
    rewrite elem_of_cons, !elem_of_app; set_solver.
Qed.

(** C40. An indirect width or precision is accepted by the scanner and typed as
    the conversion is, but the driver hands [printf] the marker and one
    argument: for every [printf] and every platform, a call on a marker with
    [*] that conforms, with the argument the conversion expects, is
    undefined in [printf], after the argument was fetched. *)
Theorem display_vprint_indirect `{ArgModel} `{NativeFormat} m v ap o mem :
  wf_marker m → printf_expects (m_conv m) (m_length m) = Arg (type_of v) →
  verdict (m_conv m) (m_length m) = Same →
  m_width m = lit "*" ∨ m_prec m = Some (lit "*") →
  observe (display_vprint (Some (cstr (marker_text m))) (v :: ap) o mem) ↯ BadFormat.
Proof.
  intros Hm He Hv Hs. rewrite display_vprint_conforming by done.
  by rewrite native_star by by apply star_marker_text.
Qed.

(** ** The theorems at concrete directives *)

Lemma fetch_conforms_witness : verdict "d" L_ll = Same ∨ verdict "d" L_ll = Counterpart.
Proof. apply fetch_conforms; by apply (bool_decide_unpack _). Defined.

Lemma fetch_counterpart_witness :
  verdict "u" L_hh = Counterpart ↔ "u"%char ∈ lit "ouxX" ∧ L_hh ∈ [L_hh; L_h; L_t].
Proof. apply fetch_counterpart. by apply (bool_decide_unpack _). Defined.

Lemma fetch_mismatch_witness :
  verdict "s" L_l = Mismatch ↔ "s"%char ∈ lit "cs" ∧ L_l = L_l.
Proof. apply fetch_mismatch. by apply (bool_decide_unpack _). Defined.

Lemma display_vprint_expected_witness :
  observe (@display_vprint lp64 demo_printf
             (Some (cstr (marker_text (Marker [] [] None L_z "u")))) [V_int T_size_t 7] [] ∅)
  = (text ← @native_format demo_printf (marker_text (Marker [] [] None L_z "u")) (V_int T_size_t 7);
     Done (1%Z, [] ++ text, [], ∅)).
Proof.
  apply (display_vprint_expected (Marker [] [] None L_z "u") T_size_t);
    [by apply (bool_decide_unpack _)|reflexivity..].
Defined.

(** An argument that is an [int], as a promoted [unsigned char] is, under
    [%hhu]: the driver fetches an [unsigned int].  The platform model with
    the exception for signedness accepts the value 200 and rejects -1; the
    strict model rejects both. *)
Example counterpart_accepted :
  fst <$> observe (@display_vprint lp64 demo_printf (Some (cstr (lit "%hhu"))) [V_int T_int 200] [] ∅)
  ⇓ (1%Z, lit "200", []).
Proof. by vm_compute. Qed.

Example counterpart_negative :
  observe (@display_vprint lp64 demo_printf (Some (cstr (lit "%hhu"))) [V_int T_int (-1)] [] ∅)
  ↯ VaArgType.
Proof. by vm_compute. Qed.

Example counterpart_strict :
  observe (@display_vprint strict demo_printf (Some (cstr (lit "%hhu"))) [V_int T_int 200] [] ∅)
  ↯ VaArgType.
Proof. by vm_compute. Qed.

Lemma display_vprint_indirect_witness :
  observe (@display_vprint lp64 demo_printf
             (Some (cstr (marker_text (Marker [] (lit "*") (Some (lit "*")) L_l "d"))))
             [V_int T_long 5; V_int T_int 2] [] ∅)
  ↯ BadFormat.
Proof.
  apply (display_vprint_indirect (Marker [] (lit "*") (Some (lit "*")) L_l "d") (V_int T_long 5));
    [by apply (bool_decide_unpack _)|reflexivity|reflexivity|by left].
Defined.
