(* ===== verification/Printf.v ===== *)
(** * [printf] with one directive and one argument

    The drivers hand [printf] the text of one marker and one argument
    (display.h 365-458).  [Native.NativeFormat] leaves the text [printf]
    writes abstract, and [Native.plain_format] has it for the directives
    without flags, width or precision.  This file has it for the integer,
    character and string conversions with their flags, width, precision and
    length modifier, as C11 7.21.6.1 gives it:

    - [d i]: the sign, at least precision digits (one by default, none for
      the value 0 with precision 0); [o u x X] likewise without a sign, [#]
      adding a leading [0] to an octal numeral and [0x] to a hexadecimal one
      that is not zero;
    - [c]: the argument converted to [unsigned char]; [s]: the characters of
      the string, at most precision of them;
    - the result is padded to the width: on the right with [-], with zeros
      after the sign with [0] (for a number without precision), on the left
      otherwise;
    - the combinations the standard leaves undefined are undefined: [#] or
      [0] or a precision with a conversion that has no use for it, a length
      modifier the conversion has no meaning for, an indirect width or
      precision with the one argument the drivers pass.

    An argument of [o u x X] is a value of an unsigned type: a negative
    number under them is not an argument a C program passes, and is
    undefined here ([fits]).  The floating-point conversions, [p] and the
    wide [lc] and [ls] stay a parameter.  [c_printf] is the instance of [NativeFormat]; the directive
    is read back from its text with the reader of [Parse], so what is
    formatted is the marker the scanner accepted.

    Modelled from the C standard; nothing here is a translation of code of
    the header. *)

From Stdlib Require Import Ascii ZArith Lia.
From stdpp Require Import base tactics option list numbers strings pretty.
From S2P Require Import Prelude CString Types Scanner VaList Native Driver.
From S2P Require Import Template Render ScannerRefine Parse DriverRefine Contract Conform.

(** ** Definitions *)

(** *** Numerals *)

(** The digits of [n] in base [b], the most significant first. *)
Fixpoint digits_go (fuel : nat) (b n : N) (acc : list N) : list N :=
  match fuel with
  | 0 => acc
  | S k => if (n <? b)%N then n :: acc else digits_go k b (n / b)%N (n `mod` b :: acc)%N
  end.

Definition digits_in (b n : N) : list N := digits_go (S (N.to_nat (N.log2 n))) b n [].

(** The number a list of digits stands for. *)
Definition value_of (b : N) (ds : list N) : N := foldl (λ a d, a * b + d)%N 0%N ds.

(** The character of a digit: [0]-[9], then [a]-[f] or [A]-[F]. *)
Definition digit_char (upper : bool) (d : N) : ascii :=
  ascii_of_N (if (d <? 10) then 48 + d else (if upper then 55 else 87) + d)%N.

Definition numeral (b : N) (upper : bool) (n : N) : list ascii :=
  digit_char upper <$> digits_in b n.

(** *** The parts of a directive *)

Definition has_flag (c : ascii) (m : marker) : bool := bool_decide (c ∈ m_flags m).

(** The number a width or a precision spells; none for the empty text. *)
Definition number (w : list ascii) : nat :=
  foldl (λ n c, 10 * n + (nat_of_ascii c - 48)) 0 w.

Definition width_of (m : marker) : nat := number (m_width m).

(** A period alone is the precision 0 (7.21.6.1p4). *)
Definition precision_of (m : marker) : option nat := number <$> m_prec m.

Definition is_integer_conv (c : ascii) : bool := bool_decide (c ∈ lit "diouxX").
Definition is_float_conv (c : ascii) : bool := bool_decide (c ∈ lit "eEfFgGaA").

(** What the standard gives a meaning to (7.21.6.1p4-8): [#] with
    [o x X] and the floating-point conversions, [0] with the numeric ones,
    a precision with those and [s], nothing but a length modifier with [n],
    and a length modifier the conversion is specified for. *)
Definition directive_defined (m : marker) : bool :=
  let c := m_conv m in
  (negb (has_flag "#" m) || bool_decide (c ∈ lit "oxX") || is_float_conv c)
  && (negb (has_flag "0" m) || is_integer_conv c || is_float_conv c)
  && (bool_decide (m_prec m = None) || is_integer_conv c || is_float_conv c
      || bool_decide (c = "s"%char))
  && (negb (bool_decide (c ∈ lit "n%"))
      || bool_decide (m_flags m = [] ∧ m_width m = [] ∧ m_prec m = None))
  && negb (bool_decide (printf_expects c (m_length m) = NoMeaning)).

(** *** The text *)

(** The field: the sign or prefix, the body, and the padding up to the
    width.  [zeros] says whether the [0] flag applies. *)
Definition justify (m : marker) (zeros : bool) (prefix body : list ascii) : list ascii :=
  let n := width_of m - (length prefix + length body) in
  if has_flag "-" m then prefix ++ body ++ replicate n " "%char
  else if has_flag "0" m && zeros then prefix ++ replicate n "0"%char ++ body
  else replicate n " "%char ++ prefix ++ body.

(** The digits of an integer conversion: at least the precision, which is 1
    when there is none; the value 0 with precision 0 has no digit. *)
Definition int_body (prec : option nat) (zero : bool) (ds : list ascii) : list ascii :=
  let p := default 1 prec in
  if zero && bool_decide (p = 0) then [] else replicate (p - length ds) "0"%char ++ ds.

Definition sign_of (m : marker) (z : Z) : list ascii :=
  if (z <? 0)%Z then ["-"%char]
  else if has_flag "+" m then ["+"%char]
  else if has_flag " " m then [" "%char]
  else [].

Definition format_signed (m : marker) (z : Z) : list ascii :=
  justify m (bool_decide (m_prec m = None)) (sign_of m z)
    (int_body (precision_of m) (z =? 0)%Z (numeral 10 false (Z.abs_N z))).

Definition base_of (c : ascii) : N :=
  if bool_decide (c ∈ lit "xX") then 16 else if bool_decide (c = "o"%char) then 8 else 10.

(** [#] makes the first digit of an octal numeral a zero. *)
Definition alternate_octal (m : marker) (body : list ascii) : list ascii :=
  if has_flag "#" m && bool_decide (m_conv m = "o"%char)
     && negb (bool_decide (head body = Some "0"%char))
  then "0"%char :: body else body.

Definition hex_prefix (m : marker) (n : N) : list ascii :=
  if has_flag "#" m && bool_decide (m_conv m ∈ lit "xX") && negb (n =? 0)%N
  then ["0"%char; m_conv m] else [].

Definition format_unsigned (m : marker) (n : N) : list ascii :=
  let c := m_conv m in
  justify m (bool_decide (m_prec m = None)) (hex_prefix m n)
    (alternate_octal m
       (int_body (precision_of m) (n =? 0)%N
          (numeral (base_of c) (bool_decide (c = "X"%char)) n))).

Definition format_char (m : marker) (z : Z) : list ascii :=
  justify m false [] [ascii_of_N (Z.to_N (z `mod` 2 ^ 8))].

Definition format_string (m : marker) (s : list ascii) : list ascii :=
  justify m false [] (from_option (λ p, take p s) s (precision_of m)).

(** The conversions whose text is not modelled: the floating-point ones,
    [p], [n], [%] and the wide [lc] and [ls]. *)
Definition unmodelled (m : marker) : bool :=
  bool_decide (printf_expects (m_conv m) (m_length m) = Wide) || is_float_conv (m_conv m)
  || bool_decide (m_conv m ∈ lit "pn%").

(** [printf(d, v)] for the directive [m].  [other] is the text of the
    conversions that are not modelled. *)
Definition c_format (other : marker → c_val → list ascii) (m : marker) (v : c_val) :
    outcome (list ascii) :=
  let c := m_conv m in
  let len := length_text (m_length m) in
  if bool_decide (m_width m = lit "*") || bool_decide (m_prec m = Some (lit "*"))
     || negb (directive_defined m) then Undef BadFormat
  else if unmodelled m then Done (other m v)
  else
    match v with
    | V_int _ z =>
        if bool_decide (c ∈ lit "di") then Done (format_signed m (narrow_signed len z))
        else if bool_decide (c ∈ lit "ouxX") then
          if (z <? 0)%Z then Undef BadFormat
          else Done (format_unsigned m (Z.to_N (narrow_unsigned len z)))
        else if bool_decide (c = "c"%char) then Done (format_char m z)
        else Undef BadFormat
    | V_str s =>
        if bool_decide (c = "s"%char) then
          match s with
          | Some buf => Done (format_string m (c_str buf))
          | None => Undef NullDeref
          end
        else Undef BadFormat
    | _ => Undef BadFormat
    end.

(** The directive of a text: the marker the reader of [Parse] finds in it,
    when the text is that marker and nothing more. *)
Definition directive_of (d : list ascii) : option marker :=
  match parse_marker (cstr d) 0 with
  | Done (m, q) => if bool_decide (q = length d) then Some m else None
  | _ => None
  end.

Definition c_printf_format (other : marker → c_val → list ascii) (d : list ascii)
    (v : c_val) : outcome (list ascii) :=
  if bool_decide ("*"%char ∈ d) then Undef BadFormat
  else
    match directive_of d with
    | Some m => c_format other m v
    | None => Undef BadFormat
    end.

(** What [printf] prints for templates to look at: the conversions that are
    not modelled print nothing. *)
Definition c_text (d : string) (v : c_val) : outcome (list ascii) :=
  c_printf_format (λ _ _, []) (lit d) v.

Lemma c_format_terminates other m v : terminates (c_format other m v).
Proof. unfold c_format. repeat case_match; done. Qed.

(** [printf] as the drivers use it. *)
#[export] Program Instance c_printf (other : marker → c_val → list ascii) :
    NativeFormat | 20 :=
  {| native_format := c_printf_format other |}.
Next Obligation.
  intros other d v. unfold c_printf_format. repeat case_match; try done.
  apply c_format_terminates.
Qed.
Next Obligation.
  intros other d v Hd. unfold c_printf_format. by rewrite bool_decide_eq_true_2.
Qed.

(** The directives [Native.plain_format] has a text for: [d i u] with an
    integer length modifier, and [c s]; no flag, width or precision. *)
Definition plain_directives : list (ascii * length_mod) :=
  list_prod (lit "diu") [L_none; L_hh; L_h; L_l; L_ll; L_j; L_z; L_t]
  ++ list_prod (lit "cs") [L_none].

Definition plain_marker (m : marker) : bool :=
  bool_decide (m_flags m = [] ∧ m_width m = [] ∧ m_prec m = None)
  && bool_decide ((m_conv m, m_length m) ∈ plain_directives).

(** No value of an unsigned type is negative. *)
Definition fits (m : marker) (v : c_val) : Prop :=
  ∀ T z, v = V_int T z → m_conv m ∈ lit "ouxX" → (0 ≤ z)%Z.

(** The type the switch of the driver names in [va_arg] for a conversion and
    a length modifier, when it calls [printf] (display.h 250-326,
    362-459). *)
Definition fetched (c : ascii) (l : length_mod) : option c_type :=
  if conv_action (tag_of c l) is Print T then Some T else None.

(** ** Numerals *)

Lemma value_of_snoc b ds d : value_of b (ds ++ [d]) = (value_of b ds * b + d)%N.
Proof. unfold value_of. by rewrite foldl_snoc. Qed.

Lemma digits_go_acc b : ∀ fuel n acc, digits_go fuel b n acc = digits_go fuel b n [] ++ acc.
Proof.
  induction fuel as [|k IH]; intros n acc; simpl; [done|]. case_match; [done|].
  rewrite (IH _ (_ :: acc)), (IH _ [_]). by rewrite <- app_assoc.
Qed.

Lemma digits_go_step k b n :
  (b ≤ n)%N → digits_go (S k) b n [] = digits_go k b (n / b) [] ++ [n `mod` b]%N.
Proof. intros Hn. simpl. rewrite (proj2 (N.ltb_ge n b)) by done. apply digits_go_acc. Qed.

Lemma digits_go_small k b n : (n < b)%N → digits_go (S k) b n [] = [n].
Proof. intros Hn. simpl. by rewrite (proj2 (N.ltb_lt n b)). Qed.

Lemma halves k b n : (2 ≤ b)%N → (n < 2 ^ N.of_nat (S k))%N → (n / b < 2 ^ N.of_nat k)%N.
Proof.
  intros Hb Hn. rewrite Nat2N.inj_succ, N.pow_succ_r' in Hn.
  apply N.Div0.div_lt_upper_bound. nia.
Qed.

Lemma log2_fuel n : (n < 2 ^ N.of_nat (S (N.to_nat (N.log2 n))))%N.
Proof.
  rewrite Nat2N.inj_succ, N2Nat.id. destruct (decide (n = 0%N)) as [->|Hn]; [done|].
  apply N.log2_spec. lia.
Qed.

(** What holds of the digits of the numbers below the base, and of the
    digits of [n] when it holds of those of [n / b], holds of the digits of
    every number. *)
Lemma digits_in_ind (b : N) (P : N → list N → Prop) :
  (2 ≤ b)%N →
  (∀ n, (n < b)%N → P n [n]) →
  (∀ n ds, (b ≤ n)%N → P (n / b)%N ds → P n (ds ++ [n `mod` b]%N)) →
  ∀ n, P n (digits_in b n).
Proof.
  intros Hb Hsmall Hstep n. unfold digits_in. generalize (log2_fuel n).
  generalize (N.to_nat (N.log2 n)) as k. intros k. revert n.
  induction k as [|k IH]; intros n Hn; (destruct (decide (n < b)%N) as [Hlt|Hge];
    [rewrite digits_go_small by done; by apply Hsmall|]).
  - simpl in Hn. lia.
  - rewrite digits_go_step by lia. apply Hstep; [lia|]. by apply IH, halves.
Qed.

Lemma digits_in_small b n : (n < b)%N → digits_in b n = [n].
Proof. apply digits_go_small. Qed.

Lemma digits_in_value b n : (2 ≤ b)%N → value_of b (digits_in b n) = n.
Proof.
  intros Hb. apply (digits_in_ind b (λ n ds, value_of b ds = n)); [done|done|].
  intros m ds Hm IH. rewrite value_of_snoc, IH. pose proof (N.div_mod' m b). lia.
Qed.

Lemma digits_in_lt b n : (2 ≤ b)%N → Forall (λ d, d < b)%N (digits_in b n).
Proof.
  intros Hb. apply (digits_in_ind b (λ _ ds, Forall _ ds)); [done|by repeat constructor|].
  intros m ds Hm IH. apply Forall_app. split; [done|]. repeat constructor.
  apply N.mod_lt. lia.
Qed.

Lemma digits_in_length b n : (2 ≤ b)%N → 0 < length (digits_in b n).
Proof.
  intros Hb. apply (digits_in_ind b (λ _ ds, 0 < length ds)); [done|simpl; lia|].
  intros m ds _ _. rewrite length_app. simpl. lia.
Qed.

(** The numeral has no leading zero, but for the number 0. *)
Lemma digits_in_head b n : (2 ≤ b)%N → (0 < n)%N → ∃ d, head (digits_in b n) = Some d ∧ (0 < d)%N.
Proof.
  intros Hb. apply (digits_in_ind b (λ n ds, (0 < n)%N → ∃ d, head ds = Some d ∧ _)); [done|by eauto|].
  intros m ds Hm IH _. destruct IH as (d & Hd & ?).
  { apply N.div_str_pos. lia. }
  exists d. split; [|done]. by destruct ds.
Qed.

Lemma pretty_N_char_digit d : (d < 10)%N → pretty_N_char d = digit_char false d.
Proof. intros Hd. do 10 (destruct d as [|d] using N.peano_ind; [done|]). lia. Qed.

Lemma pretty_N_go_digits n s :
  (0 < n)%N → lit (pretty_N_go n s) = (digit_char false <$> digits_in 10 n) ++ lit s.
Proof.
  revert n s. apply (digits_in_ind 10 (λ n ds, ∀ s, (0 < n)%N →
    lit (pretty_N_go n s) = (digit_char false <$> ds) ++ lit s)); [done|..].
  - intros m Hm s Hpos. rewrite pretty_N_go_step by done.
    rewrite N.div_small, N.mod_small, pretty_N_go_0, pretty_N_char_digit by done. done.
  - intros m ds Hm IH s Hpos. rewrite pretty_N_go_step by done.
    rewrite IH by (apply N.div_str_pos; lia). rewrite fmap_app, <- app_assoc. simpl.
    rewrite pretty_N_char_digit; [done|]. apply N.mod_lt. lia.
Qed.

(** The decimal numeral is the one of stdpp's [pretty]. *)
Lemma numeral_pretty n : numeral 10 false n = lit (pretty n).
Proof.
  unfold pretty, pretty_N, numeral. case_decide as Hn; [by subst|].
  rewrite pretty_N_go_digits by lia. by rewrite app_nil_r.
Qed.

Lemma pretty_Z_numeral z :
  lit (pretty z) = (if (z <? 0)%Z then ["-"%char] else []) ++ numeral 10 false (Z.abs_N z).
Proof. destruct z as [|p|p]; [done|apply eq_sym, numeral_pretty|]. simpl. by rewrite numeral_pretty. Qed.

(** The decimal numeral of a number is read back as the number: the
    reader of widths and precisions and the writer of numerals agree. *)
Lemma number_digit w d :
  (d < 10)%N → number (w ++ [digit_char false d]) = 10 * number w + N.to_nat d.
Proof.
  intros Hd. unfold number. rewrite foldl_snoc. f_equal.
  do 10 (destruct d as [|d _] using N.peano_ind; [done|]). lia.
Qed.

Lemma number_numeral n : number (numeral 10 false n) = N.to_nat n.
Proof.
  unfold numeral. apply (digits_in_ind 10 (λ n ds, number (digit_char false <$> ds) = N.to_nat n));
    [done|intros m Hm; by apply (number_digit [])|].
  intros m ds Hm IH. rewrite fmap_app. simpl. rewrite number_digit, IH by (apply N.mod_lt; lia).
  pose proof (N.div_mod' m 10). lia.
Qed.

(** ** The field *)

Lemma justify_length m zeros prefix body :
  length (justify m zeros prefix body) = width_of m `max` (length prefix + length body).
Proof.
  unfold justify. repeat case_match; rewrite !length_app, length_replicate; lia.
Qed.

Lemma int_body_length prec zero ds :
  length (int_body prec zero ds)
  = if zero && bool_decide (default 1 prec = 0) then 0 else default 1 prec `max` length ds.
Proof. unfold int_body. case_match; [done|]. rewrite length_app, length_replicate. lia. Qed.

(** The modelled conversions fill the field. *)
Lemma c_format_justified other m v text :
  unmodelled m = false → c_format other m v ⇓ text →
  ∃ zeros prefix body, text = justify m zeros prefix body.
Proof.
  intros Hm. unfold c_format, format_signed, format_unsigned, format_char, format_string.
  rewrite Hm. repeat case_match; intros [= <-]; eauto.
Qed.

Lemma c_format_width other m v text :
  unmodelled m = false → c_format other m v ⇓ text → width_of m ≤ length text.
Proof.
  intros Hm Hf. destruct (c_format_justified _ _ _ _ Hm Hf) as (z & p & b & ->).
  rewrite justify_length. lia.
Qed.


(** ** The directive of a marker *)

(** Refutes a decidable hypothesis that computes to false. *)
Ltac refute H := exfalso; revert H; by apply (bool_decide_unpack (¬ _)).

Lemma star_in_marker m :
  wf_marker m → "*"%char ∈ marker_text m → m_width m = lit "*" ∨ m_prec m = Some (lit "*").
Proof.
  intros (Hfl & Hw & Hp & Hc & _). unfold marker_text, marker_body.
  rewrite elem_of_cons, !elem_of_app. intros [?|[Hin|[Hin|[Hin|[Hin|Hin]]]]]; [done|..].
  - rewrite Forall_forall in Hfl. apply Hfl in Hin. refute Hin.
  - destruct Hw as [?|[Hd _]]; [by left|]. unfold digits in Hd.
    rewrite Forall_forall in Hd. by apply Hd in Hin.
  - destruct (m_prec m) as [d|]; [|by apply elem_of_nil in Hin].
    destruct (Hp d eq_refl) as [->|Hd]; [by right|]. apply elem_of_cons in Hin as [?|Hin]; [done|].
    unfold digits in Hd. rewrite Forall_forall in Hd. by apply Hd in Hin.
  - destruct (m_length m); refute Hin.
  - apply list_elem_of_singleton in Hin. rewrite <- Hin in Hc. refute Hc.
Qed.

Lemma directive_of_marker m : wf_marker m → directive_of (marker_text m) = Some m.
Proof.
  intros Hm. unfold directive_of.
  rewrite (parse_marker_exact (cstr (marker_text m)) 0 m); [|apply (has_at_middle [])|done].
  by rewrite bool_decide_eq_true_2.
Qed.

(** The text of a marker is formatted as the marker. *)
Lemma c_printf_marker other m v :
  wf_marker m → c_printf_format other (marker_text m) v = c_format other m v.
Proof.
  intros Hm. unfold c_printf_format. rewrite directive_of_marker by done.
  case_bool_decide as Hs; [|done]. unfold c_format.
  destruct (star_in_marker m Hm Hs) as [->| ->]; [done|]. by rewrite orb_true_r.
Qed.

(** ** The plain directives *)

Lemma int_body_default zero ds : 0 < length ds → int_body None zero ds = ds.
Proof.
  intros Hds. unfold int_body. simpl. rewrite andb_false_r.
  by replace (1 - length ds) with 0 by lia.
Qed.

Lemma numeral_length b upper n : (2 ≤ b)%N → 0 < length (numeral b upper n).
Proof. intros Hb. unfold numeral. rewrite length_fmap. by apply digits_in_length. Qed.

Section Plain.
Context (m : marker) (Hfl : m_flags m = []) (Hw : m_width m = []) (Hp : m_prec m = None).

Lemma justify_plain zeros prefix body : justify m zeros prefix body = prefix ++ body.
Proof using Hfl Hw. unfold justify, has_flag, width_of. by rewrite Hfl, Hw. Qed.

Lemma format_signed_plain z : format_signed m z = lit (pretty z).
Proof using Hfl Hw Hp.
  unfold format_signed, sign_of, precision_of, has_flag. rewrite justify_plain, Hfl, Hp. simpl.
  by rewrite pretty_Z_numeral, int_body_default by by apply numeral_length.
Qed.

Lemma format_unsigned_plain z :
  m_conv m = "u"%char → (0 ≤ z)%Z → format_unsigned m (Z.to_N z) = lit (pretty z).
Proof using Hfl Hw Hp.
  intros Hc Hz. unfold format_unsigned, hex_prefix, alternate_octal, precision_of, has_flag.
  rewrite justify_plain, Hfl, Hp, Hc. simpl. rewrite int_body_default by by apply numeral_length.
  rewrite pretty_Z_numeral, (proj2 (Z.ltb_ge z 0)) by done. simpl. f_equal. lia.
Qed.

Lemma format_char_plain z : format_char m z = [ascii_of_N (Z.to_N (z `mod` 2 ^ 8))].
Proof using Hfl Hw. unfold format_char. by rewrite justify_plain. Qed.

Lemma format_string_plain s : format_string m s = s.
Proof using Hfl Hw Hp. unfold format_string, precision_of. by rewrite justify_plain, Hp. Qed.

End Plain.

Lemma narrow_unsigned_nonneg len z : (0 ≤ z)%Z → (0 ≤ narrow_unsigned len z)%Z.
Proof. intros Hz. unfold narrow_unsigned. repeat case_match; try done; by apply Z.mod_pos_bound. Qed.

(** The two integer cases of a plain directive, by conversion to the
    lemmas of the section above. *)
Ltac plain_signed :=
  lazymatch goal with
  | |- c_format _ ?m _ = _ => exact (f_equal Done (format_signed_plain m eq_refl eq_refl eq_refl _))
  end.

Ltac plain_unsigned Hfit :=
  lazymatch goal with
  | |- c_format ?other ?m (V_int ?T ?z) = _ =>
      let Hz := fresh "Hz" in
      assert (0 ≤ z)%Z as Hz by (eapply Hfit; [done|by apply (bool_decide_unpack _)]);
      etrans; [|exact (f_equal Done (format_unsigned_plain m eq_refl eq_refl eq_refl _ eq_refl
                                       (narrow_unsigned_nonneg _ z Hz)))];
      change (c_format other m (V_int T z))
        with (if (z <? 0)%Z then Undef BadFormat
              else Done (format_unsigned m (Z.to_N (narrow_unsigned (length_text (m_length m)) z))));
      by rewrite (proj2 (Z.ltb_ge z 0) Hz)
  end.

(** On its directives [Native.plain_format] writes what [printf] writes. *)
Lemma c_format_plain other other' m v :
  plain_marker m → fits m v → c_format other m v = plain_format other' (marker_text m) v.
Proof.
  destruct m as [fl w pr l c]. unfold plain_marker. simpl.
  intros [(-> & -> & ->)%bool_decide_unpack Hin%bool_decide_unpack]%andb_prop_elim Hfit.
  unfold plain_directives in Hin. simpl in Hin.
  repeat (apply elem_of_cons in Hin as [[= -> ->]|Hin]); [..|by apply elem_of_nil in Hin].
  all: destruct v as [T z| | |[buf|]| |]; try done.
  all: first [plain_signed | plain_unsigned Hfit].
Qed.

(** ** [printf] under the drivers *)

(** The tables give every conversion but [n] a type to fetch, whatever the
    length modifier. *)
Lemma fetched_Print c l T : fetched c l = Some T → conv_action (tag_of c l) = Print T.
Proof. unfold fetched. destruct (conv_action _); naive_solver. Qed.

Lemma fetched_is_Some m :
  wf_marker m → m_conv m ≠ "n"%char → is_Some (fetched (m_conv m) (m_length m)).
Proof.
  intros (_ & _ & _ & Hc & _). generalize (m_length m) as l. revert Hc.
  generalize (m_conv m) as c. intros c Hc l. revert c l Hc.
  apply (directives_ind (λ c l, c ≠ "n"%char → is_Some (fetched c l))).
  by apply (bool_decide_unpack _).
Qed.

Section Drivers.
Context `{ArgModel} (other : marker → c_val → list ascii).

Lemma display_vprint_c_format m v ap o mem :
  wf_marker m → printf_expects (m_conv m) (m_length m) = Arg (type_of v) →
  verdict (m_conv m) (m_length m) = Same →
  observe (@display_vprint _ (c_printf other) (Some (cstr (marker_text m))) (v :: ap) o mem)
  = (text ← c_format other m v; Done (1%Z, o ++ text, ap, mem)).
Proof.
  intros Hm He Hv. rewrite display_vprint_conforming by done. simpl.
  by rewrite c_printf_marker.
Qed.

End Drivers.

(** ** Theorems *)

(** The digits of a number in a base stand for the number, and each is a
    digit of the base. *)
Theorem digits_in_sound b n :
  (2 ≤ b)%N → value_of b (digits_in b n) = n ∧ Forall (λ d, d < b)%N (digits_in b n).
Proof. intros Hb. split; [by apply digits_in_value|by apply digits_in_lt]. Qed.

(** C19. Flags, width and precision are replayed: on the text of a marker that
    conforms, with an argument of the type [printf] expects, the call writes
    what [printf] writes for the marker's flags, width, precision, length
    modifier and conversion, and returns 1; it is undefined where the
    directive is. *)
Theorem display_vprint_formats `{ArgModel} other m T v ap o mem :
  wf_marker m → printf_expects (m_conv m) (m_length m) = Arg T →
  verdict (m_conv m) (m_length m) = Same → type_of v = T →
  observe (@display_vprint _ (c_printf other) (Some (cstr (marker_text m))) (v :: ap) o mem)
  = (text ← c_format other m v; Done (1%Z, o ++ text, ap, mem)).
Proof. intros Hm He Hv <-. by apply display_vprint_c_format. Qed.

(** The field is filled: a call on a marker of an integer, character or
    string conversion that returns has written at least as many characters
    as the marker's width. *)
Theorem display_vprint_fills_field `{ArgModel} other m v ap o mem n out ap' mem' :
  wf_marker m → printf_expects (m_conv m) (m_length m) = Arg (type_of v) →
  verdict (m_conv m) (m_length m) = Same → unmodelled m = false →
  observe (@display_vprint _ (c_printf other) (Some (cstr (marker_text m))) (v :: ap) o mem)
    ⇓ (n, out, ap', mem') →
  length o + width_of m ≤ length out.
Proof.
  intros Hm He Hv Hmod. rewrite display_vprint_c_format by done.
  intros (text & Hf & [= _ <- _ _])%bind_Done. rewrite length_app.
  apply c_format_width in Hf; [lia|done].
Qed.

(** C37. The scanner accepts what [printf] does not define: a marker of the
    grammar whose flags or precision have no meaning for its conversion is
    handed to [printf] as it is, and the call is undefined. *)
Theorem display_vprint_undefined_directive `{ArgModel} other m v ap o mem :
  wf_marker m → printf_expects (m_conv m) (m_length m) = Arg (type_of v) →
  verdict (m_conv m) (m_length m) = Same → directive_defined m = false →
  observe (@display_vprint _ (c_printf other) (Some (cstr (marker_text m))) (v :: ap) o mem)
    ↯ BadFormat.
Proof.
  intros Hm He Hv Hdef. rewrite display_vprint_c_format by done. unfold c_format.
  by rewrite Hdef, !orb_true_r.
Qed.

(** C39. A length modifier [printf] gives no meaning to is no obstacle to the
    scanner and the driver: every marker of the grammar but [%n] is given a
    type by the tables, also [%Ld], [%hhf], [%lp] or [%hs]; an argument of
    that type is fetched and handed to [printf] under the marker as it
    stands, and the call is undefined there. *)
Theorem display_vprint_meaningless_length `{ArgModel} other m :
  wf_marker m → m_conv m ≠ "n"%char →
  printf_expects (m_conv m) (m_length m) = NoMeaning →
  ∃ T, fetched (m_conv m) (m_length m) = Some T
    ∧ ∀ v ap o mem, compatible T v = true →
        observe (@display_vprint _ (c_printf other) (Some (cstr (marker_text m))) (v :: ap) o mem)
          ↯ BadFormat.
Proof.
  intros Hm Hn He. destruct (fetched_is_Some m Hm Hn) as [T HT]. exists T. split; [done|].
  intros v ap o mem Hv. rewrite (display_vprint_one_marker m T) by by try apply fetched_Print.
  simpl. rewrite c_printf_marker by done. unfold c_format, directive_defined.
  by rewrite He, !andb_false_r, orb_true_r.
Qed.

(** ** The theorems at concrete directives *)

Lemma digits_in_sound_witness :
  value_of 16 (digits_in 16 255) = 255%N ∧ Forall (λ d, d < 16)%N (digits_in 16 255).
Proof. by apply digits_in_sound. Defined.

Lemma display_vprint_formats_witness :
  observe (@display_vprint strict (c_printf (λ _ _, []))
             (Some (cstr (marker_text (Marker (lit "0") (lit "5") None L_none "d"))))
             [V_int T_int (-42)] [] ∅)
  ⇓ (1%Z, lit "-0042", [], ∅).
Proof.
  apply (display_vprint_formats (H := strict) (λ _ _, [])
           (Marker (lit "0") (lit "5") None L_none "d") T_int (V_int T_int (-42)) [] [] ∅);
    [by apply (bool_decide_unpack _)|reflexivity..].
Defined.

Lemma display_vprint_fills_field_witness :
  length (lit "[") + width_of (Marker (lit "-") (lit "4") (Some (lit "2")) L_none "s")
  ≤ length (lit "[he  ").
Proof.
  apply (display_vprint_fills_field (H := strict) (λ _ _, [])
           (Marker (lit "-") (lit "4") (Some (lit "2")) L_none "s")
           (V_str (Some (cstr (lit "hello")))) [] (lit "[") ∅ 1%Z (lit "[he  ") [] ∅);
    [by apply (bool_decide_unpack _)|reflexivity..].
Defined.

Lemma display_vprint_undefined_directive_witness :
  observe (@display_vprint strict (c_printf (λ _ _, []))
             (Some (cstr (marker_text (Marker (lit "#") [] None L_none "d"))))
             [V_int T_int 5] [] ∅)
  ↯ BadFormat.
Proof.
  apply (display_vprint_undefined_directive (H := strict));
    [by apply (bool_decide_unpack _)|reflexivity..].
Defined.

(** A template with flags, widths and precisions, through the driver. *)
Example formatted_line :
  observe (@display_vprint strict (c_printf (λ _ _, []))
             (Some (cstr (lit "[%5d|%-4.2s|%#x|%+.3d|%#o]")))
             [V_int T_int 42; V_str (Some (cstr (lit "hello"))); V_int T_unsigned_int 255;
              V_int T_int 7; V_int T_unsigned_int 8] [] ∅)
  ⇓ (5%Z, lit "[   42|he  |0xff|+007|010]", [], ∅).
Proof. by vm_compute. Qed.

(** A precision with [c] is undefined; the text before it has been
    written when [printf] is called. *)
Example undefined_precision :
  observe (@display_vprint strict (c_printf (λ _ _, []))
             (Some (cstr (lit "x%.3c"))) [V_int T_int 65] [] ∅)
  ↯ BadFormat.
Proof. by vm_compute. Qed.

Lemma display_vprint_meaningless_length_witness :
  ∃ T, fetched "d" L_L = Some T
    ∧ ∀ v ap o mem, @compatible lp64 T v = true →
        observe (@display_vprint lp64 (c_printf (λ _ _, []))
                   (Some (cstr (marker_text (Marker [] [] None L_L "d")))) (v :: ap) o mem)
          ↯ BadFormat.
Proof.
  apply (display_vprint_meaningless_length (H := lp64) (λ _ _, []) (Marker [] [] None L_L "d"));
    [by apply (bool_decide_unpack _)|done|reflexivity].
Defined.

(** [%Ld] with an [int]: the scanner types it as [%d]. *)
Example meaningless_length :
  fetched "d" L_L = Some T_int
  ∧ observe (@display_vprint strict (c_printf (λ _ _, []))
               (Some (cstr (lit "%Ld"))) [V_int T_int 5] [] ∅)
    ↯ BadFormat.
Proof. by vm_compute. Qed.
