(* ===== verification/Scenarios.v ===== *)
(** * Runs on concrete templates

    The two scenarios of the documentation, and the templates that show what
    the two passes do outside the grammar: a malformed marker before a valid
    one, an indirect width, a template that ends inside a marker.  Each is
    the model evaluated, with [strict] argument typing and the plain
    [printf] fragment of [Native.demo_printf]. *)

From Stdlib Require Import Ascii ZArith Lia.
From stdpp Require Import base tactics option list numbers strings gmap.
From S2P Require Import Prelude CString Types Scanner VaList Native Driver.
From S2P Require Import Contract.

(** ** Definitions *)

(** An object that renders itself as [text] and reports [ret]. *)
Definition object (text : string) (ret : Z) : display_t :=
  {| display_fn := Some (λ _, Returns (lit text, ret)); fdisplay_fn := None;
     sndisplay_fn := None; self := Some 1%N |}.

(** [display_vprint] on a string literal, from an empty stdout: the value
    returned, the text written and the arguments left. *)
Definition run (format : string) (ap : va_list) : outcome (Z * list ascii * va_list) :=
  fst <$> observe (@display_vprint strict demo_printf (Some (cstr (lit format))) ap [] ∅).

Definition runln (format : string) (ap : va_list) : outcome (Z * list ascii * va_list) :=
  fst <$> observe (@display_vprintln strict demo_printf (Some (cstr (lit format))) ap [] ∅).

(** The cells the scanner returns for a string literal. *)
Definition scan (format : string) : outcome (list format_spec_t) :=
  data <$> find_format_specifiers (cstr (lit format)).

(** ** The documented scenarios *)

(** The first documented scenario: two native markers and an object, three
    fields. *)
Example scenario_fields :
  run "%d-%s {} end"
    [V_int T_int 5; V_str (Some (cstr (lit "ok"))); V_display (Some (object "OK" 2))]
  ⇓ (3%Z, lit "5-ok OK end", []).
Proof. by vm_compute. Qed.

(** The second documented scenario: [%%] in plain text, no field. *)
Example scenario_percent : run "100%% done" [] ⇓ (0%Z, lit "100% done", []).
Proof. by vm_compute. Qed.

(** The line variant adds the newline. *)
Example scenario_line : runln "hi" [] ⇓ (0%Z, lit "hi" ++ ["010"%char], []).
Proof. by vm_compute. Qed.

(** A null object and a failing object do not abort the call; the failing
    one has written its text. *)
Example scenario_objects :
  run "a{}b{}c" [V_display None; V_display (Some (object "par" (-1)))]
  ⇓ (0%Z, lit "abparc", []).
Proof. by vm_compute. Qed.

(** ** Outside the grammar *)

(** A malformed marker before a valid one: the scanner drops [%q], the
    driver prints the argument of [%d] where [%q] stands, and then [%d]
    itself as text. *)
Example desync_malformed : run "%q %d" [V_int T_int 5] ⇓ (1%Z, lit "5 %d", []).
Proof. by vm_compute. Qed.

(** After such a shift the driver advances by the length of a marker that is
    not the one under the offset, and leaves the string. *)
Example desync_overrun : run "%q%5%%10d%k" [V_int T_int 7] ↯ OobRead.
Proof. by vm_compute. Qed.

(** An indirect width is accepted by the scanner, but the driver hands
    [printf] one argument only. *)
Example indirect_width : run "%*d" [V_int T_int 5] ↯ BadFormat.
Proof. by vm_compute. Qed.

(** A template that ends inside a marker is read past its terminator. *)
Example dangling_percent : run "100%" [] ↯ OobRead.
Proof. by vm_compute. Qed.

(** [%5%] is a field that prints nothing and takes no argument. *)
Example percent_conversion : run "%5%|" [] ⇓ (1%Z, lit "|", []).
Proof. by vm_compute. Qed.

(** The length modifiers [hl] and [lh] are accepted and typed as [int]. *)
Example mixed_length :
  scan "%hld" ⇓ [{| substr := cstr (lit "%hld"); type := TYPE_INT |}].
Proof. by vm_compute. Qed.
