(* ===== verification/Objects.v ===== *)
(** * Displayable objects: the documented example and the self reference

    The usage example of the header (display.h 5-41): a struct [point_t]
    whose first field is its [display_t], the function [display_point] that
    prints a point from the pointer it is given, and [main], which fills an
    object on its stack and prints it with [println].

    Here the objects live in a store, a finite map from addresses to
    structs.  The capability of a stored object names its function (a C
    function pointer is the name of a function of the program) and holds its
    self reference as an address.  [as_display] is the cast of the object's
    address to [display_t*]: the capability the driver then sees, with the
    function resolved to what it does on the store.

    The theorems are the contract on [self]: the driver prints the point that
    [self] addresses, whatever object was passed; when [self] addresses no
    point the call has undefined behaviour; when it is null the field is
    skipped and the function's own null check is never reached. *)

From Stdlib Require Import Ascii ZArith Lia.
From stdpp Require Import base tactics option list numbers strings pretty gmap.
From S2P Require Import Prelude CString Types Scanner VaList Native Driver FDriver.
From S2P Require Import Template Render ScannerRefine Reading DriverRefine Api Contract.

(** ** Definitions *)

(** The functions of the example a function pointer can name, by the type
    of the pointer: [display_point] for [display_fn]; the example has no
    function of the type of [fdisplay_fn] or of [sndisplay_fn]. *)
Inductive cfun : Set := F_display_point.
Inductive ffun : Set := .
Inductive sfun : Set := .

#[export] Instance cfun_eq_dec : EqDecision cfun.
Proof. solve_decision. Defined.

#[export] Instance ffun_eq_dec : EqDecision ffun.
Proof. intros []. Defined.

#[export] Instance sfun_eq_dec : EqDecision sfun.
Proof. intros []. Defined.

(** A [display_t] as it lies in an object: three function pointers and the
    self pointer (display.h 60-66). *)
Record display_cell : Type := Cap {
  c_display_fn : option cfun;
  c_fdisplay_fn : option ffun;
  c_sndisplay_fn : option sfun;
  c_self : ptr;
}.

#[export] Instance display_cell_eq_dec : EqDecision display_cell.
Proof. solve_decision. Defined.

(** [point_t] (display.h 11-16): the capability first, then the
    coordinates. *)
Record point_t : Type := Point {
  d : display_cell;
  x : Z;
  y : Z;
}.

#[export] Instance point_t_eq_dec : EqDecision point_t.
Proof. solve_decision. Defined.

(** The objects of the caller, by address. *)
Abbreviation objects := (gmap loc point_t).

(** What [printf("(%d,%d)", x, y)] writes. *)
Definition printf_point (px py : Z) : list ascii :=
  lit "(" ++ lit (pretty px) ++ lit "," ++ lit (pretty py) ++ lit ")".

(** [display_point] (display.h 18-24): [-1] for a null pointer; otherwise
    the pointer is read as a [point_t*], which is undefined when no point is
    there, and the result is that of [printf], the number of characters
    written. *)
Definition display_point (objs : objects) (self : ptr) : call (list ascii * Z) :=
  match self with
  | None => Returns ([], (-1)%Z)
  | Some l =>
      match objs !! l with
      | Some p =>
          let text := printf_point (x p) (y p) in
          Returns (text, Z.of_nat (length text))
      | None => Faults OobRead
      end
  end.

(** A call through the function pointer [display_fn] (display.h 477), by
    the function it names. *)
Definition call_cfun (objs : objects) (f : cfun) (self : loc) : call (list ascii * Z) :=
  match f with
  | F_display_point => display_point objs (Some self)
  end.

Definition call_ffun (f : ffun) : loc → FILE → call (list ascii * Z) :=
  match f with end.

Definition call_sfun (f : sfun) : loc → nat → call (list ascii * Z) :=
  match f with end.

(** The object pointer read as a [display_t*] (display.h 471): the first
    field of the object stored there, each function pointer resolved to the
    function it names. *)
Definition as_display (objs : objects) (l : loc) : option display_t :=
  p ← objs !! l;
  Some {| display_fn := call_cfun objs <$> c_display_fn (d p);
          fdisplay_fn := call_ffun <$> c_fdisplay_fn (d p);
          sndisplay_fn := call_sfun <$> c_sndisplay_fn (d p);
          self := c_self (d p) |}.

(** The argument [&a] of a render call, for an object stored at [l]. *)
Definition addr_of (objs : objects) (l : loc) : c_val := V_display (as_display objs l).

(** [point_t a = {0}]. *)
Definition point_zero : point_t := Point (Cap None None None None) 0 0.

(** [a.x = v], [a.y = v], [a.d.display_fn = f], [a.d.self = s]. *)
Definition set_x (v : Z) (p : point_t) : point_t := Point (d p) v (y p).

Definition set_y (v : Z) (p : point_t) : point_t := Point (d p) (x p) v.

Definition set_display_fn (f : option cfun) (p : point_t) : point_t :=
  Point (Cap f (c_fdisplay_fn (d p)) (c_sndisplay_fn (d p)) (c_self (d p))) (x p) (y p).

Definition set_self (s : ptr) (p : point_t) : point_t :=
  Point (Cap (c_display_fn (d p)) (c_fdisplay_fn (d p)) (c_sndisplay_fn (d p)) s) (x p) (y p).

(** The object [a] of [main] after its five assignments, at the address
    [a]. *)
Definition main_objects (a : loc) : objects :=
  let objs := <[a := point_zero]> ∅ in
  let objs := alter (set_x 2) a objs in
  let objs := alter (set_y 3) a objs in
  let objs := alter (set_display_fn (Some F_display_point)) a objs in
  alter (set_self (Some a)) a objs.

Section Main.
Context `{ArgModel} `{NativeFormat}.

(** [main] (display.h 26-40): the object is set up, printed with [println],
    and [main] returns 0.  The result is that value and the text on
    stdout. *)
Definition main (a : loc) : outcome (Z * list ascii) :=
  let objs := main_objects a in
  '(_, st) ← println (Some (cstr (lit "Point = {}"))) [addr_of objs a] [] ∅;
  Done (0%Z, out st).

(** [main] as a caller of the interface of the header, whatever implements
    it. *)
Definition main_on `{!DisplayApi} (a : loc) : outcome (Z * list ascii) :=
  let objs := main_objects a in
  '(_, st) ← d_println (Some (cstr (lit "Point = {}"))) [addr_of objs a] [] ∅;
  Done (0%Z, out st).

(** The same object printed to a stream, for which it has no function. *)
Definition main_stream (a : loc) (file : FILE) : outcome (Z * list ascii) :=
  let objs := main_objects a in
  '(n, st) ← fprintln (Some file) (Some (cstr (lit "Point = {}"))) [addr_of objs a] [] ∅;
  Done (n, out st).

End Main.

(** An object upholds the contract when its self reference is its own
    address. *)
Definition self_aliased (objs : objects) (l : loc) : Prop :=
  ∃ p, objs !! l = Some p ∧ c_self (d p) = Some l.

#[export] Instance self_aliased_dec objs l : Decision (self_aliased objs l).
Proof.
  refine (cast_if (decide ((objs !! l) ≫= (c_self ∘ d) = Some l)));
    abstract (unfold self_aliased; destruct (objs !! l) as [p|]; naive_solver).
Defined.

(** ** Facts *)

Lemma printf_point_length px py : Z.of_nat (length (printf_point px py)) ≠ (-1)%Z.
Proof. lia. Qed.

Lemma main_objects_lookup a :
  main_objects a !! a = Some (Point (Cap (Some F_display_point) None None (Some a)) 2 3).
Proof.
  unfold main_objects. cbv zeta. by rewrite !lookup_alter_eq, lookup_insert_eq.
Qed.

Lemma as_display_Some objs l p :
  objs !! l = Some p →
  as_display objs l
  = Some (Build_display_t (call_cfun objs <$> c_display_fn (d p))
            (call_ffun <$> c_fdisplay_fn (d p)) (call_sfun <$> c_sndisplay_fn (d p))
            (c_self (d p))).
Proof. intros Hp. unfold as_display. by rewrite Hp. Qed.

Section Aliasing.
Context `{ArgModel} `{NativeFormat}.
Context (objs : objects).
Implicit Types (l : loc) (p q : point_t) (ap : va_list) (o : list ascii) (m : gmap loc Z).

(** The renderer on the address of a stored object. *)
Lemma render_braces_addr_of l p ap w :
  objs !! l = Some p → w_args w = addr_of objs l :: ap →
  compatible T_display_ptr (addr_of objs l) = true →
  render_braces w
  = match c_display_fn (d p), c_self (d p) with
    | Some F_display_point, Some s =>
        '(text, _) ← of_call (display_point objs (Some s));
        Done (shown (write text (take_arg ap w)))
    | _, _ => Done (take_arg ap w)
    end.
Proof.
  intros Hp Hw Hv. unfold render_braces. rewrite Hw. simpl. rewrite Hv. simpl.
  unfold addr_of. rewrite (as_display_Some _ _ _ Hp). simpl.
  destruct (c_display_fn (d p)) as [[]|], (c_self (d p)) as [s|]; simpl; try done.
  unfold display_point. by destruct (objs !! s).
Qed.

(** One [{}] field with the address of a stored object. *)
Lemma observe_addr_of l p ap o m :
  objs !! l = Some p → compatible T_display_ptr (addr_of objs l) = true →
  observe (display_vprint (Some (cstr (lit "{}"))) (addr_of objs l :: ap) o m)
  = match c_display_fn (d p), c_self (d p) with
    | Some F_display_point, Some s =>
        '(text, _) ← of_call (display_point objs (Some s));
        Done (1%Z, o ++ text, ap, m)
    | _, _ => Done (0%Z, o, ap, m)
    end.
Proof.
  intros Hp Hv. unfold observe.
  rewrite (display_vprint_render [Braces] (conj I I)). simpl.
  rewrite (render_braces_addr_of l p ap) by done.
  destruct (c_display_fn (d p)) as [[]|], (c_self (d p)) as [s|]; simpl; try done.
  unfold display_point. by destruct (objs !! s).
Qed.

(** C14. The driver prints the point that the self reference addresses: for
    an object at [l] whose function is [display_point] and whose [self] is
    the address of a point [q], a [{}] field writes the coordinates of [q]
    and counts 1, whether or not [q] is the object passed. *)
Theorem display_point_prints_self l s p q ap o m :
  objs !! l = Some p → c_display_fn (d p) = Some F_display_point → c_self (d p) = Some s →
  objs !! s = Some q → compatible T_display_ptr (addr_of objs l) = true →
  observe (display_vprint (Some (cstr (lit "{}"))) (addr_of objs l :: ap) o m)
  ⇓ (1%Z, o ++ printf_point (x q) (y q), ap, m).
Proof.
  intros Hp Hf Hs Hq Hv. rewrite (observe_addr_of l p) by done.
  rewrite Hf, Hs. unfold display_point. by rewrite Hq.
Qed.

(** C15. A self reference that addresses no point: the function reads the
    coordinates outside any object, and the call has undefined behaviour. *)
Theorem display_point_dangling_self l s p ap o m :
  objs !! l = Some p → c_display_fn (d p) = Some F_display_point → c_self (d p) = Some s →
  objs !! s = None → compatible T_display_ptr (addr_of objs l) = true →
  observe (display_vprint (Some (cstr (lit "{}"))) (addr_of objs l :: ap) o m) ↯ OobRead.
Proof.
  intros Hp Hf Hs Hq Hv. rewrite (observe_addr_of l p) by done.
  rewrite Hf, Hs. unfold display_point. by rewrite Hq.
Qed.

(** An object whose self reference is null is skipped by the driver's own
    check: nothing is written and nothing is counted, so the null check of
    [display_point] is not what protects the call. *)
Theorem display_point_null_self l p ap o m :
  objs !! l = Some p → c_self (d p) = None →
  compatible T_display_ptr (addr_of objs l) = true →
  observe (display_vprint (Some (cstr (lit "{}"))) (addr_of objs l :: ap) o m)
  ⇓ (0%Z, o, ap, m).
Proof.
  intros Hp Hs Hv. rewrite (observe_addr_of l p) by done.
  rewrite Hs. by destruct (c_display_fn (d p)) as [[]|].
Qed.

End Aliasing.

(** The template of [main]. *)
Definition main_template : list item := (Lit <$> lit "Point = ") ++ [Braces].

Lemma main_template_wf : wf_template main_template.
Proof. by apply (bool_decide_unpack _). Qed.

(** The example, proved from the laws of the interface: with every
    implementation [main] writes [Point = (2,3)] and a newline. *)
Lemma main_on_output `{DisplayApi} (a : loc) :
  compatible T_display_ptr (addr_of (main_objects a) a) = true →
  main_on a ⇓ (0%Z, lit "Point = (2,3)" ++ ["010"%char]).
Proof.
  intros Hv. unfold main_on.
  rewrite (d_println_renders (lit "Point = {}") main_template)
    by (by apply (wf_reading main_template), main_template_wf
        || apply wf_template_clean, main_template_wf).
  unfold main_template. rewrite render_app, render_literals. simpl.
  rewrite (render_braces_addr_of _ a _ [] _ (main_objects_lookup a)) by done.
  cbn [d c_display_fn c_self]. unfold display_point. rewrite main_objects_lookup.
  done.
Qed.

(** [main] calls the [println] of the header. *)
Lemma main_on_header `{ArgModel} `{NativeFormat} (a : loc) : main a = main_on a.
Proof. unfold main, main_on. by rewrite d_println_header. Qed.

(** The documented example: [main] writes [Point = (2,3)] and a newline,
    at whatever address its object lives. *)
Theorem main_output `{ArgModel} `{NativeFormat} (a : loc) :
  compatible T_display_ptr (addr_of (main_objects a) a) = true →
  main a ⇓ (0%Z, lit "Point = (2,3)" ++ ["010"%char]).
Proof. rewrite main_on_header. apply main_on_output. Qed.

(** The object of [main] upholds the contract. *)
Lemma main_objects_self_aliased a : self_aliased (main_objects a) a.
Proof. eexists. by rewrite main_objects_lookup. Qed.

(** An object that upholds the contract prints its own coordinates. *)
Lemma display_point_self_aliased `{ArgModel} `{NativeFormat} objs l p ap o m :
  self_aliased objs l → objs !! l = Some p → c_display_fn (d p) = Some F_display_point →
  compatible T_display_ptr (addr_of objs l) = true →
  observe (display_vprint (Some (cstr (lit "{}"))) (addr_of objs l :: ap) o m)
  ⇓ (1%Z, o ++ printf_point (x p) (y p), ap, m).
Proof.
  intros (p' & Hp' & Hs) Hp Hf Hv. assert (p' = p) as -> by congruence. rewrite (observe_addr_of objs l p) by done.
  rewrite Hf, Hs. unfold display_point. by rewrite Hp.
Qed.

(** The object of the example has no function for streams: printed with
    [fprintln] it is skipped, and the call reports no field. *)
Example main_stream_skips :
  @main_stream strict demo_printf 1%N 1%N ⇓ (0%Z, lit "Point = " ++ ["010"%char]).
Proof. by vm_compute. Qed.

(** ** The theorems at concrete stores *)

(** Two points: the first has the function, and its self reference
    addresses the second. *)
Definition crossed : objects :=
  {[ 1%N := Point (Cap (Some F_display_point) None None (Some 2%N)) 2 3;
     2%N := Point (Cap None None None None) 7 8 ]}.

(** A point whose self reference addresses nothing, and one whose self
    reference is null. *)
Definition stray : objects :=
  {[ 1%N := Point (Cap (Some F_display_point) None None (Some 9%N)) 2 3;
     2%N := Point (Cap (Some F_display_point) None None None) 7 8 ]}.

Lemma display_point_prints_self_witness :
  observe (@display_vprint strict demo_printf (Some (cstr (lit "{}"))) [addr_of crossed 1%N] [] ∅)
  ⇓ (1%Z, [] ++ printf_point 7 8, [], ∅).
Proof.
  by apply (display_point_prints_self crossed 1%N 2%N
              (Point (Cap (Some F_display_point) None None (Some 2%N)) 2 3)
              (Point (Cap None None None None) 7 8)).
Defined.

Lemma display_point_dangling_self_witness :
  observe (@display_vprint strict demo_printf (Some (cstr (lit "{}"))) [addr_of stray 1%N] [] ∅)
  ↯ OobRead.
Proof.
  by apply (display_point_dangling_self stray 1%N 9%N
              (Point (Cap (Some F_display_point) None None (Some 9%N)) 2 3)).
Defined.

Lemma display_point_null_self_witness :
  observe (@display_vprint strict demo_printf (Some (cstr (lit "{}"))) [addr_of stray 2%N] [] ∅)
  ⇓ (0%Z, [], [], ∅).
Proof.
  by apply (display_point_null_self stray 2%N
              (Point (Cap (Some F_display_point) None None None) 7 8)).
Defined.

Lemma main_output_witness :
  @main strict demo_printf 1%N ⇓ (0%Z, lit "Point = (2,3)" ++ ["010"%char]).
Proof. by apply main_output. Defined.
